(** * Transaction tracking and trace decoding of [brownie.network.transaction]

    A shallow embedding of [src/brownie/network/transaction.py] (and of the
    [supports_traces] property of [src/brownie/network/web3.py]).

    Part I holds the definitions, in the order of the Python file; Part II
    holds the theorems.  Python objects are records, [None]-able attributes
    are [option]s, exceptions are values of [exn], and code that mutates
    objects or talks to the node runs in a state-and-exception monad whose
    state survives a raised exception, as a mutated Python object does. *)

From Stdlib Require Import ZArith Lia List Bool Ascii String.
From Stdlib.Strings Require Import Byte.
From stdpp Require Import base option list gmap strings.
Import ListNotations.

Local Open Scope Z_scope.

(* ===================================================================== *)
(** * Part I: definitions                                                 *)
(* ===================================================================== *)

(** ** Exceptions and the two monads *)

(** The text carried by an [RPCRequestError]. *)
Inductive rpc_msg :=
| MsgNode (message : string)      (* trace["error"]["message"] *)
| MsgNoTraceSupport               (* "Node client does not support `debug_traceTransaction`" *)
| MsgEndpointRequired             (* "Accessing ... requires the `debug_traceTransaction` RPC endpoint ..." *)
| MsgClientCrashed.               (* "Encountered a ... The local RPC client has likely crashed." *)

Inductive exn :=
| KeyError
| IndexError
| TypeError
| ValueError
| StopIteration
| TransactionNotFound
| NotImplementedError
| RPCRequestError (msg : rpc_msg)
| RequestsTimeout           (* [requests.exceptions.Timeout] *)
| RequestsConnectionError   (* [requests.exceptions.ConnectionError] *)
| OutOfFuel.   (* not a Python exception: a polling loop of the model ran out of fuel *)

(** A pure computation that may raise. *)
Inductive res (A : Type) :=
| Val (a : A)
| Exn (e : exn).
Arguments Val {A} a.
Arguments Exn {A} e.

Definition rbind {A B} (r : res A) (k : A -> res B) : res B :=
  match r with Val a => k a | Exn e => Exn e end.

(** A computation over a mutable state [S] that may raise; the state reached
    when the exception is raised is kept. *)
Definition M (S A : Type) : Type := S -> res A * S.

Definition ret {S A} (a : A) : M S A := fun s => (Val a, s).
Definition raise {S A} (e : exn) : M S A := fun s => (Exn e, s).
Definition bind {S A B} (m : M S A) (k : A -> M S B) : M S B :=
  fun s => match m s with
           | (Val a, s') => k a s'
           | (Exn e, s') => (Exn e, s')
           end.
Definition get {S} : M S S := fun s => (Val s, s).
Definition gets {S A} (f : S -> A) : M S A := fun s => (Val (f s), s).
Definition modify {S} (f : S -> S) : M S unit := fun s => (Val tt, f s).
Definition lift {S A} (r : res A) : M S A := fun s => (r, s).
Definition when {S} (b : bool) (m : M S unit) : M S unit := if b then m else ret tt.

(** [try: m except handles -> h]: exceptions selected by [handles] are passed
    to [h]; the state changes made by [m] before raising are kept. *)
Definition try_except {S A} (m : M S A) (handles : exn -> bool) (h : exn -> M S A) : M S A :=
  fun s => match m s with
           | (Exn e, s') => if handles e then h e s' else (Exn e, s')
           | r => r
           end.

Declare Scope monad_scope.
Delimit Scope monad_scope with monad.
Notation "'let*' x ':=' c1 'in' c2" := (bind c1 (fun x => c2))
  (at level 10, x name, c1 at level 100, c2 at level 200) : monad_scope.
Notation "'let*' ' pat ':=' c1 'in' c2" := (bind c1 (fun x => match x with pat => c2 end))
  (at level 10, pat pattern, c1 at level 100, c2 at level 200) : monad_scope.
Notation "c1 ;; c2" := (bind c1 (fun _ => c2))
  (at level 100, c2 at level 200, right associativity) : monad_scope.
Notation "'let?' x ':=' c1 'in' c2" := (rbind c1 (fun x => c2))
  (at level 10, x name, c1 at level 100, c2 at level 200) : monad_scope.
Notation "'let?' ' pat ':=' c1 'in' c2" := (rbind c1 (fun x => match x with pat => c2 end))
  (at level 10, pat pattern, c1 at level 100, c2 at level 200) : monad_scope.
Local Open Scope monad_scope.

(** ** Python sequences *)

(** [l[k]] with Python's negative indices; [IndexError] out of range. *)
Definition py_nth {A} (l : list A) (k : Z) : res A :=
  let i := if k <? 0 then Z.of_nat (length l) + k else k in
  if i <? 0 then Exn IndexError
  else match l !! Z.to_nat i with
       | Some a => Val a
       | None => Exn IndexError
       end.

(** [l[a:b]] for integers [a], [b]: negative bounds count from the end and
    both bounds are clamped to the sequence. *)
Definition py_slice {A} (l : list A) (a b : Z) : list A :=
  let n := Z.of_nat (length l) in
  let clamp k := Z.min n (Z.max 0 (if k <? 0 then n + k else k)) in
  let lo := clamp a in
  let hi := clamp b in
  take (Z.to_nat (hi - lo)) (drop (Z.to_nat lo) l).

(** [s[-n:]]: the last [n] characters (the whole string when it is shorter). *)
Definition py_suffix (n : nat) (s : string) : string :=
  let cs := list_ascii_of_string s in
  string_of_list_ascii (drop (length cs - n)%nat cs).

(** [Some rest] when [p] is a prefix of [cs], which is then [p ++ rest]. *)
Fixpoint strip_prefix (p cs : list ascii) : option (list ascii) :=
  match p, cs with
  | [], _ => Some cs
  | a :: p', c :: cs' => if Ascii.eqb a c then strip_prefix p' cs' else None
  | _ :: _, [] => None
  end.

(** [s.startswith(p)] *)
Definition startswith (p s : string) : bool :=
  match strip_prefix (list_ascii_of_string p) (list_ascii_of_string s) with
  | Some _ => true
  | None => false
  end.

(** [s.removeprefix(p)] *)
Definition removeprefix (p s : string) : string :=
  match strip_prefix (list_ascii_of_string p) (list_ascii_of_string s) with
  | Some rest => string_of_list_ascii rest
  | None => s
  end.

Definition is_sign (c : ascii) : bool :=
  (Ascii.eqb c "+" || Ascii.eqb c "-")%bool.

(** [s.zfill(width)]: zeros are put on the left, after a leading sign. *)
Definition zfill (width : nat) (s : string) : string :=
  let cs := list_ascii_of_string s in
  let pad := repeat "0"%char (width - length cs)%nat in
  string_of_list_ascii
    match cs with
    | c :: r => if is_sign c then c :: pad ++ r else pad ++ cs
    | [] => pad
    end.

(** ** Hexadecimal text and bytes *)

Definition hex_val (c : ascii) : option N :=
  let n := N_of_ascii c in
  if ((48 <=? n) && (n <=? 57))%N then Some (n - 48)%N
  else if ((97 <=? n) && (n <=? 102))%N then Some (n - 87)%N
  else if ((65 <=? n) && (n <=? 70))%N then Some (n - 55)%N
  else None.

Definition is_hex (c : ascii) : bool :=
  match hex_val c with Some _ => true | None => false end.

(** The lower-case digit of a nibble. *)
Definition hex_char (n : N) : ascii :=
  if (n <? 10)%N then ascii_of_N (48 + n) else ascii_of_N (87 + n).

Definition byte_of_nibbles (hi lo : N) : byte :=
  match Byte.of_N (16 * hi + lo) with Some b => b | None => x00 end.

(** [binascii.unhexlify]: pairs of digits to bytes; [None] stands for the
    [binascii.Error] (a [ValueError]) on an odd length or a non-digit. *)
Fixpoint unhexlify (cs : list ascii) : option (list byte) :=
  match cs with
  | [] => Some []
  | a :: b :: rest =>
      match hex_val a, hex_val b, unhexlify rest with
      | Some h, Some l, Some bs => Some (byte_of_nibbles h l :: bs)
      | _, _, _ => None
      end
  | _ :: [] => None
  end.

(** [bytes.hex()] without prefix, lower case. *)
Definition hexlify (bs : list byte) : list ascii :=
  flat_map (fun b => [hex_char (Byte.to_N b / 16); hex_char (Byte.to_N b mod 16)]) bs.

Definition strip_0x (cs : list ascii) : list ascii :=
  match cs with
  | "0"%char :: x :: r => if (Ascii.eqb x "x" || Ascii.eqb x "X")%bool then r else cs
  | _ => cs
  end.

(** [hexbytes._utils.hexstr_to_bytes]: drop a [0x]/[0X] prefix, left-pad an
    odd-length text with one zero, unhexlify. *)
Definition hexstr_to_bytes (s : string) : res (list byte) :=
  let cs := list_ascii_of_string s in
  let body := strip_0x cs in
  let padded := if Nat.odd (length cs) then "0"%char :: body else body in
  match unhexlify padded with
  | Some bs => Val bs
  | None => Exn ValueError
  end.

Fixpoint hex_digits_of (fuel : nat) (n : N) (acc : list ascii) : list ascii :=
  match fuel with
  | O => acc
  | S f =>
      let acc' := hex_char (n mod 16) :: acc in
      if (n / 16 =? 0)%N then acc' else hex_digits_of f (n / 16) acc'
  end.

(** The built-in [hex] on a non-negative integer. *)
Definition py_hex (n : N) : string :=
  string_of_list_ascii
    ("0"%char :: "x"%char :: hex_digits_of (S (N.to_nat (N.log2 n))) n []).

(** A JSON scalar of a raw trace: the clients disagree on whether numbers
    arrive as integers or as hexadecimal text. *)
Inductive jval :=
| JInt (z : Z)
| JStr (s : string).

Definition is_str (v : jval) : bool :=
  match v with JStr _ => true | JInt _ => false end.

(** [HexBytes(v)] ([hexbytes._utils.to_bytes] on [str] and [int]). *)
Definition HexBytes (v : jval) : res (list byte) :=
  match v with
  | JStr s => hexstr_to_bytes s
  | JInt z => if z <? 0 then Exn ValueError else hexstr_to_bytes (py_hex (Z.to_N z))
  end.

(** [HexBytes.hex()]: hexbytes before 1.0 prefixes [0x], later versions do
    not; [legacy] selects the older behaviour. *)
Definition HexBytes_hex (legacy : bool) (bs : list byte) : string :=
  string_of_list_ascii
    (if legacy then "0"%char :: "x"%char :: hexlify bs else hexlify bs).

(** [hexbytes_to_hexstring]: always prefixed. *)
Definition hexbytes_to_hexstring (bs : list byte) : string :=
  string_of_list_ascii ("0"%char :: "x"%char :: hexlify bs).

Fixpoint hex_value (acc : N) (cs : list ascii) : option N :=
  match cs with
  | [] => Some acc
  | c :: r => match hex_val c with
              | Some d => hex_value (16 * acc + d) r
              | None => None
              end
  end.

(** [int(s, 16)] on text made of an optional sign, an optional [0x]/[0X]
    and at least one digit.  Python also accepts surrounding blanks and
    underscores between digits; the model answers [ValueError] there. *)
Definition py_int16 (s : string) : res Z :=
  let cs := list_ascii_of_string s in
  let '(neg, cs1) :=
    match cs with
    | c :: r => if Ascii.eqb c "-" then (true, r)
                else if Ascii.eqb c "+" then (false, r) else (false, cs)
    | [] => (false, cs)
    end in
  match strip_0x cs1 with
  | [] => Exn ValueError
  | ds => match hex_value 0 ds with
          | Some n => Val (if neg then - Z.of_N n else Z.of_N n)
          | None => Exn ValueError
          end
  end.

(** [int(v, 16)]: an explicit base needs text. *)
Definition int16 (v : jval) : res Z :=
  match v with
  | JStr s => py_int16 s
  | JInt _ => Exn TypeError
  end.

Definition be_unsigned (bs : list byte) : Z :=
  fold_left (fun acc b => 256 * acc + Z.of_N (Byte.to_N b)) bs 0.

(** [int.from_bytes(bs, "big", signed=True)]: two's complement on
    [8 * len(bs)] bits. *)
Definition from_bytes_big_signed (bs : list byte) : Z :=
  let u := be_unsigned bs in
  let bits := 8 * Z.of_nat (length bs) in
  if (0 <? bits) && (2 ^ (bits - 1) <=? u) then u - 2 ^ bits else u.

(** ** The raw trace and its normalisation ([_get_trace], lines 686-719) *)

(** One entry of [structLogs] as the node sends it.  [gas], [gasCost] and
    [pc] are integers or hexadecimal text, a stack entry is text (the code
    still tests it with [isinstance]). *)
Record raw_step := {
  r_pc : jval;
  r_op : string;
  r_depth : Z;
  r_gas : jval;
  r_gasCost : jval;
  r_stack : list jval;
  r_memory : list string;
}.

Definition set_r_stack (v : list jval) (st : raw_step) : raw_step :=
  {| r_pc := r_pc st; r_op := r_op st; r_depth := r_depth st; r_gas := r_gas st;
     r_gasCost := r_gasCost st; r_stack := v; r_memory := r_memory st |}.
Definition set_r_gas (v : jval) (st : raw_step) : raw_step :=
  {| r_pc := r_pc st; r_op := r_op st; r_depth := r_depth st; r_gas := v;
     r_gasCost := r_gasCost st; r_stack := r_stack st; r_memory := r_memory st |}.
Definition set_r_gasCost (v : jval) (st : raw_step) : raw_step :=
  {| r_pc := r_pc st; r_op := r_op st; r_depth := r_depth st; r_gas := r_gas st;
     r_gasCost := v; r_stack := r_stack st; r_memory := r_memory st |}.
Definition set_r_pc (v : jval) (st : raw_step) : raw_step :=
  {| r_pc := v; r_op := r_op st; r_depth := r_depth st; r_gas := r_gas st;
     r_gasCost := r_gasCost st; r_stack := r_stack st; r_memory := r_memory st |}.

(** The first loop: steps with an empty stack are skipped, a first entry that
    is not text ends the search, one that starts with [0x] sets the flag; a
    text entry without the prefix lets the search go on to the next step. *)
Fixpoint detect_fix_stack (trace : list raw_step) : bool :=
  match trace with
  | [] => false
  | st :: rest =>
      match r_stack st with
      | [] => detect_fix_stack rest
      | JInt _ :: _ => false
      | JStr check :: _ => if startswith "0x" check then true else detect_fix_stack rest
      end
  end.

(** [[f(x) for x in l]]: the first exception ends the comprehension. *)
Fixpoint map_res {A B} (f : A -> res B) (l : list A) : res (list B) :=
  match l with
  | [] => Val []
  | x :: r => let? y := f x in let? ys := map_res f r in Val (y :: ys)
  end.

(** [HexBytes(s).hex().removeprefix("0x").zfill(64)] *)
Definition fix_stack_entry (legacy : bool) (s : jval) : res jval :=
  let? bs := HexBytes s in
  Val (JStr (zfill 64 (removeprefix "0x" (HexBytes_hex legacy bs)))).

(** The body of the second loop, on one step (a dict mutated in place). *)
Definition fix_step (legacy fix_stack fix_gas : bool) : M raw_step unit :=
  when fix_stack
    (let* st := get in
     let* stack' := lift (map_res (fix_stack_entry legacy) (r_stack st)) in
     modify (set_r_stack stack')) ;;
  when fix_gas
    (let* st := get in
     let* g := lift (int16 (r_gas st)) in
     modify (set_r_gas (JInt g)) ;;
     when (is_str (r_gasCost st))
       (let* bs := lift (HexBytes (r_gasCost st)) in
        modify (set_r_gasCost (JInt (from_bytes_big_signed bs)))) ;;
     when (is_str (r_pc st))
       (let* p := lift (int16 (r_pc st)) in
        modify (set_r_pc (JInt p)))).

(** [for x in l: body(x)] where [body] mutates the element: elements after
    the one that raised are left as they were. *)
Fixpoint for_each {A} (body : M A unit) (l : list A) : res unit * list A :=
  match l with
  | [] => (Val tt, [])
  | x :: r =>
      match body x with
      | (Val _, x') => let '(o, r') := for_each body r in (o, x' :: r')
      | (Exn e, x') => (Exn e, x' :: r)
      end
  end.

(** The format-fixing pass of [_get_trace] on the list [trace]. *)
Definition fix_trace (legacy : bool) : M (list raw_step) unit :=
  fun trace =>
    let fix_stack := detect_fix_stack trace in
    match trace with
    | [] => (Exn IndexError, trace)
    | first :: _ =>
        let fix_gas := is_str (r_gas first) in
        if (fix_stack || fix_gas)%bool
        then for_each (fix_step legacy fix_stack fix_gas) trace
        else (Val tt, trace)
    end.

(** *** The two stack formats and the two number formats *)

Definition is_int (v : jval) : bool :=
  match v with JInt _ => true | JStr _ => false end.

Definition hex_text (cs : list ascii) : bool := forallb is_hex cs.

(** Unprefixed, fixed width: exactly 64 hexadecimal characters. *)
Definition canonical_word (v : jval) : bool :=
  match v with
  | JStr s => let cs := list_ascii_of_string s in
              (length cs =? 64)%nat && hex_text cs
  | JInt _ => false
  end.

(** [0x]-prefixed, variable width: at most 64 hexadecimal characters. *)
Definition prefixed_word (v : jval) : bool :=
  match v with
  | JStr s =>
      match list_ascii_of_string s with
      | "0"%char :: "x"%char :: ds => (length ds <=? 64)%nat && hex_text ds
      | _ => false
      end
  | JInt _ => false
  end.

(** Hexadecimal text of a number: at least one digit, with or without [0x]. *)
Definition hex_number (v : jval) : bool :=
  match v with
  | JStr s =>
      match strip_0x (list_ascii_of_string s) with
      | [] => false
      | ds => hex_text ds
      end
  | JInt _ => false
  end.

Definition stack_format_prefixed (trace : list raw_step) : bool :=
  forallb (fun st => forallb prefixed_word (r_stack st)) trace.

Definition stack_format_fixed (trace : list raw_step) : bool :=
  forallb (fun st => forallb canonical_word (r_stack st)) trace.

(** Numbers as text: [gas] is text in every step; [gasCost] and [pc] are
    text or integers (the code tests each of them). *)
Definition numeric_format_hex (trace : list raw_step) : bool :=
  forallb (fun st => hex_number (r_gas st)
                     && (is_int (r_gasCost st) || hex_number (r_gasCost st))
                     && (is_int (r_pc st) || hex_number (r_pc st))) trace.

Definition numeric_format_native (trace : list raw_step) : bool :=
  forallb (fun st => is_int (r_gas st) && is_int (r_gasCost st) && is_int (r_pc st)) trace.

(** What a normalised step looks like. *)
Definition normalized_step (st : raw_step) : bool :=
  forallb canonical_word (r_stack st)
  && is_int (r_gas st) && is_int (r_gasCost st) && is_int (r_pc st).

(** *** What normalisation is meant to compute, field by field *)

(** The integer a numeric field stands for: itself, or [int(text, 16)]. *)
Definition spec_number (v : jval) : res Z :=
  match v with
  | JInt z => Val z
  | JStr _ => int16 v
  end.

(** The digits of a number written as hexadecimal text, without [0x]. *)
Definition hex_digits (v : jval) : list ascii :=
  match v with
  | JStr s => strip_0x (list_ascii_of_string s)
  | JInt _ => []
  end.

(** [c] is the signed reading, on [n] bytes, of the unsigned number [u]:
    the one integer of the signed range of [n] bytes that is [u] modulo
    [2 ^ (8 * n)]. *)
Definition signed_on (n : nat) (u c : Z) : Prop :=
  let m := 2 ^ (8 * Z.of_nat n) in
  - m <= 2 * c < m /\ c mod m = u.

(** The integer a gas cost stands for: itself, or, for text, the number its
    digits write, read as signed on the bytes these digits fill (two
    digits a byte, an odd count rounded up). *)
Definition gas_cost_reads (v : jval) (c : Z) : Prop :=
  match v with
  | JInt z => c = z
  | JStr _ =>
      exists u, int16 v = Val u
                /\ signed_on (Nat.div2 (S (length (hex_digits v)))) u c
  end.

(** [st'] is the normal form of [st]. *)
Definition normalizes_to (st st' : raw_step) : Prop :=
  r_op st' = r_op st /\ r_depth st' = r_depth st /\ r_memory st' = r_memory st
  /\ length (r_stack st') = length (r_stack st)
  /\ forallb canonical_word (r_stack st') = true
  /\ (exists g, spec_number (r_gas st) = Val g /\ r_gas st' = JInt g)
  /\ (exists c, gas_cost_reads (r_gasCost st) c /\ r_gasCost st' = JInt c)
  /\ (exists p, spec_number (r_pc st) = Val p /\ r_pc st' = JInt p).

(** What one step must look like for the pass, run with the flags
    [fix_stack] and [fix_gas], to normalise it. *)
Definition step_pre (fix_stack fix_gas : bool) (st : raw_step) : Prop :=
  forallb (fun v => if fix_stack then prefixed_word v || canonical_word v
                    else canonical_word v) (r_stack st) = true
  /\ (if fix_gas
      then hex_number (r_gas st) = true
           /\ (is_int (r_gasCost st) || hex_number (r_gasCost st))%bool = true
           /\ (is_int (r_pc st) || hex_number (r_pc st))%bool = true
      else is_int (r_gas st) = true /\ is_int (r_gasCost st) = true
           /\ is_int (r_pc st) = true).

(** ** The data model *)

(** [Status(IntEnum)] *)
Inductive Status := Dropped | Pending | Reverted | Confirmed.

Definition Status_value (s : Status) : Z :=
  match s with Dropped => -2 | Pending => -1 | Reverted => 0 | Confirmed => 1 end.

(** [Status(z)]: [ValueError] when [z] is not a member's value. *)
Definition Status_of (z : Z) : res Status :=
  if z =? -2 then Val Dropped
  else if z =? -1 then Val Pending
  else if z =? 0 then Val Reverted
  else if z =? 1 then Val Confirmed
  else Exn ValueError.

(** Truth value of a status ([if self.status]): its integer is not zero. *)
Definition status_true (s : Status) : bool := negb (Status_value s =? 0).

(** Decoded ABI values are kept opaque: the decoders are parameters. *)
Inductive pyval :=
| PNone
| PVal (repr : string)
| PSingleton (item : pyval).          (* the 1-tuple [(value,)] *)

(** *** Trace steps *)

Record source_loc := { filename : string; offset : Z * Z }.

(** The keys [_expand_trace] adds to a step; [source=False] is [None]. *)
Record annotation := {
  address : string;
  contractName : option string;
  fn : string;
  jumpDepth : Z;
  source : option source_loc;
}.

(** A normalised step: the numeric fields are integers and the stack holds
    text.  [s_ann] is [None] until [_expand_trace] has visited the step. *)
Record step := {
  s_pc : Z;
  s_op : string;
  s_depth : Z;
  s_gas : Z;
  s_gasCost : Z;
  s_stack : list string;
  s_memory : list string;
  s_ann : option annotation;
}.
Definition set_s_depth (v : Z) (r : step) : step :=
  {| s_pc := s_pc r; s_op := s_op r; s_depth := v; s_gas := s_gas r;
     s_gasCost := s_gasCost r; s_stack := s_stack r; s_memory := s_memory r;
     s_ann := s_ann r |}.
Definition set_s_gasCost (v : Z) (r : step) : step :=
  {| s_pc := s_pc r; s_op := s_op r; s_depth := s_depth r; s_gas := s_gas r;
     s_gasCost := v; s_stack := s_stack r; s_memory := s_memory r; s_ann := s_ann r |}.
Definition set_s_ann (v : option annotation) (r : step) : step :=
  {| s_pc := s_pc r; s_op := s_op r; s_depth := s_depth r; s_gas := s_gas r;
     s_gasCost := s_gasCost r; s_stack := s_stack r; s_memory := s_memory r;
     s_ann := v |}.

Definition jval_int (v : jval) : res Z :=
  match v with JInt z => Val z | JStr _ => Exn TypeError end.
Definition jval_str (v : jval) : res string :=
  match v with JStr s => Val s | JInt _ => Exn TypeError end.

(** The typed view of a raw step; [TypeError] where later arithmetic on the
    field would fail because normalisation left text in it. *)
Definition typed_step (st : raw_step) : res step :=
  let? pc := jval_int (r_pc st) in
  let? gas := jval_int (r_gas st) in
  let? cost := jval_int (r_gasCost st) in
  let? stack := map_res jval_str (r_stack st) in
  Val {| s_pc := pc; s_op := r_op st; s_depth := r_depth st; s_gas := gas;
         s_gasCost := cost; s_stack := stack; s_memory := r_memory st; s_ann := None |}.

(** *** Subcalls and internal transfers *)

(** A subcall dict; an absent key is [None] (or [false]). *)
Record subcall := {
  sc_from : string;
  sc_to : string;
  sc_op : string;
  sc_value : option Z;
  sc_function : option string;
  sc_inputs : option (list (string * pyval));
  sc_calldata : option string;
  sc_returndata : option string;
  sc_return_value : option pyval;
  sc_selfdestruct : bool;
  sc_revert_msg : option string;
}.
Definition set_sc_from (v : string) (r : subcall) : subcall :=
  {| sc_from := v; sc_to := sc_to r; sc_op := sc_op r; sc_value := sc_value r;
     sc_function := sc_function r; sc_inputs := sc_inputs r;
     sc_calldata := sc_calldata r; sc_returndata := sc_returndata r;
     sc_return_value := sc_return_value r; sc_selfdestruct := sc_selfdestruct r;
     sc_revert_msg := sc_revert_msg r |}.
Definition set_sc_value (v : option Z) (r : subcall) : subcall :=
  {| sc_from := sc_from r; sc_to := sc_to r; sc_op := sc_op r; sc_value := v;
     sc_function := sc_function r; sc_inputs := sc_inputs r;
     sc_calldata := sc_calldata r; sc_returndata := sc_returndata r;
     sc_return_value := sc_return_value r; sc_selfdestruct := sc_selfdestruct r;
     sc_revert_msg := sc_revert_msg r |}.
Definition set_sc_function (v : option string) (r : subcall) : subcall :=
  {| sc_from := sc_from r; sc_to := sc_to r; sc_op := sc_op r; sc_value := sc_value r;
     sc_function := v; sc_inputs := sc_inputs r; sc_calldata := sc_calldata r;
     sc_returndata := sc_returndata r; sc_return_value := sc_return_value r;
     sc_selfdestruct := sc_selfdestruct r; sc_revert_msg := sc_revert_msg r |}.
Definition set_sc_inputs (v : option (list (string * pyval))) (r : subcall) : subcall :=
  {| sc_from := sc_from r; sc_to := sc_to r; sc_op := sc_op r; sc_value := sc_value r;
     sc_function := sc_function r; sc_inputs := v; sc_calldata := sc_calldata r;
     sc_returndata := sc_returndata r; sc_return_value := sc_return_value r;
     sc_selfdestruct := sc_selfdestruct r; sc_revert_msg := sc_revert_msg r |}.
Definition set_sc_calldata (v : option string) (r : subcall) : subcall :=
  {| sc_from := sc_from r; sc_to := sc_to r; sc_op := sc_op r; sc_value := sc_value r;
     sc_function := sc_function r; sc_inputs := sc_inputs r; sc_calldata := v;
     sc_returndata := sc_returndata r; sc_return_value := sc_return_value r;
     sc_selfdestruct := sc_selfdestruct r; sc_revert_msg := sc_revert_msg r |}.
Definition set_sc_returndata (v : option string) (r : subcall) : subcall :=
  {| sc_from := sc_from r; sc_to := sc_to r; sc_op := sc_op r; sc_value := sc_value r;
     sc_function := sc_function r; sc_inputs := sc_inputs r;
     sc_calldata := sc_calldata r; sc_returndata := v;
     sc_return_value := sc_return_value r; sc_selfdestruct := sc_selfdestruct r;
     sc_revert_msg := sc_revert_msg r |}.
Definition set_sc_return_value (v : option pyval) (r : subcall) : subcall :=
  {| sc_from := sc_from r; sc_to := sc_to r; sc_op := sc_op r; sc_value := sc_value r;
     sc_function := sc_function r; sc_inputs := sc_inputs r;
     sc_calldata := sc_calldata r; sc_returndata := sc_returndata r;
     sc_return_value := v; sc_selfdestruct := sc_selfdestruct r;
     sc_revert_msg := sc_revert_msg r |}.
Definition set_sc_selfdestruct (v : bool) (r : subcall) : subcall :=
  {| sc_from := sc_from r; sc_to := sc_to r; sc_op := sc_op r; sc_value := sc_value r;
     sc_function := sc_function r; sc_inputs := sc_inputs r;
     sc_calldata := sc_calldata r; sc_returndata := sc_returndata r;
     sc_return_value := sc_return_value r; sc_selfdestruct := v;
     sc_revert_msg := sc_revert_msg r |}.
Definition set_sc_revert_msg (v : option string) (r : subcall) : subcall :=
  {| sc_from := sc_from r; sc_to := sc_to r; sc_op := sc_op r; sc_value := sc_value r;
     sc_function := sc_function r; sc_inputs := sc_inputs r;
     sc_calldata := sc_calldata r; sc_returndata := sc_returndata r;
     sc_return_value := sc_return_value r; sc_selfdestruct := sc_selfdestruct r;
     sc_revert_msg := v |}.

Record transfer := { tr_from : string; tr_to : string; tr_value : Z }.

(** *** The Contract Registry ([brownie.network.state], [brownie.project.build]) *)

(** One entry of a program-counter map; an absent key is [None]. *)
Record pc_entry := {
  pe_op : string;
  pe_path : option string;
  pe_offset : Z * Z;
  pe_fn : option string;
  pe_jump : option string;
  pe_dev : option string;
  pe_statement : option Z;
  pe_branch : option Z;
}.

(** A contract method object: [None] from a decoder stands for any
    exception it raises. *)
Record fn_object := {
  fn_input_sig : string;
  fn_outputs : nat;                                     (* len(fn.abi["outputs"]) *)
  fn_decode_input : list byte -> option (list (string * pyval));
  fn_decode_output : list byte -> option pyval;
}.

Record contract := {
  ct_name : string;                                     (* contract._name *)
  get_method : string -> option string;
  get_method_object : string -> option fn_object;
  allSourcePaths : option (string -> option string);    (* _build.get("allSourcePaths") *)
  pcMap : option (Z -> option pc_entry);                (* _build.get("pcMap") *)
  in_project : bool;                                    (* isinstance(_project, Project) *)
  language : option string;                             (* _build.get("language") *)
}.

(** What the decoder takes from outside this file: the registry lookup, the
    address and ABI helpers, and the coverage store. *)
Record registry := {
  _find_contract : string -> option contract;           (* state._find_contract *)
  EthAddress : string -> res string;                    (* brownie.convert.EthAddress *)
  decode_string : list byte -> option string;           (* eth_abi.decode(["string"], data)[0] *)
}.

(** One entry of [last_map], as [_get_last_map] builds it. *)
Record context := {
  c_address : string;
  c_jumpDepth : Z;
  c_name : option string;
  c_coverage : bool;
  c_contract : option contract;
  c_function : option fn_object;
  c_internal_calls : list string;
  c_path_map : option (string -> option string);
  c_pc_map : option (Z -> option pc_entry);
  c_active_branches : option (gset Z);
}.
Definition set_c_jumpDepth (v : Z) (r : context) : context :=
  {| c_address := c_address r; c_jumpDepth := v; c_name := c_name r;
     c_coverage := c_coverage r; c_contract := c_contract r;
     c_function := c_function r; c_internal_calls := c_internal_calls r;
     c_path_map := c_path_map r; c_pc_map := c_pc_map r;
     c_active_branches := c_active_branches r |}.
Definition set_c_internal_calls (v : list string) (r : context) : context :=
  {| c_address := c_address r; c_jumpDepth := c_jumpDepth r; c_name := c_name r;
     c_coverage := c_coverage r; c_contract := c_contract r;
     c_function := c_function r; c_internal_calls := v; c_path_map := c_path_map r;
     c_pc_map := c_pc_map r; c_active_branches := c_active_branches r |}.
Definition set_c_active_branches (v : option (gset Z)) (r : context) : context :=
  {| c_address := c_address r; c_jumpDepth := c_jumpDepth r; c_name := c_name r;
     c_coverage := c_coverage r; c_contract := c_contract r;
     c_function := c_function r; c_internal_calls := c_internal_calls r;
     c_path_map := c_path_map r; c_pc_map := c_pc_map r; c_active_branches := v |}.

(** [[set(), set(), set()]]: statements, branches false, branches true. *)
Definition coverage_sets : Type := gset Z * gset Z * gset Z.

(** The objects [_expand_trace] mutates while it walks the trace. *)
Record xstate := {
  x_trace : list step;
  x_last_map : gmap Z context;
  x_coverage_eval : gmap (option string) (gmap string coverage_sets);
  x_new_contracts : list string;
  x_internal_transfers : list transfer;
  x_subcalls : list subcall;
}.
Definition set_x_trace (v : list step) (r : xstate) : xstate :=
  {| x_trace := v; x_last_map := x_last_map r; x_coverage_eval := x_coverage_eval r;
     x_new_contracts := x_new_contracts r;
     x_internal_transfers := x_internal_transfers r; x_subcalls := x_subcalls r |}.
Definition set_x_last_map (v : gmap Z context) (r : xstate) : xstate :=
  {| x_trace := x_trace r; x_last_map := v; x_coverage_eval := x_coverage_eval r;
     x_new_contracts := x_new_contracts r;
     x_internal_transfers := x_internal_transfers r; x_subcalls := x_subcalls r |}.
Definition set_x_coverage_eval (v : gmap (option string) (gmap string coverage_sets)) (r : xstate) : xstate :=
  {| x_trace := x_trace r; x_last_map := x_last_map r; x_coverage_eval := v;
     x_new_contracts := x_new_contracts r;
     x_internal_transfers := x_internal_transfers r; x_subcalls := x_subcalls r |}.
Definition set_x_new_contracts (v : list string) (r : xstate) : xstate :=
  {| x_trace := x_trace r; x_last_map := x_last_map r;
     x_coverage_eval := x_coverage_eval r; x_new_contracts := v;
     x_internal_transfers := x_internal_transfers r; x_subcalls := x_subcalls r |}.
Definition set_x_internal_transfers (v : list transfer) (r : xstate) : xstate :=
  {| x_trace := x_trace r; x_last_map := x_last_map r;
     x_coverage_eval := x_coverage_eval r; x_new_contracts := x_new_contracts r;
     x_internal_transfers := v; x_subcalls := x_subcalls r |}.
Definition set_x_subcalls (v : list subcall) (r : xstate) : xstate :=
  {| x_trace := x_trace r; x_last_map := x_last_map r;
     x_coverage_eval := x_coverage_eval r; x_new_contracts := x_new_contracts r;
     x_internal_transfers := x_internal_transfers r; x_subcalls := v |}.

(** *** The transaction record *)

(** The attributes computed on demand from the trace (the [_]-prefixed
    attributes set to [None] by [__init__], with [_call_cost] and
    [_trace_exc]). *)
Record lazy_fields := {
  _call_cost : Z;
  _trace_exc : option exn;
  _trace_origin : option string;
  _raw_trace : option (list raw_step);
  _trace : option (list step);
  _events : option (list pyval);
  _return_value : option pyval;
  _revert_msg : option string;
  _dev_revert_msg : option string;
  _modified_state : option bool;
  _new_contracts : option (list string);
  _internal_transfers : option (list transfer);
  _subcalls : option (list subcall);
}.
Definition set__call_cost (v : Z) (r : lazy_fields) : lazy_fields :=
  {| _call_cost := v; _trace_exc := _trace_exc r; _trace_origin := _trace_origin r;
     _raw_trace := _raw_trace r; _trace := _trace r; _events := _events r;
     _return_value := _return_value r; _revert_msg := _revert_msg r;
     _dev_revert_msg := _dev_revert_msg r; _modified_state := _modified_state r;
     _new_contracts := _new_contracts r; _internal_transfers := _internal_transfers r;
     _subcalls := _subcalls r |}.
Definition set__trace_exc (v : option exn) (r : lazy_fields) : lazy_fields :=
  {| _call_cost := _call_cost r; _trace_exc := v; _trace_origin := _trace_origin r;
     _raw_trace := _raw_trace r; _trace := _trace r; _events := _events r;
     _return_value := _return_value r; _revert_msg := _revert_msg r;
     _dev_revert_msg := _dev_revert_msg r; _modified_state := _modified_state r;
     _new_contracts := _new_contracts r; _internal_transfers := _internal_transfers r;
     _subcalls := _subcalls r |}.
Definition set__trace_origin (v : option string) (r : lazy_fields) : lazy_fields :=
  {| _call_cost := _call_cost r; _trace_exc := _trace_exc r; _trace_origin := v;
     _raw_trace := _raw_trace r; _trace := _trace r; _events := _events r;
     _return_value := _return_value r; _revert_msg := _revert_msg r;
     _dev_revert_msg := _dev_revert_msg r; _modified_state := _modified_state r;
     _new_contracts := _new_contracts r; _internal_transfers := _internal_transfers r;
     _subcalls := _subcalls r |}.
Definition set__raw_trace (v : option (list raw_step)) (r : lazy_fields) : lazy_fields :=
  {| _call_cost := _call_cost r; _trace_exc := _trace_exc r;
     _trace_origin := _trace_origin r; _raw_trace := v; _trace := _trace r;
     _events := _events r; _return_value := _return_value r;
     _revert_msg := _revert_msg r; _dev_revert_msg := _dev_revert_msg r;
     _modified_state := _modified_state r; _new_contracts := _new_contracts r;
     _internal_transfers := _internal_transfers r; _subcalls := _subcalls r |}.
Definition set__trace (v : option (list step)) (r : lazy_fields) : lazy_fields :=
  {| _call_cost := _call_cost r; _trace_exc := _trace_exc r;
     _trace_origin := _trace_origin r; _raw_trace := _raw_trace r; _trace := v;
     _events := _events r; _return_value := _return_value r;
     _revert_msg := _revert_msg r; _dev_revert_msg := _dev_revert_msg r;
     _modified_state := _modified_state r; _new_contracts := _new_contracts r;
     _internal_transfers := _internal_transfers r; _subcalls := _subcalls r |}.
Definition set__events (v : option (list pyval)) (r : lazy_fields) : lazy_fields :=
  {| _call_cost := _call_cost r; _trace_exc := _trace_exc r;
     _trace_origin := _trace_origin r; _raw_trace := _raw_trace r; _trace := _trace r;
     _events := v; _return_value := _return_value r; _revert_msg := _revert_msg r;
     _dev_revert_msg := _dev_revert_msg r; _modified_state := _modified_state r;
     _new_contracts := _new_contracts r; _internal_transfers := _internal_transfers r;
     _subcalls := _subcalls r |}.
Definition set__return_value (v : option pyval) (r : lazy_fields) : lazy_fields :=
  {| _call_cost := _call_cost r; _trace_exc := _trace_exc r;
     _trace_origin := _trace_origin r; _raw_trace := _raw_trace r; _trace := _trace r;
     _events := _events r; _return_value := v; _revert_msg := _revert_msg r;
     _dev_revert_msg := _dev_revert_msg r; _modified_state := _modified_state r;
     _new_contracts := _new_contracts r; _internal_transfers := _internal_transfers r;
     _subcalls := _subcalls r |}.
Definition set__revert_msg (v : option string) (r : lazy_fields) : lazy_fields :=
  {| _call_cost := _call_cost r; _trace_exc := _trace_exc r;
     _trace_origin := _trace_origin r; _raw_trace := _raw_trace r; _trace := _trace r;
     _events := _events r; _return_value := _return_value r; _revert_msg := v;
     _dev_revert_msg := _dev_revert_msg r; _modified_state := _modified_state r;
     _new_contracts := _new_contracts r; _internal_transfers := _internal_transfers r;
     _subcalls := _subcalls r |}.
Definition set__dev_revert_msg (v : option string) (r : lazy_fields) : lazy_fields :=
  {| _call_cost := _call_cost r; _trace_exc := _trace_exc r;
     _trace_origin := _trace_origin r; _raw_trace := _raw_trace r; _trace := _trace r;
     _events := _events r; _return_value := _return_value r;
     _revert_msg := _revert_msg r; _dev_revert_msg := v;
     _modified_state := _modified_state r; _new_contracts := _new_contracts r;
     _internal_transfers := _internal_transfers r; _subcalls := _subcalls r |}.
Definition set__modified_state (v : option bool) (r : lazy_fields) : lazy_fields :=
  {| _call_cost := _call_cost r; _trace_exc := _trace_exc r;
     _trace_origin := _trace_origin r; _raw_trace := _raw_trace r; _trace := _trace r;
     _events := _events r; _return_value := _return_value r;
     _revert_msg := _revert_msg r; _dev_revert_msg := _dev_revert_msg r;
     _modified_state := v; _new_contracts := _new_contracts r;
     _internal_transfers := _internal_transfers r; _subcalls := _subcalls r |}.
Definition set__new_contracts (v : option (list string)) (r : lazy_fields) : lazy_fields :=
  {| _call_cost := _call_cost r; _trace_exc := _trace_exc r;
     _trace_origin := _trace_origin r; _raw_trace := _raw_trace r; _trace := _trace r;
     _events := _events r; _return_value := _return_value r;
     _revert_msg := _revert_msg r; _dev_revert_msg := _dev_revert_msg r;
     _modified_state := _modified_state r; _new_contracts := v;
     _internal_transfers := _internal_transfers r; _subcalls := _subcalls r |}.
Definition set__internal_transfers (v : option (list transfer)) (r : lazy_fields) : lazy_fields :=
  {| _call_cost := _call_cost r; _trace_exc := _trace_exc r;
     _trace_origin := _trace_origin r; _raw_trace := _raw_trace r; _trace := _trace r;
     _events := _events r; _return_value := _return_value r;
     _revert_msg := _revert_msg r; _dev_revert_msg := _dev_revert_msg r;
     _modified_state := _modified_state r; _new_contracts := _new_contracts r;
     _internal_transfers := v; _subcalls := _subcalls r |}.
Definition set__subcalls (v : option (list subcall)) (r : lazy_fields) : lazy_fields :=
  {| _call_cost := _call_cost r; _trace_exc := _trace_exc r;
     _trace_origin := _trace_origin r; _raw_trace := _raw_trace r; _trace := _trace r;
     _events := _events r; _return_value := _return_value r;
     _revert_msg := _revert_msg r; _dev_revert_msg := _dev_revert_msg r;
     _modified_state := _modified_state r; _new_contracts := _new_contracts r;
     _internal_transfers := _internal_transfers r; _subcalls := v |}.

(** A [TransactionReceipt] object: what is known from the pending
    transaction, what the confirmation watcher sets, and the lazy
    attributes. *)
Record TransactionReceipt := {
  txid : string;
  sender : string;
  receiver : option string;
  nonce : option Z;
  input : string;
  status : Status;
  _confirmed : bool;
  _silent : bool;
  block_number : option Z;
  txindex : option Z;
  gas_used : option Z;
  contract_address : option string;
  contract_name : option string;
  fn_name : option string;
  lazy : lazy_fields;
}.
Definition set_status (v : Status) (r : TransactionReceipt) : TransactionReceipt :=
  {| txid := txid r; sender := sender r; receiver := receiver r; nonce := nonce r;
     input := input r; status := v; _confirmed := _confirmed r; _silent := _silent r;
     block_number := block_number r; txindex := txindex r; gas_used := gas_used r;
     contract_address := contract_address r;
     contract_name := contract_name r; fn_name := fn_name r; lazy := lazy r |}.
Definition set__confirmed (v : bool) (r : TransactionReceipt) : TransactionReceipt :=
  {| txid := txid r; sender := sender r; receiver := receiver r; nonce := nonce r;
     input := input r; status := status r; _confirmed := v; _silent := _silent r;
     block_number := block_number r; txindex := txindex r; gas_used := gas_used r;
     contract_address := contract_address r;
     contract_name := contract_name r; fn_name := fn_name r; lazy := lazy r |}.
Definition set__silent (v : bool) (r : TransactionReceipt) : TransactionReceipt :=
  {| txid := txid r; sender := sender r; receiver := receiver r; nonce := nonce r;
     input := input r; status := status r; _confirmed := _confirmed r; _silent := v;
     block_number := block_number r; txindex := txindex r; gas_used := gas_used r;
     contract_address := contract_address r;
     contract_name := contract_name r; fn_name := fn_name r; lazy := lazy r |}.
Definition set_block_number (v : option Z) (r : TransactionReceipt) : TransactionReceipt :=
  {| txid := txid r; sender := sender r; receiver := receiver r; nonce := nonce r;
     input := input r; status := status r; _confirmed := _confirmed r;
     _silent := _silent r; block_number := v; txindex := txindex r;
     gas_used := gas_used r; contract_address := contract_address r;
     contract_name := contract_name r; fn_name := fn_name r; lazy := lazy r |}.
Definition set_txindex (v : option Z) (r : TransactionReceipt) : TransactionReceipt :=
  {| txid := txid r; sender := sender r; receiver := receiver r; nonce := nonce r;
     input := input r; status := status r; _confirmed := _confirmed r;
     _silent := _silent r; block_number := block_number r; txindex := v;
     gas_used := gas_used r; contract_address := contract_address r;
     contract_name := contract_name r; fn_name := fn_name r; lazy := lazy r |}.
Definition set_gas_used (v : option Z) (r : TransactionReceipt) : TransactionReceipt :=
  {| txid := txid r; sender := sender r; receiver := receiver r; nonce := nonce r;
     input := input r; status := status r; _confirmed := _confirmed r;
     _silent := _silent r; block_number := block_number r; txindex := txindex r;
     gas_used := v; contract_address := contract_address r;
     contract_name := contract_name r; fn_name := fn_name r; lazy := lazy r |}.
Definition set_contract_address (v : option string) (r : TransactionReceipt) : TransactionReceipt :=
  {| txid := txid r; sender := sender r; receiver := receiver r; nonce := nonce r;
     input := input r; status := status r; _confirmed := _confirmed r;
     _silent := _silent r; block_number := block_number r; txindex := txindex r;
     gas_used := gas_used r; contract_address := v;
     contract_name := contract_name r; fn_name := fn_name r; lazy := lazy r |}.
Definition set_contract_name (v : option string) (r : TransactionReceipt) : TransactionReceipt :=
  {| txid := txid r; sender := sender r; receiver := receiver r; nonce := nonce r;
     input := input r; status := status r; _confirmed := _confirmed r;
     _silent := _silent r; block_number := block_number r; txindex := txindex r;
     gas_used := gas_used r; contract_address := contract_address r;
     contract_name := v; fn_name := fn_name r; lazy := lazy r |}.
Definition set_fn_name (v : option string) (r : TransactionReceipt) : TransactionReceipt :=
  {| txid := txid r; sender := sender r; receiver := receiver r; nonce := nonce r;
     input := input r; status := status r; _confirmed := _confirmed r;
     _silent := _silent r; block_number := block_number r; txindex := txindex r;
     gas_used := gas_used r; contract_address := contract_address r;
     contract_name := contract_name r; fn_name := v; lazy := lazy r |}.
Definition set_lazy (v : lazy_fields) (r : TransactionReceipt) : TransactionReceipt :=
  {| txid := txid r; sender := sender r; receiver := receiver r; nonce := nonce r;
     input := input r; status := status r; _confirmed := _confirmed r;
     _silent := _silent r; block_number := block_number r; txindex := txindex r;
     gas_used := gas_used r; contract_address := contract_address r;
     contract_name := contract_name r; fn_name := fn_name r; lazy := v |}.

(** An update of the lazy attributes of a record. *)
Definition with_lazy (f : lazy_fields -> lazy_fields) (r : TransactionReceipt) : TransactionReceipt :=
  set_lazy (f (lazy r)) r.

(** *** The node and the world *)

(** What [web3.eth.get_transaction_receipt] returns. *)
Record rpc_receipt := {
  rc_blockHash : option string;
  rc_blockNumber : Z;
  rc_transactionIndex : Z;
  rc_gasUsed : Z;
  rc_status : Z;
  rc_contractAddress : option string;
}.

(** What [web3.eth.get_transaction] returns, as far as it is read. *)
Record rpc_tx := { tx_blockNumber : option Z }.

(** The payload of [debug_traceTransaction]. *)
Inductive trace_response :=
| TraceError (message : string)
| TraceResult (structLogs : list raw_step)
| TraceTimeout.                    (* requests.exceptions.Timeout / ConnectionError *)

(** What the malformed probe request of [supports_traces] meets:
    [make_request] returns a reply with an error code, returns a reply
    without the key ["error"], raises [requests.HTTPError], or raises
    another exception ([requests.exceptions.Timeout] or
    [ConnectionError], which [except HTTPError] does not catch). *)
Inductive probe_response :=
| ProbeError (code : Z)
| ProbeNoError
| ProbeHTTPError
| ProbeRaises (e : exn).

(** The node as seen at one instant.  [None] from a lookup stands for
    [TransactionNotFound].  [time_time] is [time.time()] in whole seconds. *)
Record node_view := {
  time_time : Z;
  get_transaction_count : string -> Z;
  get_transaction_receipt : string -> option rpc_receipt;
  get_transaction : string -> option rpc_tx;
  eth_block_number : Z;
  debug_traceTransaction : string -> trace_response;
  debug_probe : probe_response;
}.

(** The node over time: its view at each observation the program makes. *)
Definition node : Type := nat -> node_view.

Inductive request :=
| ReqTransactionCount (address : string)
| ReqTransactionReceipt (id : string)
| ReqTransaction (id : string)
| ReqBlockNumber
| ReqTrace (id : string)
| ReqTraceProbe.

(** Effects in program order. *)
Inductive effect :=
| Rpc (r : request)
| Sleep
| SetStatus (tx : nat) (s : Status)      (* tx.status = s *)
| Signal (tx : nat).                     (* tx._confirmed.set() *)

(** [web3]: the provider and the cached answer of [supports_traces]. *)
Record web3_state := { provider : bool; _supports_traces : option bool }.

(** The mutable world: every [TransactionReceipt] object by reference, the
    list [state.TxHistory()] of tracked references, [web3], the number of
    observations of the outside world made so far, and the effects so far
    (oldest first). *)
Record world := {
  heap : nat -> TransactionReceipt;
  history : list nat;
  web3 : web3_state;
  clock : nat;
  log : list effect;
}.
Definition set_heap (v : nat -> TransactionReceipt) (r : world) : world :=
  {| heap := v; history := history r; web3 := web3 r; clock := clock r; log := log r |}.
Definition set_history (v : list nat) (r : world) : world :=
  {| heap := heap r; history := v; web3 := web3 r; clock := clock r; log := log r |}.
Definition set_web3 (v : web3_state) (r : world) : world :=
  {| heap := heap r; history := history r; web3 := v; clock := clock r; log := log r |}.
Definition set_clock (v : nat) (r : world) : world :=
  {| heap := heap r; history := history r; web3 := web3 r; clock := v; log := log r |}.
Definition set_log (v : list effect) (r : world) : world :=
  {| heap := heap r; history := history r; web3 := web3 r; clock := clock r;
     log := v |}.

(** Everything the code reads from outside the transaction objects. *)
Record env := {
  nd : node;
  reg : registry;
  legacy_hexbytes : bool;                               (* hexbytes < 1.0 *)
  coverage_active : bool;                               (* CONFIG.argv["coverage"] *)
  check_cached : TransactionReceipt -> bool;            (* coverage._check_cached(self.coverage_hash) *)
  (* [_decode_logs] and [_decode_trace] of [brownie.network.event]; the
     decoded events are kept opaque. *)
  _decode_logs : TransactionReceipt -> res (list pyval);
  _decode_trace : list raw_step -> string -> res (list pyval);
  (* [_reverted_trace] (lines 740-828), which resolves the revert message of
     a reverted transaction: it assigns lazy attributes only. *)
  _reverted_trace : TransactionReceipt -> list raw_step -> res unit * lazy_fields;
}.

(** *** Attribute access and observations of the node *)

Definition getattr {A} (self : nat) (f : TransactionReceipt -> A) : M world A :=
  gets (fun w => f (heap w self)).

Definition setattr (self : nat) (f : TransactionReceipt -> TransactionReceipt) : M world unit :=
  modify (fun w => set_heap (fun i => if (i =? self)%nat then f (heap w i) else heap w i) w).

Definition emit (e : effect) : M world unit :=
  modify (fun w => set_log (log w ++ [e]) w).

(** One observation of the node: the answer comes from the view at the
    current instant, and the instant advances. *)
Definition observe {A} (E : env) (f : node_view -> A) : M world A :=
  fun w => (Val (f (nd E (clock w))), set_clock (S (clock w)) w).

Definition rpc {A} (E : env) (r : request) (f : node_view -> A) : M world A :=
  emit (Rpc r) ;; observe E f.

(** [time.sleep(1)] *)
Definition sleep (E : env) : M world unit :=
  emit Sleep ;; observe E (fun _ => tt).

(** [self.status = s] *)
Definition set_status_of (tx : nat) (s : Status) : M world unit :=
  setattr tx (set_status s) ;; emit (SetStatus tx s).

(** [self._confirmed.set()] *)
Definition signal (tx : nat) : M world unit :=
  setattr tx (set__confirmed true) ;; emit (Signal tx).

(** [for x in l: body(x)] *)
Fixpoint for_in {S A} (l : list A) (body : A -> M S unit) : M S unit :=
  match l with
  | [] => ret tt
  | x :: r => body x ;; for_in r body
  end.

Definition is_Some_b {A} (o : option A) : bool :=
  match o with Some _ => true | None => false end.

(** The truth value of an optional text: [None] and [""] are false. *)
Definition str_true (s : option string) : bool :=
  match s with
  | Some EmptyString => false
  | Some _ => true
  | None => false
  end.

(** ** Module-level helpers of [transaction.py] *)

Definition string_eqb (a b : string) : bool := String.eqb a b.

(** [x in (a, b, ...)] on text. *)
Definition str_in (x : string) (l : list string) : bool := existsb (string_eqb x) l.

(** [next(x for x in l if p(x))] *)
Fixpoint py_next {A} (p : A -> bool) (l : list A) : res A :=
  match l with
  | [] => Exn StopIteration
  | x :: r => if p x then Val x else py_next p r
  end.

(** [step["address"]], [step["jumpDepth"]]: [KeyError] on a step that
    [_expand_trace] has not visited. *)
Definition step_address (st : step) : res string :=
  match s_ann st with Some a => Val (address a) | None => Exn KeyError end.
Definition step_jumpDepth (st : step) : res Z :=
  match s_ann st with Some a => Val (jumpDepth a) | None => Exn KeyError end.

(** [_step_compare(a, b)]: [and] does not read [jumpDepth] when the depths
    differ. *)
Definition _step_compare (a b : step) : res bool :=
  if s_depth a =? s_depth b
  then let? ja := step_jumpDepth a in
       let? jb := step_jumpDepth b in
       Val (ja =? jb)
  else Val false.

(** [HexBytes("".join(step["memory"]))] *)
Definition memory_bytes (st : step) : res (list byte) :=
  hexstr_to_bytes (String.concat "" (s_memory st)).

(** [_get_memory(step, idx)]: the slice of memory named by two stack words,
    padded with zero bytes to the requested length. *)
Definition _get_memory (st : step) (idx : Z) : res (list byte) :=
  let? o := py_nth (s_stack st) idx in
  let? offset := py_int16 o in
  let? l := py_nth (s_stack st) (idx - 1) in
  let? length := py_int16 l in
  let? mem := memory_bytes st in
  let data := py_slice mem offset (offset + length) in
  Val (data ++ repeat x00 (Z.to_nat (length - Z.of_nat (List.length data)))).

(** [_get_last_map(address, sig)] *)
Definition _get_last_map (R : registry) (addr sig : string) : res context :=
  let contract := _find_contract R addr in
  let? a := EthAddress R addr in
  match contract with
  | Some c =>
      let full_fn_name :=
        match get_method c sig with
        | Some m => (ct_name c +:+ "." +:+ m)%string
        | None => ct_name c
        end in
      Val {| c_address := a; c_jumpDepth := 0; c_name := Some (ct_name c);
             c_coverage := in_project c;
             c_contract := Some c; c_function := get_method_object c sig;
             c_internal_calls := [full_fn_name];
             c_path_map := allSourcePaths c; c_pc_map := pcMap c;
             c_active_branches :=
               if in_project c && match language c with
                                  | Some l => string_eqb l "Solidity"
                                  | None => false
                                  end
               then Some ∅ else None |}
  | None =>
      Val {| c_address := a; c_jumpDepth := 0; c_name := None; c_coverage := false;
             c_contract := None; c_function := None;
             c_internal_calls := [("<UnknownContract>." +:+ sig)%string];
             c_path_map := None; c_pc_map := None; c_active_branches := None |}
  end.

(** *** The precompile pattern [0x0{38}(?:0[1-9]|1[0-8])] *)

Definition char_between (lo hi c : ascii) : bool :=
  ((N_of_ascii lo <=? N_of_ascii c) && (N_of_ascii c <=? N_of_ascii hi))%N.

(** The pattern matches at the start of [cs]. *)
Definition precompile_match (cs : list ascii) : bool :=
  match strip_prefix ("0"%char :: "x"%char :: repeat "0"%char 38) cs with
  | Some (a :: b :: _) =>
      (Ascii.eqb a "0" && char_between "1" "9" b)
      || (Ascii.eqb a "1" && char_between "0" "8" b)
  | _ => false
  end.

(** [pattern.search(s) is not None]: a match at some position of [s]. *)
Fixpoint regex_search (matches : list ascii -> bool) (cs : list ascii) : bool :=
  matches cs || match cs with
                | [] => false
                | _ :: r => regex_search matches r
                end.

Definition precompile_contract (s : string) : bool :=
  regex_search precompile_match (list_ascii_of_string s).

(** [_is_call_to_precompile(subcall)] *)
Definition _is_call_to_precompile (sc : subcall) : bool :=
  precompile_contract (sc_to sc).

(** ** [_expand_trace]: the walk over the trace *)

Definition call_opcodes : list string := ["CALL"; "STATICCALL"; "DELEGATECALL"].

Definition nonempty {A} (l : list A) : bool :=
  match l with [] => false | _ => true end.

(** [trace[i]] *)
Definition trace_at (i : Z) : M xstate step :=
  fun x => (py_nth (x_trace x) i, x).

(** In-place update of the step dict [trace[i]], [0 <= i]. *)
Definition update_step (i : Z) (f : step -> step) : M xstate unit :=
  modify (fun x => set_x_trace (alter f (Z.to_nat i) (x_trace x)) x).

(** In-place update of the dict [last_map[d]]. *)
Definition update_context (d : Z) (f : context -> context) : M xstate unit :=
  modify (fun x => set_x_last_map (alter f d (x_last_map x)) x).

(** In-place update of [self._subcalls[-1]]; [IndexError] on an empty list. *)
Definition update_last_subcall (f : subcall -> subcall) : M xstate unit :=
  fun x => match x_subcalls x with
           | [] => (Exn IndexError, x)
           | l => (Val tt, set_x_subcalls (alter f (length l - 1)%nat l) x)
           end.

(** [f] applied to the last element that satisfies [p]; [None] without one. *)
Fixpoint update_last_where {A} (p : A -> bool) (f : A -> A) (l : list A) : option (list A) :=
  match l with
  | [] => None
  | x :: r =>
      match update_last_where p f r with
      | Some r' => Some (x :: r')
      | None => if p x then Some (f x :: r) else None
      end
  end.

(** [subcall = next(i for i in self._subcalls[::-1] if i["to"] == to)],
    followed by the writes [changes] makes to that dict: [StopIteration]
    comes before anything [changes] reads. *)
Definition with_subcall (to : string) (changes : M xstate (subcall -> subcall)) : M xstate unit :=
  let* subcalls := gets x_subcalls in
  if existsb (fun sc => string_eqb (sc_to sc) to) subcalls
  then let* f := changes in
       modify (fun x =>
         match update_last_where (fun sc => string_eqb (sc_to sc) to) f (x_subcalls x) with
         | Some l => set_x_subcalls l x
         | None => x
         end)
  else raise StopIteration.

(** [_add_internal_xfer(from_, to, value)]; [Wei] of hexadecimal text is
    its integer. *)
Definition _add_internal_xfer (R : registry) (from_ to value : string) : M xstate unit :=
  let value := if startswith "0x" value then value else ("0x" +:+ value)%string in
  let* f := lift (EthAddress R from_) in
  let* t := lift (EthAddress R to) in
  let* v := lift (py_int16 value) in
  modify (fun x => set_x_internal_transfers
                     (x_internal_transfers x ++ [{| tr_from := f; tr_to := t; tr_value := v |}]) x).

(** Lines 884-901: the callee address, the selector and the calldata of the
    call made by [step] (the step before [trace[i]]). *)
Definition call_target (R : registry) (i : Z) (step : step)
  : M xstate (string * string * option (list byte)) :=
  if str_in (s_op step) ["CREATE"; "CREATE2"] then
    let* tr := gets x_trace in
    let* out := lift (py_next (fun x => s_depth x =? s_depth step)
                              (py_slice tr i (Z.of_nat (length tr)))) in
    let* top := lift (py_nth (s_stack out) (-1)) in
    let addr := py_suffix 40 top in
    let sig := ("<" +:+ s_op step +:+ ">")%string in
    let* a := lift (EthAddress R addr) in
    modify (fun x => set_x_new_contracts (x_new_contracts x ++ [a]) x) ;;
    let* v := lift (py_nth (s_stack step) (-1)) in
    let* vz := lift (py_int16 v) in
    when (negb (vz =? 0))
      (let* from_ := lift (step_address step) in
       _add_internal_xfer R from_ addr v) ;;
    ret (addr, sig, None)
  else
    let stack_idx := if str_in (s_op step) ["CALL"; "CALLCODE"] then -4 else -3 in
    let* o := lift (py_nth (s_stack step) stack_idx) in
    let* offset := lift (py_int16 o) in
    let* l := lift (py_nth (s_stack step) (stack_idx - 1)) in
    let* length := lift (py_int16 l) in
    let* mem := lift (memory_bytes step) in
    let calldata := py_slice mem offset (offset + length) in
    let sig := hexbytes_to_hexstring (py_slice calldata 0 4) in
    let* a := lift (py_nth (s_stack step) (-2)) in
    ret (py_suffix 40 a, sig, Some calldata).

(** Lines 924-926: when the [from] of the record just appended matches the
    precompile pattern, the record before it is removed and its [from] is
    given to the new record. *)
Definition merge_precompile : M xstate unit :=
  let* subcalls := gets x_subcalls in
  let* newest := lift (py_nth subcalls (-1)) in
  when (precompile_contract (sc_from newest))
    (let* popped := lift (py_nth subcalls (-2)) in
     modify (fun x => set_x_subcalls (delete (length subcalls - 2)%nat (x_subcalls x)) x) ;;
     update_last_subcall (set_sc_from (sc_from popped))).

(** Lines 905-907: the entry of [last_map] for the depth just entered. *)
Definition open_context (R : registry) (d : Z) (addr sig : string) : M xstate unit :=
  let* ctx := lift (_get_last_map R addr sig) in
  modify (fun x => set_x_last_map (<[d := ctx]> (x_last_map x)) x) ;;
  modify (fun x => set_x_coverage_eval
                     (match x_coverage_eval x !! c_name ctx with
                      | Some _ => x_coverage_eval x
                      | None => <[c_name ctx := ∅]> (x_coverage_eval x)
                      end) x).

(** Lines 883-926: the block run when the depth increased or the previous
    step was a call. *)
Definition enter_call (R : registry) (i : Z) (ti step : step)
    (is_depth_increase is_subcall : bool) : M xstate unit :=
  let* '(addr, sig, calldata) := call_target R i step in
  when is_depth_increase (open_context R (s_depth ti) addr sig) ;;
  let* from_ := lift (step_address step) in
  let* to := lift (EthAddress R addr) in
  modify (fun x => set_x_subcalls
                     (x_subcalls x ++
                        [{| sc_from := from_; sc_to := to; sc_op := s_op step;
                            sc_value := None; sc_function := None; sc_inputs := None;
                            sc_calldata := None; sc_returndata := None;
                            sc_return_value := None; sc_selfdestruct := false;
                            sc_revert_msg := None |}]) x) ;;
  when (str_in (s_op step) ["CALL"; "CALLCODE"])
    (let* v := lift (py_nth (s_stack step) (-3)) in
     let* vz := lift (py_int16 v) in
     update_last_subcall (set_sc_value (Some vz))) ;;
  let* lm := gets x_last_map in
  let callee_fn :=
    if is_depth_increase && match calldata with Some d => nonempty d | None => false end
    then match lm !! s_depth ti with Some ctx => c_function ctx | None => None end
    else None in
  match callee_fn with
  | Some f =>
      update_last_subcall (set_sc_function (Some (fn_input_sig f))) ;;
      match calldata with
      | Some d =>
          match fn_decode_input f d with
          | Some inputs => update_last_subcall (set_sc_inputs (Some inputs))
          | None => update_last_subcall (set_sc_calldata (Some (hexbytes_to_hexstring d)))
          end
      | None => ret tt
      end
  | None =>
      match calldata with
      | Some d =>
          when (nonempty d || is_subcall)
            (update_last_subcall (set_sc_calldata (Some (hexbytes_to_hexstring d))))
      | None => when is_subcall (raise TypeError)
      end
  end ;;
  merge_precompile.

(** [last["pc_map"][pc]] under [except (KeyError, TypeError)]: [None] where
    the Python code [continue]s. *)
Definition pc_lookup (last : context) (pc : Z) : option pc_entry :=
  match c_pc_map last with
  | Some m => m pc
  | None => None
  end.

(** Lines 948-956: the raw return data of a subcall. *)
Definition record_returndata (ti : step) (last : context) : M xstate unit :=
  when (negb (s_depth ti =? 0) && string_eqb (s_op ti) "RETURN")
    (with_subcall (c_address last)
       (let* returndata := lift (_get_memory ti (-1)) in
        ret (fun sc => if nonempty returndata
                       then set_sc_returndata (Some (hexbytes_to_hexstring returndata)) sc
                       else sc))).

(** Lines 964-993: how a subcall ended. *)
Definition record_outcome (R : registry) (ti : step) (last : context) (pc : pc_entry)
  : M xstate unit :=
  when (negb (s_depth ti =? 0)
        && str_in (s_op ti) ["RETURN"; "REVERT"; "INVALID"; "SELFDESTRUCT"])
    (with_subcall (c_address last)
       (if string_eqb (s_op ti) "RETURN" then
          let* returndata := lift (_get_memory ti (-1)) in
          if nonempty returndata then
            ret (fun sc =>
                   match c_function last with
                   | Some f =>
                       match fn_decode_output f returndata with
                       | Some v =>
                           set_sc_return_value
                             (Some (if (fn_outputs f =? 1)%nat then PSingleton v else v)) sc
                       | None => set_sc_returndata (Some (hexbytes_to_hexstring returndata)) sc
                       end
                   | None => set_sc_returndata (Some (hexbytes_to_hexstring returndata)) sc
                   end)
          else ret (set_sc_return_value (Some PNone))
        else if string_eqb (s_op ti) "SELFDESTRUCT" then
          ret (set_sc_selfdestruct true)
        else
          let* decoded :=
            if string_eqb (s_op ti) "REVERT" then
              let* data := lift (_get_memory ti (-1)) in
              if (4 <? length data)%nat then
                ret (set_sc_revert_msg
                       (Some match decode_string R (drop 4 data) with
                             | Some msg => msg
                             | None => hexbytes_to_hexstring data
                             end))
              else ret (fun sc => sc)
            else ret (fun sc => sc) in
          ret (fun sc =>
                 let sc1 := decoded sc in
                 match sc_revert_msg sc1, pe_dev pc with
                 | None, Some dev => set_sc_revert_msg (Some dev) sc1
                 | _, _ => sc1
                 end))).

Definition add_statement (s : Z) (c : coverage_sets) : coverage_sets :=
  let '(st, bf, bt) := c in ({[s]} ∪ st, bf, bt).
Definition add_branch (taken : bool) (b : Z) (c : coverage_sets) : coverage_sets :=
  let '(st, bf, bt) := c in
  if taken then (st, bf, {[b]} ∪ bt) else (st, {[b]} ∪ bf, bt).

(** [coverage_eval[name][path]] updated in place, created when absent. *)
Definition update_coverage (name : option string) (path : string)
    (f : coverage_sets -> coverage_sets) : M xstate unit :=
  let* cov := gets x_coverage_eval in
  match cov !! name with
  | None => raise KeyError
  | Some per_path =>
      let sets := default (∅, ∅, ∅) (per_path !! path) in
      modify (set_x_coverage_eval (<[name := <[path := f sets]> per_path]> cov))
  end.

(** Lines 1003-1016: coverage of the step. *)
Definition record_coverage (i : Z) (ti : step) (last : context) (pc : pc_entry) (path : string)
  : M xstate unit :=
  when (c_coverage last)
    (update_coverage (c_name last) path (fun c => c) ;;
     match pe_statement pc with
     | Some s => update_coverage (c_name last) path (add_statement s)
     | None => ret tt
     end ;;
     match pe_branch pc with
     | None => ret tt
     | Some b =>
         if negb (string_eqb (pe_op pc) "JUMPI") then
           match c_active_branches last with
           | None => raise KeyError
           | Some _ =>
               update_context (s_depth ti)
                 (fun c => set_c_active_branches
                             (option_map (fun ab => {[b]} ∪ ab) (c_active_branches c)) c)
           end
         else if match c_active_branches last with
                 | None => true
                 | Some ab => bool_decide (b ∈ ab)
                 end
         then
           let* nxt := trace_at (i + 1) in
           update_coverage (c_name last) path (add_branch (negb (s_pc nxt =? s_pc ti + 1)) b) ;;
           update_context (s_depth ti)
             (fun c => set_c_active_branches
                         (option_map (fun ab => ab ∖ {[b]}) (c_active_branches c)) c)
         else ret tt
     end).

(** [del l[-1]] *)
Definition del_last {A} (l : list A) : res (list A) :=
  match l with
  | [] => Exn IndexError
  | _ => Val (take (length l - 1)%nat l)
  end.

(** [last["internal_calls"].append(fn); last["jumpDepth"] += 1] *)
Definition enter_internal (f : string) (c : context) : context :=
  set_c_jumpDepth (c_jumpDepth c + 1) (set_c_internal_calls (c_internal_calls c ++ [f]) c).

(** [del last["internal_calls"][-1]; last["jumpDepth"] -= 1] *)
Definition leave_internal (c : context) : context :=
  set_c_jumpDepth (c_jumpDepth c - 1)
    (set_c_internal_calls (take (length (c_internal_calls c) - 1)%nat (c_internal_calls c)) c).

(** Lines 1018-1032: jumps into and out of internal functions. *)
Definition track_jumps (i : Z) (ti : step) (last : context) (pc : pc_entry) : M xstate unit :=
  match pe_jump pc with
  | None => ret tt
  | Some j =>
      if string_eqb j "i" then
        let* tr := gets x_trace in
        match py_nth tr (i + 1) with
        | Exn _ => ret tt
        | Val nxt =>
            match pc_lookup last (s_pc nxt) with
            | None => ret tt
            | Some target =>
                match pe_fn target with
                | None => ret tt
                | Some f =>
                    let* current := lift (py_nth (c_internal_calls last) (-1)) in
                    when (negb (string_eqb f current))
                      (update_context (s_depth ti) (enter_internal f))
                end
            end
        end
      else
        when (c_jumpDepth last >? 0)
          (let* _ := lift (del_last (c_internal_calls last)) in
           update_context (s_depth ti) leave_internal)
  end.

(** The keys the walk adds to [trace[i]]. *)
Definition annotate (last : context) (fn_name : string) : step -> step :=
  set_s_ann (Some {| address := c_address last; contractName := c_name last;
                     fn := fn_name; jumpDepth := c_jumpDepth last; source := None |}).

(** [trace[i]["source"] = {...}] *)
Definition set_source (loc : source_loc) (st : step) : step :=
  set_s_ann (option_map (fun a => {| address := address a; contractName := contractName a;
                                     fn := fn a; jumpDepth := jumpDepth a;
                                     source := Some loc |}) (s_ann st)) st.

(** Lines 928-1032: the rest of the loop body, once [last] is bound to
    [last_map[trace[i]["depth"]]]. *)
Definition visit_step (R : registry) (i : Z) (ti : step) (last : context) : M xstate unit :=
  let* fn_name := lift (py_nth (c_internal_calls last) (-1)) in
  update_step i (annotate last fn_name) ;;
  when (string_eqb (s_op ti) "CALL")
    (let* v := lift (py_nth (s_stack ti) (-3)) in
     let* vz := lift (py_int16 v) in
     when (negb (vz =? 0))
       (let* to := lift (py_nth (s_stack ti) (-2)) in
        _add_internal_xfer R (c_address last) (py_suffix 40 to) v)) ;;
  record_returndata ti last ;;
  match pc_lookup last (s_pc ti) with
  | None => ret tt
  | Some pc =>
      record_outcome R ti last pc ;;
      match pe_path pc with
      | None => ret tt
      | Some path =>
          let* file :=
            match c_path_map last with
            | None => raise TypeError
            | Some pm => match pm path with
                         | Some f => ret f
                         | None => raise KeyError
                         end
            end in
          update_step i (set_source {| filename := file; offset := pe_offset pc |}) ;;
          match pe_fn pc with
          | None => ret tt
          | Some _ =>
              record_coverage i ti last pc path ;;
              track_jumps i ti last pc
          end
      end
  end.

(** The body of the loop of [_expand_trace] for the index [i]. *)
Definition expand_step (R : registry) (i : Z) : M xstate unit :=
  let* ti := trace_at i in
  let* prev := trace_at (i - 1) in
  let is_depth_increase := s_depth ti >? s_depth prev in
  let is_subcall := str_in (s_op prev) call_opcodes in
  when (is_depth_increase || is_subcall)
    (enter_call R i ti prev is_depth_increase is_subcall) ;;
  let* lm := gets x_last_map in
  let* last := match lm !! s_depth ti with
               | Some c => ret c
               | None => raise KeyError
               end in
  visit_step R i ti last.

(** [for i in range(len(trace))] *)
Definition expand_loop (R : registry) : M xstate unit :=
  let* tr := gets x_trace in
  for_in (seqZ 0 (Z.of_nat (length tr))) (expand_step R).

(** ** [web3.supports_traces] *)

Definition supports_traces (E : env) : M world bool :=
  let* w3 := gets web3 in
  if negb (provider w3) then ret false
  else match _supports_traces w3 with
       | Some b => ret b
       | None =>
           let* r := rpc E ReqTraceProbe debug_probe in
           let* b := match r with
                     | ProbeError code => ret (negb (code =? -32601))
                     | ProbeNoError => raise KeyError
                     | ProbeHTTPError => ret false
                     | ProbeRaises e => raise e
                     end in
           modify (fun w => set_web3 {| provider := provider (web3 w);
                                         _supports_traces := Some b |} w) ;;
           ret b
       end.

(** ** [_get_trace] and [_expand_trace] *)

(** [_confirmed_trace(trace)]: a decoder that raises is shown as
    [ValueError]. *)
Definition _confirmed_trace (E : env) (self : nat) (trace : list raw_step) : M world unit :=
  setattr self (with_lazy (set__modified_state
                  (Some (existsb (fun st => string_eqb (r_op st) "SSTORE") trace)))) ;;
  let* final := lift (py_nth trace (-1)) in
  let* ca := getattr self contract_address in
  if negb (string_eqb (r_op final) "RETURN") || str_true ca then ret tt
  else
    let* recv := getattr self receiver in
    match recv with
    | None => ret tt
    | Some r =>
        match _find_contract (reg E) r with
        | None => ret tt
        | Some c =>
            let* st := lift (typed_step final) in
            let* data := lift (_get_memory st (-1)) in
            let* inp := getattr self input in
            match get_method_object c inp with
            | None => ret tt
            | Some f =>
                match fn_decode_output f data with
                | Some v => setattr self (with_lazy (set__return_value (Some v)))
                | None => raise ValueError
                end
            end
        end
    end.

Definition is_plain_transfer (r : TransactionReceipt) : bool :=
  string_eqb (input r) "0x"
  && match gas_used r with Some g => g =? 21000 | None => false end.

(** [_get_trace()] *)
Definition _get_trace (E : env) (self : nat) : M world unit :=
  let* raw := getattr self (fun r => _raw_trace (lazy r)) in
  match raw with
  | Some _ => ret tt
  | None =>
      setattr self (with_lazy (set__raw_trace (Some []))) ;;
      let* plain := getattr self is_plain_transfer in
      if plain then
        setattr self (with_lazy (set__modified_state (Some false))) ;;
        setattr self (with_lazy (set__trace (Some [])))
      else
        let* ok := supports_traces E in
        if negb ok then raise (RPCRequestError MsgNoTraceSupport)
        else
          let* id := getattr self txid in
          let* response := rpc E (ReqTrace id) (fun v => debug_traceTransaction v id) in
          match response with
          | TraceTimeout => raise (RPCRequestError MsgClientCrashed)
          | TraceError message =>
              setattr self (with_lazy (set__modified_state None)) ;;
              setattr self (with_lazy (set__trace_exc (Some (RPCRequestError (MsgNode message))))) ;;
              raise (RPCRequestError (MsgNode message))
          | TraceResult structLogs =>
              setattr self (with_lazy (set__raw_trace (Some structLogs))) ;;
              if negb (nonempty structLogs) then
                setattr self (with_lazy (set__modified_state (Some false)))
              else
                let '(fixed, trace) := fix_trace (legacy_hexbytes E) structLogs in
                setattr self (with_lazy (set__raw_trace (Some trace))) ;;
                lift fixed ;;
                let* st := getattr self status in
                if status_true st then _confirmed_trace E self trace
                else
                  let* r := getattr self (fun r => r) in
                  let '(outcome, lz) := _reverted_trace E r trace in
                  setattr self (set_lazy lz) ;;
                  lift outcome
          end
  end.

(** The shift of ganache before 6.10.0: every step takes the gas cost of
    the step after it, the last one 0. *)
Fixpoint shift_gas_costs (trace : list step) : list step :=
  match trace with
  | [] => []
  | t :: rest =>
      match rest with
      | [] => [set_s_gasCost 0 t]
      | t' :: _ => set_s_gasCost (s_gasCost t') t :: shift_gas_costs rest
      end
  end.

(** The lists the walk leaves in the record. *)
Definition store_expansion (x : xstate) (l : lazy_fields) : lazy_fields :=
  set__subcalls (Some (x_subcalls x))
    (set__internal_transfers (Some (x_internal_transfers x))
       (set__new_contracts (Some (x_new_contracts x))
          (set__trace (Some (x_trace x)) l))).

(** The objects the walk starts from: the trace, [last_map] with the entry
    of depth 0, [coverage_eval] with the name of that entry, and the three
    empty lists of the record. *)
Definition initial_walk (trace : list step) (ctx : context) : xstate :=
  {| x_trace := trace; x_last_map := {[ 0 := ctx ]};
     x_coverage_eval := {[ c_name ctx := ∅ ]};
     x_new_contracts := []; x_internal_transfers := []; x_subcalls := [] |}.

(** [_expand_trace()].  The list in [_trace] is the list in [_raw_trace],
    seen through [typed_step]; the model raises [TypeError] at once where
    that view does not exist.  The call to the coverage store at the end is
    left out. *)
Definition _expand_trace (E : env) (self : nat) : M world unit :=
  let* raw := getattr self (fun r => _raw_trace (lazy r)) in
  when (negb (is_Some_b raw)) (_get_trace E self) ;;
  let* expanded := getattr self (fun r => _trace (lazy r)) in
  match expanded with
  | Some _ => ret tt
  | None =>
      let* raw := getattr self (fun r => _raw_trace (lazy r)) in
      let* trace := lift (match raw with
                          | Some l => map_res typed_step l
                          | None => Exn TypeError
                          end) in
      setattr self (with_lazy (fun l =>
        set__subcalls (Some []) (set__internal_transfers (Some [])
          (set__new_contracts (Some []) (set__trace (Some trace) l))))) ;;
      let* ca := getattr self contract_address in
      if str_true ca || negb (nonempty trace) then ret tt
      else
        let* first := lift (py_nth trace 0) in
        let* final := lift (py_nth trace (-1)) in
        let* used := getattr self gas_used in
        let call_cost := match used with
                         | Some g => Val (g - s_gas first + s_gas final)
                         | None => Exn TypeError
                         end in
        let* trace :=
          if s_depth first =? 1 then
            setattr self (with_lazy (set__trace_origin (Some "geth"))) ;;
            let* c := lift call_cost in
            setattr self (with_lazy (set__call_cost c)) ;;
            ret (map (fun t => set_s_depth (s_depth t - 1) t) trace)
          else
            setattr self (with_lazy (set__trace_origin (Some "ganache"))) ;;
            if 21000 <=? s_gasCost first then
              setattr self (with_lazy (set__call_cost (s_gasCost first))) ;;
              ret (shift_gas_costs trace)
            else
              let* c := lift call_cost in
              setattr self (with_lazy (set__call_cost c)) ;;
              ret trace in
        setattr self (with_lazy (set__trace (Some trace))) ;;
        let* recv := getattr self receiver in
        let* inp := getattr self input in
        let* ctx := lift (match recv with
                          | Some r => _get_last_map (reg E) r (String.substring 0 10 inp)
                          | None => Exn TypeError
                          end) in
        let '(outcome, x) := expand_loop (reg E) (initial_walk trace ctx) in
        setattr self (with_lazy (store_expansion x)) ;;
        lift outcome
  end.

(** ** The decorators and the trace attributes *)

Definition is_RPCRequestError (e : exn) : bool :=
  match e with RPCRequestError _ => true | _ => false end.

(** [trace_property(fn)]: [None] is the wrapper's own [return None],
    [Some v] a value returned by [fn]. *)
Definition trace_property {A} (E : env) (fn : nat -> M world A) (self : nat)
  : M world (option A) :=
  let* st := getattr self status in
  if Status_value st <? 0 then ret None
  else
    let* exc := getattr self (fun r => _trace_exc (lazy r)) in
    match exc with
    | Some e => raise e
    | None =>
        try_except (let* v := fn self in ret (Some v)) is_RPCRequestError
          (fun exc =>
             let* ok := supports_traces E in
             if ok then raise exc else raise (RPCRequestError MsgEndpointRequired))
    end.

(** [trace_inspection(fn)] *)
Definition trace_inspection {A} (fn : nat -> M world A) (self : nat) : M world (option A) :=
  let* ca := getattr self contract_address in
  if str_true ca then raise NotImplementedError
  else
    let* plain := getattr self is_plain_transfer in
    if plain then ret None
    else let* v := fn self in ret (Some v).

(** The bodies of the trace attributes, before decoration. *)

Definition events_body (E : env) (self : nat) : M world (option (list pyval)) :=
  let* cur := getattr self (fun r => _events (lazy r)) in
  when (negb (is_Some_b cur))
    (let* st := getattr self status in
     if status_true st then
       let* r := getattr self (fun r => r) in
       let* ev := lift (_decode_logs E r) in
       setattr self (with_lazy (set__events (Some ev)))
     else
       _get_trace E self ;;
       let* r := getattr self (fun r => r) in
       let initial_address :=
         match receiver r with
         | Some a => a
         | None => default "None" (contract_address r)
         end in
       let* ev := lift (match _raw_trace (lazy r) with
                        | Some raw => _decode_trace E raw initial_address
                        | None => Exn TypeError
                        end) in
       setattr self (with_lazy (set__events (Some ev)))) ;;
  getattr self (fun r => _events (lazy r)).

Definition internal_transfers_body (E : env) (self : nat) : M world (option (list transfer)) :=
  let* st := getattr self status in
  if negb (status_true st) then ret (Some [])
  else
    let* cur := getattr self (fun r => _internal_transfers (lazy r)) in
    when (negb (is_Some_b cur)) (_expand_trace E self) ;;
    getattr self (fun r => _internal_transfers (lazy r)).

Definition modified_state_body (E : env) (self : nat) : M world (option bool) :=
  let* st := getattr self status in
  (if negb (status_true st) then setattr self (with_lazy (set__modified_state (Some false)))
   else
     let* cur := getattr self (fun r => _modified_state (lazy r)) in
     when (negb (is_Some_b cur)) (_get_trace E self)) ;;
  getattr self (fun r => _modified_state (lazy r)).

Definition new_contracts_body (E : env) (self : nat) : M world (option (list string)) :=
  let* st := getattr self status in
  if negb (status_true st) then ret (Some [])
  else
    let* cur := getattr self (fun r => _new_contracts (lazy r)) in
    when (negb (is_Some_b cur)) (_expand_trace E self) ;;
    getattr self (fun r => _new_contracts (lazy r)).

Definition return_value_body (E : env) (self : nat) : M world (option pyval) :=
  let* st := getattr self status in
  if negb (status_true st) then ret None
  else
    let* cur := getattr self (fun r => _return_value (lazy r)) in
    when (negb (is_Some_b cur)) (_get_trace E self) ;;
    getattr self (fun r => _return_value (lazy r)).

Definition revert_msg_body (E : env) (self : nat) : M world (option string) :=
  let* st := getattr self status in
  if status_true st then ret None
  else
    let* cur := getattr self (fun r => _revert_msg (lazy r)) in
    let* ca := getattr self contract_address in
    match cur with
    | None => _get_trace E self
    | Some m => when (str_true ca && string_eqb m "out of gas") (_get_trace E self)
    end ;;
    getattr self (fun r => _revert_msg (lazy r)).

Definition dev_revert_msg_body (E : env) (self : nat) : M world (option string) :=
  let* st := getattr self status in
  if status_true st then ret None
  else
    let* cur := getattr self (fun r => _dev_revert_msg (lazy r)) in
    when (negb (is_Some_b cur)) (_get_trace E self) ;;
    let* m := getattr self (fun r => _dev_revert_msg (lazy r)) in
    ret (if str_true m then m else None).

(** [subcalls]: the records whose [to] is not a precompile. *)
Definition subcalls_body (E : env) (self : nat) : M world (list subcall) :=
  let* cur := getattr self (fun r => _subcalls (lazy r)) in
  when (negb (is_Some_b cur)) (_expand_trace E self) ;;
  let* all := getattr self (fun r => _subcalls (lazy r)) in
  match all with
  | Some l => ret (List.filter (fun s => negb (_is_call_to_precompile s)) l)
  | None => raise TypeError
  end.

Definition trace_body (E : env) (self : nat) : M world (option (list step)) :=
  let* cur := getattr self (fun r => _trace (lazy r)) in
  when (negb (is_Some_b cur)) (_expand_trace E self) ;;
  getattr self (fun r => _trace (lazy r)).

Definition events (E : env) := trace_property E (events_body E).
Definition internal_transfers (E : env) := trace_property E (internal_transfers_body E).
Definition modified_state (E : env) := trace_property E (modified_state_body E).
Definition new_contracts (E : env) := trace_property E (new_contracts_body E).
Definition return_value (E : env) := trace_property E (return_value_body E).
Definition revert_msg (E : env) := trace_property E (revert_msg_body E).
Definition dev_revert_msg (E : env) := trace_property E (dev_revert_msg_body E).
Definition subcalls (E : env) := trace_property E (subcalls_body E).
Definition trace (E : env) := trace_property E (trace_body E).

(** ** The confirmation tracker *)

(** Modelled from the spec: [state.TxHistory().filter(sender=self.sender,
    nonce=self.nonce, key=lambda k: k != self)] of [brownie.network.state],
    which is not among the sources: "every other tracked transaction
    sharing the same sender and nonce", in the order of the history. *)
Definition same_nonce_others (w : world) (self : nat) : list nat :=
  List.filter
    (fun j => negb (j =? self)%nat
              && string_eqb (sender (heap w j)) (sender (heap w self))
              && bool_decide (nonce (heap w j) = nonce (heap w self)))
    (history w).

(** The [confirmations] property. *)
Definition confirmations (E : env) (self : nat) : M world Z :=
  let* bn := getattr self block_number in
  match bn with
  | None => ret 0
  | Some b =>
      if b =? 0 then ret 0
      else let* current := rpc E ReqBlockNumber eth_block_number in
           ret (current - b + 1)
  end.

(** [_set_from_receipt(receipt)].  The writes to [logs], [gas_price] and
    [coverage_hash] and the gas profile of [TxHistory] are left out:
    nothing modelled here reads them. *)
Definition _set_from_receipt (self : nat) (receipt : rpc_receipt) : M world unit :=
  setattr self (set_block_number (Some (rc_blockNumber receipt))) ;;
  setattr self (set_txindex (Some (rc_transactionIndex receipt))) ;;
  setattr self (set_gas_used (Some (rc_gasUsed receipt))) ;;
  let* st := lift (Status_of (rc_status receipt)) in
  set_status_of self st ;;
  setattr self (set_contract_address (rc_contractAddress receipt)) ;;
  let* ca := getattr self contract_address in
  let* cn := getattr self contract_name in
  when (str_true ca && negb (str_true cn))
    (setattr self (set_contract_name (Some "UnknownContract"))).

(** What [_confirm_output()] reads: the revert message of a reverted
    transaction when the node supports traces. *)
Definition _confirm_output (E : env) (self : nat) : M world unit :=
  let* st := getattr self status in
  when (negb (status_true st))
    (let* ok := supports_traces E in
     when ok (let* _ := revert_msg E self in ret tt)).

(** *** Waiting for the first inclusion (lines 485-521) *)

(** How one iteration of the first loop ends. *)
Inductive poll_result :=
| Included (receipt : rpc_receipt)            (* [break] *)
| GaveUp                                      (* marked dropped, [return] *)
| Waiting (nonce_time sender_nonce : Z).      (* slept, next iteration *)

(** Every 15 seconds the transaction count of the sender is read again. *)
Definition refresh_sender_nonce (E : env) (self : nat) (nonce_time sender_nonce : Z)
  : M world (Z * Z) :=
  let* t := observe E time_time in
  if t - nonce_time >? 15 then
    let* s := getattr self sender in
    let* count := rpc E (ReqTransactionCount s) (fun v => get_transaction_count v s) in
    let* t' := observe E time_time in
    ret (t', count)
  else ret (nonce_time, sender_nonce).

(** [web3.eth.get_transaction_receipt] under [except TransactionNotFound]. *)
Definition fetch_receipt (E : env) (self : nat) : M world (option rpc_receipt) :=
  let* id := getattr self txid in
  rpc E (ReqTransactionReceipt id) (fun v => get_transaction_receipt v id).

(** [receipt is not None and receipt["blockHash"] is not None]: the receipt
    when the test holds. *)
Definition ready_receipt (receipt : option rpc_receipt) : option rpc_receipt :=
  match receipt with
  | Some rc => if is_Some_b (rc_blockHash rc) then Some rc else None
  | None => None
  end.

(** One iteration of [while True].  Console output is left out. *)
Definition await_inclusion_step (E : env) (self : nat) (nonce_time sender_nonce : Z)
  : M world poll_result :=
  let* '(nonce_time, sender_nonce) := refresh_sender_nonce E self nonce_time sender_nonce in
  let* receipt := fetch_receipt E self in
  match ready_receipt receipt with
  | Some rc => ret (Included rc)
  | None =>
      let* n := getattr self nonce in
      match n with
      | None => raise TypeError
      | Some n =>
          if sender_nonce >? n then
            set_status_of self Dropped ;; signal self ;; ret GaveUp
          else sleep E ;; ret (Waiting nonce_time sender_nonce)
      end
  end.

(** The first loop; [None] when the function returned after marking the
    transaction dropped. *)
Fixpoint await_inclusion (fuel : nat) (E : env) (self : nat) (nonce_time sender_nonce : Z)
  : M world (option rpc_receipt) :=
  match fuel with
  | O => raise OutOfFuel
  | S fuel' =>
      let* r := await_inclusion_step E self nonce_time sender_nonce in
      match r with
      | Included rc => ret (Some rc)
      | GaveUp => ret None
      | Waiting nonce_time' sender_nonce' =>
          await_inclusion fuel' E self nonce_time' sender_nonce'
      end
  end.

(** *** Waiting for more confirmations (lines 531-555) *)

(** The second loop.  [again] is the recursive call of
    [_await_confirmation] made when the receipt has disappeared; the result
    is [None] when that call took over. *)
Fixpoint await_confirmations (fuel : nat) (E : env) (self : nat)
    (required_confs remaining_confs : Z) (receipt : rpc_receipt)
    (again : option Z -> Z -> M world unit) : M world (option rpc_receipt) :=
  if (0 <? remaining_confs) && (1 <? required_confs) then
    match fuel with
    | O => raise OutOfFuel
    | S fuel' =>
        let* r := fetch_receipt E self in
        match r with
        | None =>
            let* id := getattr self txid in
            let* tx := rpc E (ReqTransaction id) (fun v => get_transaction v id) in
            match tx with
            | None => raise TransactionNotFound
            | Some tx =>
                setattr self (set_block_number None) ;;
                again (tx_blockNumber tx) required_confs ;;
                ret None
            end
        | Some receipt' =>
            setattr self (set_block_number (Some (rc_blockNumber receipt'))) ;;
            let* c := confirmations E self in
            let* remaining' :=
              if negb (required_confs - c =? remaining_confs) then
                let* c' := confirmations E self in
                let* silent := getattr self _silent in
                when (negb silent) (let* _ := confirmations E self in ret tt) ;;
                ret (required_confs - c')
              else ret remaining_confs in
            when (0 <? remaining') (sleep E) ;;
            await_confirmations fuel' E self required_confs remaining' receipt' again
        end
    end
  else ret (Some receipt).

(** *** [_await_confirmation] *)

(** Lines 557-574: the receipt is stored, coverage is evaluated and the
    result reported when asked for, then the completion event of the
    transaction is set and the other transactions of the same sender and
    nonce are marked dropped and signalled. *)
Definition evaluate_and_report (E : env) (self : nat) (required_confs : Z) : M world unit :=
  (if coverage_active E then
     let* r := getattr self (fun r => r) in
     if negb (check_cached E r) then
       let* t := trace E self in
       when (match t with Some (Some l) => nonempty l | _ => false end) (_expand_trace E self)
     else ret tt
   else ret tt) ;;
  let* silent := getattr self _silent in
  when (negb silent && (0 <? required_confs)) (_confirm_output E self).

Definition finish_confirmation (E : env) (self : nat) (required_confs : Z)
    (receipt : rpc_receipt) : M world unit :=
  _set_from_receipt self receipt ;;
  evaluate_and_report E self required_confs ;;
  signal self ;;
  let* others := gets (fun w => same_nonce_others w self) in
  for_in others (fun dropped_tx => set_status_of dropped_tx Dropped ;; signal dropped_tx).

(** [_await_confirmation(block_number, required_confs)].  The argument
    [block_number] only selects console output, which is left out. *)
Fixpoint _await_confirmation (fuel : nat) (E : env) (self : nat)
    (block_number : option Z) (required_confs : Z) : M world unit :=
  match fuel with
  | O => raise OutOfFuel
  | S fuel' =>
      let* included := await_inclusion fuel' E self 0 0 in
      match included with
      | None => ret tt
      | Some receipt =>
          let* others := gets (fun w => same_nonce_others w self) in
          for_in others (fun dropped_tx => setattr dropped_tx (set__silent true)) ;;
          setattr self (set_block_number (Some (rc_blockNumber receipt))) ;;
          let* confirmed :=
            await_confirmations fuel' E self required_confs required_confs receipt
              (_await_confirmation fuel' E self) in
          match confirmed with
          | None => ret tt
          | Some receipt' => finish_confirmation E self required_confs receipt'
          end
      end
  end.

(** *** [wait] *)

(** [while web3.eth.get_transaction_count(str(self.sender)) <= self.nonce] *)
Fixpoint wait_for_nonce (fuel : nat) (E : env) (self : nat) (n : Z) : M world unit :=
  match fuel with
  | O => raise OutOfFuel
  | S fuel' =>
      let* s := getattr self sender in
      let* count := rpc E (ReqTransactionCount s) (fun v => get_transaction_count v s) in
      if count <=? n then sleep E ;; wait_for_nonce fuel' E self n
      else ret tt
  end.

(** The loop around [web3.eth.get_transaction]; [None] when the function
    returned after marking the transaction dropped. *)
Fixpoint wait_for_transaction (fuel : nat) (E : env) (self : nat) : M world (option rpc_tx) :=
  match fuel with
  | O => raise OutOfFuel
  | S fuel' =>
      let* id := getattr self txid in
      let* r := rpc E (ReqTransaction id) (fun v => get_transaction v id) in
      match r with
      | Some tx => ret (Some tx)
      | None =>
          let* n := getattr self nonce in
          match n with
          | Some _ => set_status_of self Dropped ;; signal self ;; ret None
          | None => sleep E ;; wait_for_transaction fuel' E self
          end
      end
  end.

(** [wait(required_confs)] *)
Definition wait (fuel : nat) (E : env) (self : nat) (required_confs : Z) : M world unit :=
  if required_confs <? 1 then ret tt
  else
    let* c := confirmations E self in
    if required_confs <? c then
      (* the message prints [self.confirmations], read once more *)
      let* _ := confirmations E self in ret tt
    else
      let* n := getattr self nonce in
      match n with
      | Some n => wait_for_nonce fuel E self n
      | None => ret tt
      end ;;
      let* tx := wait_for_transaction fuel E self in
      match tx with
      | None => ret tt
      | Some tx => _await_confirmation fuel E self (tx_blockNumber tx) required_confs
      end.

(** *** Reading the first loop iteration by iteration *)

(** The locals [nonce_time], [sender_nonce] and the world at the start of
    iteration [k] (counted from 0) of the first loop; [None] when an
    earlier iteration left the loop: it saw a ready receipt, marked the
    transaction dropped, or raised. *)
Fixpoint iteration_start (k : nat) (E : env) (self : nat) (nonce_time sender_nonce : Z)
    (w : world) : option (Z * Z * world) :=
  match k with
  | O => Some (nonce_time, sender_nonce, w)
  | S k' =>
      match await_inclusion_step E self nonce_time sender_nonce w with
      | (Val (Waiting nonce_time' sender_nonce'), w') =>
          iteration_start k' E self nonce_time' sender_nonce' w'
      | _ => None
      end
  end.

(** ** The gas accountant *)

(** [trace[i]] on the value of [self.trace]: [None] is not subscriptable. *)
Definition subscript (trace : option (list step)) (i : Z) : res step :=
  match trace with
  | Some l => py_nth l i
  | None => Exn TypeError
  end.

(** The running figures of the loop: [total_gas], [internal_gas],
    [is_internal]. *)
Definition gas_acc : Type := Z * Z * bool.

(** The body of the loop of [_get_trace_gas] for the index [i]. *)
Definition gas_step (trace : option (list step)) (start : Z) (acc : gas_acc) (i : Z)
  : res gas_acc :=
  let '(total_gas, internal_gas, is_internal) := acc in
  let? ti := subscript trace i in
  let? t0 := subscript trace start in
  let? same := _step_compare ti t0 in
  let? '(internal_gas, is_internal) :=
    if is_internal && negb same then
      if s_depth ti >? s_depth t0 then
        let? prev := subscript trace (i - 1) in
        Val (internal_gas - s_gasCost prev, false)
      else Val (internal_gas, false)
    else if negb is_internal && same then Val (internal_gas, true)
    else Val (internal_gas, is_internal) in
  let total_gas := total_gas + s_gasCost ti in
  let internal_gas := if is_internal then internal_gas + s_gasCost ti else internal_gas in
  let? zeroed :=
    if string_eqb (s_op ti) "SSTORE" then
      let? v := py_nth (s_stack ti) (-2) in
      let? z := py_int16 v in
      Val (z =? 0)
    else Val false in
  let total_gas := if zeroed then total_gas - 15000 else total_gas in
  let internal_gas := if zeroed && is_internal then internal_gas - 15000 else internal_gas in
  let destroyed := string_eqb (s_op ti) "SELFDESTRUCT" in
  let total_gas := if destroyed then total_gas - 24000 else total_gas in
  let internal_gas := if destroyed && is_internal then internal_gas - 24000 else internal_gas in
  Val (total_gas, internal_gas, is_internal).

(** [for i in l: acc = body(acc, i)] *)
Fixpoint fold_res {A B} (body : A -> B -> res A) (acc : A) (l : list B) : res A :=
  match l with
  | [] => Val acc
  | x :: r => let? acc' := body acc x in fold_res body acc' r
  end.

(** [_get_trace_gas(start, stop)] on the value [trace] of [self.trace]:
    [(internal_gas, total_gas)]. *)
Definition trace_gas (trace : option (list step)) (start stop : Z) : res (Z * Z) :=
  let? '(total_gas, internal_gas, _) :=
    fold_res (gas_step trace start) (0, 0, true) (seqZ start (stop - start)) in
  let? add_back :=
    if 0 <? start then
      let? t0 := subscript trace start in
      let? before := subscript trace (start - 1) in
      Val (if s_depth t0 >? s_depth before then s_gasCost before else 0)
    else Val 0 in
  Val (internal_gas + add_back, total_gas + add_back).

Definition _get_trace_gas (E : env) (self : nat) (start stop : Z) : M world (Z * Z) :=
  let* t := trace E self in
  lift (trace_gas (match t with Some (Some l) => Some l | _ => None end) start stop).

(** *** The figures in closed form *)

(** The flat refunds of one step: 15000 when it is an [SSTORE] whose second
    stack item from the top is zero, 24000 when it is a [SELFDESTRUCT]. *)
Definition refund_of (st : step) : Z :=
  (if string_eqb (s_op st) "SSTORE"
      && match py_nth (s_stack st) (-2) with
         | Val v => match py_int16 v with Val z => z =? 0 | Exn _ => false end
         | Exn _ => false
         end
   then 15000 else 0)
  + (if string_eqb (s_op st) "SELFDESTRUCT" then 24000 else 0).

(** The step is in the context (depth and jump depth) of [s0]. *)
Definition same_context (s0 st : step) : bool :=
  match _step_compare st s0 with Val b => b | Exn _ => false end.

(** The gas cost when the range starts inside a call just entered: the cost
    of the step before [start]. *)
Definition add_back_of (l : list step) (start : nat) : Z :=
  match start with
  | O => 0
  | S before =>
      match l !! start, l !! before with
      | Some s0, Some sb => if s_depth s0 >? s_depth sb then s_gasCost sb else 0
      | _, _ => 0
      end
  end.

(** Sum of [f] over the steps of a list. *)
Definition sum_steps (f : step -> Z) (l : list step) : Z :=
  fold_right (fun st acc => f st + acc) 0 l.

(** The total: every step's cost less its refunds. *)
Definition spec_total (l : list step) (start stop : nat) : Z :=
  sum_steps (fun st => s_gasCost st - refund_of st) (take (stop - start) (drop start l))
  + add_back_of l start.

(** The cost handed to nested calls: for every step that leaves the
    starting context for a deeper call, the cost of the step before it. *)
Fixpoint handed_over (s0 : step) (prev : step) (l : list step) : Z :=
  match l with
  | [] => 0
  | st :: r =>
      (if same_context s0 prev && negb (same_context s0 st) && (s_depth st >? s_depth s0)
       then s_gasCost prev else 0)
      + handed_over s0 st r
  end.

(** The internal figure: the steps in the starting context, less their
    refunds, less what was handed to nested calls. *)
Definition spec_internal (l : list step) (start stop : nat) : Z :=
  match l !! start with
  | None => 0
  | Some s0 =>
      let range := take (stop - start) (drop start l) in
      sum_steps (fun st => if same_context s0 st then s_gasCost st - refund_of st else 0) range
      - handed_over s0 s0 range
      + add_back_of l start
  end.

(** A step the accountant can read: it carries [jumpDepth], and an
    [SSTORE] has a second stack item that is hexadecimal text. *)
Definition gas_readable (st : step) : bool :=
  is_Some_b (s_ann st)
  && (negb (string_eqb (s_op st) "SSTORE")
      || match py_nth (s_stack st) (-2) with
         | Val v => match py_int16 v with Val _ => true | Exn _ => false end
         | Exn _ => false
         end).

(** ** Predicates used by the theorems *)

(** In the log [l], the effect [e1] has occurred when [e2] first occurs. *)
Definition happens_before (e1 e2 : effect) (l : list effect) : Prop :=
  exists l1 l2, l = l1 ++ e2 :: l2 /\ ~ In e2 l1 /\ In e1 l1.

(** [w'] differs from [w] at most in lazy attributes, in [web3], in the
    clock, and by requests added to the log: no status was written, no
    event was set, the history is the same. *)
Definition quiet_step (w w' : world) : Prop :=
  (forall j, exists lz, heap w' j = set_lazy lz (heap w j))
  /\ history w' = history w
  /\ exists requests, log w' = log w ++ map Rpc requests.

(** A computation all of whose runs are quiet, raised exceptions included. *)
Definition quiet {A} (m : M world A) : Prop :=
  forall w, quiet_step w (snd (m w)).

(** [w'] has the history of [w], and every record has kept its sender and
    its nonce: [TxHistory().filter(sender=..., nonce=...)] selects the same
    records in both. *)
Definition same_keys (w w' : world) : Prop :=
  (forall j, sender (heap w' j) = sender (heap w j) /\ nonce (heap w' j) = nonce (heap w j))
  /\ history w' = history w.

Definition keeps_keys {A} (m : M world A) : Prop :=
  forall w, same_keys w (snd (m w)).

(** What the last lines of [_await_confirmation] add to the log: the
    competitors of [self], each marked dropped and then signalled. *)
Definition drop_others_effects (others : list nat) : list effect :=
  flat_map (fun j => [SetStatus j Dropped; Signal j]) others.

(** The two ways [_await_confirmation] returns.  It gave up: the
    transaction is dropped and signalled, these being the last effects. *)
Definition gave_up (self : nat) (w' : world) : Prop :=
  status (heap w' self) = Dropped /\ _confirmed (heap w' self) = true
  /\ exists pre, log w' = pre ++ [SetStatus self Dropped; Signal self].

(** It ran its last block: the log ends with the status write of the
    transaction, requests, its completion event and then the marking of the
    competitors it had in [w]. *)
Definition confirmed_then_dropped_others (self : nat) (w w' : world) : Prop :=
  exists st pre requests,
    log w' = pre ++ SetStatus self st :: map Rpc requests
                 ++ Signal self :: drop_others_effects (same_nonce_others w self)
    /\ status (heap w' self) = st
    /\ _confirmed (heap w' self) = true
    /\ (forall j, In j (same_nonce_others w self) ->
          status (heap w' j) = Dropped /\ _confirmed (heap w' j) = true).

(** *** Invariants of the walk of [_expand_trace] *)

(** A call context is well formed: its jump depth is not negative and its
    stack of internal calls holds one entry more than the jump depth (the
    entry the context was created with). *)
Definition ctx_ok (c : context) : Prop :=
  0 <= c_jumpDepth c /\ Z.of_nat (length (c_internal_calls c)) = c_jumpDepth c + 1.

(** The annotation of a step, when there is one, has a jump depth that is
    not negative. *)
Definition step_ok (st : step) : Prop :=
  match s_ann st with
  | Some a => 0 <= jumpDepth a
  | None => True
  end.

(** A step the walk has not visited. *)
Definition unannotated (st : step) : Prop := s_ann st = None.

(** A property of the two objects the walk annotates: [last_map] and the
    trace. *)
Definition walk_pred : Type := gmap Z context -> list step -> Prop.

Definition walk_ok : walk_pred :=
  fun lm tr => (forall d c, lm !! d = Some c -> ctx_ok c) /\ Forall step_ok tr.

(** The invariant of the walk. *)
Definition expansion_inv (x : xstate) : Prop := walk_ok (x_last_map x) (x_trace x).

(** The snapshot [last] of [last_map[d]] still shows the jump depth and the
    internal calls of that entry. *)
Definition agrees (last : context) (d : Z) (lm : gmap Z context) : Prop :=
  exists c, lm !! d = Some c
            /\ c_jumpDepth c = c_jumpDepth last
            /\ c_internal_calls c = c_internal_calls last.

Definition walk_ok_at (last : context) (d : Z) : walk_pred :=
  fun lm tr => walk_ok lm tr /\ agrees last d lm.

Definition sub (P Q : walk_pred) : Prop := forall lm tr, P lm tr -> Q lm tr.

(** A part of the walk that leaves [last_map] and the trace alone. *)
Definition frames {A} (m : M xstate A) : Prop :=
  forall x, x_last_map (snd (m x)) = x_last_map x /\ x_trace (snd (m x)) = x_trace x.

(** From a state with [P], the part [m] of the walk ends in a state with
    [Q], whether it returns or raises. *)
Definition leads {A} (P Q : walk_pred) (m : M xstate A) : Prop :=
  forall x, P (x_last_map x) (x_trace x) -> Q (x_last_map (snd (m x))) (x_trace (snd (m x))).

(** *** The list of subcalls during the walk *)

(** A part of the walk that leaves the list of subcalls alone. *)
Definition same_subcalls {A} (m : M xstate A) : Prop :=
  forall x, x_subcalls (snd (m x)) = x_subcalls x.

(** A part of the walk that changes at most the last record of the list,
    and neither its [from] nor its [op]. *)
Definition edits_last_subcall {A} (m : M xstate A) : Prop :=
  forall x old sc, x_subcalls x = old ++ [sc] ->
    exists sc', x_subcalls (snd (m x)) = old ++ [sc']
                /\ sc_from sc' = sc_from sc /\ sc_op sc' = sc_op sc.

(** What entering a call makes of the list [before]: a record [sc] with
    the caller [f] as [from] and the opcode [o] is appended; but when [f]
    matches the precompile pattern, the last record [older] of [before] is
    removed and [sc] takes its [from]. *)
Definition appended_or_merged (f o : string) (before after : list subcall) : Prop :=
  exists sc, sc_from sc = f /\ sc_op sc = o
    /\ if precompile_contract f
       then exists pre older, before = pre ++ [older]
                              /\ after = pre ++ [set_sc_from (sc_from older) sc]
       else after = before ++ [sc].

(** A part of the walk that, run on a list that ends in a fresh record
    with [from = f] and [op = o], returns only with the list
    [appended_or_merged] describes. *)
Definition merges_after_edit (f o : string) {A} (m : M xstate A) : Prop :=
  forall x a x' old sc,
    x_subcalls x = old ++ [sc] -> sc_from sc = f -> sc_op sc = o ->
    m x = (Val a, x') -> appended_or_merged f o old (x_subcalls x').

(** What identifies a record of the list: caller, target and opcode. *)
Definition subcall_key (sc : subcall) : string * string * string :=
  (sc_from sc, sc_to sc, sc_op sc).

Definition keeps_key (f : subcall -> subcall) : Prop :=
  forall sc, subcall_key (f sc) = subcall_key sc.

(** A part of the walk that neither adds nor removes a record and changes
    no caller, target or opcode. *)
Definition same_skeleton {A} (m : M xstate A) : Prop :=
  forall x, map subcall_key (x_subcalls (snd (m x))) = map subcall_key (x_subcalls x).

(** A computation of the writes [with_subcall] makes to a record: it
    leaves the list alone and the writes keep the key. *)
Definition yields_key_keepers (changes : M xstate (subcall -> subcall)) : Prop :=
  forall x, x_subcalls (snd (changes x)) = x_subcalls x
            /\ forall f, fst (changes x) = Val f -> keeps_key f.

(** One iteration of the loop of [_expand_trace], seen from the list of
    subcalls: for some index whose step [ti] and predecessor [prev] exist,
    either the iteration enters a call (the depth increased or [prev] is a
    call) and the list is [appended_or_merged], up to writes to other keys
    of its records, or the list keeps its records. *)
Definition subcalls_move (x x' : xstate) : Prop :=
  exists i ti prev,
    py_nth (x_trace x) i = Val ti /\ py_nth (x_trace x) (i - 1) = Val prev
    /\ if (s_depth ti >? s_depth prev) || str_in (s_op prev) call_opcodes
       then exists f l1,
              step_address prev = Val f
              /\ appended_or_merged f (s_op prev) (x_subcalls x) l1
              /\ map subcall_key (x_subcalls x') = map subcall_key l1
       else map subcall_key (x_subcalls x') = map subcall_key (x_subcalls x).

(** ** Concrete inputs used by the examples of Part II *)

(** A trace in the prefixed, textual format: the second step reports a
    negative gas cost. *)
Definition sample_raw_trace : list raw_step :=
  [ {| r_pc := JStr "0x0"; r_op := "PUSH1"; r_depth := 1; r_gas := JStr "0x5208";
       r_gasCost := JStr "0x3"; r_stack := []; r_memory := [] |};
    {| r_pc := JStr "0x2"; r_op := "SSTORE"; r_depth := 1; r_gas := JStr "0x5205";
       r_gasCost := JStr "0xff"; r_stack := [JStr "0x60"; JStr "0x0"; JStr "0x1"];
       r_memory := [] |} ].

(** The lazy attributes as [__init__] leaves them (without revert data). *)
Definition fresh_lazy : lazy_fields :=
  {| _call_cost := 0; _trace_exc := None; _trace_origin := None; _raw_trace := None;
     _trace := None; _events := None; _return_value := None; _revert_msg := None; _dev_revert_msg := None;
     _modified_state := None; _new_contracts := None; _internal_transfers := None;
     _subcalls := None |}.

(** A pending transaction as [__init__] leaves it. *)
Definition pending_tx (id from_ : string) (n : Z) (data : string) : TransactionReceipt :=
  {| txid := id; sender := from_; receiver := Some "0x00000000000000000000000000000000000000aa";
     nonce := Some n; input := data; status := Pending; _confirmed := false; _silent := true;
     block_number := None; txindex := None; gas_used := None; contract_address := None;
     contract_name := None; fn_name := None; lazy := fresh_lazy |}.

(** Two transactions of one sender with the same nonce (the second
    replaces the first), both tracked. *)
Definition sample_world : world :=
  {| heap := fun i => match i with
                      | O => pending_tx "0x01" "0xf0" 5 "0x"
                      | _ => pending_tx "0x02" "0xf0" 5 "0x"
                      end;
     history := [0%nat; 1%nat];
     web3 := {| provider := true; _supports_traces := None |};
     clock := 0; log := [] |}.

Definition mined_receipt : rpc_receipt :=
  {| rc_blockHash := Some "0xb1"; rc_blockNumber := 10; rc_transactionIndex := 0;
     rc_gasUsed := 21000; rc_status := 1; rc_contractAddress := None |}.

(** A node on which transaction [0x01] is mined in block 10, the latest
    block; the trace endpoint exists and answers with an error payload. *)
Definition mined_view : node_view :=
  {| time_time := 1700000000;
     get_transaction_count := fun _ => 6;
     get_transaction_receipt := fun id => if string_eqb id "0x01" then Some mined_receipt else None;
     get_transaction := fun id => if string_eqb id "0x01"
                                  then Some {| tx_blockNumber := Some 10 |} else None;
     eth_block_number := 10;
     debug_traceTransaction := fun _ => TraceError "execution aborted";
     debug_probe := ProbeError (-32602) |}.

(** A node that has not mined anything, while the sender's transaction
    count has already passed nonce 5. *)
Definition replaced_view : node_view :=
  {| time_time := 1700000000;
     get_transaction_count := fun _ => 6;
     get_transaction_receipt := fun _ => None;
     get_transaction := fun _ => None;
     eth_block_number := 10;
     debug_traceTransaction := fun _ => TraceError "execution aborted";
     debug_probe := ProbeError (-32602) |}.

(** A registry that knows no contract; addresses made of digits are their
    own checksummed form. *)
Definition sample_registry : registry :=
  {| _find_contract := fun _ => None;
     EthAddress := fun s => Val (if startswith "0x" s then s else ("0x" +:+ s)%string);
     decode_string := fun _ => None |}.

Definition sample_env (views : node) : env :=
  {| nd := views; reg := sample_registry; legacy_hexbytes := false;
     coverage_active := false; check_cached := fun _ => false;
     _decode_logs := fun _ => Val []; _decode_trace := fun _ _ => Val [];
     _reverted_trace := fun r _ => (Val tt, lazy r) |}.

(** A confirmed contract call, not traced yet. *)
Definition confirmed_call : TransactionReceipt :=
  {| txid := "0x03"; sender := "0xf0";
     receiver := Some "0x00000000000000000000000000000000000000aa";
     nonce := Some 6; input := "0xa9059cbb"; status := Confirmed; _confirmed := true;
     _silent := true; block_number := Some 10; txindex := Some 0; gas_used := Some 51234;
     contract_address := None;
     contract_name := None; fn_name := None; lazy := fresh_lazy |}.

(** A confirmed plain value transfer, not traced yet. *)
Definition confirmed_transfer : TransactionReceipt :=
  {| txid := "0x04"; sender := "0xf0";
     receiver := Some "0x00000000000000000000000000000000000000bb";
     nonce := Some 7; input := "0x"; status := Confirmed; _confirmed := true;
     _silent := true; block_number := Some 10; txindex := Some 1; gas_used := Some 21000;
     contract_address := None;
     contract_name := None; fn_name := None; lazy := fresh_lazy |}.

Definition confirmed_world : world :=
  {| heap := fun i => match i with
                      | O => confirmed_call
                      | _ => confirmed_transfer
                      end;
     history := [0%nat; 1%nat];
     web3 := {| provider := true; _supports_traces := None |};
     clock := 0; log := [] |}.

(** The two transactions of [sample_world] once the first is confirmed in
    block 10 and the second dropped. *)
Definition settled_world : world :=
  {| heap := fun i => match i with
                      | O => set_block_number (Some 10)
                               (set__confirmed true (set_status Confirmed
                                  (pending_tx "0x01" "0xf0" 5 "0x")))
                      | _ => set__confirmed true (set_status Dropped
                                  (pending_tx "0x02" "0xf0" 5 "0x"))
                      end;
     history := [0%nat; 1%nat];
     web3 := {| provider := true; _supports_traces := None |};
     clock := 0; log := [] |}.

(** An expanded trace: a call whose callee clears a slot and destroys
    itself. *)
Definition expanded_step (op_ : string) (depth_ cost : Z) (stack_ : list string) : step :=
  {| s_pc := 0; s_op := op_; s_depth := depth_; s_gas := 100000; s_gasCost := cost;
     s_stack := stack_; s_memory := [];
     s_ann := Some {| address := "0x00000000000000000000000000000000000000aa";
                      contractName := None; fn := "<UnknownContract>.0xa9059cbb";
                      jumpDepth := 0; source := None |} |}.

Definition sample_expanded_trace : list step :=
  [ expanded_step "CALL" 0 700 [];
    expanded_step "SSTORE" 1 5000
      ["0000000000000000000000000000000000000000000000000000000000000000";
       "0000000000000000000000000000000000000000000000000000000000000007"];
    expanded_step "SELFDESTRUCT" 1 5000 [];
    expanded_step "STOP" 0 0 [] ].

(** A contract whose program-counter map tags a jump into an internal
    function (pc 0), a jump out of it (pc 6) and a second jump tagged as
    returning that no call matches (pc 7). *)
Definition token_pc (op_ : string) (fn_ : string) (jump_ : option string) : pc_entry :=
  {| pe_op := op_; pe_path := Some "0"; pe_offset := (10, 20); pe_fn := Some fn_;
     pe_jump := jump_; pe_dev := None; pe_statement := None; pe_branch := None |}.

Definition token_contract : contract :=
  {| ct_name := "Token";
     get_method := fun _ => Some "transfer";
     get_method_object := fun _ => None;
     allSourcePaths := Some (fun p => if string_eqb p "0" then Some "contracts/Token.sol"
                                      else None);
     pcMap := Some (fun pc => if pc =? 0 then Some (token_pc "JUMP" "Token.transfer" (Some "i"))
                              else if pc =? 5 then Some (token_pc "JUMPDEST" "Token._move" None)
                              else if pc =? 6 then Some (token_pc "JUMP" "Token._move" (Some "o"))
                              else if pc =? 7 then Some (token_pc "JUMP" "Token.transfer" (Some "o"))
                              else None);
     in_project := true;
     language := Some "Solidity" |}.

Definition token_registry : registry :=
  {| _find_contract := fun _ => Some token_contract;
     EthAddress := fun s => Val (if startswith "0x" s then s else ("0x" +:+ s)%string);
     decode_string := fun _ => None |}.

Definition plain_step (pc_ : Z) (op_ : string) : step :=
  {| s_pc := pc_; s_op := op_; s_depth := 0; s_gas := 100000; s_gasCost := 8;
     s_stack := []; s_memory := []; s_ann := None |}.

Definition jump_trace : list step :=
  [ plain_step 0 "JUMP"; plain_step 5 "JUMPDEST"; plain_step 6 "JUMP"; plain_step 7 "JUMP" ].

(** The entry of depth 0 for a call of [transfer] on the token. *)
Definition token_context : context :=
  {| c_address := "0x00000000000000000000000000000000000000aa"; c_jumpDepth := 0;
     c_name := Some "Token"; c_coverage := true; c_contract := Some token_contract;
     c_function := None; c_internal_calls := ["Token.transfer"];
     c_path_map := allSourcePaths token_contract; c_pc_map := pcMap token_contract;
     c_active_branches := Some ∅ |}.

(** *** Traces with calls to low addresses *)

(** The address [0x00…nn] of the number [n < 256], in lower case. *)
Definition low_address (n : N) : string :=
  ("0x" +:+ zfill 40 (string_of_list_ascii (hex_digits_of 2 n [])))%string.

(** A stack word that holds the number [n < 256]. *)
Definition stack_word (n : N) : jval :=
  JStr (zfill 64 (string_of_list_ascii (hex_digits_of 2 n []))).

Definition raw (pc_ : Z) (op_ : string) (depth_ : Z) (stack_ : list jval) : raw_step :=
  {| r_pc := JInt pc_; r_op := op_; r_depth := depth_; r_gas := JInt 90000;
     r_gasCost := JInt 700; r_stack := stack_; r_memory := [] |}.

(** The stack of [STATICCALL], top last: the output and input areas are
    empty, [target] is the callee. *)
Definition staticcall_stack (target : N) : list jval :=
  [stack_word 0; stack_word 0; stack_word 0; stack_word 0; stack_word target; stack_word 255].

(** The stack of [CALL], top last, with no value sent. *)
Definition call_stack (target : N) : list jval :=
  [stack_word 0; stack_word 0; stack_word 0; stack_word 0; stack_word 0;
   stack_word target; stack_word 255].

(** The transaction calls the address [0x00…0a] directly. *)
Definition trace_calling_0a : list raw_step :=
  [ raw 0 "STATICCALL" 0 (staticcall_stack 10); raw 1 "STOP" 0 [] ].

(** The transaction calls [0x00…bb], which calls the address [0x00…02]
    and returns. *)
Definition trace_calling_02 : list raw_step :=
  [ raw 0 "CALL" 0 (call_stack 187);
    raw 0 "STATICCALL" 1 (staticcall_stack 2);
    raw 1 "RETURN" 1 [stack_word 0; stack_word 0];
    raw 1 "STOP" 0 [] ].

(** A node with the trace endpoint that answers [trace] for every
    transaction. *)
Definition tracing_view (trace : list raw_step) : node_view :=
  {| time_time := 1700000000;
     get_transaction_count := fun _ => 7;
     get_transaction_receipt := fun _ => Some mined_receipt;
     get_transaction := fun _ => Some {| tx_blockNumber := Some 10 |};
     eth_block_number := 10;
     debug_traceTransaction := fun _ => TraceResult trace;
     debug_probe := ProbeError (-32602) |}.

Definition plain_subcall (from_ to_ op_ : string) (value_ : option Z) : subcall :=
  {| sc_from := from_; sc_to := to_; sc_op := op_; sc_value := value_;
     sc_function := None; sc_inputs := None; sc_calldata := Some "0x";
     sc_returndata := None; sc_return_value := None; sc_selfdestruct := false;
     sc_revert_msg := None |}.

(** A node without the trace endpoint: the probe is answered with the
    code -32601. *)
Definition untraceable_view : node_view :=
  {| time_time := 1700000000;
     get_transaction_count := fun _ => 7;
     get_transaction_receipt := fun _ => Some mined_receipt;
     get_transaction := fun _ => Some {| tx_blockNumber := Some 10 |};
     eth_block_number := 10;
     debug_traceTransaction := fun _ => TraceError "the method does not exist";
     debug_probe := ProbeError (-32601) |}.

(** A [RETURN] step that returns four bytes from offset 30 of a memory of
    one word, whose last byte is [0xab]. *)
Definition returning_step : step :=
  {| s_pc := 40; s_op := "RETURN"; s_depth := 0; s_gas := 1000; s_gasCost := 0;
     s_stack := ["0000000000000000000000000000000000000000000000000000000000000004";
                 "000000000000000000000000000000000000000000000000000000000000001e"];
     s_memory := ["00000000000000000000000000000000000000000000000000000000000000ab"];
     s_ann := None |}.

(** A node on which transaction [0x01] is mined at first and, from the
    fifth observation on, neither its receipt nor the transaction itself is
    known any more. *)
Definition losing_node : node :=
  fun k => if (k <? 4)%nat then mined_view else replaced_view.

(** The transaction calls the address [0x00…02] and steps are reported
    inside it: the frame of [0x00…02] makes a call to [0x00…cc]. *)
Definition trace_calling_from_02 : list raw_step :=
  [ raw 0 "CALL" 0 (call_stack 2);
    raw 0 "STATICCALL" 1 (staticcall_stack 204);
    raw 1 "STOP" 1 [];
    raw 1 "STOP" 0 [] ].

(** ** Notions used by the further properties of Part II *)

(** The address made of [0x], 38 zeros and the two characters [a], [b]. *)
Definition address_ending (a b : ascii) : string :=
  string_of_list_ascii ("0"%char :: "x"%char :: repeat "0"%char 38 ++ [a; b]).

(** A step without the keys the walk adds. *)
Definition bare (st : step) : step := set_s_ann None st.

(** A part of the walk that changes no step beyond its annotation, and
    neither adds nor removes a step. *)
Definition annotates_only {A} (m : M xstate A) : Prop :=
  forall x, map bare (x_trace (snd (m x))) = map bare (x_trace x).

(** The exception recorded on the transaction [self]. *)
Definition exc_of (self : nat) (w : world) : option exn := _trace_exc (lazy (heap w self)).

(** A computation that, when it returns, has left the recorded exception
    of [self] as it was. *)
Definition returns_keep_exc (self : nat) {A} (m : M world A) : Prop :=
  forall w a w', m w = (Val a, w') -> exc_of self w' = exc_of self w.

(** A step the walk has visited: it has the keys [address], [contractName],
    [fn], [jumpDepth] and [source]. *)
Definition annotated (st : step) : Prop := s_ann st <> None.

(** [tr'] has the steps of [tr] at the same places, and those annotated in
    [tr] are annotated in [tr']. *)
Definition no_less_annotated (tr tr' : list step) : Prop :=
  length tr' = length tr
  /\ forall j st, tr !! j = Some st -> annotated st ->
                  exists st', tr' !! j = Some st' /\ annotated st'.

(** A part of the walk that removes no annotation, whether it returns or
    raises. *)
Definition keeps_annotations {A} (m : M xstate A) : Prop :=
  forall x, no_less_annotated (x_trace x) (x_trace (snd (m x))).

(** A part of the walk that, when it returns, has annotated the step at
    index [i] of the trace. *)
Definition annotates_step (i : nat) {A} (m : M xstate A) : Prop :=
  forall x a x', (i < length (x_trace x))%nat -> m x = (Val a, x') ->
                 exists st, x_trace x' !! i = Some st /\ annotated st.

(** ** The displayed name of a transaction *)

(** The text before the first dot and the text after it; [None] without a
    dot. *)
Fixpoint split_dot (cs : list ascii) : option (list ascii * list ascii) :=
  match cs with
  | [] => None
  | c :: r =>
      if Ascii.eqb c "." then Some ([], r)
      else match split_dot r with
           | Some (a, b) => Some (c :: a, b)
           | None => None
           end
  end.

(** Lines 211-217 of [__init__]: [fn_name] is the argument [name], unless
    it is text with a dot; then [name.split(".", maxsplit=1)] gives the two
    names. *)
Definition init_names (name : option string) (r : TransactionReceipt) : TransactionReceipt :=
  match name with
  | None => set_fn_name None (set_contract_name None r)
  | Some s =>
      match split_dot (list_ascii_of_string s) with
      | Some (a, b) => set_fn_name (Some (string_of_list_ascii b))
                         (set_contract_name (Some (string_of_list_ascii a)) r)
      | None => set_fn_name (Some s) (set_contract_name None r)
      end
  end.

(** Lines 588-602 of [_set_from_tx]: when no function name is known yet and
    the receiver is a known contract, the names come from the contract.
    [found] is the answer of [state._find_contract(tx.get("to"))], [None]
    also when it raises [ContractNotFound]. *)
Definition names_from_tx (found : option contract) (calldata : string) (r : TransactionReceipt)
  : TransactionReceipt :=
  if str_true (fn_name r) then r
  else match found with
       | Some c => set_fn_name (get_method c calldata) (set_contract_name (Some (ct_name c)) r)
       | None => r
       end.

(** [_full_name()] *)
Definition _full_name (r : TransactionReceipt) : string :=
  if str_true (contract_name r) && str_true (fn_name r)
  then (default "" (contract_name r) +:+ "." +:+ default "" (fn_name r))%string
  else if str_true (fn_name r) then default "" (fn_name r) else "Transaction".

(** ** [web3.py]: the connection object, its caches and the ENS cache *)

Module Web3.

Inductive provider_t :=
| IPCProvider (uri : string) (timeout : Z)
| WebsocketProvider (uri : string) (close_timeout : Z)
| HTTPProvider (uri : string) (timeout : Z).

(** The exceptions raised in this file. *)
Inductive error :=
| ConnectionError                       (* "web3 is not currently connected" *)
| UnknownURI                            (* ValueError("Unknown URI - must be ...") *)
| UnexpandedVariable (uri : string)     (* ValueError("Unable to expand environment variable ...") *)
| MainnetUndefined
| UnsetENSName (domain : string)
| InvalidAddress                        (* raised by [to_address] *)
| ProviderFailure                       (* raised by the provider while testing the connection *)
| RequestFailure (e : exn)              (* raised by [provider.make_request] *)
| KeyError.

Inductive result (A : Type) :=
| Ok (a : A)
| Err (e : error).
Arguments Ok {A} a.
Arguments Err {A} e.

(** The attributes of the [Web3] object that this file reads and writes.
    The middleware onion is not modelled: [_remove_middlewares] and the
    injection done by [reset_middlewares] are recorded as effects. *)
Record Web3 := {
  provider : option provider_t;
  _mainnet_w3 : option string;          (* [_Web3(HTTPProvider(uri))], by its URI *)
  _genesis_hash : option string;
  _chain_uri : option string;
  _supports_traces : option bool;
  _chain_id : option Z;
}.

Definition set_provider (v : option provider_t) (r : Web3) : Web3 :=
  {| provider := v; _mainnet_w3 := _mainnet_w3 r; _genesis_hash := _genesis_hash r;
     _chain_uri := _chain_uri r; _supports_traces := _supports_traces r;
     _chain_id := _chain_id r |}.
Definition set__mainnet_w3 (v : option string) (r : Web3) : Web3 :=
  {| provider := provider r; _mainnet_w3 := v; _genesis_hash := _genesis_hash r;
     _chain_uri := _chain_uri r; _supports_traces := _supports_traces r;
     _chain_id := _chain_id r |}.
Definition set__genesis_hash (v : option string) (r : Web3) : Web3 :=
  {| provider := provider r; _mainnet_w3 := _mainnet_w3 r; _genesis_hash := v;
     _chain_uri := _chain_uri r; _supports_traces := _supports_traces r;
     _chain_id := _chain_id r |}.
Definition set__chain_uri (v : option string) (r : Web3) : Web3 :=
  {| provider := provider r; _mainnet_w3 := _mainnet_w3 r; _genesis_hash := _genesis_hash r;
     _chain_uri := v; _supports_traces := _supports_traces r; _chain_id := _chain_id r |}.
Definition set__supports_traces (v : option bool) (r : Web3) : Web3 :=
  {| provider := provider r; _mainnet_w3 := _mainnet_w3 r; _genesis_hash := _genesis_hash r;
     _chain_uri := _chain_uri r; _supports_traces := v; _chain_id := _chain_id r |}.
Definition set__chain_id (v : option Z) (r : Web3) : Web3 :=
  {| provider := provider r; _mainnet_w3 := _mainnet_w3 r; _genesis_hash := _genesis_hash r;
     _chain_uri := _chain_uri r; _supports_traces := _supports_traces r; _chain_id := v |}.

(** What is outside the program, as seen at one instant. *)
Record outside := {
  time : Z;                                     (* [time.time()], in ticks *)
  path_exists : string -> option bool;          (* [Path(uri).exists()]; [None]: [OSError] *)
  expandvars : string -> string;                (* [os.path.expandvars] *)
  is_connected_to : provider_t -> option bool;  (* [super().is_connected()]; [None]: it raises *)
  eth_chain_id : Z;
  eth_block_number : Z;
  block_hash : Z -> list byte;                  (* [eth.get_block(n)["hash"]] *)
  probe : probe_response;                       (* the malformed trace request *)
  ens_address : string -> option string;        (* [ns.address(domain)] *)
}.

(** The configuration and the outside over time. *)
Record env := {
  hz : Z;                                       (* ticks per second *)
  legacy_hexbytes : bool;                       (* hexbytes < 1.0 *)
  active_network_id : string;                   (* [CONFIG.active_network["id"]] *)
  mainnet_host : option string;                 (* [CONFIG.networks["mainnet"]["host"]] *)
  to_address : string -> option string;         (* [brownie.convert.to_address]; [None]: it raises *)
  out : nat -> outside;
}.

Inductive request :=
| ReqIsConnected
| ReqProbe
| ReqChainId
| ReqBlockNumber
| ReqBlock (n : Z)
| ReqEns (domain : string).

(** One entry of [_ens_cache]: the address (or [None]) and the second
    it was stored at. *)
Definition ens_entry : Type := option string * Z.

Inductive event :=
| RemoveMiddlewares                              (* [_remove_middlewares()] *)
| InjectMiddlewares                              (* the rest of [reset_middlewares()] *)
| Request (r : request)
| WriteEnsFile (cache : gmap string ens_entry).  (* [json_dump(_ens_cache, fp)] *)

(** The [web3] object, the two module-level dicts, the number of
    observations made so far and the effects so far (oldest first). *)
Record state := {
  web3 : Web3;
  _chain_uri_cache : gmap string string;
  _ens_cache : gmap string ens_entry;
  clock : nat;
  log : list event;
}.

Definition set_web3 (v : Web3) (s : state) : state :=
  {| web3 := v; _chain_uri_cache := _chain_uri_cache s; _ens_cache := _ens_cache s;
     clock := clock s; log := log s |}.
Definition set__chain_uri_cache (v : gmap string string) (s : state) : state :=
  {| web3 := web3 s; _chain_uri_cache := v; _ens_cache := _ens_cache s;
     clock := clock s; log := log s |}.
Definition set__ens_cache (v : gmap string ens_entry) (s : state) : state :=
  {| web3 := web3 s; _chain_uri_cache := _chain_uri_cache s; _ens_cache := v;
     clock := clock s; log := log s |}.
Definition set_clock (v : nat) (s : state) : state :=
  {| web3 := web3 s; _chain_uri_cache := _chain_uri_cache s; _ens_cache := _ens_cache s;
     clock := v; log := log s |}.
Definition set_log (v : list event) (s : state) : state :=
  {| web3 := web3 s; _chain_uri_cache := _chain_uri_cache s; _ens_cache := _ens_cache s;
     clock := clock s; log := v |}.

(** A computation on [state] that may raise; the state reached when the
    exception is raised is kept. *)
Definition W (A : Type) : Type := state -> result A * state.

Definition ret {A} (a : A) : W A := fun s => (Ok a, s).
Definition raise {A} (e : error) : W A := fun s => (Err e, s).
Definition bind {A B} (m : W A) (k : A -> W B) : W B :=
  fun s => match m s with
           | (Ok a, s') => k a s'
           | (Err e, s') => (Err e, s')
           end.
Definition gets {A} (f : state -> A) : W A := fun s => (Ok (f s), s).
Definition modify (f : state -> state) : W unit := fun s => (Ok tt, f s).
Definition when (b : bool) (m : W unit) : W unit := if b then m else ret tt.

(** [try: m except Exception: pass] *)
Definition try_pass (m : W unit) : W unit :=
  fun s => match m s with
           | (Err _, s') => (Ok tt, s')
           | r => r
           end.

Declare Scope web3_scope.
Delimit Scope web3_scope with web3.
Notation "'let*' x ':=' c1 'in' c2" := (bind c1 (fun x => c2))
  (at level 10, x name, c1 at level 100, c2 at level 200) : web3_scope.
Notation "c1 ;; c2" := (bind c1 (fun _ => c2))
  (at level 100, c2 at level 200, right associativity) : web3_scope.
Local Open Scope web3_scope.

Definition emit (e : event) : W unit := modify (fun s => set_log (log s ++ [e]) s).

(** One observation of the outside: the answer comes from the view at the
    current instant, and the instant advances. *)
Definition observe {A} (E : env) (f : outside -> A) : W A :=
  fun s => (Ok (f (out E (clock s))), set_clock (S (clock s)) s).

Definition request_ {A} (E : env) (r : request) (f : outside -> A) : W A :=
  emit (Request r) ;; observe E f.

Definition setattr (f : Web3 -> Web3) : W unit := modify (fun s => set_web3 (f (web3 s)) s).
Definition getattr {A} (f : Web3 -> A) : W A := gets (fun s => f (web3 s)).

(** [x in s] for a character [x]. *)
Definition contains (x : ascii) (s : string) : bool :=
  existsb (Ascii.eqb x) (list_ascii_of_string s).

(** [_expand_environment_vars(uri)] *)
Definition _expand_environment_vars (E : env) (uri : string) : W string :=
  if negb (contains "$" uri) then ret uri
  else
    let* expanded := observe E (fun o => expandvars o uri) in
    if negb (string_eqb uri expanded) then ret expanded
    else raise (UnexpandedVariable uri).

Definition _remove_middlewares : W unit := emit RemoveMiddlewares.

(** [is_connected()] and [isConnected()] *)
Definition is_connected (E : env) : W bool :=
  let* p := getattr provider in
  match p with
  | None => ret false
  | Some p =>
      let* r := request_ E ReqIsConnected (fun o => is_connected_to o p) in
      match r with
      | Some b => ret b
      | None => raise ProviderFailure
      end
  end.

(** [reset_middlewares()] *)
Definition reset_middlewares : W unit :=
  let* p := getattr provider in
  match p with
  | None => raise ConnectionError
  | Some _ => _remove_middlewares ;; emit InjectMiddlewares
  end.

(** Lines 53-69 of [connect]: the provider is forgotten, then chosen from
    the expanded URI. *)
Definition choose_provider (E : env) (uri : string) (timeout : Z) : W unit :=
  setattr (set_provider None) ;;
  let* uri := _expand_environment_vars E uri in
  let* found := observe E (fun o => path_exists o uri) in
  when (match found with Some true => true | _ => false end)
    (setattr (set_provider (Some (IPCProvider uri timeout)))) ;;
  let* p := getattr provider in
  match p with
  | Some _ => ret tt
  | None =>
      if startswith "ws" uri
      then setattr (set_provider (Some (WebsocketProvider uri timeout)))
      else if startswith "http" uri
           then setattr (set_provider (Some (HTTPProvider uri timeout)))
           else raise UnknownURI
  end.

(** [connect(uri, timeout)] *)
Definition connect (E : env) (uri : string) (timeout : Z) : W unit :=
  _remove_middlewares ;;
  choose_provider E uri timeout ;;
  try_pass (let* c := is_connected E in when c reset_middlewares).

(** [disconnect()] *)
Definition disconnect : W unit :=
  let* p := getattr provider in
  match p with
  | Some _ =>
      setattr (set_provider None) ;;
      setattr (set__genesis_hash None) ;;
      setattr (set__chain_uri None) ;;
      setattr (set__supports_traces None) ;;
      setattr (set__chain_id None) ;;
      _remove_middlewares
  | None => ret tt
  end.

(** The [supports_traces] property, on this state. *)
Definition supports_traces (E : env) : W bool :=
  let* p := getattr provider in
  match p with
  | None => ret false
  | Some _ =>
      let* cached := getattr _supports_traces in
      match cached with
      | Some b => ret b
      | None =>
          let* r := request_ E ReqProbe probe in
          let* b := match r with
                    | ProbeError code => ret (negb (code =? -32601))
                    | ProbeNoError => raise KeyError
                    | ProbeHTTPError => ret false
                    | ProbeRaises e => raise (RequestFailure e)
                    end in
          setattr (set__supports_traces (Some b)) ;;
          ret b
      end
  end.

(** [hash.hex().removeprefix("0x")] *)
Definition plain_hex (E : env) (hash : list byte) : string :=
  removeprefix "0x" (HexBytes_hex (legacy_hexbytes E) hash).

(** The [genesis_hash] property. *)
Definition genesis_hash (E : env) : W string :=
  let* p := getattr provider in
  match p with
  | None => raise ConnectionError
  | Some _ =>
      let* cached := getattr _genesis_hash in
      match cached with
      | Some h => ret h
      | None =>
          let* hash := request_ E (ReqBlock 0) (fun o => block_hash o 0) in
          setattr (set__genesis_hash (Some (plain_hex E hash))) ;;
          ret (plain_hex E hash)
      end
  end.

(** The [chain_uri] property; every [self.genesis_hash] is a reading of
    the property above. *)
Definition chain_uri (E : env) : W string :=
  let* p := getattr provider in
  match p with
  | None => raise ConnectionError
  | Some _ =>
      let* g := genesis_hash E in
      let* cache := gets _chain_uri_cache in
      when (negb (is_Some_b (cache !! g)))
        (let* latest := request_ E ReqBlockNumber eth_block_number in
         let block_number := Z.max (latest - 16) 0 in
         let* hash := request_ E (ReqBlock block_number) (fun o => block_hash o block_number) in
         let* g := genesis_hash E in
         let chain_uri := ("blockchain://" +:+ g +:+ "/block/" +:+ plain_hex E hash)%string in
         let* g := genesis_hash E in
         modify (fun s => set__chain_uri_cache (<[g := chain_uri]> (_chain_uri_cache s)) s)) ;;
      let* g := genesis_hash E in
      let* cache := gets _chain_uri_cache in
      match cache !! g with
      | Some uri => ret uri
      | None => raise KeyError
      end
  end.

(** The [chain_id] property. *)
Definition chain_id (E : env) : W Z :=
  let* p := getattr provider in
  match p with
  | None => raise ConnectionError
  | Some _ =>
      let* cached := getattr _chain_id in
      match cached with
      | Some c => ret c
      | None =>
          let* c := request_ E ReqChainId eth_chain_id in
          setattr (set__chain_id (Some c)) ;;
          ret c
      end
  end.

(** The web3 instance [_mainnet] answers with: this object, or the
    separate object connected to the host of the mainnet network. *)
Inductive web3_ref :=
| Self
| MainnetW3 (uri : string).

(** The [_mainnet] property. *)
Definition _mainnet (E : env) : W web3_ref :=
  let* c := is_connected E in
  if c && string_eqb (active_network_id E) "mainnet" then ret Self
  else
    match mainnet_host E with
    | None => raise MainnetUndefined
    | Some host =>
        let* m := getattr _mainnet_w3 in
        match m with
        | Some uri => ret (MainnetW3 uri)
        | None =>
            let* uri := _expand_environment_vars E host in
            setattr (set__mainnet_w3 (Some uri)) ;;
            ret (MainnetW3 uri)
        end
    end.

(** [c.lower()] on an ASCII character. *)
Definition lower_char (c : ascii) : ascii :=
  let n := N_of_ascii c in
  if ((65 <=? n) && (n <=? 90))%N then ascii_of_N (n + 32) else c.

(** [s.lower()] on ASCII text. *)
Definition lower (s : string) : string :=
  string_of_list_ascii (map lower_char (list_ascii_of_string s)).

(** [_resolve_address(domain)] for a text [domain]. *)
Definition _resolve_address (E : env) (domain : string) : W string :=
  if negb (contains "." domain) then
    match to_address E domain with
    | Some a => ret a
    | None => raise InvalidAddress
    end
  else
    let domain := lower domain in
    let* cache := gets _ens_cache in
    let* stale :=
      match cache !! domain with
      | None => ret true
      | Some (_, stored) =>
          let* now := observe E time in
          ret (now - stored * hz E >? 86400 * hz E)
      end in
    when stale
      (let* _ := _mainnet E in
       let* address := request_ E (ReqEns domain) (fun o => ens_address o domain) in
       let* now := observe E time in
       modify (fun s => set__ens_cache (<[domain := (address, now / hz E)]> (_ens_cache s)) s) ;;
       let* cache := gets _ens_cache in
       emit (WriteEnsFile cache)) ;;
    let* cache := gets _ens_cache in
    match cache !! domain with
    | Some (Some address, _) => ret address
    | Some (None, _) => raise (UnsetENSName domain)
    | None => raise KeyError
    end.

End Web3.

(** The caches of the [Web3] object and of the module are the same in two
    states. *)
Definition same_caches (s s' : Web3.state) : Prop :=
  Web3._genesis_hash (Web3.web3 s') = Web3._genesis_hash (Web3.web3 s)
  /\ Web3._chain_uri (Web3.web3 s') = Web3._chain_uri (Web3.web3 s)
  /\ Web3._supports_traces (Web3.web3 s') = Web3._supports_traces (Web3.web3 s)
  /\ Web3._chain_id (Web3.web3 s') = Web3._chain_id (Web3.web3 s)
  /\ Web3._mainnet_w3 (Web3.web3 s') = Web3._mainnet_w3 (Web3.web3 s)
  /\ Web3._chain_uri_cache s' = Web3._chain_uri_cache s
  /\ Web3._ens_cache s' = Web3._ens_cache s.

(** A computation that leaves the caches alone. *)
Definition keeps_caches {A} (m : Web3.W A) : Prop := forall s, same_caches s (snd (m s)).

(** The provider [connect] chooses for a URI, or the exception it raises:
    [expanded] is the URI after [_expand_environment_vars], [is_path]
    tells whether it is an existing path. *)
Definition chosen_provider (uri expanded : string) (is_path : bool) (timeout : Z)
  : Web3.provider_t + Web3.error :=
  if Web3.contains "$" uri && string_eqb uri expanded then inr (Web3.UnexpandedVariable uri)
  else if is_path then inl (Web3.IPCProvider expanded timeout)
  else if startswith "ws" expanded then inl (Web3.WebsocketProvider expanded timeout)
  else if startswith "http" expanded then inl (Web3.HTTPProvider expanded timeout)
  else inr Web3.UnknownURI.

(** The text of a hash, whatever the version of hexbytes. *)
Definition hash_text (hash : list byte) : string := string_of_list_ascii (hexlify hash).

(** *** Concrete inputs *)

(** A chain of 20 blocks with chain id 5; the hash of block [n] is the
    byte [n] repeated 32 times.  No path exists, every provider is
    connected, the environment holds no variable. *)
Definition sample_outside : Web3.outside :=
  {| Web3.time := 1700000000000;
     Web3.path_exists := fun _ => Some false;
     Web3.expandvars := fun uri => uri;
     Web3.is_connected_to := fun _ => Some true;
     Web3.eth_chain_id := 5;
     Web3.eth_block_number := 20;
     Web3.block_hash := fun n => repeat (default x00 (Byte.of_N (Z.to_N n))) 32;
     Web3.probe := ProbeError (-32602);
     Web3.ens_address := fun d => if string_eqb d "brownie.eth"
                                  then Some "0x00000000000000000000000000000000000000aa"
                                  else None |}.

Definition sample_web3_env : Web3.env :=
  {| Web3.hz := 1000; Web3.legacy_hexbytes := false; Web3.active_network_id := "mainnet";
     Web3.mainnet_host := Some "https://mainnet.example";
     Web3.to_address := fun a => Some a;
     Web3.out := fun _ => sample_outside |}.

(** The object as [__init__] leaves it, the module-level dicts empty. *)
Definition fresh_web3 : Web3.state :=
  {| Web3.web3 := {| Web3.provider := None; Web3._mainnet_w3 := None;
                     Web3._genesis_hash := None; Web3._chain_uri := None;
                     Web3._supports_traces := None; Web3._chain_id := None |};
     Web3._chain_uri_cache := ∅; Web3._ens_cache := ∅; Web3.clock := 0; Web3.log := [] |}.

Definition connected_web3 : Web3.state :=
  Web3.set_web3 (Web3.set_provider (Some (Web3.HTTPProvider "http://localhost:8545" 30))
                   (Web3.web3 fresh_web3)) fresh_web3.

(** A state whose ENS cache holds [brownie.eth], stored 10000 seconds
    before the time of [sample_outside]. *)
Definition ens_cached_web3 : Web3.state :=
  Web3.set__ens_cache
    {[ "brownie.eth"%string :=
         (Some "0x00000000000000000000000000000000000000aa"%string, 1699990000) ]}
    fresh_web3.

(** ** [_traceback_string]: the steps of a traceback *)

Definition is_revert (st : step) : bool := str_in (s_op st) ["REVERT"; "INVALID"].

(** The truth value of [step["source"]]: [False] or a dict. *)
Definition has_source (st : step) : res bool :=
  match s_ann st with
  | Some a => Val (is_Some_b (source a))
  | None => Exn KeyError
  end.

(** [next(i for i in range(len(trace)) if p(trace[i]))], counted from
    [i]; [None] is [StopIteration]. *)
Fixpoint first_index (p : step -> bool) (trace : list step) (i : nat) : option nat :=
  match trace with
  | [] => None
  | st :: r => if p st then Some i else first_index p r (S i)
  end.

(** [next(i for i in range(idx, -1, -1) if p(trace[i]))]; [None] is
    [StopIteration]. *)
Fixpoint scan_down (p : step -> res bool) (trace : list step) (idx : nat) : res (option nat) :=
  let? st := py_nth trace (Z.of_nat idx) in
  let? b := p st in
  if b then Val (Some idx)
  else match idx with
       | O => Val None
       | S j => scan_down p trace j
       end.

(** [step["depth"] < depth or (step["depth"] == depth and
    step["jumpDepth"] < jump_depth)] *)
Definition outer_frame (depth jump_depth : Z) (st : step) : res bool :=
  if s_depth st <? depth then Val true
  else if s_depth st =? depth
       then let? j := step_jumpDepth st in Val (j <? jump_depth)
       else Val false.

(** The [while True] loop of [_traceback_string]. *)
Fixpoint traceback_loop (fuel : nat) (trace : list step) (idx : nat) (depth jump_depth : Z)
    (result : list nat) : res (list nat) :=
  match fuel with
  | O => Exn OutOfFuel
  | S fuel' =>
      let? found := scan_down (outer_frame depth jump_depth) trace idx in
      match found with
      | None => Val result
      | Some i =>
          let? st := py_nth trace (Z.of_nat i) in
          let? j := step_jumpDepth st in
          traceback_loop fuel' trace idx (s_depth st) j (result ++ [i])
      end
  end.

(** The list [result] of [_traceback_string]; [None] where it returns the
    empty text. *)
Definition traceback_frames (fuel : nat) (trace : list step) : res (option (list nat)) :=
  match first_index is_revert trace 0 with
  | None => Val None
  | Some idx =>
      let? first := scan_down has_source trace idx in
      match first with
      | None => Val None
      | Some i =>
          let? st := py_nth trace (Z.of_nat idx) in
          let? j := step_jumpDepth st in
          let? result := traceback_loop fuel trace idx (s_depth st) j [i] in
          Val (Some result)
      end
  end.

(** A line feed. *)
Definition nl : string := String (ascii_of_nat 10) EmptyString.

(** [_traceback_string()] before decoration.  [color] and [bright_blue]
    are the texts of the colour codes; [_source_string] is the method of
    that name, whose text comes from the source files. *)
Definition _traceback_string_body (fuel : nat) (E : env) (color bright_blue : string)
    (_source_string : nat -> Z -> Z -> M world (option string)) (self : nat)
  : M world string :=
  let* st := getattr self status in
  if Status_value st =? 1 then ret ""%string
  else
    let* t := trace E self in
    match t with
    | Some (Some tr) =>
        let* frames := lift (traceback_frames fuel tr) in
        match frames with
        | None => ret ""%string
        | Some result =>
            let* id := getattr self txid in
            let* lines :=
              (fix each (l : list nat) : M world (list string) :=
                 match l with
                 | [] => ret []
                 | i :: r =>
                     let* line := _source_string self (Z.of_nat i) 0 in
                     match line with
                     | Some text => let* rest := each r in ret (text :: rest)
                     | None => raise TypeError
                     end
                 end) (rev result) in
            ret (color +:+ "Traceback for '" +:+ bright_blue +:+ id +:+ color +:+ "':" +:+ nl
                 +:+ String.concat nl lines)%string
        end
    | _ => raise TypeError
    end.

Definition _traceback_string (fuel : nat) (E : env) (color bright_blue : string)
    (_source_string : nat -> Z -> Z -> M world (option string)) :=
  trace_inspection (_traceback_string_body fuel E color bright_blue _source_string).

(** The key a frame is compared by. *)
Definition frame_key (st : step) : Z * Z :=
  (s_depth st, match s_ann st with Some a => jumpDepth a | None => 0 end).

(** [a] is an outer frame of [b]: less deep, or as deep with a smaller
    jump depth. *)
Definition key_lt (a b : Z * Z) : Prop :=
  fst a < fst b \/ (fst a = fst b /\ snd a < snd b).

(** No step of [trace] from index [lo] up to [idx] is an outer frame of
    the key [k]. *)
Definition none_outer (trace : list step) (lo idx : nat) (k : Z * Z) : Prop :=
  forall j st, (lo <= j <= idx)%nat -> trace !! j = Some st -> ~ key_lt (frame_key st) k.

(** The frames [l], found from the step at index [prev] with key [k]:
    each one is the nearest step before [prev], counted back from [idx],
    that is an outer frame of the one before it; after the last one no
    outer frame is left. *)
Fixpoint outer_frames (trace : list step) (idx prev : nat) (k : Z * Z) (l : list nat) : Prop :=
  match l with
  | [] => none_outer trace 0 idx k
  | i :: r =>
      (i < prev)%nat /\
      (exists st, trace !! i = Some st /\ key_lt (frame_key st) k /\
                  none_outer trace (S i) idx k /\
                  outer_frames trace idx i (frame_key st) r)
  end.

(** A failing call that reverts inside an internal function of a called
    contract, after a step without source. *)
Definition framed_step (op_ : string) (depth_ jd : Z) (src : option source_loc) : step :=
  {| s_pc := 0; s_op := op_; s_depth := depth_; s_gas := 100000; s_gasCost := 3;
     s_stack := []; s_memory := [];
     s_ann := Some {| address := "0x00000000000000000000000000000000000000aa";
                      contractName := Some "Token"; fn := "Token.transfer";
                      jumpDepth := jd; source := src |} |}.

Definition token_loc : source_loc := {| filename := "contracts/Token.sol"; offset := (120, 164) |}.

Definition reverting_trace : list step :=
  [ framed_step "PUSH1" 0 0 (Some token_loc);
    framed_step "JUMP" 0 1 None;
    framed_step "CALL" 0 1 (Some token_loc);
    framed_step "PUSH1" 1 0 (Some token_loc);
    framed_step "JUMPDEST" 1 1 None;
    framed_step "REVERT" 1 1 (Some token_loc);
    framed_step "REVERT" 0 1 (Some token_loc) ].

(** A trace of ganache before 6.10.0, whose first step carries the cost of
    the call, and a world where [_get_trace] has stored it. *)
Definition old_ganache_step (pc_ : Z) (op_ : string) (cost : Z) : raw_step :=
  {| r_pc := JInt pc_; r_op := op_; r_depth := 0; r_gas := JInt 90000;
     r_gasCost := JInt cost; r_stack := []; r_memory := [] |}.

Definition old_ganache_trace : list raw_step :=
  [ old_ganache_step 0 "PUSH1" 21464; old_ganache_step 2 "PUSH1" 3;
    old_ganache_step 4 "STOP" 3 ].

Definition fetched_world : world :=
  snd (setattr 0 (with_lazy (set__raw_trace (Some old_ganache_trace))) confirmed_world).

(* ===================================================================== *)
(** * Part II: theorems                                                   *)
(* ===================================================================== *)

(** ** The two monads *)

Lemma bind_val {S A B} (m : M S A) (k : A -> M S B) s a s' :
  m s = (Val a, s') -> bind m k s = k a s'.
Proof. intros H. unfold bind. now rewrite H. Qed.

Lemma bind_exn {S A B} (m : M S A) (k : A -> M S B) s e s' :
  m s = (Exn e, s') -> bind m k s = (Exn e, s').
Proof. intros H. unfold bind. now rewrite H. Qed.

Lemma bind_inv {S A B} (m : M S A) (k : A -> M S B) s b s' :
  bind m k s = (Val b, s') -> exists a s1, m s = (Val a, s1) /\ k a s1 = (Val b, s').
Proof.
  unfold bind. destruct (m s) as [[a|e] s1]; [|discriminate].
  intros H. now exists a, s1.
Qed.

(** ** Normalisation of the raw trace *)

Section HexFacts.

Lemma hex_char_is_hex (n : N) : (n < 16)%N -> is_hex (hex_char n) = true.
Proof.
  intros H. destruct n as [|p]; [reflexivity|].
  do 4 (destruct p as [p|p|]; try reflexivity; try lia).
Qed.

Lemma is_hex_not_x (c : ascii) :
  is_hex c = true -> Ascii.eqb c "x" = false /\ Ascii.eqb c "X" = false.
Proof.
  intros H. split.
  - destruct (Ascii.eqb_spec c "x") as [->|]; [discriminate H | reflexivity].
  - destruct (Ascii.eqb_spec c "X") as [->|]; [discriminate H | reflexivity].
Qed.

Lemma is_hex_not_sign (c : ascii) : is_hex c = true -> is_sign c = false.
Proof.
  intros H. unfold is_sign.
  destruct (Ascii.eqb_spec c "+") as [->|]; [discriminate H|].
  destruct (Ascii.eqb_spec c "-") as [->|]; [discriminate H | reflexivity].
Qed.

Lemma is_hex_not_minus (c : ascii) :
  is_hex c = true -> Ascii.eqb c "-" = false /\ Ascii.eqb c "+" = false.
Proof.
  intros H. split.
  - destruct (Ascii.eqb_spec c "-") as [->|]; [discriminate H | reflexivity].
  - destruct (Ascii.eqb_spec c "+") as [->|]; [discriminate H | reflexivity].
Qed.

Lemma hexlify_length (bs : list byte) : length (hexlify bs) = (2 * length bs)%nat.
Proof. induction bs as [|b bs IH]; simpl; [reflexivity | rewrite IH; lia]. Qed.

Lemma hexlify_hex (bs : list byte) : hex_text (hexlify bs) = true.
Proof.
  induction bs as [|b bs IH]; [reflexivity|].
  pose proof (Byte.to_N_bounded b) as Hb.
  unfold hex_text in *. simpl. rewrite IH.
  rewrite !hex_char_is_hex; [reflexivity | |].
  - apply N.mod_lt. discriminate.
  - apply N.Div0.div_lt_upper_bound. lia.
Qed.

(** Unhexlifying [2 * n] hexadecimal characters gives [n] bytes. *)
Lemma unhexlify_hex (n : nat) : forall cs,
  length cs = (2 * n)%nat -> hex_text cs = true ->
  exists bs, unhexlify cs = Some bs /\ length bs = n.
Proof.
  induction n as [|n IH]; intros cs Hlen Hhex.
  - destruct cs; [|discriminate]. exists []. split; reflexivity.
  - destruct cs as [|a [|b rest]]; simpl in Hlen; try lia.
    unfold hex_text in Hhex. simpl in Hhex.
    apply andb_prop in Hhex as [Ha Hhex]. apply andb_prop in Hhex as [Hb Hrest].
    destruct (IH rest) as (bs & Hbs & Hl); [lia | exact Hrest |].
    unfold is_hex in Ha, Hb. simpl.
    destruct (hex_val a); [|discriminate]. destruct (hex_val b); [|discriminate].
    rewrite Hbs. eexists. split; [reflexivity|]. simpl. now rewrite Hl.
Qed.

Lemma hex_value_hex (cs : list ascii) : forall acc,
  hex_text cs = true -> exists n, hex_value acc cs = Some n.
Proof.
  induction cs as [|c cs IH]; intros acc H; simpl.
  - now exists acc.
  - unfold hex_text in H. simpl in H. apply andb_prop in H as [Hc H].
    unfold is_hex in Hc. destruct (hex_val c); [|discriminate]. now apply IH.
Qed.

Lemma strip_0x_parity (cs : list ascii) :
  Nat.odd (length (strip_0x cs)) = Nat.odd (length cs).
Proof.
  unfold strip_0x. destruct cs as [|a [|b r]]; [reflexivity | |];
    destruct a as [[] [] [] [] [] [] [] []]; try reflexivity.
  destruct (Ascii.eqb b "x" || Ascii.eqb b "X")%bool; reflexivity.
Qed.

Lemma strip_0x_length (cs : list ascii) : (length (strip_0x cs) <= length cs)%nat.
Proof.
  unfold strip_0x. destruct cs as [|a [|b r]]; [lia | |];
    destruct a as [[] [] [] [] [] [] [] []]; try lia.
  destruct (Ascii.eqb b "x" || Ascii.eqb b "X")%bool; simpl; lia.
Qed.

(** A text that starts with a digit other than the [0] of [0x] is its own
    body. *)
Lemma strip_0x_hex (cs : list ascii) : hex_text cs = true -> strip_0x cs = cs.
Proof.
  intros H. unfold strip_0x. destruct cs as [|a [|b r]]; [reflexivity | |];
    destruct a as [[] [] [] [] [] [] [] []]; try reflexivity.
  unfold hex_text in H. simpl in H.
  apply andb_prop in H as [Hb _]. apply is_hex_not_x in Hb as [-> ->]. reflexivity.
Qed.

(** Hexadecimal digits, prefix apart, always convert to bytes. *)
Lemma hexstr_to_bytes_hex (s : string) :
  hex_text (strip_0x (list_ascii_of_string s)) = true ->
  exists bs, hexstr_to_bytes s = Val bs
             /\ (2 * length bs <= S (length (strip_0x (list_ascii_of_string s))))%nat.
Proof.
  intros Hhex. unfold hexstr_to_bytes.
  set (cs := list_ascii_of_string s) in *.
  pose proof (strip_0x_parity cs) as Hpar.
  destruct (Nat.odd (length cs)) eqn:Hodd.
  - destruct (Nat.Even_or_Odd (length (strip_0x cs))) as [[k Hk]|[k Hk]].
    + rewrite Hk in Hpar. rewrite Nat.odd_even in Hpar. discriminate.
    + destruct (unhexlify_hex (S k) ("0"%char :: strip_0x cs)) as (bs & -> & Hl).
      * simpl. lia.
      * unfold hex_text in *. simpl. exact Hhex.
      * exists bs. split; [reflexivity | lia].
  - destruct (Nat.Even_or_Odd (length (strip_0x cs))) as [[k Hk]|[k Hk]].
    + destruct (unhexlify_hex k (strip_0x cs)) as (bs & -> & Hl); [lia | exact Hhex |].
      exists bs. split; [reflexivity | lia].
    + rewrite Hk in Hpar. replace (2 * k + 1)%nat with (S (2 * k)) in Hpar by lia.
      rewrite Nat.odd_succ, Nat.even_even in Hpar. discriminate.
Qed.

End HexFacts.

Section StackEntries.

Lemma repeat_zero_hex (n : nat) : hex_text (repeat "0"%char n) = true.
Proof. induction n as [|n IH]; [reflexivity | exact IH]. Qed.

(** Whatever the version of hexbytes, stripping the prefix leaves the bare
    digits. *)
Lemma removeprefix_hexlify (legacy : bool) (bs : list byte) :
  removeprefix "0x" (HexBytes_hex legacy bs) = string_of_list_ascii (hexlify bs).
Proof.
  unfold removeprefix, HexBytes_hex.
  rewrite list_ascii_of_string_of_list_ascii.
  destruct legacy; [reflexivity|].
  destruct bs as [|b bs]; [reflexivity|].
  pose proof (hexlify_hex (b :: bs)) as Hh.
  unfold hex_text in Hh. cbn -[is_hex hex_char] in Hh. cbn -[Ascii.eqb hex_char].
  apply andb_prop in Hh as [_ Hh]. apply andb_prop in Hh as [Hh _].
  destruct (Ascii.eqb "0" (hex_char (Byte.to_N b / 16))); [|reflexivity].
  destruct (Ascii.eqb_spec "x" (hex_char (Byte.to_N b mod 16))) as [E|_]; [|reflexivity].
  rewrite <- E in Hh. discriminate Hh.
Qed.

Lemma zfill_hex (h : list ascii) :
  hex_text h = true -> (length h <= 64)%nat ->
  canonical_word (JStr (zfill 64 (string_of_list_ascii h))) = true.
Proof.
  intros Hhex Hlen. unfold canonical_word, zfill.
  rewrite !list_ascii_of_string_of_list_ascii.
  destruct h as [|c r]; [reflexivity|].
  assert (Hc : is_sign c = false).
  { apply is_hex_not_sign. unfold hex_text in Hhex. simpl in Hhex.
    now apply andb_prop in Hhex as [? _]. }
  rewrite Hc. rewrite length_app, repeat_length.
  apply andb_true_intro. split.
  - apply Nat.eqb_eq. lia.
  - unfold hex_text in *. rewrite forallb_app. rewrite Hhex.
    now rewrite (repeat_zero_hex _).
Qed.

(** Both stack formats are hexadecimal digits after the optional prefix, at
    most 64 of them. *)
Lemma word_digits (v : jval) :
  (prefixed_word v || canonical_word v)%bool = true ->
  exists s, v = JStr s
            /\ hex_text (strip_0x (list_ascii_of_string s)) = true
            /\ (length (strip_0x (list_ascii_of_string s)) <= 64)%nat.
Proof.
  intros H. destruct v as [z|s]; [discriminate H|]. exists s. split; [reflexivity|].
  apply orb_prop in H as [H|H]; simpl in H.
  - destruct (list_ascii_of_string s) as [|a [|b ds]]; try discriminate H.
    + destruct a as [[] [] [] [] [] [] [] []]; discriminate H.
    + destruct a as [[] [] [] [] [] [] [] []]; try discriminate H.
      destruct b as [[] [] [] [] [] [] [] []]; try discriminate H.
      apply andb_prop in H as [Hl Hh]. apply Nat.leb_le in Hl.
      split; [exact Hh | exact Hl].
  - apply andb_prop in H as [Hl Hh]. apply Nat.eqb_eq in Hl.
    rewrite (strip_0x_hex _ Hh). split; [exact Hh | lia].
Qed.

Lemma fix_stack_entry_ok (legacy : bool) (v : jval) :
  (prefixed_word v || canonical_word v)%bool = true ->
  exists v', fix_stack_entry legacy v = Val v' /\ canonical_word v' = true.
Proof.
  intros H. destruct (word_digits v H) as (s & -> & Hhex & Hlen).
  destruct (hexstr_to_bytes_hex s Hhex) as (bs & Hbs & Hl).
  unfold fix_stack_entry. simpl. rewrite Hbs. simpl.
  eexists. split; [reflexivity|].
  rewrite removeprefix_hexlify. apply zfill_hex.
  - apply hexlify_hex.
  - rewrite hexlify_length. lia.
Qed.

Lemma map_res_ok {A B} (f : A -> res B) (P : A -> bool) (Q : B -> bool) (l : list A) :
  (forall a, P a = true -> exists b, f a = Val b /\ Q b = true) ->
  forallb P l = true ->
  exists l', map_res f l = Val l' /\ length l' = length l /\ forallb Q l' = true.
Proof.
  intros Hf. induction l as [|a l IH]; intros H; simpl.
  - exists []. repeat split.
  - simpl in H. apply andb_prop in H as [Ha Hl].
    destruct (Hf a Ha) as (b & -> & Hb). destruct (IH Hl) as (l' & -> & Hlen & HQ).
    exists (b :: l'). simpl. rewrite Hb, HQ, Hlen. repeat split.
Qed.

End StackEntries.

Section Numbers.

Lemma hex_number_head (cs : list ascii) :
  strip_0x cs <> [] -> hex_text (strip_0x cs) = true ->
  exists c r, cs = c :: r /\ Ascii.eqb c "-" = false /\ Ascii.eqb c "+" = false.
Proof.
  intros Hne Hhex. destruct cs as [|a r]; [now elim Hne|].
  exists a, r. split; [reflexivity|].
  destruct (is_hex a) eqn:Ha; [now apply is_hex_not_minus|].
  exfalso. unfold strip_0x in Hhex.
  destruct a as [[] [] [] [] [] [] [] []]; try discriminate Ha;
    destruct r; unfold hex_text in Hhex; simpl in Hhex;
    unfold is_hex in Ha; simpl in Ha; congruence.
Qed.

Lemma int16_hex (v : jval) :
  hex_number v = true -> exists z, int16 v = Val z.
Proof.
  intros H. destruct v as [z|s]; [discriminate H|].
  simpl in *. unfold py_int16. set (cs := list_ascii_of_string s) in *.
  destruct (strip_0x cs) as [|d ds] eqn:Hds; [discriminate H|].
  destruct (hex_number_head cs) as (c & r & Hcs & Hm & Hp).
  { rewrite Hds. discriminate. }
  { now rewrite Hds. }
  rewrite Hcs, Hm, Hp. rewrite <- Hcs, Hds.
  destruct (hex_value_hex (d :: ds) 0%N H) as (n & ->). eexists. reflexivity.
Qed.

Lemma HexBytes_hex_number (v : jval) :
  hex_number v = true -> exists bs, HexBytes v = Val bs.
Proof.
  intros H. destruct v as [z|s]; [discriminate H|]. simpl in *.
  destruct (hexstr_to_bytes_hex s) as (bs & Hbs & _).
  - destruct (strip_0x (list_ascii_of_string s)); [discriminate H | exact H].
  - now exists bs.
Qed.

Lemma spec_number_ok (v : jval) :
  (is_int v || hex_number v)%bool = true -> exists z, spec_number v = Val z.
Proof.
  intros H. destruct v as [z|s]; [now exists z|]. simpl in H.
  apply (int16_hex (JStr s)). exact H.
Qed.

Lemma hex_val_lt (c : ascii) (n : N) : hex_val c = Some n -> (n < 16)%N.
Proof.
  unfold hex_val. intros H.
  destruct ((48 <=? N_of_ascii c) && (N_of_ascii c <=? 57))%N eqn:H1.
  - injection H as <-. apply andb_prop in H1 as [Ha Hb].
    apply N.leb_le in Ha, Hb. lia.
  - destruct ((97 <=? N_of_ascii c) && (N_of_ascii c <=? 102))%N eqn:H2.
    + injection H as <-. apply andb_prop in H2 as [Ha Hb].
      apply N.leb_le in Ha, Hb. lia.
    + destruct ((65 <=? N_of_ascii c) && (N_of_ascii c <=? 70))%N eqn:H3; [|discriminate].
      injection H as <-. apply andb_prop in H3 as [Ha Hb].
      apply N.leb_le in Ha, Hb. lia.
Qed.

Lemma byte_of_nibbles_val (h l : N) :
  (h < 16)%N -> (l < 16)%N -> Byte.to_N (byte_of_nibbles h l) = (16 * h + l)%N.
Proof.
  intros Hh Hl. unfold byte_of_nibbles.
  destruct (Byte.of_N (16 * h + l)) as [b|] eqn:Hb.
  - now apply Byte.to_of_N.
  - apply Byte.of_N_None_iff in Hb. lia.
Qed.

Lemma unhexlify_length (bs : list byte) : forall cs,
  unhexlify cs = Some bs -> length cs = (2 * length bs)%nat.
Proof.
  induction bs as [|b bs IH]; intros cs H.
  - destruct cs as [|a [|c rest]]; [reflexivity|discriminate|]. simpl in H.
    destruct (hex_val a), (hex_val c), (unhexlify rest); discriminate.
  - destruct cs as [|a [|c rest]]; [discriminate|discriminate|]. simpl in H.
    destruct (hex_val a), (hex_val c); try discriminate.
    destruct (unhexlify rest) as [bs'|] eqn:Hr; [|discriminate].
    injection H as _ <-. simpl. rewrite (IH rest Hr). lia.
Qed.

(** The bytes of a hexadecimal text, read as one unsigned number, are the
    number the digits write. *)
Lemma unhexlify_value (bs : list byte) : forall cs acc,
  unhexlify cs = Some bs ->
  exists n, hex_value acc cs = Some n
            /\ Z.of_N n = fold_left (fun a b => 256 * a + Z.of_N (Byte.to_N b)) bs (Z.of_N acc).
Proof.
  induction bs as [|b bs IH]; intros cs acc H.
  - destruct cs as [|a [|c rest]]; [now exists acc|discriminate|]. simpl in H.
    destruct (hex_val a), (hex_val c), (unhexlify rest); discriminate.
  - destruct cs as [|a [|c rest]]; [discriminate|discriminate|]. simpl in H.
    destruct (hex_val a) as [h|] eqn:Ha; [|discriminate].
    destruct (hex_val c) as [l|] eqn:Hc; [|discriminate].
    destruct (unhexlify rest) as [bs'|] eqn:Hr; [|discriminate].
    injection H as <- <-.
    destruct (IH rest (16 * (16 * acc + h) + l)%N Hr) as (n & Hn & Hv).
    exists n. simpl. rewrite Ha, Hc. split; [exact Hn|]. rewrite Hv. f_equal.
    rewrite byte_of_nibbles_val by (eapply hex_val_lt; eassumption). lia.
Qed.

Lemma be_unsigned_fold (bs : list byte) : forall a,
  0 <= a ->
  a * 2 ^ (8 * Z.of_nat (length bs))
  <= fold_left (fun a b => 256 * a + Z.of_N (Byte.to_N b)) bs a
  < (a + 1) * 2 ^ (8 * Z.of_nat (length bs)).
Proof.
  induction bs as [|b bs IH]; intros a Ha.
  - simpl. lia.
  - cbn [fold_left length]. pose proof (Byte.to_N_bounded b) as Hb.
    specialize (IH (256 * a + Z.of_N (Byte.to_N b)) ltac:(lia)).
    replace (8 * Z.of_nat (S (length bs))) with (8 + 8 * Z.of_nat (length bs)) by lia.
    rewrite Z.pow_add_r by lia. change (2 ^ 8) with 256.
    assert (Hp : 0 < 2 ^ (8 * Z.of_nat (length bs))) by (apply Z.pow_pos_nonneg; lia).
    nia.
Qed.

Lemma be_unsigned_range (bs : list byte) :
  0 <= be_unsigned bs < 2 ^ (8 * Z.of_nat (length bs)).
Proof. pose proof (be_unsigned_fold bs 0 ltac:(lia)) as H. unfold be_unsigned. lia. Qed.

(** [int.from_bytes(bs, "big", signed=True)] is the signed reading of the
    unsigned value of the bytes. *)
Lemma from_bytes_signed_on (bs : list byte) :
  signed_on (length bs) (be_unsigned bs) (from_bytes_big_signed bs).
Proof.
  pose proof (be_unsigned_range bs) as Hu. unfold signed_on, from_bytes_big_signed.
  cbv zeta. set (bits := 8 * Z.of_nat (length bs)) in *. set (u := be_unsigned bs) in *.
  destruct (0 <? bits) eqn:Hpos; cbn [andb].
  - apply Z.ltb_lt in Hpos.
    assert (Hm : 2 ^ bits = 2 * 2 ^ (bits - 1)).
    { replace bits with (1 + (bits - 1)) at 1 by lia. rewrite Z.pow_add_r by lia. reflexivity. }
    destruct (2 ^ (bits - 1) <=? u) eqn:Htop.
    + apply Z.leb_le in Htop. split; [lia|].
      replace (u - 2 ^ bits) with (u + (-1) * 2 ^ bits) by lia.
      rewrite Z.mod_add by lia. apply Z.mod_small. lia.
    + apply Z.leb_gt in Htop. split; [lia|]. apply Z.mod_small. lia.
  - apply Z.ltb_ge in Hpos. assert (bits = 0) as Hb by (unfold bits in *; lia).
    rewrite Hb in *. change (2 ^ 0) with 1 in *. split; [lia|]. rewrite Z.mod_1_r. lia.
Qed.

(** The signed reading is one number only. *)
Lemma signed_on_unique (n : nat) (u c1 c2 : Z) :
  signed_on n u c1 -> signed_on n u c2 -> c1 = c2.
Proof.
  unfold signed_on. cbv zeta. set (m := 2 ^ (8 * Z.of_nat n)).
  assert (Hm : 0 < m) by (apply Z.pow_pos_nonneg; lia).
  intros [Hr1 H1] [Hr2 H2].
  pose proof (Z.div_mod c1 m ltac:(lia)) as E1.
  pose proof (Z.div_mod c2 m ltac:(lia)) as E2.
  rewrite H1 in E1. rewrite H2 in E2.
  assert (c1 / m = c2 / m) by nia. congruence.
Qed.

Lemma int16_hex_value (s : string) :
  hex_number (JStr s) = true ->
  exists n, hex_value 0 (strip_0x (list_ascii_of_string s)) = Some n
            /\ int16 (JStr s) = Val (Z.of_N n).
Proof.
  intros H. simpl in *. unfold py_int16. set (cs := list_ascii_of_string s) in *.
  destruct (strip_0x cs) as [|d ds] eqn:Hds; [discriminate H|].
  destruct (hex_number_head cs) as (c & r & Hcs & Hm & Hp).
  { rewrite Hds. discriminate. }
  { now rewrite Hds. }
  rewrite Hcs, Hm, Hp. rewrite <- Hcs, Hds.
  destruct (hex_value_hex (d :: ds) 0%N H) as (n & Hn). rewrite Hn.
  exists n. split; reflexivity.
Qed.

(** A textual gas cost: the code's bytes exist, and reading them as a
    signed big-endian integer gives the signed reading of the digits. *)
Lemma gas_cost_reads_ok (v : jval) :
  (is_int v || hex_number v)%bool = true ->
  exists c, gas_cost_reads v c
            /\ match v with
               | JInt z => c = z
               | JStr _ => exists bs, HexBytes v = Val bs /\ c = from_bytes_big_signed bs
               end.
Proof.
  intros H. destruct v as [z|s]; [exists z; split; reflexivity|]. cbn [is_int orb] in H.
  destruct (int16_hex_value s H) as (n & Hn & Hint).
  assert (Hhex : hex_text (strip_0x (list_ascii_of_string s)) = true).
  { simpl in H. destruct (strip_0x (list_ascii_of_string s)); [discriminate H|exact H]. }
  cbn [HexBytes gas_cost_reads hex_digits]. unfold hexstr_to_bytes.
  set (cs := list_ascii_of_string s) in *. set (ds := strip_0x cs) in *.
  pose proof (strip_0x_parity cs) as Hpar. fold ds in Hpar.
  destruct (hexstr_to_bytes_hex s Hhex) as (bs & Hbs & _). unfold hexstr_to_bytes in Hbs.
  fold cs ds in Hbs.
  destruct (unhexlify (if Nat.odd (length cs) then "0"%char :: ds else ds)) as [bs'|] eqn:Hun;
    [|discriminate].
  injection Hbs as ->.
  exists (from_bytes_big_signed bs). split; [|exists bs; split; reflexivity].
  exists (Z.of_N n). split; [exact Hint|].
  pose proof (unhexlify_length _ _ Hun) as Hlen.
  destruct (unhexlify_value _ _ 0%N Hun) as (n' & Hn' & Hv).
  assert (Hbytes : Nat.div2 (S (length ds)) = length bs /\ n' = n).
  { destruct (Nat.odd (length cs)) eqn:Hodd.
    - cbn [length] in Hlen. split.
      + rewrite Hlen. apply Nat.div2_double.
      + change (hex_value 0 ("0"%char :: ds)) with (hex_value 0 ds) in Hn'. congruence.
    - split.
      + rewrite Hlen. apply Nat.div2_succ_double.
      + congruence. }
  destruct Hbytes as [-> ->].
  replace (Z.of_N n) with (be_unsigned bs) by (unfold be_unsigned; now rewrite Hv).
  apply from_bytes_signed_on.
Qed.

End Numbers.

Section FixTrace.

Variable legacy : bool.

Lemma fix_step_stack (st : raw_step) :
  forallb (fun v => prefixed_word v || canonical_word v) (r_stack st) = true ->
  exists stack', map_res (fix_stack_entry legacy) (r_stack st) = Val stack'
                 /\ length stack' = length (r_stack st)
                 /\ forallb canonical_word stack' = true.
Proof.
  apply (map_res_ok _ (fun v => prefixed_word v || canonical_word v)%bool canonical_word).
  intros a Ha. now apply fix_stack_entry_ok.
Qed.

Lemma is_int_spec (v : jval) : is_int v = true -> exists z, v = JInt z.
Proof. destruct v as [z|s]; [now exists z | discriminate]. Qed.

Lemma fix_step_ok (fix_stack fix_gas : bool) (st : raw_step) :
  step_pre fix_stack fix_gas st ->
  exists st', fix_step legacy fix_stack fix_gas st = (Val tt, st') /\ normalizes_to st st'.
Proof.
  intros [Hstack Hnum]. destruct st as [pc op depth gas cost stack memory].
  simpl in Hstack, Hnum. unfold fix_step, normalizes_to.
  assert (Hs : exists stack',
             (if fix_stack then map_res (fix_stack_entry legacy) stack else Val stack) = Val stack'
             /\ length stack' = length stack /\ forallb canonical_word stack' = true).
  { destruct fix_stack.
    - apply (fix_step_stack (Build_raw_step pc op depth gas cost stack memory) Hstack).
    - exists stack. repeat split. exact Hstack. }
  destruct Hs as (stack' & Hmap & Hlen & Hcanon).
  destruct fix_gas.
  - destruct Hnum as (Hg & Hc & Hp).
    destruct (int16_hex gas Hg) as (g & Hgv).
    destruct (gas_cost_reads_ok cost Hc) as (c & Hcr & Hcv).
    destruct (spec_number_ok pc Hp) as (p & Hpv).
    assert (Hgs : spec_number gas = Val g) by (destruct gas; [discriminate Hg | exact Hgv]).
    exists (Build_raw_step (JInt p) op depth (JInt g) (JInt c) stack' memory).
    split.
    + destruct fix_stack; cbn -[int16 HexBytes from_bytes_big_signed map_res];
        unfold bind, get, lift, modify, when, ret; cbn -[int16 HexBytes from_bytes_big_signed map_res];
        try rewrite Hmap; cbn -[int16 HexBytes from_bytes_big_signed map_res];
        rewrite Hgv; cbn -[int16 HexBytes from_bytes_big_signed map_res];
        try injection Hmap as <-;
        (destruct cost as [cz|cs]; cbn -[int16 HexBytes from_bytes_big_signed] in Hcv |- *;
         [subst c | destruct Hcv as (bs & Hbs & ->); rewrite Hbs]);
        (destruct pc as [pz|ps]; cbn -[int16] in Hpv |- *;
         [injection Hpv as <- | rewrite Hpv]); reflexivity.
    + cbn. repeat split; eauto.
  - destruct Hnum as (Hg & Hc & Hp).
    apply is_int_spec in Hg as (g & ->). apply is_int_spec in Hc as (c & ->).
    apply is_int_spec in Hp as (p & ->).
    exists (Build_raw_step (JInt p) op depth (JInt g) (JInt c) stack' memory).
    split.
    + destruct fix_stack; cbn -[map_res]; unfold bind, get, lift, modify, when, ret;
        cbn -[map_res]; [rewrite Hmap | injection Hmap as <-]; reflexivity.
    + cbn. repeat split; eauto.
Qed.

Lemma for_each_ok {A} (body : M A unit) (P : A -> Prop) (Q : A -> A -> Prop) (l : list A) :
  (forall x, P x -> exists x', body x = (Val tt, x') /\ Q x x') ->
  Forall P l ->
  exists l', for_each body l = (Val tt, l') /\ Forall2 Q l l'.
Proof.
  intros Hbody. induction 1 as [|x l Hx Hl IH]; simpl.
  - exists []. split; [reflexivity | constructor].
  - destruct (Hbody x Hx) as (x' & -> & HQ). destruct IH as (l' & -> & HF).
    exists (x' :: l'). split; [reflexivity | now constructor].
Qed.

(** With prefixed words, the search finds the prefix unless every stack of
    the trace is empty. *)
Lemma detect_prefixed (trace : list raw_step) :
  stack_format_prefixed trace = true -> detect_fix_stack trace = false ->
  Forall (fun st => r_stack st = []) trace.
Proof.
  induction trace as [|st rest IH]; intros Hfmt Hdet; [constructor|].
  simpl in Hfmt. apply andb_prop in Hfmt as [Hst Hrest]. simpl in Hdet.
  destruct (r_stack st) as [|v vs] eqn:Hstk.
  - constructor; auto.
  - exfalso. simpl in Hst. apply andb_prop in Hst as [Hv _].
    destruct v as [z|s]; [discriminate Hv|]. simpl in Hv.
    unfold startswith in Hdet.
    destruct (list_ascii_of_string s) as [|a [|b ds]]; try discriminate Hv.
    + destruct a as [[] [] [] [] [] [] [] []]; discriminate Hv.
    + destruct a as [[] [] [] [] [] [] [] []]; try discriminate Hv.
      destruct b as [[] [] [] [] [] [] [] []]; try discriminate Hv.
      discriminate Hdet.
Qed.

(** With unprefixed fixed-width words, the search never finds a prefix. *)
Lemma detect_fixed (trace : list raw_step) :
  stack_format_fixed trace = true -> detect_fix_stack trace = false.
Proof.
  induction trace as [|st rest IH]; intros Hfmt; [reflexivity|].
  simpl in Hfmt. apply andb_prop in Hfmt as [Hst Hrest]. simpl.
  destruct (r_stack st) as [|v vs]; [now apply IH|].
  simpl in Hst. apply andb_prop in Hst as [Hv _].
  destruct v as [z|s]; [discriminate Hv|]. simpl in Hv.
  apply andb_prop in Hv as [_ Hhex].
  replace (startswith "0x" s) with false; [now apply IH|].
  unfold startswith. change (list_ascii_of_string "0x") with ["0"%char; "x"%char].
  destruct (list_ascii_of_string s) as [|a [|b ds]]; cbn -[Ascii.eqb]; try reflexivity.
  - now destruct (Ascii.eqb "0" a).
  - unfold hex_text in Hhex. cbn -[is_hex] in Hhex.
    apply andb_prop in Hhex as [_ Hhex]. apply andb_prop in Hhex as [Hb _].
    destruct (Ascii.eqb "0" a); [|reflexivity].
    destruct (Ascii.eqb_spec "x" b) as [<-|_]; [discriminate Hb | reflexivity].
Qed.

Lemma forallb_impl {A} (P Q : A -> bool) (l : list A) :
  (forall a, P a = true -> Q a = true) -> forallb P l = true -> forallb Q l = true.
Proof.
  intros HPQ. induction l as [|a l IH]; simpl; [reflexivity|].
  intros H. apply andb_prop in H as [Ha Hl]. now rewrite (HPQ a Ha), (IH Hl).
Qed.

(** The step-wise precondition follows from the format of the whole trace
    and the flags the pass computes for it. *)
Lemma formats_step_pre (first : raw_step) (rest : list raw_step) :
  let trace := first :: rest in
  (stack_format_prefixed trace || stack_format_fixed trace)%bool = true ->
  (numeric_format_hex trace || numeric_format_native trace)%bool = true ->
  Forall (step_pre (detect_fix_stack trace) (is_str (r_gas first))) trace.
Proof.
  intros trace Hstack Hnum.
  assert (Hs : Forall (fun st =>
            forallb (fun v => if detect_fix_stack trace
                              then prefixed_word v || canonical_word v
                              else canonical_word v) (r_stack st) = true) trace).
  { apply orb_prop in Hstack as [Hp|Hf].
    - destruct (detect_fix_stack trace) eqn:Hd.
      + apply List.Forall_forall. intros st Hin.
        unfold stack_format_prefixed in Hp. rewrite forallb_forall in Hp.
        apply (forallb_impl prefixed_word); [|apply Hp; exact Hin].
        intros a ->. reflexivity.
      + pose proof (detect_prefixed trace Hp Hd) as He.
        eapply List.Forall_impl; [|exact He]. intros st ->. reflexivity.
    - rewrite (detect_fixed trace Hf).
      apply List.Forall_forall. intros st Hin.
      unfold stack_format_fixed in Hf. rewrite forallb_forall in Hf. now apply Hf. }
  assert (Hn : Forall (fun st =>
            if is_str (r_gas first)
            then hex_number (r_gas st) = true
                 /\ (is_int (r_gasCost st) || hex_number (r_gasCost st))%bool = true
                 /\ (is_int (r_pc st) || hex_number (r_pc st))%bool = true
            else is_int (r_gas st) = true /\ is_int (r_gasCost st) = true
                 /\ is_int (r_pc st) = true) trace).
  { apply orb_prop in Hnum as [Hh|Hn].
    - assert (Hf : is_str (r_gas first) = true).
      { simpl in Hh. destruct (r_gas first); [discriminate Hh | reflexivity]. }
      rewrite Hf. apply List.Forall_forall. intros st Hin.
      unfold numeric_format_hex in Hh. rewrite forallb_forall in Hh.
      specialize (Hh st Hin). apply andb_prop in Hh as [Hh Hp].
      apply andb_prop in Hh as [Hg Hc]. auto.
    - assert (Hf : is_str (r_gas first) = false).
      { simpl in Hn. destruct (r_gas first); [reflexivity | discriminate Hn]. }
      rewrite Hf. apply List.Forall_forall. intros st Hin.
      unfold numeric_format_native in Hn. rewrite forallb_forall in Hn.
      specialize (Hn st Hin). apply andb_prop in Hn as [Hn Hp].
      apply andb_prop in Hn as [Hg Hc]. auto. }
  rewrite List.Forall_forall in Hs, Hn. apply List.Forall_forall. intros st Hin.
  split; [now apply Hs | now apply Hn].
Qed.

End FixTrace.

(** C3.  A non-empty raw trace whose stack words are all [0x]-prefixed with
    at most 64 digits, or all unprefixed with exactly 64 digits, and whose
    numbers are hexadecimal text ([gas] in every step) or native integers,
    is normalised without an exception: every stack entry of the result is
    exactly 64 hexadecimal characters (so carries no [0x]), [gas], [gasCost]
    and [pc] are integers, [gas] and [pc] with the value of [int(text, 16)],
    and a textual [gasCost] with the signed reading of its digits: the one
    integer [c] with [-2^(8n-1) <= c < 2^(8n-1)] that equals the number the
    digits write modulo [2^(8n)], [n] being the number of bytes the digits
    fill ([0xff] is -1, [0x00ff] is 255).  This holds for either behaviour
    of [HexBytes.hex()]. *)
Theorem fix_trace_normalizes (legacy : bool) (trace : list raw_step) :
  trace <> [] ->
  (stack_format_prefixed trace || stack_format_fixed trace)%bool = true ->
  (numeric_format_hex trace || numeric_format_native trace)%bool = true ->
  exists trace',
    fix_trace legacy trace = (Val tt, trace')
    /\ Forall2 normalizes_to trace trace'
    /\ forallb normalized_step trace' = true.
Proof.
  intros Hne Hstack Hnum. destruct trace as [|first rest]; [now elim Hne|].
  pose proof (formats_step_pre first rest Hstack Hnum) as Hpre. cbv zeta in Hpre.
  assert (Hrun : exists trace',
             fix_trace legacy (first :: rest) = (Val tt, trace')
             /\ Forall2 normalizes_to (first :: rest) trace').
  { unfold fix_trace.
    set (fs := detect_fix_stack (first :: rest)) in *.
    set (fg := is_str (r_gas first)) in *.
    destruct (fs || fg)%bool eqn:Hflags.
    - apply (for_each_ok _ (step_pre fs fg)); [|exact Hpre].
      intros x Hx. now apply fix_step_ok.
    - apply orb_false_elim in Hflags as [Hfs Hfg]. rewrite Hfs, Hfg in Hpre.
      exists (first :: rest). split; [reflexivity|].
      clear -Hpre legacy. induction Hpre as [|x l Hx _ IH]; constructor; [|exact IH].
      destruct (fix_step_ok legacy false false x Hx) as (x' & Hrun & Hnorm).
      cbv in Hrun. now injection Hrun as <-. }
  destruct Hrun as (trace' & Hrun & HF). exists trace'. repeat split; auto.
  clear -HF. induction HF as [|x y l l' Hxy _ IH]; [reflexivity|].
  simpl. rewrite IH, andb_true_r.
  destruct Hxy as (_ & _ & _ & _ & Hc & (g & _ & Hg) & (c & _ & Hcost) & (p & _ & Hp)).
  unfold normalized_step. now rewrite Hc, Hg, Hcost, Hp.
Qed.

Lemma fix_trace_normalizes_witness :
  sample_raw_trace <> []
  /\ (stack_format_prefixed sample_raw_trace || stack_format_fixed sample_raw_trace)%bool = true
  /\ (numeric_format_hex sample_raw_trace || numeric_format_native sample_raw_trace)%bool = true
  /\ exists trace',
       fix_trace false sample_raw_trace = (Val tt, trace')
       /\ Forall2 normalizes_to sample_raw_trace trace'
       /\ forallb normalized_step trace' = true
       /\ map r_gasCost trace' = [JInt 3; JInt (-1)]
       /\ map r_gas trace' = [JInt 21000; JInt 20997].
Proof.
  split; [discriminate|]. split; [reflexivity|]. split; [reflexivity|].
  destruct (fix_trace_normalizes false sample_raw_trace) as (trace' & Hrun & Hnorm & Hstep);
    [discriminate | reflexivity | reflexivity |].
  exists trace'. split; [exact Hrun|]. split; [exact Hnorm|]. split; [exact Hstep|].
  assert (Ht : trace' = snd (fix_trace false sample_raw_trace)) by now rewrite Hrun.
  rewrite Ht. split; vm_compute; reflexivity.
Defined.

(** ** The trace attributes *)

(** Unfolds the operations of the state monad on [world]. *)
Ltac unfold_monad :=
  unfold rpc, sleep, set_status_of, signal;
  unfold getattr, setattr, emit, observe;
  unfold bind, ret, raise, get, gets, modify, lift, when, try_except.

Lemma heap_setattr_same (self : nat) (f : TransactionReceipt -> TransactionReceipt) (w : world) :
  heap (snd (setattr self f w)) self = f (heap w self).
Proof. unfold_monad. simpl. now rewrite Nat.eqb_refl. Qed.

Lemma heap_setattr_other (self j : nat) (f : TransactionReceipt -> TransactionReceipt) (w : world) :
  j <> self -> heap (snd (setattr self f w)) j = heap w j.
Proof.
  intros Hne. unfold_monad. simpl.
  destruct (Nat.eqb_spec j self) as [E|_]; [now elim Hne | reflexivity].
Qed.

(** [supports_traces] reads and writes [web3], the clock and the log only. *)
Lemma supports_traces_heap (E : env) (w : world) (h : nat -> TransactionReceipt) :
  supports_traces E (set_heap h w)
  = (fst (supports_traces E w), set_heap h (snd (supports_traces E w))).
Proof.
  unfold supports_traces. unfold_monad. simpl.
  destruct (provider (web3 w)); simpl; [|reflexivity].
  destruct (_supports_traces (web3 w)); [reflexivity|].
  change (clock (set_heap h w)) with (clock w).
  destruct (debug_probe (nd E (clock w))); reflexivity.
Qed.

(** C10.  On a transaction whose status is negative (pending or dropped)
    the wrapper of [trace_property] returns [None] at once, whatever the
    decorated function is: the world is left as it was, so no trace is
    fetched, no request is logged and nothing is raised.  This is spelled
    out for [events], [trace], [subcalls], [return_value], [revert_msg],
    [dev_revert_msg], [modified_state], [internal_transfers] and
    [new_contracts]. *)
Theorem trace_property_unconfirmed (E : env) (self : nat) (w : world) :
  Status_value (status (heap w self)) < 0 ->
  (forall A (fn : nat -> M world A), trace_property E fn self w = (Val None, w))
  /\ events E self w = (Val None, w)
  /\ trace E self w = (Val None, w)
  /\ subcalls E self w = (Val None, w)
  /\ return_value E self w = (Val None, w)
  /\ revert_msg E self w = (Val None, w)
  /\ dev_revert_msg E self w = (Val None, w)
  /\ modified_state E self w = (Val None, w)
  /\ internal_transfers E self w = (Val None, w)
  /\ new_contracts E self w = (Val None, w).
Proof.
  intros Hneg.
  assert (Hgen : forall A (fn : nat -> M world A), trace_property E fn self w = (Val None, w)).
  { intros A fn. unfold trace_property. unfold_monad. cbn.
    apply Z.ltb_lt in Hneg. now rewrite Hneg. }
  repeat split; try apply Hgen.
Qed.

Lemma trace_property_unconfirmed_witness :
  Status_value (status (heap sample_world 0)) < 0
  /\ modified_state (sample_env (fun _ => mined_view)) 0 sample_world = (Val None, sample_world).
Proof.
  split; [reflexivity|].
  apply (trace_property_unconfirmed (sample_env (fun _ => mined_view)) 0%nat sample_world).
  reflexivity.
Defined.

(** Once an exception is recorded, every decorated attribute raises it and
    leaves the world as it was. *)
Lemma trace_property_replays {A} (E : env) (fn : nat -> M world A) (self : nat) (w : world) (e : exn) :
  0 <= Status_value (status (heap w self)) ->
  _trace_exc (lazy (heap w self)) = Some e ->
  trace_property E fn self w = (Exn e, w).
Proof.
  intros Hst Hexc. unfold trace_property. unfold_monad. cbn.
  apply Z.ltb_ge in Hst. now rewrite Hst, Hexc.
Qed.

(** C7.  When the node supports traces and answers the trace request of a
    transaction (not yet traced, not a plain transfer) with an error
    payload, [_get_trace] sends that one request, records an
    [RPCRequestError] with the payload's message in [_trace_exc] and raises
    it.  From then on, while the status is not negative, every decorated
    trace attribute raises the recorded exception and leaves the world
    untouched: no further request is sent, and the same holds again for the
    next access. *)
Theorem trace_error_replayed (E : env) (self : nat) (w w2 : world) (message : string) :
  _raw_trace (lazy (heap w self)) = None ->
  is_plain_transfer (heap w self) = false ->
  supports_traces E w = (Val true, w2) ->
  debug_traceTransaction (nd E (clock w2)) (txid (heap w self)) = TraceError message ->
  0 <= Status_value (status (heap w self)) ->
  exists w',
    _get_trace E self w = (Exn (RPCRequestError (MsgNode message)), w')
    /\ _trace_exc (lazy (heap w' self)) = Some (RPCRequestError (MsgNode message))
    /\ log w' = log w2 ++ [Rpc (ReqTrace (txid (heap w self)))]
    /\ (forall A (fn : nat -> M world A),
          trace_property E fn self w' = (Exn (RPCRequestError (MsgNode message)), w'))
    /\ (forall A (fn : nat -> M world A) (w'' : world),
          0 <= Status_value (status (heap w'' self)) ->
          _trace_exc (lazy (heap w'' self)) = Some (RPCRequestError (MsgNode message)) ->
          trace_property E fn self w'' = (Exn (RPCRequestError (MsgNode message)), w'')).
Proof.
  intros Hraw Hplain Hsup Hreply Hst.
  destruct (_get_trace E self w) as [r w'] eqn:Hrun.
  assert (Hfacts : r = Exn (RPCRequestError (MsgNode message))
                   /\ _trace_exc (lazy (heap w' self)) = Some (RPCRequestError (MsgNode message))
                   /\ log w' = log w2 ++ [Rpc (ReqTrace (txid (heap w self)))]
                   /\ status (heap w' self) = status (heap w self)).
  { revert Hrun. unfold _get_trace.
    unfold bind at 1. unfold getattr at 1, gets at 1. rewrite Hraw.
    unfold bind at 1. unfold setattr at 1, modify at 1.
    set (h1 := fun i => if (i =? self)%nat then with_lazy (set__raw_trace (Some [])) (heap w i)
                        else heap w i).
    unfold bind at 1. unfold getattr at 1, gets at 1.
    assert (Hh1 : heap (set_heap h1 w) self = with_lazy (set__raw_trace (Some [])) (heap w self)).
    { simpl. unfold h1. now rewrite Nat.eqb_refl. }
    rewrite Hh1.
    replace (is_plain_transfer (with_lazy (set__raw_trace (Some [])) (heap w self)))
      with (is_plain_transfer (heap w self)) by reflexivity.
    rewrite Hplain.
    unfold bind at 1. rewrite supports_traces_heap, Hsup. cbn [fst snd negb].
    unfold_monad. cbn -[Nat.eqb].
    unfold h1. rewrite !Nat.eqb_refl. cbn -[Nat.eqb]. rewrite Hreply. cbn -[Nat.eqb].
    intros [= <- <-]. cbn -[Nat.eqb]. rewrite !Nat.eqb_refl. repeat split. }
  destruct Hfacts as (-> & Hexc & Hlog & Hstatus).
  exists w'. split; [reflexivity|]. split; [exact Hexc|]. split; [exact Hlog|]. split.
  - intros A fn. apply trace_property_replays; [now rewrite Hstatus | exact Hexc].
  - intros A fn w'' Hst'' Hexc''. now apply trace_property_replays.
Qed.

Lemma trace_error_replayed_witness :
  exists w',
    _get_trace (sample_env (fun _ => mined_view)) 0 confirmed_world
      = (Exn (RPCRequestError (MsgNode "execution aborted")), w')
    /\ trace (sample_env (fun _ => mined_view)) 0 w'
       = (Exn (RPCRequestError (MsgNode "execution aborted")), w')
    /\ modified_state (sample_env (fun _ => mined_view)) 0 w'
       = (Exn (RPCRequestError (MsgNode "execution aborted")), w').
Proof.
  destruct (trace_error_replayed (sample_env (fun _ => mined_view)) 0%nat confirmed_world
              (snd (supports_traces (sample_env (fun _ => mined_view)) confirmed_world))
              "execution aborted")
    as (w' & Hrun & _ & _ & Hreplay & _);
    [reflexivity | reflexivity | reflexivity | reflexivity | discriminate |].
  exists w'. split; [exact Hrun|]. split; apply Hreplay.
Defined.

(** C4.  For a transaction whose input is ["0x"] and whose gas used is
    21000, [_get_trace] on the untraced record returns at once with
    [_raw_trace = []], [_trace = []] and [_modified_state = False]: the
    log, the clock and [web3] are as before (no request was sent, not even
    the probe of [supports_traces]) and no other record changed.
    [_expand_trace] does exactly the same, and a method decorated with
    [trace_inspection] returns [None] without running. *)
Theorem plain_transfer_short_circuit (E : env) (self : nat) (w : world) :
  input (heap w self) = "0x" ->
  gas_used (heap w self) = Some 21000 ->
  _raw_trace (lazy (heap w self)) = None ->
  exists w',
    _get_trace E self w = (Val tt, w')
    /\ _raw_trace (lazy (heap w' self)) = Some []
    /\ _trace (lazy (heap w' self)) = Some []
    /\ _modified_state (lazy (heap w' self)) = Some false
    /\ log w' = log w /\ clock w' = clock w /\ web3 w' = web3 w
    /\ (forall j, j <> self -> heap w' j = heap w j)
    /\ _expand_trace E self w = (Val tt, w')
    /\ (forall A (fn : nat -> M world A),
          str_true (contract_address (heap w self)) = false ->
          trace_inspection fn self w = (Val None, w)).
Proof.
  intros Hinput Hgas Hraw.
  assert (Hplain : is_plain_transfer (heap w self) = true).
  { unfold is_plain_transfer. now rewrite Hinput, Hgas. }
  destruct (_get_trace E self w) as [r w'] eqn:Hrun.
  assert (Hfacts : r = Val tt
                   /\ _raw_trace (lazy (heap w' self)) = Some []
                   /\ _trace (lazy (heap w' self)) = Some []
                   /\ _modified_state (lazy (heap w' self)) = Some false
                   /\ log w' = log w /\ clock w' = clock w /\ web3 w' = web3 w
                   /\ (forall j, j <> self -> heap w' j = heap w j)).
  { revert Hrun. unfold _get_trace. unfold_monad. cbn -[Nat.eqb].
    rewrite Hraw. cbn -[Nat.eqb]. rewrite !Nat.eqb_refl.
    replace (is_plain_transfer (with_lazy (set__raw_trace (Some [])) (heap w self)))
      with (is_plain_transfer (heap w self)) by reflexivity.
    rewrite Hplain. cbn -[Nat.eqb]. intros [= <- <-]. cbn -[Nat.eqb].
    rewrite !Nat.eqb_refl. repeat split.
    intros j Hne. destruct (Nat.eqb_spec j self) as [->|_]; [now elim Hne | reflexivity]. }
  destruct Hfacts as (-> & Hr & Ht & Hm & Hl & Hc & Hw3 & Hother).
  exists w'. repeat split; auto.
  - unfold _expand_trace.
    unfold bind at 1. unfold getattr at 1, gets at 1. rewrite Hraw.
    cbn [is_Some_b negb when]. unfold bind at 1. rewrite Hrun.
    unfold_monad. cbn. now rewrite Ht.
  - intros A fn Hca. unfold trace_inspection. unfold_monad. cbn.
    now rewrite Hca, Hplain.
Qed.

Lemma plain_transfer_short_circuit_witness :
  exists w',
    _get_trace (sample_env (fun _ => mined_view)) 1 confirmed_world = (Val tt, w')
    /\ _trace (lazy (heap w' 1%nat)) = Some []
    /\ _modified_state (lazy (heap w' 1%nat)) = Some false
    /\ log w' = [].
Proof.
  destruct (plain_transfer_short_circuit (sample_env (fun _ => mined_view)) 1%nat confirmed_world)
    as (w' & Hrun & _ & Ht & Hm & Hl & _); [reflexivity | reflexivity | reflexivity |].
  exists w'. repeat split; assumption.
Defined.

(** ** The confirmation tracker: the first loop *)

Section FirstLoop.

Variable E : env.
Variable self : nat.

Lemma refresh_sender_nonce_total (nonce_time sender_nonce : Z) (w : world) :
  exists nt sn w1,
    refresh_sender_nonce E self nonce_time sender_nonce w = (Val (nt, sn), w1)
    /\ heap w1 = heap w.
Proof.
  unfold refresh_sender_nonce. unfold_monad. cbn.
  destruct (_ >? 15); cbn; eauto.
Qed.

Lemma fetch_receipt_total (w : world) :
  exists receipt w2, fetch_receipt E self w = (Val receipt, w2) /\ heap w2 = heap w.
Proof. unfold fetch_receipt. unfold_monad. cbn. eauto. Qed.

(** One iteration, given what it read: the receipt is tested first, the
    transaction count is compared only when the receipt is not ready. *)
Lemma await_inclusion_step_cases (nt0 sn0 nt sn : Z) (w w1 w2 : world)
    (receipt : option rpc_receipt) :
  refresh_sender_nonce E self nt0 sn0 w = (Val (nt, sn), w1) ->
  fetch_receipt E self w1 = (Val receipt, w2) ->
  await_inclusion_step E self nt0 sn0 w =
    match ready_receipt receipt with
    | Some rc => (Val (Included rc), w2)
    | None =>
        match nonce (heap w2 self) with
        | None => (Exn TypeError, w2)
        | Some n =>
            if sn >? n
            then (set_status_of self Dropped ;; signal self ;; ret GaveUp) w2
            else (sleep E ;; ret (Waiting nt sn)) w2
        end
    end.
Proof.
  intros Hrefresh Hfetch. unfold await_inclusion_step.
  unfold bind at 1. rewrite Hrefresh.
  unfold bind at 1. rewrite Hfetch.
  destruct (ready_receipt receipt); [reflexivity|].
  unfold bind at 1. unfold getattr, gets.
  destruct (nonce (heap w2 self)) as [n|]; [|reflexivity].
  destruct (sn >? n); reflexivity.
Qed.

(** An iteration that goes on leaves every record as it was. *)
Lemma await_inclusion_step_waiting (nt0 sn0 nt sn : Z) (w w' : world) :
  await_inclusion_step E self nt0 sn0 w = (Val (Waiting nt sn), w') -> heap w' = heap w.
Proof.
  destruct (refresh_sender_nonce_total nt0 sn0 w) as (nt1 & sn1 & w1 & Hr & Hh1).
  destruct (fetch_receipt_total w1) as (receipt & w2 & Hf & Hh2).
  rewrite (await_inclusion_step_cases _ _ _ _ _ _ _ _ Hr Hf).
  destruct (ready_receipt receipt); [discriminate|].
  destruct (nonce (heap w2 self)); [|discriminate].
  destruct (_ >? _).
  - unfold_monad. cbn. discriminate.
  - unfold_monad. cbn. intros [= _ _ <-]. cbn. congruence.
Qed.

Lemma iteration_start_heap (k : nat) : forall nt0 sn0 w ntk snk wk,
  iteration_start k E self nt0 sn0 w = Some (ntk, snk, wk) -> heap wk = heap w.
Proof.
  induction k as [|k IH]; intros nt0 sn0 w ntk snk wk H; simpl in H.
  - now injection H as _ _ <-.
  - destruct (await_inclusion_step E self nt0 sn0 w) as [[[rc| |nt sn]|e] w'] eqn:Hstep;
      try discriminate.
    rewrite (IH _ _ _ _ _ _ H). now apply await_inclusion_step_waiting in Hstep.
Qed.

(** The loop, run with enough fuel, is the loop run from iteration [k]. *)
Lemma await_inclusion_from (k : nat) : forall fuel nt0 sn0 w ntk snk wk,
  iteration_start k E self nt0 sn0 w = Some (ntk, snk, wk) ->
  await_inclusion (k + fuel) E self nt0 sn0 w = await_inclusion fuel E self ntk snk wk.
Proof.
  induction k as [|k IH]; intros fuel nt0 sn0 w ntk snk wk H; simpl in H.
  - now injection H as <- <- <-.
  - destruct (await_inclusion_step E self nt0 sn0 w) as [[[rc| |nt sn]|e] w'] eqn:Hstep;
      try discriminate.
    simpl. unfold bind at 1. rewrite Hstep. now apply IH.
Qed.

End FirstLoop.

(** C2.  Take the first loop of [_await_confirmation] at the start of any
    iteration [k] it reaches (so no earlier iteration saw a receipt with a
    block hash), and let [sn] be the sender's transaction count as the
    watcher holds it after the refresh of that iteration and [receipt] what
    the receipt request of that iteration answers.  Run with enough fuel:
    - if [receipt] is missing or has a null block hash and [sn] exceeds the
      tracked nonce, the loop returns normally (no exception) with the
      status set to [Dropped] and then the completion event set, these
      being the last two effects;
    - if [receipt] has a block hash the loop ends with that receipt and no
      record has changed, whatever [sn] is: the count is compared only
      after the receipt test failed. *)
Theorem await_inclusion_drop (E : env) (self : nat) (k fuel : nat)
    (nt0 sn0 ntk snk nt sn n : Z) (w wk w1 w2 : world) (receipt : option rpc_receipt) :
  iteration_start k E self nt0 sn0 w = Some (ntk, snk, wk) ->
  refresh_sender_nonce E self ntk snk wk = (Val (nt, sn), w1) ->
  fetch_receipt E self w1 = (Val receipt, w2) ->
  nonce (heap w self) = Some n ->
  (k < fuel)%nat ->
  (ready_receipt receipt = None -> n < sn ->
   exists w',
     await_inclusion fuel E self nt0 sn0 w = (Val None, w')
     /\ status (heap w' self) = Dropped
     /\ _confirmed (heap w' self) = true
     /\ log w' = log w2 ++ [SetStatus self Dropped; Signal self])
  /\ (forall rc, ready_receipt receipt = Some rc ->
      await_inclusion fuel E self nt0 sn0 w = (Val (Some rc), w2)
      /\ heap w2 = heap w).
Proof.
  intros Hstart Hrefresh Hfetch Hnonce Hfuel.
  destruct (refresh_sender_nonce_total E self ntk snk wk) as (nt' & sn' & w1' & Hr' & Hh1).
  rewrite Hrefresh in Hr'. injection Hr' as <- <- <-.
  destruct (fetch_receipt_total E self w1) as (rc' & w2' & Hf' & Hh2).
  rewrite Hfetch in Hf'. injection Hf' as <- <-.
  pose proof (iteration_start_heap E self k _ _ _ _ _ _ Hstart) as Hhk.
  assert (Hheap : heap w2 = heap w) by congruence.
  replace fuel with (k + S (fuel - S k))%nat by lia.
  rewrite (await_inclusion_from E self k _ _ _ _ _ _ _ Hstart).
  cbn [await_inclusion].
  split.
  - intros Hready Hgt. unfold bind at 1.
    rewrite (await_inclusion_step_cases E self _ _ _ _ _ _ _ _ Hrefresh Hfetch).
    rewrite Hready, Hheap, Hnonce.
    apply Z.gtb_lt in Hgt. rewrite Hgt.
    unfold_monad. cbn -[Nat.eqb]. eexists. split; [reflexivity|].
    cbn -[Nat.eqb]. rewrite !Nat.eqb_refl. cbn.
    repeat split. now rewrite <- app_assoc.
  - intros rc Hready. unfold bind at 1.
    rewrite (await_inclusion_step_cases E self _ _ _ _ _ _ _ _ Hrefresh Hfetch).
    rewrite Hready. split; [reflexivity | exact Hheap].
Qed.

Lemma await_inclusion_drop_witness :
  exists w',
    await_inclusion 1 (sample_env (fun _ => replaced_view)) 0 0 0 sample_world = (Val None, w')
    /\ status (heap w' 0%nat) = Dropped
    /\ _confirmed (heap w' 0%nat) = true.
Proof.
  pose (E := sample_env (fun _ => replaced_view)).
  destruct (refresh_sender_nonce E 0 0 0 sample_world) as [r1 w1] eqn:H1.
  destruct (fetch_receipt E 0 w1) as [r2 w2] eqn:H2.
  vm_compute in H1. injection H1 as <- <-.
  vm_compute in H2. injection H2 as <- <-.
  destruct (await_inclusion_drop E 0%nat 0%nat 1%nat 0 0 0 0 1700000000 6 5
              sample_world sample_world _ _ None eq_refl eq_refl eq_refl eq_refl)
    as [Hdrop _]; [lia|].
  destruct (Hdrop eq_refl) as (w' & Hrun & Hst & Hc & _); [lia|].
  exists w'. repeat split; assumption.
Defined.

(** ** Quiet computations: the trace machinery never touches the tracker *)

Section Quiet.

Lemma quiet_step_refl (w : world) : quiet_step w w.
Proof.
  repeat split.
  - intros j. exists (lazy (heap w j)). now destruct (heap w j).
  - exists []. simpl. now rewrite app_nil_r.
Qed.

Lemma quiet_step_trans (w1 w2 w3 : world) :
  quiet_step w1 w2 -> quiet_step w2 w3 -> quiet_step w1 w3.
Proof.
  intros (Hh1 & Hi1 & r1 & Hl1) (Hh2 & Hi2 & r2 & Hl2). repeat split.
  - intros j. destruct (Hh1 j) as (lz1 & E1). destruct (Hh2 j) as (lz2 & E2).
    exists lz2. rewrite E2, E1. reflexivity.
  - congruence.
  - exists (r1 ++ r2). rewrite Hl2, Hl1, map_app. now rewrite app_assoc.
Qed.

Lemma quiet_ret {A} (a : A) : quiet (ret a).
Proof. intros w. apply quiet_step_refl. Qed.

Lemma quiet_raise {A} (e : exn) : quiet (@raise world A e).
Proof. intros w. apply quiet_step_refl. Qed.

Lemma quiet_lift {A} (r : res A) : quiet (@lift world A r).
Proof. intros w. apply quiet_step_refl. Qed.

Lemma quiet_gets {A} (f : world -> A) : quiet (gets f).
Proof. intros w. apply quiet_step_refl. Qed.

Lemma quiet_getattr {A} (self : nat) (f : TransactionReceipt -> A) : quiet (getattr self f).
Proof. intros w. apply quiet_step_refl. Qed.

Lemma quiet_bind {A B} (m : M world A) (k : A -> M world B) :
  quiet m -> (forall a, quiet (k a)) -> quiet (bind m k).
Proof.
  intros Hm Hk w. unfold bind. specialize (Hm w).
  destruct (m w) as [[a|e] w1]; simpl in *; [|exact Hm].
  eapply quiet_step_trans; [exact Hm | apply Hk].
Qed.

Lemma quiet_when (b : bool) (m : M world unit) : quiet m -> quiet (when b m).
Proof. intros Hm. destruct b; [exact Hm | apply quiet_ret]. Qed.

Lemma quiet_try_except {A} (m : M world A) (handles : exn -> bool) (h : exn -> M world A) :
  quiet m -> (forall e, quiet (h e)) -> quiet (try_except m handles h).
Proof.
  intros Hm Hh w. unfold try_except. specialize (Hm w).
  destruct (m w) as [[a|e] w1]; simpl in *; [exact Hm|].
  destruct (handles e); [|exact Hm].
  eapply quiet_step_trans; [exact Hm | apply Hh].
Qed.

(** Writing lazy attributes is quiet. *)
Lemma quiet_setattr_lazy (self : nat) (f : TransactionReceipt -> TransactionReceipt) :
  (forall r, exists lz, f r = set_lazy lz r) -> quiet (setattr self f).
Proof.
  intros Hf w. unfold setattr, modify. simpl. repeat split.
  - intros j. simpl. destruct (j =? self)%nat.
    + apply Hf.
    + exists (lazy (heap w j)). now destruct (heap w j).
  - exists []. simpl. now rewrite app_nil_r.
Qed.

Lemma quiet_with_lazy (self : nat) (g : lazy_fields -> lazy_fields) :
  quiet (setattr self (with_lazy g)).
Proof. apply quiet_setattr_lazy. intros r. now exists (g (lazy r)). Qed.

Lemma quiet_set_lazy (self : nat) (lz : lazy_fields) : quiet (setattr self (set_lazy lz)).
Proof. apply quiet_setattr_lazy. intros r. now exists lz. Qed.

Lemma quiet_observe {A} (E : env) (f : node_view -> A) : quiet (observe E f).
Proof.
  intros w. unfold observe. simpl. repeat split.
  - intros j. exists (lazy (heap w j)). simpl. now destruct (heap w j).
  - exists []. simpl. now rewrite app_nil_r.
Qed.

Lemma quiet_rpc {A} (E : env) (r : request) (f : node_view -> A) : quiet (rpc E r f).
Proof.
  intros w. unfold rpc, emit, observe, bind, modify. simpl. repeat split.
  - intros j. exists (lazy (heap w j)). simpl. now destruct (heap w j).
  - now exists [r].
Qed.

Lemma quiet_set_web3 (f : world -> web3_state) : quiet (modify (fun w => set_web3 (f w) w)).
Proof.
  intros w. unfold modify. simpl. repeat split.
  - intros j. exists (lazy (heap w j)). simpl. now destruct (heap w j).
  - exists []. simpl. now rewrite app_nil_r.
Qed.

End Quiet.

Create HintDb quiet.
#[export] Hint Resolve quiet_ret quiet_raise quiet_lift quiet_gets quiet_getattr
  quiet_with_lazy quiet_set_lazy quiet_observe quiet_rpc quiet_set_web3 : quiet.

(** Splits a monadic body into its primitive operations. *)
Ltac quiet_tac :=
  repeat first
    [ progress auto with quiet
    | apply quiet_bind; [|intros]
    | apply quiet_when
    | apply quiet_try_except; [|intros]
    | match goal with
      | |- quiet (if ?b then _ else _) => destruct b
      | |- quiet (match ?x with _ => _ end) => destruct x
      | |- quiet (let '(_, _) := ?x in _) => destruct x
      end ].

Section QuietTrace.

Variable E : env.
Variable self : nat.

Lemma quiet_supports_traces : quiet (supports_traces E).
Proof. unfold supports_traces. quiet_tac. Qed.

Lemma quiet__confirmed_trace (trace : list raw_step) : quiet (_confirmed_trace E self trace).
Proof. unfold _confirmed_trace. quiet_tac. Qed.

Lemma quiet__get_trace : quiet (_get_trace E self).
Proof.
  unfold _get_trace. pose proof quiet_supports_traces. pose proof quiet__confirmed_trace.
  quiet_tac.
Qed.

Lemma quiet__expand_trace : quiet (_expand_trace E self).
Proof. unfold _expand_trace. pose proof quiet__get_trace. quiet_tac. Qed.

Lemma quiet_trace_property {A} (fn : nat -> M world A) :
  quiet (fn self) -> quiet (trace_property E fn self).
Proof.
  intros Hfn. unfold trace_property. pose proof quiet_supports_traces. quiet_tac.
Qed.

Lemma quiet_trace : quiet (trace E self).
Proof.
  apply quiet_trace_property. unfold trace_body. pose proof quiet__expand_trace. quiet_tac.
Qed.

Lemma quiet_revert_msg : quiet (revert_msg E self).
Proof.
  apply quiet_trace_property. unfold revert_msg_body. pose proof quiet__get_trace. quiet_tac.
Qed.

Lemma quiet__confirm_output : quiet (_confirm_output E self).
Proof.
  unfold _confirm_output. pose proof quiet_supports_traces. pose proof quiet_revert_msg.
  quiet_tac.
Qed.

Lemma quiet_evaluate_and_report (required_confs : Z) :
  quiet (evaluate_and_report E self required_confs).
Proof.
  unfold evaluate_and_report.
  pose proof quiet_trace. pose proof quiet__expand_trace. pose proof quiet__confirm_output.
  quiet_tac.
Qed.

End QuietTrace.

(** ** Sender, nonce and history are never written *)

Section Keys.

Lemma same_keys_refl (w : world) : same_keys w w.
Proof. split; [intros j; split|]; reflexivity. Qed.

Lemma same_keys_trans (w1 w2 w3 : world) :
  same_keys w1 w2 -> same_keys w2 w3 -> same_keys w1 w3.
Proof.
  intros [H1 Hh1] [H2 Hh2]. split; [|congruence].
  intros j. destruct (H1 j), (H2 j). split; congruence.
Qed.

Lemma quiet_step_same_keys (w w' : world) : quiet_step w w' -> same_keys w w'.
Proof.
  intros (Hh & Hi & _). split; [|exact Hi].
  intros j. destruct (Hh j) as (lz & ->). split; reflexivity.
Qed.

Lemma same_nonce_others_keys (w w' : world) (self : nat) :
  same_keys w w' -> same_nonce_others w' self = same_nonce_others w self.
Proof.
  intros [Hk Hh]. unfold same_nonce_others. rewrite Hh.
  apply List.filter_ext. intros j.
  destruct (Hk j) as [-> ->]. destruct (Hk self) as [-> ->]. reflexivity.
Qed.

Lemma keeps_ret {A} (a : A) : keeps_keys (@ret world A a).
Proof. intros w. apply same_keys_refl. Qed.

Lemma keeps_raise {A} (e : exn) : keeps_keys (@raise world A e).
Proof. intros w. apply same_keys_refl. Qed.

Lemma keeps_gets {A} (f : world -> A) : keeps_keys (gets f).
Proof. intros w. apply same_keys_refl. Qed.

Lemma keeps_getattr {A} (self : nat) (f : TransactionReceipt -> A) : keeps_keys (getattr self f).
Proof. intros w. apply same_keys_refl. Qed.

Lemma keeps_bind {A B} (m : M world A) (k : A -> M world B) :
  keeps_keys m -> (forall a, keeps_keys (k a)) -> keeps_keys (bind m k).
Proof.
  intros Hm Hk w. unfold bind. specialize (Hm w).
  destruct (m w) as [[a|e] w1]; simpl in *; [|exact Hm].
  eapply same_keys_trans; [exact Hm | apply Hk].
Qed.

Lemma keeps_when (b : bool) (m : M world unit) : keeps_keys m -> keeps_keys (when b m).
Proof. intros Hm. destruct b; [exact Hm | apply keeps_ret]. Qed.

Lemma keeps_quiet {A} (m : M world A) : quiet m -> keeps_keys m.
Proof. intros Hm w. apply quiet_step_same_keys, Hm. Qed.

Lemma keeps_setattr (self : nat) (f : TransactionReceipt -> TransactionReceipt) :
  (forall r, sender (f r) = sender r /\ nonce (f r) = nonce r) -> keeps_keys (setattr self f).
Proof.
  intros Hf w. unfold setattr, modify. split; [|reflexivity].
  intros j. simpl. destruct (j =? self)%nat; [apply Hf | split; reflexivity].
Qed.

Lemma keeps_emit (e : effect) : keeps_keys (emit e).
Proof. intros w. split; [intros j; split|]; reflexivity. Qed.

Lemma keeps_sleep (E : env) : keeps_keys (sleep E).
Proof. intros w. split; [intros j; split|]; reflexivity. Qed.

Lemma keeps_set_status_of (tx : nat) (s : Status) : keeps_keys (set_status_of tx s).
Proof.
  unfold set_status_of. apply keeps_bind; [|intros; apply keeps_emit].
  apply keeps_setattr. intros r. split; reflexivity.
Qed.

Lemma keeps_signal (tx : nat) : keeps_keys (signal tx).
Proof.
  unfold signal. apply keeps_bind; [|intros; apply keeps_emit].
  apply keeps_setattr. intros r. split; reflexivity.
Qed.

Lemma keeps_for_in {A} (l : list A) (body : A -> M world unit) :
  (forall a, keeps_keys (body a)) -> keeps_keys (for_in l body).
Proof.
  intros Hb. induction l as [|a l IH]; simpl; [apply keeps_ret|].
  apply keeps_bind; [apply Hb | intros; exact IH].
Qed.

End Keys.

Create HintDb keys.
#[export] Hint Resolve keeps_ret keeps_raise keeps_gets keeps_getattr keeps_emit keeps_sleep
  keeps_set_status_of keeps_signal : keys.
#[export] Hint Extern 1 (keeps_keys (rpc _ _ _)) => apply keeps_quiet, quiet_rpc : keys.
#[export] Hint Extern 1 (keeps_keys (observe _ _)) => apply keeps_quiet, quiet_observe : keys.
#[export] Hint Extern 1 (keeps_keys (setattr _ _)) =>
  apply keeps_setattr; intros; split; reflexivity : keys.

Ltac keys_tac :=
  repeat first
    [ progress auto with keys
    | apply keeps_bind; [|intros]
    | apply keeps_when
    | apply keeps_for_in; intros
    | match goal with
      | |- keeps_keys (if ?b then _ else _) => destruct b
      | |- keeps_keys (match ?x with _ => _ end) => destruct x
      end ].

Section TrackerKeys.

Variable E : env.
Variable self : nat.

Lemma keeps_confirmations : keeps_keys (confirmations E self).
Proof. unfold confirmations. keys_tac. Qed.

Lemma keeps__set_from_receipt (receipt : rpc_receipt) :
  keeps_keys (_set_from_receipt self receipt).
Proof.
  unfold _set_from_receipt. keys_tac. apply keeps_quiet, quiet_lift.
Qed.

Lemma keeps_await_inclusion_step (nt sn : Z) : keeps_keys (await_inclusion_step E self nt sn).
Proof. unfold await_inclusion_step, refresh_sender_nonce, fetch_receipt. keys_tac. Qed.

Lemma keeps_await_inclusion (fuel : nat) : forall nt sn,
  keeps_keys (await_inclusion fuel E self nt sn).
Proof.
  induction fuel as [|fuel IH]; intros nt sn; simpl; [apply keeps_raise|].
  pose proof keeps_await_inclusion_step. keys_tac.
Qed.

Lemma keeps_await_confirmations (again : option Z -> Z -> M world unit) (fuel : nat) :
  (forall bn rc, keeps_keys (again bn rc)) ->
  forall required remaining receipt,
    keeps_keys (await_confirmations fuel E self required remaining receipt again).
Proof.
  intros Hagain. pose proof keeps_confirmations.
  induction fuel as [|fuel IH]; intros required remaining receipt; simpl.
  - keys_tac.
  - unfold fetch_receipt. keys_tac.
Qed.

Lemma keeps_finish_confirmation (required : Z) (receipt : rpc_receipt) :
  keeps_keys (finish_confirmation E self required receipt).
Proof.
  unfold finish_confirmation. pose proof keeps__set_from_receipt.
  pose proof (keeps_quiet _ (quiet_evaluate_and_report E self required)).
  keys_tac.
Qed.

Lemma keeps__await_confirmation (fuel : nat) : forall bn required,
  keeps_keys (_await_confirmation fuel E self bn required).
Proof.
  induction fuel as [|fuel IH]; intros bn required; simpl; [apply keeps_raise|].
  pose proof keeps_await_inclusion. pose proof keeps_finish_confirmation.
  pose proof (keeps_await_confirmations (_await_confirmation fuel E self) fuel IH).
  keys_tac.
Qed.

End TrackerKeys.

(** ** The end of [_await_confirmation]: who is signalled when *)

Section Finish.

Variable E : env.
Variable self : nat.

Lemma self_not_other (w : world) : ~ In self (same_nonce_others w self).
Proof.
  unfold same_nonce_others. intros H. apply List.filter_In in H as [_ H].
  rewrite Nat.eqb_refl in H. discriminate H.
Qed.

(** The loop that marks the competitors never raises; it adds exactly
    [drop_others_effects] to the log, leaves the marked records dropped and
    signalled, and touches no other record. *)
Lemma drop_others_run (others : list nat) : forall w,
  exists w',
    for_in others (fun dropped_tx => set_status_of dropped_tx Dropped ;; signal dropped_tx) w
      = (Val tt, w')
    /\ log w' = log w ++ drop_others_effects others
    /\ (forall j, In j others ->
          status (heap w' j) = Dropped /\ _confirmed (heap w' j) = true)
    /\ (forall j, ~ In j others -> heap w' j = heap w j).
Proof.
  induction others as [|a rest IH]; intros w.
  - exists w. simpl. rewrite app_nil_r. repeat split; tauto.
  - cbn [for_in]. unfold bind at 1.
    destruct ((set_status_of a Dropped ;; signal a) w) as [r wa] eqn:Ha.
    assert (Hfacts : r = Val tt
                     /\ log wa = log w ++ [SetStatus a Dropped; Signal a]
                     /\ status (heap wa a) = Dropped /\ _confirmed (heap wa a) = true
                     /\ (forall j, j <> a -> heap wa j = heap w j)).
    { revert Ha. unfold_monad. cbn -[Nat.eqb]. intros [= <- <-]. cbn -[Nat.eqb].
      rewrite !Nat.eqb_refl. rewrite <- app_assoc. repeat split.
      intros j Hne. destruct (Nat.eqb_spec j a) as [->|_]; [now elim Hne | reflexivity]. }
    destruct Hfacts as (-> & Hlog & Hst & Hc & Hother).
    destruct (IH wa) as (w' & Hrun & Hlog' & Hin & Hout).
    exists w'. split; [exact Hrun|]. split; [|split].
    + rewrite Hlog', Hlog. cbn [drop_others_effects flat_map]. now rewrite <- app_assoc.
    + intros j [<-|Hj]; [|now apply Hin].
      destruct (in_dec Nat.eq_dec a rest) as [Hi|Hn]; [now apply Hin|].
      rewrite (Hout a Hn). now split.
    + intros j Hn. rewrite Hout; [apply Hother|]; intros Hj; apply Hn; simpl; auto.
Qed.

(** [_set_from_receipt], when it returns: the status of the receipt was
    valid and was written, with one effect in the log. *)
Lemma _set_from_receipt_val (receipt : rpc_receipt) (w wa : world) :
  _set_from_receipt self receipt w = (Val tt, wa) ->
  exists st,
    Status_of (rc_status receipt) = Val st
    /\ log wa = log w ++ [SetStatus self st]
    /\ status (heap wa self) = st.
Proof.
  unfold _set_from_receipt. unfold_monad. cbn -[Nat.eqb].
  destruct (Status_of (rc_status receipt)) as [st|e]; cbn -[Nat.eqb]; [|discriminate].
  rewrite !Nat.eqb_refl. cbn -[Nat.eqb].
  destruct (str_true (rc_contractAddress receipt) && negb (str_true (contract_name (heap w self))));
    cbn -[Nat.eqb]; intros [= <-]; exists st; cbn -[Nat.eqb]; rewrite ?Nat.eqb_refl;
    repeat split.
Qed.

(** The order of effects in the last block of [_await_confirmation]: when it
    (lines 557-574, run once a receipt is in hand) returns, the log has
    grown by: the write of the receipt's status to the transaction, then
    requests only (coverage evaluation and the report), then the completion
    event of the transaction itself, and only then, for each other tracked
    transaction of the same sender and nonce in turn, its status written to
    [Dropped] followed by its own completion event.  At the end the
    transaction carries the receipt's status and its event is set, and
    every competitor is [Dropped] with its event set. *)
Lemma finish_confirmation_order (required_confs : Z) (receipt : rpc_receipt) (w w' : world) :
  finish_confirmation E self required_confs receipt w = (Val tt, w') ->
  exists st requests,
    Status_of (rc_status receipt) = Val st
    /\ log w' = log w ++ SetStatus self st :: map Rpc requests
                      ++ Signal self :: drop_others_effects (same_nonce_others w self)
    /\ status (heap w' self) = st
    /\ _confirmed (heap w' self) = true
    /\ (forall j, In j (same_nonce_others w self) ->
          status (heap w' j) = Dropped /\ _confirmed (heap w' j) = true).
Proof.
  unfold finish_confirmation. unfold bind at 1.
  destruct (_set_from_receipt self receipt w) as [[[]|e] wa] eqn:Hset; [|discriminate].
  pose proof (keeps__set_from_receipt self receipt w) as Hka. rewrite Hset in Hka. simpl in Hka.
  apply _set_from_receipt_val in Hset as (st & Hst & Hloga & Hsta).
  unfold bind at 1.
  pose proof (quiet_evaluate_and_report E self required_confs wa) as Hq.
  destruct (evaluate_and_report E self required_confs wa) as [[[]|e] wb]; [|discriminate].
  simpl in Hq. destruct Hq as (Hhb & Hib & requests & Hlogb).
  assert (Hkb : same_keys wa wb) by (apply quiet_step_same_keys; repeat split; eauto).
  unfold bind at 1.
  destruct (signal self wb) as [r wc] eqn:Hsig.
  assert (Hc : r = Val tt /\ log wc = log wb ++ [Signal self]
               /\ heap wc self = set__confirmed true (heap wb self)
               /\ same_keys wb wc).
  { pose proof (keeps_signal self wb) as Hk. rewrite Hsig in Hk.
    revert Hsig. unfold_monad. cbn -[Nat.eqb]. intros [= <- <-]. cbn -[Nat.eqb].
    rewrite Nat.eqb_refl. repeat split; apply Hk. }
  destruct Hc as (-> & Hlogc & Hselfc & Hkc).
  unfold bind at 1. unfold gets at 1.
  assert (Hothers : same_nonce_others wc self = same_nonce_others w self).
  { apply same_nonce_others_keys.
    eapply same_keys_trans; [exact Hka|]. eapply same_keys_trans; eassumption. }
  rewrite Hothers.
  destruct (drop_others_run (same_nonce_others w self) wc) as (wd & Hrun & Hlogd & Hin & Hout).
  rewrite Hrun. intros [= <-].
  exists st, requests. split; [exact Hst|]. split; [|split; [|split]].
  - rewrite Hlogd, Hlogc, Hlogb, Hloga. rewrite <- !app_assoc. reflexivity.
  - rewrite (Hout self (self_not_other w)), Hselfc.
    destruct (Hhb self) as (lz & ->). exact Hsta.
  - now rewrite (Hout self (self_not_other w)), Hselfc.
  - exact Hin.
Qed.

End Finish.

(** ** [_await_confirmation] as a whole *)

Section Await.

Variable E : env.
Variable self : nat.

Lemma confirmed_then_dropped_others_keys (w0 w w' : world) :
  same_keys w0 w -> confirmed_then_dropped_others self w w' -> confirmed_then_dropped_others self w0 w'.
Proof.
  intros Hk (st & pre & requests & H). exists st, pre, requests.
  now rewrite <- (same_nonce_others_keys w0 w self Hk).
Qed.

(** The first loop returns [None] only after marking the transaction. *)
Lemma await_inclusion_gave_up (fuel : nat) : forall nt sn w w1,
  await_inclusion fuel E self nt sn w = (Val None, w1) -> gave_up self w1.
Proof.
  induction fuel as [|fuel IH]; intros nt0 sn0 w w1 H; simpl in H; [discriminate|].
  apply bind_inv in H as (r & ws & Hstep & Hrest).
  destruct (refresh_sender_nonce_total E self nt0 sn0 w) as (nt & sn & wr & Hr & _).
  destruct (fetch_receipt_total E self wr) as (receipt & wf & Hf & _).
  rewrite (await_inclusion_step_cases E self _ _ _ _ _ _ _ _ Hr Hf) in Hstep.
  destruct (ready_receipt receipt).
  { injection Hstep as <- <-. discriminate Hrest. }
  destruct (nonce (heap wf self)) as [n|]; [|discriminate].
  destruct (sn >? n).
  - revert Hstep. unfold_monad. cbn -[Nat.eqb]. intros [= <- <-].
    injection Hrest as <-. unfold gave_up. cbn -[Nat.eqb]. rewrite !Nat.eqb_refl.
    repeat split. exists (log wf). now rewrite <- app_assoc.
  - revert Hstep. unfold_monad. cbn. intros [= <- <-]. now apply IH in Hrest.
Qed.

(** The second loop returns [None] only through the recursive call, made
    from a world with the same senders, nonces and history. *)
Lemma await_confirmations_again (again : option Z -> Z -> M world unit) (fuel : nat) :
  forall required remaining receipt w w2,
    await_confirmations fuel E self required remaining receipt again w = (Val None, w2) ->
    exists bn w_mid, same_keys w w_mid /\ again bn required w_mid = (Val tt, w2).
Proof.
  induction fuel as [|fuel IH]; intros required remaining receipt w w2 H; simpl in H.
  - destruct (_ && _); discriminate.
  - destruct (_ && _); [|discriminate].
    apply bind_inv in H as (r & wa & Hfetch & H).
    assert (Hka : same_keys w wa).
    { pose proof (fetch_receipt_total E self w) as (r' & w' & Hf & _).
      rewrite Hfetch in Hf. injection Hf as <- <-.
      assert (K : keeps_keys (fetch_receipt E self)) by (unfold fetch_receipt; keys_tac).
      specialize (K w). now rewrite Hfetch in K. }
    destruct r as [receipt'|].
    + apply bind_inv in H as ([] & wb & Hset & H).
      assert (Hkb : same_keys wa wb).
      { assert (K : keeps_keys (setattr self (set_block_number (Some (rc_blockNumber receipt')))))
          by keys_tac.
        specialize (K wa). now rewrite Hset in K. }
      apply bind_inv in H as (c & wc & Hconf & H).
      assert (Hkc : same_keys wb wc).
      { pose proof (keeps_confirmations E self wb) as K. now rewrite Hconf in K. }
      apply bind_inv in H as (remaining' & wd & Hrem & H).
      assert (Hkd : same_keys wc wd).
      { assert (K : keeps_keys
                      (if negb (required - c =? remaining)
                       then let* c' := confirmations E self in
                            let* silent := getattr self _silent in
                            when (negb silent) (let* _ := confirmations E self in ret tt) ;;
                            ret (required - c')
                       else ret remaining)).
        { pose proof (keeps_confirmations E self). keys_tac. }
        specialize (K wc). now rewrite Hrem in K. }
      apply bind_inv in H as ([] & we & Hsleep & H).
      assert (Hke : same_keys wd we).
      { assert (K : keeps_keys (when (0 <? remaining') (sleep E))) by keys_tac.
        specialize (K wd). now rewrite Hsleep in K. }
      apply IH in H as (bn & w_mid & Hk & Hagain).
      exists bn, w_mid. split; [|exact Hagain].
      repeat (eapply same_keys_trans; [eassumption|]). apply same_keys_refl.
    + apply bind_inv in H as (id & wb & Hid & H).
      unfold getattr, gets in Hid. injection Hid as <- <-.
      apply bind_inv in H as (tx & wc & Hrpc & H).
      assert (Hkc : same_keys wa wc).
      { pose proof (keeps_quiet _ (quiet_rpc E (ReqTransaction (txid (heap wa self)))
                      (fun v => get_transaction v (txid (heap wa self)))) wa) as K.
        now rewrite Hrpc in K. }
      destruct tx as [tx|]; [|discriminate].
      apply bind_inv in H as ([] & wd & Hset & H).
      assert (Hkd : same_keys wc wd).
      { assert (K : keeps_keys (setattr self (set_block_number None))) by keys_tac.
        specialize (K wc). now rewrite Hset in K. }
      apply bind_inv in H as ([] & we & Hagain & H).
      injection H as <-.
      exists (tx_blockNumber tx), wd. split; [|exact Hagain].
      repeat (eapply same_keys_trans; [eassumption|]). apply same_keys_refl.
Qed.


End Await.



(** ** [wait] *)

(** C9, as the code has it.  [wait(required_confs)] returns at once,
    leaving the world as it was, when [required_confs < 1]; and when the
    confirmation count strictly exceeds [required_confs] it returns after
    reading the block height twice (for the test and for the message):
    no record, [web3] or history changes and no polling request is sent. *)
Theorem wait_noop (fuel : nat) (E : env) (self : nat) (required_confs : Z) (w : world) :
  (required_confs < 1 -> wait fuel E self required_confs w = (Val tt, w))
  /\ (forall c w1,
        1 <= required_confs ->
        confirmations E self w = (Val c, w1) ->
        required_confs < c ->
        exists w',
          wait fuel E self required_confs w = (Val tt, w')
          /\ heap w' = heap w /\ history w' = history w /\ web3 w' = web3 w
          /\ log w' = log w ++ [Rpc ReqBlockNumber; Rpc ReqBlockNumber]).
Proof.
  split.
  - intros H. unfold wait. apply Z.ltb_lt in H. now rewrite H.
  - intros c w1 Hreq Hconf Hlt. unfold wait.
    assert (H1 : (required_confs <? 1) = false) by (apply Z.ltb_ge; lia).
    rewrite H1. unfold bind at 1. rewrite Hconf.
    apply Z.ltb_lt in Hlt as Hlt'. rewrite Hlt'.
    revert Hconf. unfold confirmations. unfold_monad. cbn.
    destruct (block_number (heap w self)) as [b|] eqn:Hb; [|intros [= <- <-]; lia].
    destruct (b =? 0) eqn:Hb0; [intros [= <- <-]; lia|].
    intros [= <- <-]. cbn. rewrite Hb, Hb0. cbn.
    eexists. split; [reflexivity|]. cbn.
    split; [reflexivity|]. split; [reflexivity|]. split; [reflexivity|].
    now rewrite <- app_assoc.
Qed.

(** C9 as stated fails at equality: a transaction confirmed in the latest
    block has 1 confirmation, and [wait(1)] polls the node again and runs
    [_await_confirmation] once more. *)
Lemma wait_polls_at_equal_confirmations :
  fst (confirmations (sample_env (fun _ => mined_view)) 0 settled_world) = Val 1
  /\ fst (wait 5 (sample_env (fun _ => mined_view)) 0 1 settled_world) = Val tt
  /\ log (snd (wait 5 (sample_env (fun _ => mined_view)) 0 1 settled_world))
     = [Rpc ReqBlockNumber; Rpc (ReqTransactionCount "0xf0"); Rpc (ReqTransaction "0x01");
        Rpc (ReqTransactionCount "0xf0"); Rpc (ReqTransactionReceipt "0x01");
        SetStatus 0 Confirmed; Signal 0; SetStatus 1 Dropped; Signal 1].
Proof. split; [|split]; vm_compute; reflexivity. Qed.

(** ** The gas accountant *)

Section Gas.

Lemma py_nth_lookup {A} (l : list A) (i : nat) (x : A) :
  l !! i = Some x -> py_nth l (Z.of_nat i) = Val x.
Proof.
  intros H. unfold py_nth.
  assert (Hlt : (Z.of_nat i <? 0) = false) by (apply Z.ltb_ge; lia).
  rewrite Hlt, Hlt. now rewrite Nat2Z.id, H.
Qed.

Lemma readable_lookup (l : list step) (i : nat) (st : step) :
  forallb gas_readable l = true -> l !! i = Some st -> gas_readable st = true.
Proof.
  intros Hall Hi. rewrite forallb_forall in Hall. apply Hall.
  apply list_elem_of_In. eapply list_elem_of_lookup_2. exact Hi.
Qed.

Lemma readable_compare (a b : step) :
  gas_readable a = true -> gas_readable b = true ->
  _step_compare a b = Val (same_context b a).
Proof.
  intros Ha Hb. unfold same_context, _step_compare, step_jumpDepth.
  unfold gas_readable in Ha, Hb.
  apply andb_prop in Ha as [Ha _]. apply andb_prop in Hb as [Hb _].
  destruct (s_ann a); [|discriminate]. destruct (s_ann b); [|discriminate].
  now destruct (s_depth a =? s_depth b).
Qed.

Lemma same_context_refl (s0 : step) : gas_readable s0 = true -> same_context s0 s0 = true.
Proof.
  intros H. unfold same_context, _step_compare, step_jumpDepth.
  unfold gas_readable in H. apply andb_prop in H as [H _].
  destruct (s_ann s0); [|discriminate]. rewrite Z.eqb_refl. cbn. now rewrite Z.eqb_refl.
Qed.

(** One iteration of the loop on readable steps, in closed form.  [prev] is
    the step before [i], or the first step itself when [i] is [start]. *)
Lemma gas_step_closed (l : list step) (start i : nat) (s0 st prev : step) (total internal : Z) :
  forallb gas_readable l = true ->
  l !! start = Some s0 ->
  l !! i = Some st ->
  (i = start /\ prev = s0) \/ ((0 < i)%nat /\ l !! (i - 1)%nat = Some prev) ->
  gas_step (Some l) (Z.of_nat start) (total, internal, same_context s0 prev) (Z.of_nat i)
  = Val (total + (s_gasCost st - refund_of st),
         internal + (if same_context s0 st then s_gasCost st - refund_of st else 0)
           - (if same_context s0 prev && negb (same_context s0 st) && (s_depth st >? s_depth s0)
              then s_gasCost prev else 0),
         same_context s0 st).
Proof.
  intros Hall H0 Hi Hprev.
  pose proof (readable_lookup _ _ _ Hall H0) as Hr0.
  pose proof (readable_lookup _ _ _ Hall Hi) as Hrt.
  unfold gas_step. cbn [subscript].
  rewrite (py_nth_lookup _ _ _ Hi), (py_nth_lookup _ _ _ H0). cbn [rbind].
  rewrite (readable_compare st s0 Hrt Hr0). cbn [rbind].
  set (same := same_context s0 st).
  assert (Hbranch :
    (if same_context s0 prev && negb same
     then if s_depth st >? s_depth s0
          then let? prev0 := py_nth l (Z.of_nat i - 1) in Val (internal - s_gasCost prev0, false)
          else Val (internal, false)
     else if negb (same_context s0 prev) && same then Val (internal, true)
          else Val (internal, same_context s0 prev))
    = Val (internal - (if same_context s0 prev && negb same && (s_depth st >? s_depth s0)
                       then s_gasCost prev else 0), same)).
  { destruct (same_context s0 prev) eqn:Hsp, same eqn:Hs; cbn [andb negb]; try (f_equal; f_equal; lia).
    destruct (s_depth st >? s_depth s0); [|f_equal; f_equal; lia].
    destruct Hprev as [[-> ->]|[Hpos Hp]].
    - rewrite H0 in Hi. injection Hi as <-. unfold same in Hs.
      rewrite (same_context_refl _ Hr0) in Hs. discriminate Hs.
    - replace (Z.of_nat i - 1) with (Z.of_nat (i - 1)) by lia.
      rewrite (py_nth_lookup _ _ _ Hp). reflexivity. }
  rewrite Hbranch. cbn [rbind].
  unfold refund_of. unfold gas_readable in Hrt. apply andb_prop in Hrt as [_ Hrt].
  destruct (string_eqb (s_op st) "SSTORE") eqn:Hss; cbn [negb orb andb] in Hrt |- *.
  - destruct (py_nth (s_stack st) (-2)) as [v|e]; [|discriminate Hrt]. cbn [rbind].
    destruct (py_int16 v) as [z|e]; [|discriminate Hrt]. cbn [rbind].
    destruct (z =? 0), (string_eqb (s_op st) "SELFDESTRUCT"), same; cbn [andb];
      f_equal; f_equal; try f_equal; lia.
  - cbn [rbind].
    destruct (string_eqb (s_op st) "SELFDESTRUCT"), same; cbn [andb];
      f_equal; f_equal; try f_equal; lia.
Qed.

Lemma sum_steps_cons (f : step -> Z) (st : step) (l : list step) :
  sum_steps f (st :: l) = f st + sum_steps f l.
Proof. reflexivity. Qed.

(** The whole loop over the steps [rs] that start at index [i]. *)
Lemma gas_fold_closed (l : list step) (start : nat) (s0 : step) :
  forallb gas_readable l = true ->
  l !! start = Some s0 ->
  forall (rs : list step) (i : nat) (prev : step) (total internal : Z),
    take (length rs) (drop i l) = rs ->
    (i = start /\ prev = s0) \/ ((0 < i)%nat /\ l !! (i - 1)%nat = Some prev) ->
    exists b,
      fold_res (gas_step (Some l) (Z.of_nat start)) (total, internal, same_context s0 prev)
        (seqZ (Z.of_nat i) (Z.of_nat (length rs)))
      = Val (total + sum_steps (fun st => s_gasCost st - refund_of st) rs,
             internal
               + sum_steps (fun st => if same_context s0 st
                                      then s_gasCost st - refund_of st else 0) rs
               - handed_over s0 prev rs,
             b).
Proof.
  intros Hall H0. induction rs as [|st rs IH]; intros i prev total internal Hrs Hprev.
  - exists (same_context s0 prev). rewrite seqZ_nil by (cbn; lia). cbn.
    f_equal. f_equal. f_equal; lia.
  - assert (Hi : l !! i = Some st).
    { cbn [length] in Hrs. destruct (drop i l) as [|x d] eqn:Hd; [discriminate Hrs|].
      cbn in Hrs. injection Hrs as -> _.
      rewrite <- (Nat.add_0_r i), <- lookup_drop, Hd. reflexivity. }
    assert (Hrest : take (length rs) (drop (S i) l) = rs).
    { cbn [length] in Hrs. destruct (drop i l) as [|x d] eqn:Hd; [discriminate Hrs|].
      cbn in Hrs. injection Hrs as _ Hrs.
      replace (drop (S i) l) with d; [exact Hrs|].
      change (S i) with (1 + i)%nat. rewrite Nat.add_comm, <- drop_drop, Hd. reflexivity. }
    cbn [length]. rewrite seqZ_cons by lia. cbn [fold_res].
    rewrite (gas_step_closed l start i s0 st prev total internal Hall H0 Hi Hprev). cbn [rbind].
    replace (Z.succ (Z.of_nat i)) with (Z.of_nat (S i)) by lia.
    replace (Z.pred (Z.of_nat (S (length rs)))) with (Z.of_nat (length rs)) by lia.
    destruct (IH (S i) st (total + (s_gasCost st - refund_of st))
                (internal + (if same_context s0 st then s_gasCost st - refund_of st else 0)
                 - (if same_context s0 prev && negb (same_context s0 st)
                       && (s_depth st >? s_depth s0)
                    then s_gasCost prev else 0)) Hrest) as (b & Hfold).
    { right. split; [lia|]. now replace (S i - 1)%nat with i by lia. }
    exists b. rewrite Hfold, !sum_steps_cons. cbn [handed_over].
    f_equal. f_equal. f_equal; lia.
Qed.

End Gas.

(** C5.  On an expanded trace whose steps all carry [jumpDepth] and whose
    [SSTORE] steps have a hexadecimal second stack item, and for any range
    [start <= stop <= len(trace)] with [start] a valid index,
    [_get_trace_gas] returns without an exception:
    - the total is the sum of the gas costs in the range, less 15000 for
      every [SSTORE] whose second stack item from the top is zero and less
      24000 for every [SELFDESTRUCT] (a function of the step alone: no
      earlier value of the slot enters), plus the add-back;
    - the internal figure is the same sum over the steps in the starting
      context (same depth and jump depth as the step at [start]), with the
      same refunds for those steps, less the cost of the calling step for
      every descent from that context into a deeper call, plus the add-back;
    - the add-back, in both figures, is the gas cost of the step before
      [start] when [start > 0] and the step at [start] is deeper than it,
      and 0 otherwise. *)
Theorem trace_gas_closed_form (l : list step) (start stop : nat) :
  forallb gas_readable l = true ->
  (start <= stop <= length l)%nat ->
  (start < length l)%nat ->
  trace_gas (Some l) (Z.of_nat start) (Z.of_nat stop)
  = Val (spec_internal l start stop, spec_total l start stop).
Proof.
  intros Hall Hrange Hstart.
  destruct (lookup_lt_is_Some_2 l start Hstart) as (s0 & H0).
  unfold trace_gas.
  set (rs := take (stop - start) (drop start l)).
  assert (Hlen : length rs = (stop - start)%nat).
  { unfold rs. rewrite length_take, length_drop. lia. }
  replace (Z.of_nat stop - Z.of_nat start) with (Z.of_nat (length rs)) by lia.
  destruct (gas_fold_closed l start s0 Hall H0 rs start s0 0 0) as (b & Hfold).
  { rewrite Hlen. reflexivity. }
  { left. split; reflexivity. }
  rewrite (same_context_refl s0 (readable_lookup _ _ _ Hall H0)) in Hfold.
  rewrite Hfold. cbn [rbind].
  assert (Hadd : (if 0 <? Z.of_nat start
                  then let? t0 := subscript (Some l) (Z.of_nat start) in
                       let? before := subscript (Some l) (Z.of_nat start - 1) in
                       Val (if s_depth t0 >? s_depth before then s_gasCost before else 0)
                  else Val 0) = Val (add_back_of l start)).
  { unfold add_back_of. destruct start as [|before]; [reflexivity|].
    assert (Hpos : (0 <? Z.of_nat (S before)) = true) by (apply Z.ltb_lt; lia).
    rewrite Hpos. cbn [subscript]. rewrite (py_nth_lookup _ _ _ H0). cbn [rbind].
    destruct (lookup_lt_is_Some_2 l before) as (sb & Hb); [lia|].
    replace (Z.of_nat (S before) - 1) with (Z.of_nat before) by lia.
    rewrite (py_nth_lookup _ _ _ Hb), H0, Hb. reflexivity. }
  rewrite Hadd. cbn [rbind].
  unfold spec_internal, spec_total. rewrite H0. fold rs.
  first [reflexivity | f_equal; f_equal; lia].
Qed.

Lemma trace_gas_closed_form_witness :
  trace_gas (Some sample_expanded_trace) 1 3 = Val (-28300, -28300)
  /\ trace_gas (Some sample_expanded_trace) 0 4 = Val (0, -28300).
Proof.
  split.
  - exact (trace_gas_closed_form sample_expanded_trace 1 3 eq_refl
             (conj (le_S _ _ (le_S _ _ (le_n 1))) (le_S _ _ (le_n 3)))
             (le_S _ _ (le_S _ _ (le_n 2)))).
  - exact (trace_gas_closed_form sample_expanded_trace 0 4 eq_refl
             (conj (le_S _ _ (le_S _ _ (le_S _ _ (le_S _ _ (le_n 0))))) (le_n 4))
             (le_S _ _ (le_S _ _ (le_S _ _ (le_n 1))))).
Defined.

(** ** The walk of [_expand_trace]: jump depths and internal calls *)

Section Frames.

Lemma frames_ret {A} (a : A) : frames (ret a).
Proof. now intros x. Qed.

Lemma frames_raise {A} (e : exn) : frames (@raise xstate A e).
Proof. now intros x. Qed.

Lemma frames_lift {A} (r : res A) : frames (@lift xstate A r).
Proof. now intros x. Qed.

Lemma frames_gets {A} (f : xstate -> A) : frames (gets f).
Proof. now intros x. Qed.

Lemma frames_trace_at (i : Z) : frames (trace_at i).
Proof. now intros x. Qed.

Lemma frames_bind {A B} (m : M xstate A) (k : A -> M xstate B) :
  frames m -> (forall a, frames (k a)) -> frames (bind m k).
Proof.
  intros Hm Hk x. unfold bind. specialize (Hm x).
  destruct (m x) as [[a|e] x1]; simpl in *; [|exact Hm].
  destruct (Hk a x1) as [H1 H2]. destruct Hm as [H3 H4]. split; congruence.
Qed.

Lemma frames_when (b : bool) (m : M xstate unit) : frames m -> frames (when b m).
Proof. intros Hm. destruct b; [exact Hm | apply frames_ret]. Qed.

Lemma frames_modify (f : xstate -> xstate) :
  (forall x, x_last_map (f x) = x_last_map x /\ x_trace (f x) = x_trace x) ->
  frames (modify f).
Proof. intros Hf x. apply Hf. Qed.

Lemma frames_update_last_subcall (f : subcall -> subcall) : frames (update_last_subcall f).
Proof. intros x. unfold update_last_subcall. now destruct (x_subcalls x). Qed.

End Frames.

Create HintDb frames.
#[export] Hint Resolve frames_ret frames_raise frames_lift frames_gets frames_trace_at
  frames_update_last_subcall : frames.

(** Splits a part of the walk into its primitive operations. *)
Ltac frames_tac :=
  cbv zeta;
  repeat first
    [ progress auto with frames
    | apply frames_bind; [|intros]
    | apply frames_when
    | apply frames_modify; intros ?; split; reflexivity
    | match goal with
      | |- frames (if ?b then _ else _) => destruct b
      | |- frames (match ?x with _ => _ end) => destruct x
      | |- frames (let '(_, _) := ?x in _) => destruct x
      end ].

Section FramesOfTheWalk.

Variable R : registry.

Lemma frames_with_subcall (to : string) (changes : M xstate (subcall -> subcall)) :
  frames changes -> frames (with_subcall to changes).
Proof.
  intros Hc. unfold with_subcall. apply frames_bind; [auto with frames|]. intros subcalls.
  destruct (existsb _ subcalls); [|auto with frames].
  apply frames_bind; [exact Hc|]. intros f x. unfold modify. simpl.
  now destruct (update_last_where _ f (x_subcalls x)).
Qed.

Lemma frames__add_internal_xfer (from_ to value : string) :
  frames (_add_internal_xfer R from_ to value).
Proof. unfold _add_internal_xfer. frames_tac. Qed.

Lemma frames_call_target (i : Z) (st : step) : frames (call_target R i st).
Proof. unfold call_target. pose proof frames__add_internal_xfer. frames_tac. Qed.

Lemma frames_merge_precompile : frames merge_precompile.
Proof. unfold merge_precompile. frames_tac. Qed.

Lemma frames_record_returndata (ti : step) (last : context) :
  frames (record_returndata ti last).
Proof.
  unfold record_returndata. apply frames_when, frames_with_subcall. frames_tac.
Qed.

Lemma frames_record_outcome (ti : step) (last : context) (pc : pc_entry) :
  frames (record_outcome R ti last pc).
Proof.
  unfold record_outcome. apply frames_when, frames_with_subcall. frames_tac.
Qed.

Lemma frames_update_coverage (name : option string) (path : string)
    (f : coverage_sets -> coverage_sets) :
  frames (update_coverage name path f).
Proof. unfold update_coverage. frames_tac. Qed.

End FramesOfTheWalk.

#[export] Hint Resolve frames__add_internal_xfer frames_call_target frames_merge_precompile
  frames_record_returndata frames_record_outcome frames_update_coverage : frames.

Section Leads.

Lemma sub_refl (P : walk_pred) : sub P P.
Proof. now intros lm tr. Qed.

Lemma sub_walk_ok_at (last : context) (d : Z) : sub (walk_ok_at last d) walk_ok.
Proof. now intros lm tr [H _]. Qed.

Lemma leads_frames {A} (P Q : walk_pred) (m : M xstate A) :
  frames m -> sub P Q -> leads P Q m.
Proof. intros Hm HPQ x HP. destruct (Hm x) as [-> ->]. now apply HPQ. Qed.

Lemma leads_bind {A B} (P Q : walk_pred) (m : M xstate A) (k : A -> M xstate B) :
  leads P P m -> sub P Q -> (forall a, leads P Q (k a)) -> leads P Q (bind m k).
Proof.
  intros Hm HPQ Hk x HP. unfold bind. specialize (Hm x HP).
  destruct (m x) as [[a|e] x1]; simpl in *; [now apply Hk | now apply HPQ].
Qed.

Lemma leads_when (P Q : walk_pred) (b : bool) (m : M xstate unit) :
  leads P Q m -> sub P Q -> leads P Q (when b m).
Proof. intros Hm HPQ. destruct b; [exact Hm | now apply leads_frames; [apply frames_ret|]]. Qed.

End Leads.

Create HintDb walk.
#[export] Hint Resolve sub_refl sub_walk_ok_at : walk.
#[export] Hint Extern 1 (leads _ _ _) =>
  (apply leads_frames; [solve [auto with frames] | solve [auto with walk]]) : walk.

Ltac walk_tac :=
  cbv zeta;
  repeat first
    [ progress auto with walk
    | apply leads_bind; [| solve [auto with walk] | intros]
    | apply leads_when; [| solve [auto with walk]]
    | match goal with
      | |- leads _ _ (if ?b then _ else _) => destruct b
      | |- leads _ _ (match ?x with _ => _ end) => destruct x
      | |- leads _ _ (let '(_, _) := ?x in _) => destruct x
      end ].

Section Walk.

Variable R : registry.

Lemma _get_last_map_ok (addr sig : string) (ctx : context) :
  _get_last_map R addr sig = Val ctx -> ctx_ok ctx.
Proof.
  unfold _get_last_map. destruct (EthAddress R addr) as [a|e]; [|discriminate]. simpl.
  destruct (_find_contract R addr) as [c|]; intros [= <-]; split; simpl; lia.
Qed.

Lemma leads_open_context (d : Z) (addr sig : string) :
  leads walk_ok walk_ok (open_context R d addr sig).
Proof.
  intros x [Hlm Htr]. unfold open_context, bind, lift, modify.
  destruct (_get_last_map R addr sig) as [ctx|e] eqn:Hctx; simpl; [|now split].
  split; [|exact Htr]. intros d' c. destruct (decide (d = d')) as [<-|Hd].
  - rewrite lookup_insert_eq. intros [= <-]. eapply _get_last_map_ok, Hctx.
  - rewrite lookup_insert_ne by exact Hd. apply Hlm.
Qed.

Lemma leads_enter_call (i : Z) (ti st : step) (is_depth_increase is_subcall : bool) :
  leads walk_ok walk_ok (enter_call R i ti st is_depth_increase is_subcall).
Proof.
  unfold enter_call. pose proof leads_open_context. walk_tac.
  all: apply leads_frames; [frames_tac | apply sub_refl].
Qed.

(** Writing the annotation of [trace[i]] from the snapshot [last]. *)
Lemma leads_annotate (i : Z) (last : context) (d : Z) (fn_name : string) :
  leads (walk_ok_at last d) (walk_ok_at last d) (update_step i (annotate last fn_name)).
Proof.
  intros x [[Hlm Htr] Hag]. unfold update_step, modify. simpl.
  split; [split|]; [exact Hlm | | exact Hag].
  apply Forall_alter; [exact Htr|]. intros st _ _. unfold step_ok, annotate. simpl.
  destruct Hag as (c & Hc & Hj & _). destruct (Hlm d c Hc) as [H0 _]. lia.
Qed.

Lemma leads_set_source (i : Z) (P : walk_pred) (loc : source_loc) :
  (forall lm tr tr', P lm tr -> Forall step_ok tr' -> Forall step_ok tr -> P lm tr') ->
  (forall lm tr, P lm tr -> Forall step_ok tr) ->
  leads P P (update_step i (set_source loc)).
Proof.
  intros HP Hok x Hx. unfold update_step, modify. simpl.
  apply (HP _ _ _ Hx); [|now apply (Hok _ _ Hx)].
  apply Forall_alter; [now apply (Hok _ _ Hx)|]. intros st _.
  unfold step_ok, set_source. simpl. now destruct (s_ann st).
Qed.

Lemma leads_set_source_at (i : Z) (last : context) (d : Z) (loc : source_loc) :
  leads (walk_ok_at last d) (walk_ok_at last d) (update_step i (set_source loc)).
Proof.
  apply leads_set_source.
  - intros lm tr tr' [[Hlm _] Hag] Htr' _. split; [split|]; assumption.
  - now intros lm tr [[_ Htr] _].
Qed.

(** An in-place change of [last_map[d']] that leaves the jump depth and
    the internal calls as they are. *)
Lemma leads_update_branches (last : context) (d d' : Z) (g : context -> option (gset Z)) :
  leads (walk_ok_at last d) (walk_ok_at last d)
        (update_context d' (fun c => set_c_active_branches (g c) c)).
Proof.
  intros x [[Hlm Htr] Hag]. unfold update_context, modify. simpl.
  split; [split|]; [|exact Htr|].
  - intros k c. destruct (decide (d' = k)) as [<-|Hk].
    + rewrite lookup_alter_eq. destruct (x_last_map x !! d') as [c0|] eqn:Hc0; [|discriminate].
      intros [= <-]. apply (Hlm d' c0 Hc0).
    + rewrite lookup_alter_ne by exact Hk. apply Hlm.
  - destruct Hag as (c & Hc & Hj & Hi). destruct (decide (d' = d)) as [->|Hk].
    + eexists. rewrite lookup_alter_eq, Hc. simpl. now repeat split.
    + exists c. now rewrite lookup_alter_ne by exact Hk.
Qed.

Lemma leads_record_coverage (i : Z) (ti : step) (last : context) (d : Z) (pc : pc_entry)
    (path : string) :
  leads (walk_ok_at last d) (walk_ok_at last d) (record_coverage i ti last pc path).
Proof.
  unfold record_coverage. pose proof leads_update_branches. walk_tac.
Qed.

(** Lines 1018-1032 keep the invariant: the stack grows with the jump
    depth and shrinks only from a positive jump depth. *)
Lemma leads_track_jumps (i : Z) (ti : step) (last : context) (pc : pc_entry) :
  leads (walk_ok_at last (s_depth ti)) walk_ok (track_jumps i ti last pc).
Proof.
  assert (Hin : forall f, leads (walk_ok_at last (s_depth ti)) walk_ok
            (update_context (s_depth ti) (enter_internal f))).
  { intros f x [[Hlm Htr] _]. unfold update_context, modify. simpl.
    split; [|exact Htr]. intros k c. destruct (decide (s_depth ti = k)) as [<-|Hk].
    - rewrite lookup_alter_eq.
      destruct (x_last_map x !! s_depth ti) as [c0|] eqn:Hc0; [|discriminate].
      intros [= <-]. destruct (Hlm _ c0 Hc0) as [H0 H1]. split; simpl; [lia|].
      rewrite length_app. simpl. lia.
    - rewrite lookup_alter_ne by exact Hk. apply Hlm. }
  assert (Hout : (c_jumpDepth last >? 0) = true ->
            leads (walk_ok_at last (s_depth ti)) walk_ok
              (update_context (s_depth ti) leave_internal)).
  { intros Hpos x [[Hlm Htr] (c1 & Hc1 & Hj & _)]. unfold update_context, modify. simpl.
    split; [|exact Htr]. intros k c. destruct (decide (s_depth ti = k)) as [<-|Hk].
    - rewrite lookup_alter_eq, Hc1. simpl. intros [= <-].
      destruct (Hlm _ c1 Hc1) as [H0 H1]. split; simpl; [lia|].
      rewrite length_take. lia.
    - rewrite lookup_alter_ne by exact Hk. apply Hlm. }
  unfold track_jumps. destruct (pe_jump pc) as [j|]; [|walk_tac].
  destruct (string_eqb j "i").
  - walk_tac.
  - destruct (c_jumpDepth last >? 0) eqn:Hpos; unfold when; [|walk_tac].
    specialize (Hout eq_refl). walk_tac.
Qed.

Lemma leads_visit_step (i : Z) (ti : step) (last : context) :
  leads (walk_ok_at last (s_depth ti)) walk_ok (visit_step R i ti last).
Proof.
  unfold visit_step.
  pose proof leads_annotate. pose proof leads_set_source_at.
  pose proof leads_record_coverage. pose proof leads_track_jumps.
  walk_tac.
Qed.

(** Binding [last] to the entry of [last_map] for the depth [d]. *)
Lemma leads_bind_last (d : Z) (k : context -> M xstate unit) :
  (forall last, leads (walk_ok_at last d) walk_ok (k last)) ->
  leads walk_ok walk_ok
    (let* lm := gets x_last_map in
     let* last := match lm !! d with
                  | Some c => ret c
                  | None => raise KeyError
                  end in
     k last).
Proof.
  intros Hk x Hx. unfold bind, gets, ret, raise.
  destruct (x_last_map x !! d) as [c|] eqn:Hc; [|exact Hx].
  apply Hk. split; [exact Hx|]. exists c. now repeat split.
Qed.

Lemma leads_expand_step (i : Z) : leads walk_ok walk_ok (expand_step R i).
Proof.
  unfold expand_step. pose proof leads_enter_call.
  apply leads_bind; [auto with walk | auto with walk | intros ti].
  apply leads_bind; [auto with walk | auto with walk | intros prev]. cbv zeta.
  apply leads_bind; [walk_tac | auto with walk | intros _].
  apply leads_bind_last. intros last. apply leads_visit_step.
Qed.

Lemma leads_for_in {A} (P : walk_pred) (body : A -> M xstate unit) (l : list A) :
  (forall a, leads P P (body a)) -> leads P P (for_in l body).
Proof.
  intros Hb. induction l as [|a l IH]; simpl.
  - apply leads_frames; [apply frames_ret | apply sub_refl].
  - apply leads_bind; [apply Hb | apply sub_refl | intros _; exact IH].
Qed.

Lemma leads_expand_loop : leads walk_ok walk_ok (expand_loop R).
Proof.
  unfold expand_loop. apply leads_bind; [auto with walk | auto with walk | intros tr].
  apply leads_for_in, leads_expand_step.
Qed.

End Walk.

(** *** The traces [_expand_trace] walks carry no annotation yet *)

Lemma typed_step_unannotated (r : raw_step) (st : step) :
  typed_step r = Val st -> unannotated st.
Proof.
  unfold typed_step, rbind.
  destruct (jval_int (r_pc r)); [|discriminate].
  destruct (jval_int (r_gas r)); [|discriminate].
  destruct (jval_int (r_gasCost r)); [|discriminate].
  destruct (map_res jval_str (r_stack r)); [|discriminate].
  now intros [= <-].
Qed.

Lemma typed_trace_unannotated (raw : list raw_step) (trace : list step) :
  map_res typed_step raw = Val trace -> Forall unannotated trace.
Proof.
  revert trace. induction raw as [|r raw IH]; simpl; intros trace.
  - intros [= <-]. constructor.
  - unfold rbind. destruct (typed_step r) as [st|] eqn:Hst; [|discriminate].
    destruct (map_res typed_step raw) as [l|]; [|discriminate].
    intros [= <-]. constructor; [eapply typed_step_unannotated, Hst | now apply IH].
Qed.

Lemma shifted_trace_unannotated (trace : list step) :
  Forall unannotated trace -> Forall unannotated (shift_gas_costs trace).
Proof.
  induction 1 as [|st l Hst Hl IH]; simpl; [constructor|].
  destruct l as [|st' l']; constructor; try exact Hst; try constructor. exact IH.
Qed.

Lemma lowered_trace_unannotated (trace : list step) :
  Forall unannotated trace ->
  Forall unannotated (map (fun t => set_s_depth (s_depth t - 1) t) trace).
Proof. intros H. apply Forall_map. eapply List.Forall_impl; [|exact H]. now intros st. Qed.

Lemma initial_walk_ok (R : registry) (addr sig : string) (ctx : context) (trace : list step) :
  _get_last_map R addr sig = Val ctx ->
  Forall unannotated trace ->
  expansion_inv (initial_walk trace ctx).
Proof.
  intros Hctx Htr. split; simpl.
  - intros d c. destruct (decide (d = 0)) as [->|Hd].
    + rewrite lookup_singleton_eq. intros [= <-]. eapply _get_last_map_ok, Hctx.
    + rewrite lookup_singleton_ne by congruence. discriminate.
  - eapply List.Forall_impl; [|exact Htr]. unfold unannotated, step_ok. now intros st ->.
Qed.

(** C8.  In the walk of [_expand_trace], a jump that the program-counter
    map tags as anything but a jump into a function removes the last
    internal call of the context and lowers its jump depth by one when the
    jump depth is positive, and changes nothing otherwise.  Started as
    [_expand_trace] starts it (the context of depth 0 from [_get_last_map],
    a trace without annotations), the walk keeps, after any number [n] of
    iterations and at its end, whether it returns or raises: every
    annotated step has a jump depth that is not negative, and every context
    of [last_map] has a jump depth that is not negative and holds one
    internal call more than its jump depth, so at least the one it was
    created with. *)
Theorem expand_trace_jump_depth (R : registry) (addr sig : string) (ctx : context)
    (trace : list step) (n : nat) :
  _get_last_map R addr sig = Val ctx ->
  Forall (fun st => s_ann st = None) trace ->
  (forall i ti last pc j y,
      pe_jump pc = Some j -> string_eqb j "i" = false ->
      track_jumps i ti last pc y =
        if c_jumpDepth last >? 0
        then match c_internal_calls last with
             | [] => (Exn IndexError, y)
             | _ => (Val tt, set_x_last_map (alter leave_internal (s_depth ti) (x_last_map y)) y)
             end
        else (Val tt, y))
  /\ (let x' := snd (for_in (seqZ 0 (Z.of_nat n)) (expand_step R) (initial_walk trace ctx)) in
      Forall step_ok (x_trace x')
      /\ forall d c, x_last_map x' !! d = Some c -> ctx_ok c)
  /\ (let x' := snd (expand_loop R (initial_walk trace ctx)) in
      Forall step_ok (x_trace x')
      /\ forall d c, x_last_map x' !! d = Some c ->
                     0 <= c_jumpDepth c /\ (1 <= length (c_internal_calls c))%nat).
Proof.
  intros Hctx Htr.
  pose proof (initial_walk_ok R addr sig ctx trace Hctx Htr) as H0.
  split; [|split].
  - intros i ti last pc j y Hj Hi. unfold track_jumps. rewrite Hj, Hi.
    destruct (c_jumpDepth last >? 0); [|reflexivity].
    unfold when, bind, lift, del_last, update_context, modify.
    now destruct (c_internal_calls last).
  - pose proof (leads_for_in walk_ok (expand_step R) (seqZ 0 (Z.of_nat n))
                  (leads_expand_step R) _ H0) as [Hlm Hst].
    cbv zeta. split; assumption.
  - pose proof (leads_expand_loop R _ H0) as [Hlm Hst].
    cbv zeta. split; [assumption|]. intros d c Hc. destruct (Hlm d c Hc) as [Hj Hl].
    split; [exact Hj | lia].
Qed.

Lemma expand_trace_jump_depth_witness :
  _get_last_map token_registry "0x00000000000000000000000000000000000000aa" "0xa9059cbb"
  = Val token_context
  /\ (let r := expand_loop token_registry (initial_walk jump_trace token_context) in
      fst r = Val tt
      /\ map step_jumpDepth (x_trace (snd r)) = [Val 0; Val 1; Val 1; Val 0]
      /\ option_map (fun c => (c_jumpDepth c, c_internal_calls c)) (x_last_map (snd r) !! 0)
         = Some (0, ["Token.transfer"]))
  /\ (let x' := snd (expand_loop token_registry (initial_walk jump_trace token_context)) in
      Forall step_ok (x_trace x')
      /\ forall d c, x_last_map x' !! d = Some c ->
                     0 <= c_jumpDepth c /\ (1 <= length (c_internal_calls c))%nat).
Proof.
  split; [reflexivity|]. split.
  - cbv zeta. split; [|split]; vm_compute; reflexivity.
  - refine (proj2 (proj2 (expand_trace_jump_depth token_registry
                            "0x00000000000000000000000000000000000000aa" "0xa9059cbb"
                            token_context jump_trace 4 eq_refl _))).
    repeat constructor.
Defined.

(** ** Subcalls and the precompile pattern *)

Section Subcalls.

(** A decorated attribute returns a value only when its body does. *)
Lemma trace_property_val {A} (E : env) (fn : nat -> M world A) (self : nat) (w w' : world)
    (v : A) :
  trace_property E fn self w = (Val (Some v), w') -> fn self w = (Val v, w').
Proof.
  unfold trace_property, bind, getattr, gets, ret, raise, try_except.
  destruct (Status_value (status (heap w self)) <? 0); [discriminate|].
  destruct (_trace_exc (lazy (heap w self))); [discriminate|].
  destruct (fn self w) as [[v0|e] w1]; [now intros [= <- <-]|].
  destruct (is_RPCRequestError e); [|discriminate].
  destruct (supports_traces E w1) as [[[]|e'] w2]; discriminate.
Qed.

Lemma subcalls_body_val (E : env) (self : nat) (w w' : world) (l : list subcall) :
  subcalls_body E self w = (Val l, w') ->
  exists all, _subcalls (lazy (heap w' self)) = Some all
              /\ l = List.filter (fun s => negb (_is_call_to_precompile s)) all.
Proof.
  unfold subcalls_body, bind, getattr, gets, ret, raise.
  destruct (when _ (_expand_trace E self) w) as [[[]|e] w1]; [|discriminate].
  destruct (_subcalls (lazy (heap w1 self))) as [all|] eqn:Hall; [|discriminate].
  intros [= <- <-]. now exists all.
Qed.

Lemma py_nth_last {A} (pre : list A) (a : A) : py_nth (pre ++ [a]) (-1) = Val a.
Proof.
  unfold py_nth. rewrite length_app. simpl.
  replace (Z.of_nat (length pre + 1) + -1) with (Z.of_nat (length pre)) by lia.
  destruct (Z.of_nat (length pre) <? 0) eqn:H; [apply Z.ltb_lt in H; lia|].
  rewrite Nat2Z.id. now rewrite list_lookup_middle.
Qed.

Lemma py_nth_last_but_one {A} (pre : list A) (a b : A) :
  py_nth (pre ++ [a; b]) (-2) = Val a.
Proof.
  unfold py_nth. rewrite length_app. simpl.
  replace (Z.of_nat (length pre + 2) + -2) with (Z.of_nat (length pre)) by lia.
  destruct (Z.of_nat (length pre) <? 0) eqn:H; [apply Z.ltb_lt in H; lia|].
  rewrite Nat2Z.id. now rewrite list_lookup_middle.
Qed.

Lemma update_last_subcall_spec (f : subcall -> subcall) (x : xstate) (pre : list subcall)
    (a : subcall) :
  x_subcalls x = pre ++ [a] ->
  update_last_subcall f x = (Val tt, set_x_subcalls (pre ++ [f a]) x).
Proof.
  intros Hx. unfold update_last_subcall. rewrite Hx.
  destruct (pre ++ [a]) as [|s l] eqn:Hl; [now destruct pre|]. rewrite <- Hl.
  f_equal. f_equal. rewrite length_app. cbn [length].
  replace (length pre + 1 - 1)%nat with (length pre + 0)%nat by lia.
  now rewrite alter_app_r.
Qed.

(** Lines 924-926 on a list that ends in [older; newest]. *)
Lemma merge_precompile_spec (x : xstate) (pre : list subcall) (older newest : subcall) :
  x_subcalls x = pre ++ [older; newest] ->
  merge_precompile x =
    (Val tt, if precompile_contract (sc_from newest)
             then set_x_subcalls (pre ++ [set_sc_from (sc_from older) newest]) x
             else x).
Proof.
  intros Hx. unfold merge_precompile, bind, gets, lift. rewrite Hx.
  replace (pre ++ [older; newest]) with ((pre ++ [older]) ++ [newest])
    by now rewrite <- app_assoc.
  rewrite py_nth_last. rewrite <- app_assoc. cbn [app].
  destruct (precompile_contract (sc_from newest)); [|reflexivity]. cbn [when].
  rewrite py_nth_last_but_one. unfold modify.
  rewrite (update_last_subcall_spec _ _ pre newest); [reflexivity|].
  cbn [x_subcalls set_x_subcalls]. rewrite Hx, length_app. cbn [length].
  replace (length pre + 2 - 2)%nat with (length pre) by lia.
  apply (delete_middle pre [newest] older).
Qed.

(** The addresses the pattern and the range [0x01]-[0x12] share. *)
Lemma precompile_contract_low (n : N) :
  (1 <= n <= 9 \/ 16 <= n <= 18)%N -> precompile_contract (low_address n) = true.
Proof.
  intros H.
  assert (Hn : In n [1; 2; 3; 4; 5; 6; 7; 8; 9; 16; 17; 18]%N).
  { simpl. lia. }
  simpl in Hn. repeat (destruct Hn as [<-|Hn]; [reflexivity|]). contradiction.
Qed.

(** *** The list of subcalls through [enter_call] *)

Lemma same_subcalls_ret {A} (a : A) : same_subcalls (ret a).
Proof. now intros x. Qed.

Lemma same_subcalls_raise {A} (e : exn) : same_subcalls (@raise xstate A e).
Proof. now intros x. Qed.

Lemma same_subcalls_lift {A} (r : res A) : same_subcalls (@lift xstate A r).
Proof. now intros x. Qed.

Lemma same_subcalls_gets {A} (f : xstate -> A) : same_subcalls (gets f).
Proof. now intros x. Qed.

Lemma same_subcalls_bind {A B} (m : M xstate A) (k : A -> M xstate B) :
  same_subcalls m -> (forall a, same_subcalls (k a)) -> same_subcalls (bind m k).
Proof.
  intros Hm Hk x. unfold bind. specialize (Hm x).
  destruct (m x) as [[a|e] x1]; simpl in *; [|exact Hm]. now rewrite (Hk a x1).
Qed.

Lemma same_subcalls_when (b : bool) (m : M xstate unit) :
  same_subcalls m -> same_subcalls (when b m).
Proof. intros Hm. destruct b; [exact Hm | now intros x]. Qed.

Lemma same_subcalls_modify (f : xstate -> xstate) :
  (forall x, x_subcalls (f x) = x_subcalls x) -> same_subcalls (modify f).
Proof. intros Hf x. apply Hf. Qed.

Lemma same_subcalls__add_internal_xfer (R : registry) (from_ to value : string) :
  same_subcalls (_add_internal_xfer R from_ to value).
Proof.
  unfold _add_internal_xfer. cbv zeta.
  repeat (apply same_subcalls_bind; [apply same_subcalls_lift|intros]).
  now apply same_subcalls_modify.
Qed.

Lemma same_subcalls_call_target (R : registry) (i : Z) (st : step) :
  same_subcalls (call_target R i st).
Proof.
  unfold call_target. pose proof same_subcalls__add_internal_xfer. cbv zeta.
  destruct (str_in (s_op st) ["CREATE"; "CREATE2"]);
    repeat first
      [ apply same_subcalls_ret | apply same_subcalls_lift | apply same_subcalls_gets
      | solve [auto]
      | (apply same_subcalls_modify; reflexivity)
      | apply same_subcalls_when
      | apply same_subcalls_bind; [|intros] ].
Qed.

Lemma same_subcalls_open_context (R : registry) (d : Z) (addr sig : string) :
  same_subcalls (open_context R d addr sig).
Proof.
  intros x. unfold open_context, bind, lift, modify.
  now destruct (_get_last_map R addr sig).
Qed.

Lemma edits_same {A} (m : M xstate A) : same_subcalls m -> edits_last_subcall m.
Proof. intros Hm x old sc Hx. exists sc. rewrite Hm. auto. Qed.

Lemma edits_bind {A B} (m : M xstate A) (k : A -> M xstate B) :
  edits_last_subcall m -> (forall a, edits_last_subcall (k a)) ->
  edits_last_subcall (bind m k).
Proof.
  intros Hm Hk x old sc Hx. unfold bind. destruct (Hm x old sc Hx) as (sc1 & H1 & Hf1 & Ho1).
  destruct (m x) as [[a|e] x1]; simpl in *; [|eauto].
  destruct (Hk a x1 old sc1 H1) as (sc2 & H2 & Hf2 & Ho2).
  exists sc2. split; [exact H2|]. split; congruence.
Qed.

Lemma edits_when (b : bool) (m : M xstate unit) :
  edits_last_subcall m -> edits_last_subcall (when b m).
Proof. intros Hm. destruct b; [exact Hm | apply edits_same; now intros x]. Qed.

Lemma edits_update_last_subcall (g : subcall -> subcall) :
  (forall sc, sc_from (g sc) = sc_from sc /\ sc_op (g sc) = sc_op sc) ->
  edits_last_subcall (update_last_subcall g).
Proof.
  intros Hg x old sc Hx. rewrite (update_last_subcall_spec g x old sc Hx).
  exists (g sc). cbn. split; [reflexivity|apply Hg].
Qed.

Ltac edits_tac :=
  repeat first
    [ apply edits_update_last_subcall; intros; split; reflexivity
    | apply edits_same;
      first [ apply same_subcalls_ret | apply same_subcalls_raise
            | apply same_subcalls_lift | apply same_subcalls_gets ]
    | apply edits_bind; [|intros]
    | apply edits_when
    | match goal with
      | |- edits_last_subcall (if ?b then _ else _) => destruct b
      | |- edits_last_subcall (match ?x with _ => _ end) => destruct x
      end ].

Lemma merges_bind {A B} (f o : string) (m : M xstate A) (k : A -> M xstate B) :
  edits_last_subcall m -> (forall a, merges_after_edit f o (k a)) ->
  merges_after_edit f o (bind m k).
Proof.
  intros Hm Hk x b x' old sc Hx Hf Ho Hrun. unfold bind in Hrun.
  destruct (Hm x old sc Hx) as (sc1 & H1 & Hf1 & Ho1).
  destruct (m x) as [[a|e] x1]; simpl in *; [|discriminate].
  apply (Hk a x1 b x' old sc1 H1); congruence.
Qed.

(** Lines 924-926, run after the record was appended. *)
Lemma merges_merge_precompile (f o : string) : merges_after_edit f o merge_precompile.
Proof.
  intros x a x' old sc Hx Hf Ho Hrun. exists sc. split; [exact Hf|]. split; [exact Ho|].
  destruct (precompile_contract f) eqn:Hp.
  - destruct old as [|s0 old0] using rev_ind.
    + exfalso. unfold merge_precompile in Hrun.
      unfold bind at 1 in Hrun. unfold gets at 1 in Hrun. rewrite Hx in Hrun.
      unfold bind at 1 in Hrun. unfold lift at 1 in Hrun.
      rewrite py_nth_last, Hf, Hp in Hrun. cbn [when] in Hrun.
      unfold bind at 1 in Hrun. unfold lift at 1 in Hrun.
      change (py_nth ([] ++ [sc]) (-2)) with (@Exn subcall IndexError) in Hrun.
      discriminate.
    + clear IHold0. exists old0, s0. split; [reflexivity|].
      rewrite <- app_assoc in Hx. cbn [app] in Hx.
      rewrite (merge_precompile_spec x old0 s0 sc Hx), Hf, Hp in Hrun.
      injection Hrun as _ <-. reflexivity.
  - revert Hrun. unfold merge_precompile, bind, gets, lift. rewrite Hx, py_nth_last, Hf, Hp.
    cbn. intros [= _ <-]. exact Hx.
Qed.

(** Lines 907-926 of [_expand_trace]: what the block that enters a call
    makes of [_subcalls] when it returns. *)
Lemma enter_call_subcalls (R : registry) (i : Z) (ti st : step) (b1 b2 : bool)
    (x x' : xstate) :
  enter_call R i ti st b1 b2 x = (Val tt, x') ->
  exists f, step_address st = Val f
            /\ appended_or_merged f (s_op st) (x_subcalls x) (x_subcalls x').
Proof.
  unfold enter_call. intros Hrun. unfold bind at 1 in Hrun.
  pose proof (same_subcalls_call_target R i st x) as H0.
  destruct (call_target R i st x) as [[[[addr sig] calldata]|e] x0]; [|discriminate].
  cbn in H0. unfold bind at 1 in Hrun.
  pose proof (same_subcalls_when b1 _ (same_subcalls_open_context R (s_depth ti) addr sig) x0)
    as H1.
  destruct (when b1 (open_context R (s_depth ti) addr sig) x0) as [[[]|e] x1]; [|discriminate].
  cbn in H1. unfold bind at 1 in Hrun. unfold lift at 1 in Hrun.
  destruct (step_address st) as [f|e]; [|discriminate].
  unfold bind at 1 in Hrun. unfold lift at 1 in Hrun.
  destruct (EthAddress R addr) as [to|e]; [|discriminate].
  unfold bind at 1 in Hrun. unfold modify at 1 in Hrun.
  exists f. split; [reflexivity|]. rewrite <- H0, <- H1.
  revert Hrun.
  match goal with
  | |- ?m ?s = _ -> _ =>
      intros Hrun; assert (Hm : merges_after_edit f (s_op st) m)
  end.
  { apply merges_bind; [edits_tac|]. intros _.
    apply merges_bind; [edits_tac|]. intros lm.
    apply merges_bind; [edits_tac|]. intros _.
    apply merges_merge_precompile. }
  refine (Hm _ _ _ (x_subcalls x1) _ _ _ _ Hrun); reflexivity.
Qed.


(** *** The rest of the loop body keeps the records *)

Lemma same_skeleton_same {A} (m : M xstate A) : same_subcalls m -> same_skeleton m.
Proof. intros Hm x. now rewrite Hm. Qed.

Lemma same_skeleton_bind {A B} (m : M xstate A) (k : A -> M xstate B) :
  same_skeleton m -> (forall a, same_skeleton (k a)) -> same_skeleton (bind m k).
Proof.
  intros Hm Hk x. unfold bind. specialize (Hm x).
  destruct (m x) as [[a|e] x1]; simpl in *; [|exact Hm]. now rewrite (Hk a x1).
Qed.

Lemma same_skeleton_when (b : bool) (m : M xstate unit) :
  same_skeleton m -> same_skeleton (when b m).
Proof. intros Hm. destruct b; [exact Hm | now intros x]. Qed.

Lemma update_last_where_key (p : subcall -> bool) (f : subcall -> subcall)
    (l l' : list subcall) :
  keeps_key f -> update_last_where p f l = Some l' ->
  map subcall_key l' = map subcall_key l.
Proof.
  intros Hf. revert l'. induction l as [|a l IH]; intros l' H; [discriminate|].
  cbn in H. destruct (update_last_where p f l) as [r'|].
  - injection H as <-. cbn. now rewrite (IH r' eq_refl).
  - destruct (p a); [|discriminate]. injection H as <-. cbn. now rewrite Hf.
Qed.

Lemma same_skeleton_with_subcall (to : string) (changes : M xstate (subcall -> subcall)) :
  yields_key_keepers changes -> same_skeleton (with_subcall to changes).
Proof.
  intros Hc x. unfold with_subcall, bind, gets, modify, raise.
  destruct (existsb _ (x_subcalls x)); [|reflexivity].
  destruct (Hc x) as [Hsame Hkeep].
  destruct (changes x) as [[f|e] x1]; cbn in *; [|now rewrite Hsame].
  destruct (update_last_where _ f (x_subcalls x1)) as [l|] eqn:Hl; cbn.
  - rewrite (update_last_where_key _ f _ l (Hkeep f eq_refl) Hl). now rewrite Hsame.
  - now rewrite Hsame.
Qed.

Lemma yk_ret (f : subcall -> subcall) : keeps_key f -> yields_key_keepers (ret f).
Proof. intros Hf x. split; [reflexivity|]. intros g [= <-]. exact Hf. Qed.

Lemma yk_lift {A} (r : res A) (k : A -> M xstate (subcall -> subcall)) :
  (forall a, yields_key_keepers (k a)) -> yields_key_keepers (bind (lift r) k).
Proof.
  intros Hk x. unfold bind, lift. destruct r as [a|e]; [apply Hk|].
  split; [reflexivity|]. intros f H. discriminate.
Qed.

Lemma yk_bind (m : M xstate (subcall -> subcall))
    (k' : (subcall -> subcall) -> M xstate (subcall -> subcall)) :
  yields_key_keepers m -> (forall d, keeps_key d -> yields_key_keepers (k' d)) ->
  yields_key_keepers (bind m k').
Proof.
  intros Hm Hk x. unfold bind. destruct (Hm x) as [Hs Hf].
  destruct (m x) as [[d|e] x1]; cbn in *.
  - destruct (Hk d (Hf d eq_refl) x1) as [Hs' Hf']. split; [congruence|exact Hf'].
  - split; [exact Hs|]. intros f H. discriminate.
Qed.

Lemma yields_returndata (ti : step) :
  yields_key_keepers
    (let* returndata := lift (_get_memory ti (-1)) in
     ret (fun sc => if nonempty returndata
                    then set_sc_returndata (Some (hexbytes_to_hexstring returndata)) sc
                    else sc)).
Proof.
  apply yk_lift. intros data. apply yk_ret. intros sc. now destruct (nonempty data).
Qed.

Lemma same_skeleton_record_returndata (ti : step) (last : context) :
  same_skeleton (record_returndata ti last).
Proof.
  unfold record_returndata. apply same_skeleton_when, same_skeleton_with_subcall.
  apply yields_returndata.
Qed.

Lemma same_skeleton_record_outcome (R : registry) (ti : step) (last : context) (pc : pc_entry) :
  same_skeleton (record_outcome R ti last pc).
Proof.
  unfold record_outcome. apply same_skeleton_when, same_skeleton_with_subcall.
  destruct (string_eqb (s_op ti) "RETURN").
  - apply yk_lift. intros data. destruct (nonempty data); apply yk_ret; intros sc;
      [|reflexivity].
    destruct (c_function last) as [f|]; [|reflexivity].
    now destruct (fn_decode_output f data).
  - destruct (string_eqb (s_op ti) "SELFDESTRUCT"); [now apply yk_ret|].
    apply yk_bind.
    + destruct (string_eqb (s_op ti) "REVERT"); [|now apply yk_ret].
      apply yk_lift. intros data. destruct (4 <? length data)%nat; now apply yk_ret.
    + intros d Hd. apply yk_ret. intros sc. cbv zeta.
      destruct (sc_revert_msg (d sc)); [apply Hd|].
      destruct (pe_dev pc); [|apply Hd].
      rewrite <- (Hd sc). reflexivity.
Qed.

Ltac skel_tac :=
  cbv zeta;
  repeat first
    [ apply same_skeleton_record_returndata
    | apply same_skeleton_record_outcome
    | apply same_skeleton_same;
      first [ apply same_subcalls_ret | apply same_subcalls_raise
            | apply same_subcalls_lift | apply same_subcalls_gets
            | apply same_subcalls__add_internal_xfer
            | (apply same_subcalls_modify; reflexivity)
            | (intros ?; reflexivity) ]
    | apply same_skeleton_bind; [|intros]
    | apply same_skeleton_when
    | match goal with
      | |- same_skeleton (if ?b then _ else _) => destruct b
      | |- same_skeleton (match ?x with _ => _ end) => destruct x
      end ].

Lemma same_skeleton_visit_step (R : registry) (i : Z) (ti : step) (last : context) :
  same_skeleton (visit_step R i ti last).
Proof.
  unfold visit_step, record_coverage, track_jumps, update_coverage, update_step,
    update_context, trace_at.
  skel_tac.
Qed.

(** The loop body of [_expand_trace] and the list of subcalls: records are
    added and removed only by the block that enters a call, which appends
    the new record or merges it into the one before; the rest of the body
    writes to other keys of the records. *)
Lemma expand_step_subcalls (R : registry) (i : Z) (x x' : xstate) :
  expand_step R i x = (Val tt, x') ->
  exists ti prev,
    py_nth (x_trace x) i = Val ti /\ py_nth (x_trace x) (i - 1) = Val prev
    /\ if (s_depth ti >? s_depth prev) || str_in (s_op prev) call_opcodes
       then exists f l1,
              step_address prev = Val f
              /\ appended_or_merged f (s_op prev) (x_subcalls x) l1
              /\ map subcall_key (x_subcalls x') = map subcall_key l1
       else map subcall_key (x_subcalls x') = map subcall_key (x_subcalls x).
Proof.
  unfold expand_step. intros Hrun.
  unfold bind at 1 in Hrun. unfold trace_at at 1 in Hrun.
  destruct (py_nth (x_trace x) i) as [ti|e] eqn:Hti; [|discriminate].
  unfold bind at 1 in Hrun. unfold trace_at at 1 in Hrun.
  destruct (py_nth (x_trace x) (i - 1)) as [prev|e] eqn:Hprev; [|discriminate].
  exists ti, prev. split; [reflexivity|]. split; [reflexivity|].
  cbv zeta in Hrun. unfold bind at 1 in Hrun.
  destruct ((s_depth ti >? s_depth prev) || str_in (s_op prev) call_opcodes) eqn:Henter;
    cbn [when] in Hrun.
  - destruct (enter_call R i ti prev (s_depth ti >? s_depth prev)
                (str_in (s_op prev) call_opcodes) x) as [[[]|e] x1] eqn:Hcall; [|discriminate].
    destruct (enter_call_subcalls R i ti prev _ _ x x1 Hcall) as (f & Hf & Happ).
    exists f, (x_subcalls x1). split; [exact Hf|]. split; [exact Happ|].
    unfold bind at 1 in Hrun. unfold gets at 1 in Hrun. unfold bind at 1 in Hrun.
    destruct (x_last_map x1 !! s_depth ti) as [last|]; [|discriminate].
    unfold ret at 1 in Hrun.
    pose proof (same_skeleton_visit_step R i ti last x1) as Hs. now rewrite Hrun in Hs.
  - unfold ret at 1 in Hrun.
    unfold bind at 1 in Hrun. unfold gets at 1 in Hrun. unfold bind at 1 in Hrun.
    destruct (x_last_map x !! s_depth ti) as [last|]; [|discriminate].
    unfold ret at 1 in Hrun.
    pose proof (same_skeleton_visit_step R i ti last x) as Hs. now rewrite Hrun in Hs.
Qed.

(** A walk that returns is a sequence of such iterations. *)
Lemma for_in_moves (R : registry) (l : list Z) : forall x x',
  for_in l (expand_step R) x = (Val tt, x') -> rtc subcalls_move x x'.
Proof.
  induction l as [|i l IH]; intros x x' Hrun.
  - injection Hrun as <-. apply rtc_refl.
  - cbn [for_in] in Hrun. unfold bind in Hrun.
    destruct (expand_step R i x) as [[[]|e] x1] eqn:Hstep; [|discriminate].
    eapply rtc_l; [|exact (IH x1 x' Hrun)].
    destruct (expand_step_subcalls R i x x1 Hstep) as (ti & prev & H).
    now exists i, ti, prev.
Qed.

End Subcalls.




(** ** Further properties of the trace attributes *)

Section TraceAccess.

Variable E : env.

(** What the first reading of [supports_traces] does with a provider and
    no cached answer. *)
Lemma supports_traces_probe (w : world) :
  provider (web3 w) = true -> _supports_traces (web3 w) = None ->
  let r := supports_traces E w in
  log (snd r) = log w ++ [Rpc ReqTraceProbe]
  /\ provider (web3 (snd r)) = true
  /\ match debug_probe (nd E (clock w)) with
     | ProbeError code =>
         fst r = Val (negb (code =? -32601))
         /\ _supports_traces (web3 (snd r)) = Some (negb (code =? -32601))
     | ProbeHTTPError =>
         fst r = Val false /\ _supports_traces (web3 (snd r)) = Some false
     | ProbeNoError =>
         fst r = Exn KeyError /\ _supports_traces (web3 (snd r)) = None
     | ProbeRaises e =>
         fst r = Exn e /\ _supports_traces (web3 (snd r)) = None
     end.
Proof.
  intros Hp Hc. cbv zeta. unfold supports_traces. unfold_monad. rewrite Hp, Hc. cbn.
  destruct (debug_probe (nd E (clock w))); cbn; auto.
Qed.

Lemma supports_traces_frame (w : world) :
  heap (snd (supports_traces E w)) = heap w
  /\ history (snd (supports_traces E w)) = history w.
Proof.
  unfold supports_traces. unfold_monad.
  destruct (provider (web3 w)); cbn; [|auto].
  destruct (_supports_traces (web3 w)); cbn; [auto|].
  destruct (debug_probe (nd E (clock w))); cbn; auto.
Qed.

Lemma supports_traces_again (w w1 : world) (b : bool) :
  supports_traces E w = (Val b, w1) -> supports_traces E w1 = (Val b, w1).
Proof.
  unfold supports_traces. unfold_monad.
  destruct (provider (web3 w)) eqn:Hp; cbn.
  - destruct (_supports_traces (web3 w)) as [c|] eqn:Hc; cbn.
    + intros [= <- <-]. now rewrite Hp, Hc.
    + destruct (debug_probe (nd E (clock w))); cbn; try discriminate;
        intros [= <- <-]; cbn; now rewrite Hp.
  - intros [= <- <-]. now rewrite Hp.
Qed.

End TraceAccess.

(** X1.  [web3.supports_traces] touches no transaction.  Without a
    provider it answers [False] and does nothing; with a cached answer it
    returns it and does nothing.  With a provider and no cached answer it
    sends the one malformed probe.  A reply with an error code is answered
    [False] exactly for the code -32601, and an [HTTPError] is answered
    [False]; both answers are cached.  A reply without the key ["error"]
    raises [KeyError], and any other exception of the request passes
    through; then nothing is cached.  Once it has returned, every later
    reading gives the same answer and changes nothing, so the probe is sent
    at most once; after it has raised, the next reading sends the probe
    again. *)
Theorem supports_traces_probes_once (E : env) (w : world) :
  let r := supports_traces E w in
  heap (snd r) = heap w /\ history (snd r) = history w
  /\ (provider (web3 w) = false -> r = (Val false, w))
  /\ (forall c, provider (web3 w) = true -> _supports_traces (web3 w) = Some c ->
                r = (Val c, w))
  /\ (provider (web3 w) = true -> _supports_traces (web3 w) = None ->
      log (snd r) = log w ++ [Rpc ReqTraceProbe]
      /\ match debug_probe (nd E (clock w)) with
         | ProbeError code =>
             fst r = Val (negb (code =? -32601))
             /\ _supports_traces (web3 (snd r)) = Some (negb (code =? -32601))
         | ProbeHTTPError =>
             fst r = Val false /\ _supports_traces (web3 (snd r)) = Some false
         | ProbeNoError =>
             fst r = Exn KeyError /\ _supports_traces (web3 (snd r)) = None
         | ProbeRaises e =>
             fst r = Exn e /\ _supports_traces (web3 (snd r)) = None
         end)
  /\ (forall b, fst r = Val b -> supports_traces E (snd r) = (Val b, snd r))
  /\ (forall e, fst r = Exn e ->
        log (snd (supports_traces E (snd r))) = log w ++ [Rpc ReqTraceProbe; Rpc ReqTraceProbe]).
Proof.
  cbv zeta. destruct (supports_traces_frame E w) as [Hh Hhist].
  split; [exact Hh|]. split; [exact Hhist|]. split; [|split; [|split; [|split]]].
  - intros Hp. unfold supports_traces. unfold_monad. now rewrite Hp.
  - intros c Hp Hc. unfold supports_traces. unfold_monad. now rewrite Hp, Hc.
  - intros Hp Hc. destruct (supports_traces_probe E w Hp Hc) as (Hl & _ & Hm).
    split; [exact Hl|exact Hm].
  - intros b Hb. apply (supports_traces_again E w).
    destruct (supports_traces E w) as [r w1]. cbn in Hb |- *. now rewrite Hb.
  - intros e He.
    destruct (provider (web3 w)) eqn:Hp.
    2: { exfalso. revert He. unfold supports_traces. unfold_monad. now rewrite Hp. }
    destruct (_supports_traces (web3 w)) as [c|] eqn:Hc.
    { exfalso. revert He. unfold supports_traces. unfold_monad. now rewrite Hp, Hc. }
    destruct (supports_traces_probe E w Hp Hc) as (Hl & Hp1 & Hm).
    assert (Hc1 : _supports_traces (web3 (snd (supports_traces E w))) = None).
    { destruct (debug_probe (nd E (clock w))); destruct Hm as [Hf Hs];
        rewrite Hf in He; try discriminate; exact Hs. }
    destruct (supports_traces_probe E _ Hp1 Hc1) as (Hl2 & _).
    rewrite Hl2, Hl, <- app_assoc. reflexivity.
Qed.

Section WithoutEndpoint.

Variable E : env.
Variable self : nat.

(** [_get_trace] on a node without the endpoint: the empty list stays in
    [_raw_trace]. *)
Lemma _get_trace_unsupported (w wa : world) :
  _raw_trace (lazy (heap w self)) = None ->
  is_plain_transfer (heap w self) = false ->
  supports_traces E w = (Val false, wa) ->
  _get_trace E self w
  = (Exn (RPCRequestError MsgNoTraceSupport),
     set_heap (fun i => if (i =? self)%nat
                        then with_lazy (set__raw_trace (Some [])) (heap w i)
                        else heap w i) wa).
Proof.
  intros Hraw Hplain Hsup. unfold _get_trace.
  unfold bind at 1. unfold getattr at 1, gets at 1. rewrite Hraw.
  unfold bind at 1. unfold setattr at 1, modify at 1.
  set (h1 := fun i => if (i =? self)%nat then with_lazy (set__raw_trace (Some [])) (heap w i)
                      else heap w i).
  unfold bind at 1. unfold getattr at 1, gets at 1.
  assert (Hh1 : heap (set_heap h1 w) self = with_lazy (set__raw_trace (Some [])) (heap w self)).
  { simpl. unfold h1. now rewrite Nat.eqb_refl. }
  rewrite Hh1.
  replace (is_plain_transfer (with_lazy (set__raw_trace (Some [])) (heap w self)))
    with (is_plain_transfer (heap w self)) by reflexivity.
  rewrite Hplain.
  unfold bind at 1. rewrite supports_traces_heap, Hsup. reflexivity.
Qed.

(** [_expand_trace] on a record whose raw trace is the empty list. *)
Lemma _expand_trace_of_nothing (w : world) :
  _raw_trace (lazy (heap w self)) = Some [] ->
  _trace (lazy (heap w self)) = None ->
  exists w2,
    _expand_trace E self w = (Val tt, w2)
    /\ log w2 = log w /\ clock w2 = clock w /\ web3 w2 = web3 w
    /\ status (heap w2 self) = status (heap w self)
    /\ _trace_exc (lazy (heap w2 self)) = _trace_exc (lazy (heap w self))
    /\ _trace (lazy (heap w2 self)) = Some []
    /\ _subcalls (lazy (heap w2 self)) = Some []
    /\ _internal_transfers (lazy (heap w2 self)) = Some []
    /\ _new_contracts (lazy (heap w2 self)) = Some [].
Proof.
  intros Hraw Htr. unfold _expand_trace. unfold_monad. cbn -[Nat.eqb].
  rewrite Hraw. cbn -[Nat.eqb]. rewrite Htr, Hraw. cbn -[Nat.eqb].
  rewrite !Nat.eqb_refl. cbn -[Nat.eqb]. rewrite orb_true_r.
  eexists. split; [reflexivity|]. cbn -[Nat.eqb]. rewrite !Nat.eqb_refl. repeat split.
Qed.

End WithoutEndpoint.

(** X2.  On a node without the trace endpoint, the first reading of
    [trace] on a mined transaction (not a plain transfer, not traced yet)
    raises the [RPCRequestError] of the wrapper; no exception is recorded
    and the empty list [_get_trace] put into [_raw_trace] before the test
    stays.  So the second reading raises nothing: [_expand_trace] takes the
    empty list for the trace, and [trace] returns the empty list, as
    [subcalls] does afterwards, without a request and without a change of
    [web3]. *)
Theorem trace_without_endpoint (E : env) (self : nat) (w : world) :
  0 <= Status_value (status (heap w self)) ->
  _trace_exc (lazy (heap w self)) = None ->
  _raw_trace (lazy (heap w self)) = None ->
  _trace (lazy (heap w self)) = None ->
  is_plain_transfer (heap w self) = false ->
  fst (supports_traces E w) = Val false ->
  exists w1 w2,
    trace E self w = (Exn (RPCRequestError MsgEndpointRequired), w1)
    /\ _trace_exc (lazy (heap w1 self)) = None
    /\ _raw_trace (lazy (heap w1 self)) = Some []
    /\ trace E self w1 = (Val (Some (Some [])), w2)
    /\ log w2 = log w1 /\ clock w2 = clock w1 /\ web3 w2 = web3 w1
    /\ subcalls E self w2 = (Val (Some []), w2).
Proof.
  intros Hst Hexc Hraw Htr Hplain Hsup.
  destruct (supports_traces E w) as [r wa] eqn:Hrun. simpl in Hsup. subst r.
  pose proof (_get_trace_unsupported E self w wa Hraw Hplain Hrun) as Hget.
  set (h1 := fun i => if (i =? self)%nat then with_lazy (set__raw_trace (Some [])) (heap w i)
                      else heap w i) in Hget.
  set (w1 := set_heap h1 wa) in Hget.
  assert (Hh1 : heap w1 self = with_lazy (set__raw_trace (Some [])) (heap w self)).
  { simpl. unfold h1. now rewrite Nat.eqb_refl. }
  assert (Hsup1 : supports_traces E w1 = (Val false, w1)).
  { unfold w1. rewrite supports_traces_heap.
    now rewrite (supports_traces_again E w wa false Hrun). }
  apply Z.ltb_ge in Hst.
  assert (Hfirst : trace E self w = (Exn (RPCRequestError MsgEndpointRequired), w1)).
  { unfold trace, trace_property.
    unfold bind at 1. unfold getattr at 1, gets at 1. rewrite Hst.
    unfold bind at 1. unfold getattr at 1, gets at 1. rewrite Hexc.
    unfold try_except, trace_body.
    unfold bind at 1. unfold bind at 1. unfold getattr at 1, gets at 1. rewrite Htr.
    cbn [is_Some_b negb when]. unfold bind at 1. unfold _expand_trace.
    unfold bind at 1. unfold getattr at 1, gets at 1. rewrite Hraw.
    cbn [is_Some_b negb when]. unfold bind at 1. rewrite Hget.
    cbn [is_RPCRequestError]. unfold bind at 1. rewrite Hsup1. reflexivity. }
  assert (Hraw1 : _raw_trace (lazy (heap w1 self)) = Some []) by now rewrite Hh1.
  assert (Htr1 : _trace (lazy (heap w1 self)) = None) by (rewrite Hh1; exact Htr).
  assert (Hexc1 : _trace_exc (lazy (heap w1 self)) = None) by (rewrite Hh1; exact Hexc).
  assert (Hst1 : (Status_value (status (heap w1 self)) <? 0) = false) by (rewrite Hh1; exact Hst).
  destruct (_expand_trace_of_nothing E self w1 Hraw1 Htr1)
    as (w2 & Hexp & Hl & Hc & Hw & Hs2 & He2 & Ht2 & Hsc2 & _).
  exists w1, w2. split; [exact Hfirst|]. split; [exact Hexc1|]. split; [exact Hraw1|].
  split; [|split; [exact Hl | split; [exact Hc | split; [exact Hw|]]]].
  - unfold trace, trace_property.
    unfold bind at 1. unfold getattr at 1, gets at 1. rewrite Hst1.
    unfold bind at 1. unfold getattr at 1, gets at 1. rewrite Hexc1.
    unfold try_except, trace_body.
    unfold bind at 1. unfold bind at 1. unfold getattr at 1, gets at 1. rewrite Htr1.
    cbn [is_Some_b negb when]. unfold bind at 1. rewrite Hexp.
    unfold getattr, gets, ret. now rewrite Ht2.
  - unfold subcalls, trace_property.
    unfold bind at 1. unfold getattr at 1, gets at 1. rewrite Hs2, Hst1.
    unfold bind at 1. unfold getattr at 1, gets at 1. rewrite He2, Hexc1.
    unfold try_except, subcalls_body.
    unfold bind at 1. unfold bind at 1. unfold getattr at 1, gets at 1. rewrite Hsc2.
    cbn [is_Some_b negb when]. unfold bind, ret, getattr, gets. now rewrite Hsc2.
Qed.

Lemma trace_without_endpoint_witness :
  exists w1 w2,
    trace (sample_env (fun _ => untraceable_view)) 0 confirmed_world
    = (Exn (RPCRequestError MsgEndpointRequired), w1)
    /\ trace (sample_env (fun _ => untraceable_view)) 0 w1 = (Val (Some (Some [])), w2)
    /\ log w2 = log w1.
Proof.
  destruct (trace_without_endpoint (sample_env (fun _ => untraceable_view)) 0%nat
              confirmed_world)
    as (w1 & w2 & H1 & _ & _ & H2 & Hl & _);
    [discriminate | reflexivity | reflexivity | reflexivity | reflexivity | reflexivity |].
  exists w1, w2. split; [exact H1|]. split; [exact H2 | exact Hl].
Defined.

(** ** [_get_memory] *)

Section Memory.

Lemma take_repeat {A} (x : A) (n m : nat) : take n (repeat x m) = repeat x (Nat.min n m).
Proof.
  revert m. induction n as [|n IH]; intros [|m]; simpl; try reflexivity.
  now rewrite IH.
Qed.

(** A slice with bounds that are not negative, padded to its requested
    length. *)
Lemma py_slice_padded {A} (x : A) (l : list A) (a len : Z) :
  0 <= a -> 0 <= len ->
  let d := py_slice l a (a + len) in
  d ++ repeat x (Z.to_nat (len - Z.of_nat (length d)))
  = take (Z.to_nat len) (drop (Z.to_nat a) l ++ repeat x (Z.to_nat len)).
Proof.
  intros Ha Hl. cbv zeta. unfold py_slice.
  destruct (a <? 0) eqn:H1; [apply Z.ltb_lt in H1; lia|].
  destruct (a + len <? 0) eqn:H2; [apply Z.ltb_lt in H2; lia|].
  set (n := Z.of_nat (length l)).
  rewrite (Z.max_r 0 a) by lia. rewrite (Z.max_r 0 (a + len)) by lia.
  destruct (Z.le_gt_cases n a) as [Hna|Hna].
  - rewrite (Z.min_l n a) by lia. rewrite (Z.min_l n (a + len)) by lia.
    rewrite Z.sub_diag. simpl. rewrite Z.sub_0_r.
    rewrite drop_ge by (unfold n in Hna; lia).
    simpl. rewrite take_repeat. now rewrite Nat.min_id.
  - rewrite (Z.min_r n a) by lia.
    assert (Hd : length (drop (Z.to_nat a) l) = Z.to_nat (n - a)).
    { rewrite length_drop. unfold n. lia. }
    destruct (Z.le_gt_cases (a + len) n) as [Hln|Hln].
    + rewrite (Z.min_r n (a + len)) by lia.
      replace (a + len - a) with len by lia.
      rewrite length_take, Hd.
      replace (Z.to_nat (len - Z.of_nat (Nat.min (Z.to_nat len) (Z.to_nat (n - a))))) with 0%nat
        by lia.
      simpl. rewrite app_nil_r. rewrite take_app_le by (rewrite Hd; lia). reflexivity.
    + rewrite (Z.min_l n (a + len)) by lia.
      rewrite take_ge by (rewrite Hd; lia).
      rewrite take_app_ge by (rewrite Hd; lia). rewrite Hd, take_repeat.
      f_equal. f_equal. lia.
Qed.

End Memory.

(** X3.  When [_get_memory(step, idx)] returns, the two stack words it
    read were hexadecimal text and the memory was hexadecimal text; for an
    offset and a length that are not negative, the result is the [length]
    bytes found at [offset] in the memory continued with zero bytes: it has
    exactly [length] bytes, also when the memory ends earlier or does not
    reach the offset at all. *)
Theorem _get_memory_padded (st : step) (idx : Z) (data : list byte) :
  _get_memory st idx = Val data ->
  exists o l offset len mem,
    py_nth (s_stack st) idx = Val o /\ py_int16 o = Val offset
    /\ py_nth (s_stack st) (idx - 1) = Val l /\ py_int16 l = Val len
    /\ memory_bytes st = Val mem
    /\ (0 <= offset -> 0 <= len ->
        data = take (Z.to_nat len) (drop (Z.to_nat offset) mem ++ repeat x00 (Z.to_nat len))
        /\ Z.of_nat (length data) = len).
Proof.
  intros Hrun.
  destruct (py_nth (s_stack st) idx) as [o|] eqn:H1;
    [|unfold _get_memory in Hrun; rewrite H1 in Hrun; discriminate].
  destruct (py_int16 o) as [offset|] eqn:H2;
    [|unfold _get_memory in Hrun; rewrite H1 in Hrun; simpl in Hrun; rewrite H2 in Hrun;
      discriminate].
  destruct (py_nth (s_stack st) (idx - 1)) as [l|] eqn:H3;
    [|unfold _get_memory in Hrun; rewrite H1 in Hrun; simpl in Hrun; rewrite H2 in Hrun;
      simpl in Hrun; rewrite H3 in Hrun; discriminate].
  destruct (py_int16 l) as [len|] eqn:H4;
    [|unfold _get_memory in Hrun; rewrite H1 in Hrun; simpl in Hrun; rewrite H2 in Hrun;
      simpl in Hrun; rewrite H3 in Hrun; simpl in Hrun; rewrite H4 in Hrun; discriminate].
  destruct (memory_bytes st) as [mem|] eqn:H5;
    [|unfold _get_memory in Hrun; rewrite H1 in Hrun; simpl in Hrun; rewrite H2 in Hrun;
      simpl in Hrun; rewrite H3 in Hrun; simpl in Hrun; rewrite H4 in Hrun; simpl in Hrun;
      rewrite H5 in Hrun; discriminate].
  unfold _get_memory in Hrun. rewrite H1 in Hrun. simpl in Hrun. rewrite H2 in Hrun.
  simpl in Hrun. rewrite H3 in Hrun. simpl in Hrun. rewrite H4 in Hrun. simpl in Hrun.
  rewrite H5 in Hrun. simpl in Hrun. injection Hrun as <-.
  exists o, l, offset, len, mem. do 5 (split; [first [reflexivity | assumption]|]).
  intros Ho Hl. split.
  - now apply py_slice_padded.
  - rewrite (py_slice_padded x00 mem offset len) by assumption.
    rewrite length_take, length_app, repeat_length. lia.
Qed.

Lemma _get_memory_padded_witness :
  _get_memory returning_step (-1) = Val [x00; xab; x00; x00]
  /\ exists o l offset len mem,
       py_nth (s_stack returning_step) (-1) = Val o /\ py_int16 o = Val offset
       /\ py_nth (s_stack returning_step) (-1 - 1) = Val l /\ py_int16 l = Val len
       /\ memory_bytes returning_step = Val mem
       /\ (0 <= offset -> 0 <= len ->
           [x00; xab; x00; x00]
           = take (Z.to_nat len) (drop (Z.to_nat offset) mem ++ repeat x00 (Z.to_nat len))
           /\ Z.of_nat (length [x00; xab; x00; x00]) = len).
Proof.
  split; [reflexivity|].
  exact (_get_memory_padded returning_step (-1) [x00; xab; x00; x00] eq_refl).
Defined.

(** ** The precompile pattern on addresses *)

Section Pattern.

Lemma low_addresses_checked :
  forallb (fun k => Bool.eqb (precompile_contract (low_address (N.of_nat k)))
                             ((1 <=? N.of_nat k) && (N.of_nat k <=? 9)
                              || (16 <=? N.of_nat k) && (N.of_nat k <=? 24))%N)
          (seq 0 256) = true.
Proof. vm_compute. reflexivity. Qed.

Lemma strip_prefix_app (p r : list ascii) : strip_prefix p (p ++ r) = Some r.
Proof.
  induction p as [|c p IH]; simpl; [now destruct r|].
  now rewrite Ascii.eqb_refl.
Qed.

Lemma strip_prefix_length (p cs rest : list ascii) :
  strip_prefix p cs = Some rest -> length cs = (length p + length rest)%nat.
Proof.
  revert cs. induction p as [|c p IH]; intros cs; simpl.
  - destruct cs; now intros [= <-].
  - destruct cs as [|c' cs]; [discriminate|].
    destruct (Ascii.eqb c c'); [|discriminate]. intros H. simpl. now rewrite (IH cs H).
Qed.

(** The pattern needs 42 characters. *)
Lemma precompile_match_short (cs : list ascii) :
  (length cs < 42)%nat -> precompile_match cs = false.
Proof.
  intros Hlen. unfold precompile_match.
  destruct (strip_prefix _ cs) as [rest|] eqn:Hs; [|reflexivity].
  apply strip_prefix_length in Hs. cbn [length repeat] in Hs.
  destruct rest as [|a [|b rest]]; [reflexivity | reflexivity |]. simpl in Hs. lia.
Qed.

Lemma regex_search_short (cs : list ascii) :
  (length cs < 42)%nat -> regex_search precompile_match cs = false.
Proof.
  induction cs as [|c cs IH]; intros Hlen.
  - reflexivity.
  - cbn [regex_search]. rewrite precompile_match_short by exact Hlen.
    apply IH. simpl in Hlen. lia.
Qed.

End Pattern.

(** X4.  On an address text made of [0x], 38 zeros and two more
    characters, the test [_is_call_to_precompile] depends on those two
    characters alone: it holds exactly when they are [0] and a digit
    [1]-[9], or [1] and a digit [0]-[8].  So of the addresses [0x00…nn]
    with [n < 256], written in lower case, it accepts those with
    [1 <= n <= 9] and [16 <= n <= 24] ([0x10]-[0x18]) and no other: not
    the zero address, not [0x0a]-[0x0f], nothing from [0x19] on. *)
Theorem precompile_pattern_exact :
  (forall a b sc,
      sc_to sc = address_ending a b ->
      _is_call_to_precompile sc
      = (Ascii.eqb a "0" && char_between "1" "9" b
         || Ascii.eqb a "1" && char_between "0" "8" b))
  /\ (forall n sc,
        (n < 256)%N -> sc_to sc = low_address n ->
        _is_call_to_precompile sc
        = ((1 <=? n) && (n <=? 9) || (16 <=? n) && (n <=? 24))%N).
Proof.
  split.
  - intros a b sc Hto. unfold _is_call_to_precompile. rewrite Hto.
    unfold precompile_contract, address_ending.
    rewrite list_ascii_of_string_of_list_ascii.
    cbn [regex_search]. rewrite regex_search_short by (cbn; lia).
    rewrite orb_false_r. unfold precompile_match.
    change ("0"%char :: "x"%char :: repeat "0"%char 38 ++ [a; b])
      with (("0"%char :: "x"%char :: repeat "0"%char 38) ++ [a; b]).
    now rewrite strip_prefix_app.
  - intros n sc Hn Hto. unfold _is_call_to_precompile. rewrite Hto.
    pose proof low_addresses_checked as H. rewrite forallb_forall in H.
    specialize (H (N.to_nat n)). rewrite N2Nat.id in H.
    apply Bool.eqb_prop, H, in_seq. lia.
Qed.

(** ** The walk changes no step beyond its annotation *)

Section AnnotatesOnly.

Lemma annotates_only_frames {A} (m : M xstate A) : frames m -> annotates_only m.
Proof. intros Hm x. destruct (Hm x) as [_ ->]. reflexivity. Qed.

Lemma annotates_only_bind {A B} (m : M xstate A) (k : A -> M xstate B) :
  annotates_only m -> (forall a, annotates_only (k a)) -> annotates_only (bind m k).
Proof.
  intros Hm Hk x. unfold bind. specialize (Hm x).
  destruct (m x) as [[a|e] x1]; simpl in *; [|exact Hm].
  now rewrite (Hk a x1).
Qed.

Lemma annotates_only_when (b : bool) (m : M xstate unit) :
  annotates_only m -> annotates_only (when b m).
Proof. intros Hm. destruct b; [exact Hm | now intros x]. Qed.

Lemma annotates_only_update_step (i : Z) (f : step -> step) :
  (forall st, bare (f st) = bare st) -> annotates_only (update_step i f).
Proof.
  intros Hf x. unfold update_step, modify. simpl.
  change (map bare ?l) with (bare <$> l). apply list_eq. intros k.
  rewrite !list_lookup_fmap.
  destruct (decide (Z.to_nat i = k)) as [<-|Hk].
  - rewrite list_lookup_alter_eq.
    destruct (x_trace x !! Z.to_nat i); simpl; [|reflexivity]. now rewrite Hf.
  - now rewrite list_lookup_alter_ne by exact Hk.
Qed.

Lemma annotates_only_update_context (d : Z) (f : context -> context) :
  annotates_only (update_context d f).
Proof. now intros x. Qed.

Lemma annotates_only_for_in {A} (body : A -> M xstate unit) (l : list A) :
  (forall a, annotates_only (body a)) -> annotates_only (for_in l body).
Proof.
  intros Hb. induction l as [|a l IH]; simpl; [now intros x|].
  apply annotates_only_bind; [apply Hb | intros _; exact IH].
Qed.

End AnnotatesOnly.

Create HintDb annot.
#[export] Hint Resolve annotates_only_update_context : annot.
#[export] Hint Extern 1 (annotates_only _) =>
  (apply annotates_only_frames; solve [auto with frames]) : annot.

Ltac annot_tac :=
  cbv zeta;
  repeat first
    [ progress auto with annot
    | apply annotates_only_bind; [|intros]
    | apply annotates_only_when
    | match goal with
      | |- annotates_only (if ?b then _ else _) => destruct b
      | |- annotates_only (match ?x with _ => _ end) => destruct x
      | |- annotates_only (let '(_, _) := ?x in _) => destruct x
      end ].

Section AnnotatesOnlyWalk.

Variable R : registry.

Lemma annotates_only_open_context (d : Z) (addr sig : string) :
  annotates_only (open_context R d addr sig).
Proof.
  intros x. unfold open_context, bind, lift, modify.
  now destruct (_get_last_map R addr sig).
Qed.

Lemma annotates_only_enter_call (i : Z) (ti st : step) (b1 b2 : bool) :
  annotates_only (enter_call R i ti st b1 b2).
Proof.
  unfold enter_call. pose proof annotates_only_open_context. annot_tac.
  all: apply annotates_only_frames; frames_tac.
Qed.

Lemma annotates_only_visit_step (i : Z) (ti : step) (last : context) :
  annotates_only (visit_step R i ti last).
Proof.
  assert (Ha : forall fn_name, annotates_only (update_step i (annotate last fn_name))).
  { intros fn_name. now apply annotates_only_update_step. }
  assert (Hs : forall loc, annotates_only (update_step i (set_source loc))).
  { intros loc. now apply annotates_only_update_step. }
  assert (Hc : forall pc path, annotates_only (record_coverage i ti last pc path)).
  { intros pc path. unfold record_coverage. annot_tac. }
  assert (Hj : forall pc, annotates_only (track_jumps i ti last pc)).
  { intros pc. unfold track_jumps. annot_tac. }
  unfold visit_step. annot_tac.
Qed.

Lemma annotates_only_expand_step (i : Z) : annotates_only (expand_step R i).
Proof.
  unfold expand_step.
  pose proof annotates_only_enter_call. pose proof annotates_only_visit_step.
  annot_tac.
Qed.

End AnnotatesOnlyWalk.

(** X5.  The walk of [_expand_trace] only annotates: whatever the trace,
    the registry and the contexts, and whether the walk returns or raises
    half-way, the trace it leaves has the same number of steps, and every
    step has the [pc], [op], [depth], [gas], [gasCost], [stack] and
    [memory] it had before; only the keys [address], [contractName], [fn],
    [jumpDepth] and [source] are written.  (The shifts of [depth] and
    [gasCost] are made before the walk starts.) *)
Theorem walk_annotates_only (R : registry) (x : xstate) :
  let x' := snd (expand_loop R x) in
  length (x_trace x') = length (x_trace x)
  /\ forall i st', x_trace x' !! i = Some st' ->
       exists st, x_trace x !! i = Some st
                  /\ s_pc st' = s_pc st /\ s_op st' = s_op st /\ s_depth st' = s_depth st
                  /\ s_gas st' = s_gas st /\ s_gasCost st' = s_gasCost st
                  /\ s_stack st' = s_stack st /\ s_memory st' = s_memory st.
Proof.
  cbv zeta.
  assert (H : map bare (x_trace (snd (expand_loop R x))) = map bare (x_trace x)).
  { unfold expand_loop. apply annotates_only_bind; [now intros y|]. intros tr.
    apply annotates_only_for_in, annotates_only_expand_step. }
  split.
  - rewrite <- (length_map bare), H. apply length_map.
  - intros i st' Hi.
    assert (Hb : map bare (x_trace (snd (expand_loop R x))) !! i = Some (bare st')).
    { change (map bare ?l) with (bare <$> l). now rewrite list_lookup_fmap, Hi. }
    rewrite H in Hb. change (map bare ?l) with (bare <$> l) in Hb.
    rewrite list_lookup_fmap in Hb.
    destruct (x_trace x !! i) as [st|]; [|discriminate]. simpl in Hb.
    exists st. split; [reflexivity|].
    assert (Hb' : bare st' = bare st) by congruence.
    repeat split;
      [ exact (f_equal s_pc Hb') | exact (f_equal s_op Hb') | exact (f_equal s_depth Hb')
      | exact (f_equal s_gas Hb') | exact (f_equal s_gasCost Hb')
      | exact (f_equal s_stack Hb') | exact (f_equal s_memory Hb') ].
Qed.

(** ** More on the gas accountant *)

Section GasFigures.

(** The two figures of [_get_trace_gas] on a readable range, written with
    the sums they are made of. *)
Lemma trace_gas_figures (l : list step) (start stop : nat) (s0 : step) :
  forallb gas_readable l = true ->
  (start <= stop <= length l)%nat ->
  l !! start = Some s0 ->
  let rs := take (stop - start) (drop start l) in
  trace_gas (Some l) (Z.of_nat start) (Z.of_nat stop)
  = Val (sum_steps (fun st => if same_context s0 st then s_gasCost st - refund_of st else 0) rs
         - handed_over s0 s0 rs + add_back_of l start,
         sum_steps (fun st => s_gasCost st - refund_of st) rs + add_back_of l start).
Proof.
  intros Hall Hrange H0 rs.
  unfold trace_gas.
  assert (Hlen : length rs = (stop - start)%nat).
  { unfold rs. rewrite length_take, length_drop. apply lookup_lt_Some in H0. lia. }
  replace (Z.of_nat stop - Z.of_nat start) with (Z.of_nat (length rs)) by lia.
  destruct (gas_fold_closed l start s0 Hall H0 rs start s0 0 0) as (b & Hfold).
  { rewrite Hlen. reflexivity. }
  { left. split; reflexivity. }
  rewrite (same_context_refl s0 (readable_lookup _ _ _ Hall H0)) in Hfold.
  rewrite Hfold. cbn [rbind].
  assert (Hadd : (if 0 <? Z.of_nat start
                  then let? t0 := subscript (Some l) (Z.of_nat start) in
                       let? before := subscript (Some l) (Z.of_nat start - 1) in
                       Val (if s_depth t0 >? s_depth before then s_gasCost before else 0)
                  else Val 0) = Val (add_back_of l start)).
  { unfold add_back_of. destruct start as [|before]; [reflexivity|].
    assert (Hpos : (0 <? Z.of_nat (S before)) = true) by (apply Z.ltb_lt; lia).
    rewrite Hpos. cbn [subscript]. rewrite (py_nth_lookup _ _ _ H0). cbn [rbind].
    destruct (lookup_lt_is_Some_2 l before) as (sb & Hb);
      [apply lookup_lt_Some in H0; lia|].
    replace (Z.of_nat (S before) - 1) with (Z.of_nat before) by lia.
    rewrite (py_nth_lookup _ _ _ Hb), H0, Hb. reflexivity. }
  rewrite Hadd. cbn [rbind]. first [reflexivity | f_equal; f_equal; lia].
Qed.

Lemma sum_steps_ext (f g : step -> Z) (rs : list step) :
  Forall (fun st => f st = g st) rs -> sum_steps f rs = sum_steps g rs.
Proof.
  induction 1 as [|st rs Hst _ IH]; [reflexivity|].
  rewrite !sum_steps_cons. now rewrite Hst, IH.
Qed.

Lemma sum_steps_app (f : step -> Z) (l1 l2 : list step) :
  sum_steps f (l1 ++ l2) = sum_steps f l1 + sum_steps f l2.
Proof.
  induction l1 as [|st l1 IH].
  - change (sum_steps f []) with 0. cbn [app]. lia.
  - change ((st :: l1) ++ l2) with (st :: (l1 ++ l2)).
    rewrite !sum_steps_cons, IH. lia.
Qed.

Lemma handed_over_one_context (s0 prev : step) (rs : list step) :
  Forall (fun st => same_context s0 st = true) rs -> handed_over s0 prev rs = 0.
Proof.
  intros H. revert prev. induction H as [|st rs Hst _ IH]; intros prev; [reflexivity|].
  cbn [handed_over]. rewrite Hst, andb_false_r, IH. reflexivity.
Qed.

End GasFigures.

(** X6.  On a readable expanded trace, for a range whose steps are all in
    the context of its first step (same depth and same jump depth),
    [_get_trace_gas] returns the same number for the internal and the
    total gas: nothing was handed to a nested call, so the two figures
    cannot differ. *)
Theorem trace_gas_one_context (l : list step) (start stop : nat) (s0 : step) :
  forallb gas_readable l = true ->
  (start <= stop <= length l)%nat ->
  l !! start = Some s0 ->
  Forall (fun st => _step_compare st s0 = Val true) (take (stop - start) (drop start l)) ->
  exists g, trace_gas (Some l) (Z.of_nat start) (Z.of_nat stop) = Val (g, g).
Proof.
  intros Hall Hrange H0 Hsame.
  assert (Hctx : Forall (fun st => same_context s0 st = true)
                   (take (stop - start) (drop start l))).
  { eapply List.Forall_impl; [|exact Hsame]. intros st Hst. unfold same_context.
    now rewrite Hst. }
  eexists. rewrite (trace_gas_figures l start stop s0 Hall Hrange H0). cbv zeta.
  rewrite (handed_over_one_context _ _ _ Hctx).
  rewrite (sum_steps_ext _ (fun st => s_gasCost st - refund_of st)).
  - f_equal. f_equal. lia.
  - eapply List.Forall_impl; [|exact Hctx]. intros st Hst. cbv beta. now rewrite Hst.
Qed.

Lemma trace_gas_one_context_witness :
  exists g, trace_gas (Some sample_expanded_trace) 1 3 = Val (g, g).
Proof.
  refine (trace_gas_one_context sample_expanded_trace 1 3 _ eq_refl
            (conj (le_S _ _ (le_S _ _ (le_n 1))) (le_S _ _ (le_n 3))) eq_refl _).
  repeat constructor.
Defined.

(** X7.  On a readable expanded trace the total of [_get_trace_gas] over
    a range [start, stop) is put together from the totals of its two
    halves [start, mid) and [mid, stop): it is their sum, less the
    add-back of the second half (the gas cost of the step before [mid],
    counted by the first half already, when the step at [mid] is deeper
    than it). *)
Theorem trace_gas_total_split (l : list step) (start mid stop : nat) :
  forallb gas_readable l = true ->
  (start <= mid <= stop)%nat -> (stop <= length l)%nat -> (mid < length l)%nat ->
  exists i1 t1 i2 t2 i t,
    trace_gas (Some l) (Z.of_nat start) (Z.of_nat mid) = Val (i1, t1)
    /\ trace_gas (Some l) (Z.of_nat mid) (Z.of_nat stop) = Val (i2, t2)
    /\ trace_gas (Some l) (Z.of_nat start) (Z.of_nat stop) = Val (i, t)
    /\ t = t1 + t2 - add_back_of l mid.
Proof.
  intros Hall Hm Hstop Hmid.
  destruct (lookup_lt_is_Some_2 l start) as (s0 & H0); [lia|].
  destruct (lookup_lt_is_Some_2 l mid Hmid) as (sm & Hsm).
  do 6 eexists.
  rewrite (trace_gas_figures l start mid s0 Hall) by (try exact H0; lia).
  rewrite (trace_gas_figures l mid stop sm Hall) by (try exact Hsm; lia).
  rewrite (trace_gas_figures l start stop s0 Hall) by (try exact H0; lia).
  cbv zeta. split; [reflexivity|]. split; [reflexivity|]. split; [reflexivity|].
  assert (Hsplit : take (stop - start) (drop start l)
                   = take (mid - start) (drop start l) ++ take (stop - mid) (drop mid l)).
  { replace (stop - start)%nat with ((mid - start) + (stop - mid))%nat by lia.
    rewrite <- take_take_drop, drop_drop.
    now replace (start + (mid - start))%nat with mid by lia. }
  rewrite Hsplit, sum_steps_app. lia.
Qed.

Lemma trace_gas_total_split_witness :
  exists i1 t1 i2 t2 i t,
    trace_gas (Some sample_expanded_trace) 0 1 = Val (i1, t1)
    /\ trace_gas (Some sample_expanded_trace) 1 4 = Val (i2, t2)
    /\ trace_gas (Some sample_expanded_trace) 0 4 = Val (i, t)
    /\ t = t1 + t2 - add_back_of sample_expanded_trace 1.
Proof.
  refine (trace_gas_total_split sample_expanded_trace 0 1 4 eq_refl _ _ _).
  - split; [exact (le_S _ _ (le_n 0)) | exact (le_S _ _ (le_S _ _ (le_S _ _ (le_n 1))))].
  - exact (le_n 4).
  - exact (le_S _ _ (le_S _ _ (le_n 2))).
Defined.

(** ** More on [wait] and on the wait for further confirmations *)

Section WaitMore.

Variable E : env.
Variable self : nat.

Lemma confirmations_heap (w w1 : world) (c : Z) :
  confirmations E self w = (Val c, w1) -> heap w1 = heap w /\ history w1 = history w.
Proof.
  unfold confirmations. unfold_monad. cbn.
  destruct (block_number (heap w self)) as [b|]; [|now intros [= <- <-]].
  destruct (b =? 0); now intros [= <- <-].
Qed.

End WaitMore.

(** X8.  [wait(required_confs)] on a transaction whose nonce is known and
    that is not satisfied yet: once the sender's transaction count has
    passed the nonce, a node that does not know the transaction any more
    ([TransactionNotFound]) makes [wait] mark the transaction [Dropped],
    set its completion event and return, after one request for the count
    and one for the transaction: it neither sleeps nor enters
    [_await_confirmation], and no other record changes. *)
Theorem wait_marks_dropped (fuel : nat) (E : env) (self : nat) (required_confs n c : Z)
    (w w1 : world) :
  1 <= required_confs ->
  confirmations E self w = (Val c, w1) ->
  c <= required_confs ->
  nonce (heap w self) = Some n ->
  n < get_transaction_count (nd E (clock w1)) (sender (heap w self)) ->
  get_transaction (nd E (S (clock w1))) (txid (heap w self)) = None ->
  exists w',
    wait (S fuel) E self required_confs w = (Val tt, w')
    /\ status (heap w' self) = Dropped
    /\ _confirmed (heap w' self) = true
    /\ (forall j, j <> self -> heap w' j = heap w j)
    /\ log w' = log w1 ++ [Rpc (ReqTransactionCount (sender (heap w self)));
                           Rpc (ReqTransaction (txid (heap w self)));
                           SetStatus self Dropped; Signal self].
Proof.
  intros Hreq Hconf Hc Hn Hcount Htx.
  destruct (confirmations_heap E self w w1 c Hconf) as [Hh _].
  unfold wait.
  assert (H1 : (required_confs <? 1) = false) by (apply Z.ltb_ge; lia).
  rewrite H1. unfold bind at 1. rewrite Hconf.
  assert (H2 : (required_confs <? c) = false) by (apply Z.ltb_ge; lia).
  rewrite H2. unfold_monad. cbn -[Nat.eqb].
  rewrite Hh, Hn. cbn -[Nat.eqb]. rewrite Hh.
  assert (H3 : (get_transaction_count (nd E (clock w1)) (sender (heap w self)) <=? n) = false)
    by (apply Z.leb_gt; lia).
  rewrite H3. cbn -[Nat.eqb]. rewrite Hh, Htx. cbn -[Nat.eqb]. rewrite Hh, Hn.
  cbn -[Nat.eqb]. eexists. split; [reflexivity|]. cbn -[Nat.eqb].
  rewrite !Nat.eqb_refl. split; [reflexivity|]. split; [reflexivity|]. split.
  - intros j Hj. destruct (Nat.eqb_spec j self) as [->|_]; [now elim Hj|]. now rewrite Hh.
  - rewrite <- !app_assoc. reflexivity.
Qed.

Lemma wait_marks_dropped_witness :
  exists w',
    wait 1 (sample_env (fun _ => replaced_view)) 0 1 sample_world = (Val tt, w')
    /\ status (heap w' 0%nat) = Dropped
    /\ log w' = [Rpc (ReqTransactionCount "0xf0"); Rpc (ReqTransaction "0x01");
                 SetStatus 0 Dropped; Signal 0].
Proof.
  destruct (wait_marks_dropped 0 (sample_env (fun _ => replaced_view)) 0%nat 1 5 0
              sample_world sample_world)
    as (w' & Hrun & Hst & _ & _ & Hlog);
    [lia | reflexivity | lia | reflexivity | reflexivity | reflexivity |].
  exists w'. split; [exact Hrun|]. split; [exact Hst | exact Hlog].
Defined.

Section Lost.

Variable E : env.
Variable self : nat.

(** Silencing the competitors changes their [_silent] flag only. *)
Lemma silence_others_run (others : list nat) : forall w,
  exists w',
    for_in others (fun dropped_tx => setattr dropped_tx (set__silent true)) w = (Val tt, w')
    /\ log w' = log w /\ clock w' = clock w
    /\ (forall j, ~ In j others -> heap w' j = heap w j).
Proof.
  induction others as [|a rest IH]; intros w.
  - exists w. simpl. repeat split.
  - cbn [for_in]. unfold bind at 1. unfold setattr at 1, modify at 1.
    destruct (IH (set_heap (fun i => if (i =? a)%nat then set__silent true (heap w i)
                                     else heap w i) w))
      as (w' & Hrun & Hlog & Hclock & Hout).
    exists w'. split; [exact Hrun|]. split; [exact Hlog|]. split; [exact Hclock|].
    intros j Hn. rewrite Hout by (intros Hj; apply Hn; simpl; auto). simpl.
    destruct (Nat.eqb_spec j a) as [->|_]; [|reflexivity]. elim Hn. simpl. auto.
Qed.

End Lost.

(** X9.  A transaction that was included and then lost while further
    confirmations were awaited ([required_confs > 1]): when the receipt is
    no longer found and the node does not know the transaction either,
    [_await_confirmation] ends with [TransactionNotFound].  The completion
    event is not set and the status is not written (they are as the first
    loop left them), while [block_number] already holds the block of the
    receipt that has disappeared. *)
Theorem lost_transaction_raises (fuel : nat) (E : env) (self : nat) (bn : option Z)
    (required_confs : Z) (rc : rpc_receipt) (w w1 : world) :
  1 < required_confs ->
  await_inclusion (S fuel) E self 0 0 w = (Val (Some rc), w1) ->
  get_transaction_receipt (nd E (clock w1)) (txid (heap w1 self)) = None ->
  get_transaction (nd E (S (clock w1))) (txid (heap w1 self)) = None ->
  exists w',
    _await_confirmation (S (S fuel)) E self bn required_confs w
    = (Exn TransactionNotFound, w')
    /\ status (heap w' self) = status (heap w1 self)
    /\ _confirmed (heap w' self) = _confirmed (heap w1 self)
    /\ block_number (heap w' self) = Some (rc_blockNumber rc)
    /\ log w' = log w1 ++ [Rpc (ReqTransactionReceipt (txid (heap w1 self)));
                           Rpc (ReqTransaction (txid (heap w1 self)))].
Proof.
  intros Hreq Hinc Hrec Htx.
  cbn [_await_confirmation]. unfold bind at 1. rewrite Hinc.
  unfold bind at 1. unfold gets at 1.
  unfold bind at 1.
  destruct (silence_others_run (same_nonce_others w1 self) w1)
    as (ws & Hsil & Hlog & Hclock & Hout).
  rewrite Hsil.
  pose proof (Hout self (self_not_other self w1)) as Hself.
  unfold bind at 1. unfold setattr at 1, modify at 1.
  unfold bind at 1. cbn [await_confirmations].
  assert (H1 : (0 <? required_confs) && (1 <? required_confs) = true).
  { apply andb_true_intro. split; apply Z.ltb_lt; lia. }
  rewrite H1. unfold fetch_receipt. unfold_monad. cbn -[Nat.eqb].
  rewrite !Nat.eqb_refl. cbn -[Nat.eqb]. rewrite Hself, Hclock, Hrec.
  cbn -[Nat.eqb]. rewrite !Nat.eqb_refl. cbn -[Nat.eqb]. rewrite Hself, Htx.
  eexists. split; [reflexivity|]. cbn -[Nat.eqb]. rewrite !Nat.eqb_refl.
  cbn -[Nat.eqb]. rewrite Hself, Hlog, <- !app_assoc. repeat split.
Qed.

Lemma lost_transaction_raises_witness :
  exists w',
    _await_confirmation 2 (sample_env losing_node) 0 None 2 sample_world
    = (Exn TransactionNotFound, w')
    /\ status (heap w' 0%nat) = Pending
    /\ _confirmed (heap w' 0%nat) = false
    /\ block_number (heap w' 0%nat) = Some 10.
Proof.
  set (E := sample_env losing_node).
  destruct (await_inclusion 1 E 0 0 0 sample_world) as [r w1] eqn:Hinc.
  assert (Hr : r = Val (Some mined_receipt)).
  { change r with (fst (r, w1)). rewrite <- Hinc. vm_compute. reflexivity. }
  assert (Hc : clock w1 = 4%nat).
  { change w1 with (snd (r, w1)). rewrite <- Hinc. vm_compute. reflexivity. }
  assert (Hh : heap w1 0%nat = heap sample_world 0%nat).
  { change w1 with (snd (r, w1)). rewrite <- Hinc. vm_compute. reflexivity. }
  subst r.
  destruct (lost_transaction_raises 0 E 0%nat None 2 mined_receipt sample_world w1)
    as (w' & Hrun & Hst & Hcf & Hbn & _).
  - lia.
  - exact Hinc.
  - rewrite Hc, Hh. reflexivity.
  - rewrite Hc, Hh. reflexivity.
  - exists w'. split; [exact Hrun|]. rewrite Hst, Hcf, Hh. repeat split. exact Hbn.
Defined.

(** ** The displayed name of a transaction *)

Section Names.

Lemma split_dot_app (c f : list ascii) :
  ~ In "."%char c -> split_dot (c ++ "."%char :: f) = Some (c, f).
Proof.
  induction c as [|x c IH]; intros Hc; simpl; [reflexivity|].
  destruct (Ascii.eqb x ".") eqn:Hx.
  - apply Ascii.eqb_eq in Hx. elim Hc. simpl. auto.
  - rewrite IH; [reflexivity|]. intros H. apply Hc. simpl. auto.
Qed.

Lemma split_dot_none (cs : list ascii) : ~ In "."%char cs -> split_dot cs = None.
Proof.
  induction cs as [|x cs IH]; intros Hc; simpl; [reflexivity|].
  destruct (Ascii.eqb x ".") eqn:Hx.
  - apply Ascii.eqb_eq in Hx. elim Hc. simpl. auto.
  - rewrite IH; [reflexivity|]. intros H. apply Hc. simpl. auto.
Qed.

Lemma str_true_nonempty (s : string) : s <> ""%string -> str_true (Some s) = true.
Proof. destruct s; [congruence | reflexivity]. Qed.

Lemma list_ascii_of_string_app (a b : string) :
  list_ascii_of_string (a +:+ b) = list_ascii_of_string a ++ list_ascii_of_string b.
Proof. induction a as [|c a IH]; simpl; [reflexivity | now rewrite IH]. Qed.

(** What [_set_from_receipt] leaves of the two names. *)
Lemma _set_from_receipt_names (self : nat) (receipt : rpc_receipt) (w wa : world) :
  _set_from_receipt self receipt w = (Val tt, wa) ->
  fn_name (heap wa self) = fn_name (heap w self)
  /\ contract_address (heap wa self) = rc_contractAddress receipt
  /\ contract_name (heap wa self)
     = if str_true (rc_contractAddress receipt) && negb (str_true (contract_name (heap w self)))
       then Some "UnknownContract"%string
       else contract_name (heap w self).
Proof.
  unfold _set_from_receipt. unfold_monad. cbn -[Nat.eqb].
  destruct (Status_of (rc_status receipt)) as [st|e]; cbn -[Nat.eqb]; [|discriminate].
  rewrite !Nat.eqb_refl. cbn -[Nat.eqb].
  destruct (str_true (rc_contractAddress receipt) && negb (str_true (contract_name (heap w self))));
    cbn -[Nat.eqb]; intros [= <-]; cbn -[Nat.eqb]; rewrite ?Nat.eqb_refl; repeat split.
Qed.

End Names.

(** X10.  The name a transaction is shown under.  [_full_name()] is never
    the empty text.  After [__init__] and [_set_from_tx], a name given to
    [__init__] comes back unchanged from [_full_name()], whatever the
    receiver is, when it is not empty and has no dot, or when the text
    before its first dot and the text after it are both not empty
    ([_set_from_tx] leaves a known function name alone); a name that ends
    in its first dot is lost: with an unknown receiver the transaction is
    shown as [Transaction].  [_set_from_receipt] changes the name shown in
    one case only: when the receipt carries a contract address and no
    contract name is known, a known function name [f] is shown as
    [UnknownContract.f] from then on.  So a name with a contract part stays
    as given, and a name without a dot stays as given unless the
    transaction deploys a contract. *)
Theorem full_name_round_trip :
  (forall r, _full_name r <> ""%string)
  /\ (forall name r found calldata,
        name <> ""%string -> ~ In "."%char (list_ascii_of_string name) ->
        let r1 := names_from_tx found calldata (init_names (Some name) r) in
        contract_name r1 = None /\ _full_name r1 = name)
  /\ (forall c f r found calldata,
        c <> ""%string -> f <> ""%string -> ~ In "."%char (list_ascii_of_string c) ->
        let r1 := names_from_tx found calldata (init_names (Some (c +:+ "." +:+ f)%string) r) in
        contract_name r1 = Some c /\ _full_name r1 = (c +:+ "." +:+ f)%string)
  /\ (forall c r calldata,
        ~ In "."%char (list_ascii_of_string c) ->
        _full_name (names_from_tx None calldata (init_names (Some (c +:+ ".")%string) r))
        = "Transaction"%string)
  /\ (forall self receipt w wa,
        _set_from_receipt self receipt w = (Val tt, wa) ->
        _full_name (heap wa self)
        = if str_true (rc_contractAddress receipt)
             && negb (str_true (contract_name (heap w self)))
             && str_true (fn_name (heap w self))
          then ("UnknownContract." +:+ default "" (fn_name (heap w self)))%string
          else _full_name (heap w self)).
Proof.
  split; [|split; [|split; [|split]]].
  - intros r. unfold _full_name.
    destruct (contract_name r) as [[|a cn]|], (fn_name r) as [[|b fn]|]; simpl; discriminate.
  - intros name r found calldata Hne Hdot. cbv zeta. unfold init_names.
    rewrite (split_dot_none _ Hdot). unfold names_from_tx. cbn [fn_name contract_name set_fn_name].
    rewrite (str_true_nonempty _ Hne). split; [reflexivity|].
    unfold _full_name. cbn [fn_name contract_name set_fn_name set_contract_name].
    now rewrite (str_true_nonempty _ Hne).
  - intros c f r found calldata Hc Hf Hdot. cbv zeta. unfold init_names.
    rewrite !list_ascii_of_string_app. cbn [list_ascii_of_string app].
    rewrite (split_dot_app _ _ Hdot), !string_of_list_ascii_of_string.
    unfold names_from_tx. cbn [fn_name contract_name set_fn_name].
    rewrite (str_true_nonempty _ Hf). split; [reflexivity|].
    unfold _full_name. cbn [fn_name contract_name set_fn_name set_contract_name].
    now rewrite (str_true_nonempty _ Hc), (str_true_nonempty _ Hf).
  - intros c r calldata Hdot. unfold init_names.
    rewrite !list_ascii_of_string_app. cbn [list_ascii_of_string app].
    rewrite (split_dot_app _ _ Hdot), !string_of_list_ascii_of_string.
    unfold names_from_tx, _full_name. cbn. now rewrite andb_false_r.
  - intros self receipt w wa Hrun.
    destruct (_set_from_receipt_names self receipt w wa Hrun) as (Hfn & _ & Hcn).
    unfold _full_name. rewrite Hfn, Hcn.
    destruct (str_true (rc_contractAddress receipt)); cbn [andb]; [|reflexivity].
    destruct (str_true (contract_name (heap w self))) eqn:Hk; cbn [andb negb].
    + rewrite Hk. reflexivity.
    + destruct (str_true (fn_name (heap w self))); reflexivity.
Qed.

(** ** [web3.py]: connecting, disconnecting and the cached properties *)

(** Unfolds the operations of the state monad of [Web3]. *)
Ltac unfold_w :=
  unfold Web3.request_, Web3._remove_middlewares;
  unfold Web3.emit, Web3.observe, Web3.setattr, Web3.getattr;
  unfold Web3.bind, Web3.ret, Web3.raise, Web3.gets, Web3.modify, Web3.when, Web3.try_pass.

Section Web3Connection.

Variable E : Web3.env.

(** After [disconnect()]: nothing is cached and nothing is asked. *)
Lemma disconnected_reads (s : Web3.state) :
  Web3.provider (Web3.web3 s) = None ->
  Web3.supports_traces E s = (Web3.Ok false, s)
  /\ Web3.chain_id E s = (Web3.Err Web3.ConnectionError, s)
  /\ Web3.genesis_hash E s = (Web3.Err Web3.ConnectionError, s)
  /\ Web3.chain_uri E s = (Web3.Err Web3.ConnectionError, s)
  /\ Web3.disconnect s = (Web3.Ok tt, s).
Proof.
  intros Hp.
  unfold Web3.supports_traces, Web3.chain_id, Web3.genesis_hash, Web3.chain_uri,
    Web3.disconnect.
  unfold_w. rewrite Hp. repeat split.
Qed.

End Web3Connection.

(** X11.  [disconnect()] never raises.  On a connected object it forgets
    the provider and the cached genesis hash, chain URI, trace support and
    chain id, and removes the middlewares; the module-level dicts and
    [_mainnet_w3] stay.  On an object without provider it does nothing at
    all, so a second [disconnect()] changes nothing.  Afterwards
    [supports_traces] is [False] and [chain_id], [genesis_hash] and
    [chain_uri] raise [ConnectionError], all without a request. *)
Theorem disconnect_clears (E : Web3.env) (s : Web3.state) :
  exists s',
    Web3.disconnect s = (Web3.Ok tt, s')
    /\ Web3.provider (Web3.web3 s') = None
    /\ (Web3.provider (Web3.web3 s) = None -> s' = s)
    /\ (Web3.provider (Web3.web3 s) <> None ->
        Web3._genesis_hash (Web3.web3 s') = None
        /\ Web3._chain_uri (Web3.web3 s') = None
        /\ Web3._supports_traces (Web3.web3 s') = None
        /\ Web3._chain_id (Web3.web3 s') = None
        /\ Web3.log s' = Web3.log s ++ [Web3.RemoveMiddlewares])
    /\ Web3._mainnet_w3 (Web3.web3 s') = Web3._mainnet_w3 (Web3.web3 s)
    /\ Web3._chain_uri_cache s' = Web3._chain_uri_cache s
    /\ Web3._ens_cache s' = Web3._ens_cache s
    /\ Web3.disconnect s' = (Web3.Ok tt, s')
    /\ Web3.supports_traces E s' = (Web3.Ok false, s')
    /\ Web3.chain_id E s' = (Web3.Err Web3.ConnectionError, s')
    /\ Web3.genesis_hash E s' = (Web3.Err Web3.ConnectionError, s')
    /\ Web3.chain_uri E s' = (Web3.Err Web3.ConnectionError, s').
Proof.
  destruct (Web3.disconnect s) as [r s'] eqn:Hrun.
  assert (Hfacts : r = Web3.Ok tt
            /\ Web3.provider (Web3.web3 s') = None
            /\ (Web3.provider (Web3.web3 s) = None -> s' = s)
            /\ (Web3.provider (Web3.web3 s) <> None ->
                Web3._genesis_hash (Web3.web3 s') = None
                /\ Web3._chain_uri (Web3.web3 s') = None
                /\ Web3._supports_traces (Web3.web3 s') = None
                /\ Web3._chain_id (Web3.web3 s') = None
                /\ Web3.log s' = Web3.log s ++ [Web3.RemoveMiddlewares])
            /\ Web3._mainnet_w3 (Web3.web3 s') = Web3._mainnet_w3 (Web3.web3 s)
            /\ Web3._chain_uri_cache s' = Web3._chain_uri_cache s
            /\ Web3._ens_cache s' = Web3._ens_cache s).
  { revert Hrun. unfold Web3.disconnect. unfold_w.
    destruct (Web3.provider (Web3.web3 s)) as [p|] eqn:Hp; cbn.
    - intros [= <- <-]. cbn. repeat split; discriminate.
    - intros [= <- <-]. repeat split; try assumption; try (exfalso; congruence). }
  destruct Hfacts as (-> & Hp & Hnone & Hsome & Hm & Hc & He).
  destruct (disconnected_reads E s' Hp) as (H1 & H2 & H3 & H4 & H5).
  exists s'. repeat split; try assumption; try (apply Hsome; assumption).
Qed.

Section KeepsCaches.

Lemma same_caches_refl (s : Web3.state) : same_caches s s.
Proof. repeat split. Qed.

Lemma same_caches_trans (s1 s2 s3 : Web3.state) :
  same_caches s1 s2 -> same_caches s2 s3 -> same_caches s1 s3.
Proof.
  intros (A1 & A2 & A3 & A4 & A5 & A6 & A7) (B1 & B2 & B3 & B4 & B5 & B6 & B7).
  repeat split; congruence.
Qed.

Lemma keeps_caches_ret {A} (a : A) : keeps_caches (Web3.ret a).
Proof. intros s. apply same_caches_refl. Qed.

Lemma keeps_caches_raise {A} (e : Web3.error) : keeps_caches (@Web3.raise A e).
Proof. intros s. apply same_caches_refl. Qed.

Lemma keeps_caches_gets {A} (f : Web3.state -> A) : keeps_caches (Web3.gets f).
Proof. intros s. apply same_caches_refl. Qed.

Lemma keeps_caches_getattr {A} (f : Web3.Web3 -> A) : keeps_caches (Web3.getattr f).
Proof. intros s. apply same_caches_refl. Qed.

Lemma keeps_caches_emit (e : Web3.event) : keeps_caches (Web3.emit e).
Proof. intros s. repeat split. Qed.

Lemma keeps_caches_observe {A} (E : Web3.env) (f : Web3.outside -> A) :
  keeps_caches (Web3.observe E f).
Proof. intros s. repeat split. Qed.

Lemma keeps_caches_request {A} (E : Web3.env) (r : Web3.request) (f : Web3.outside -> A) :
  keeps_caches (Web3.request_ E r f).
Proof. intros s. repeat split. Qed.

Lemma keeps_caches_set_provider (p : option Web3.provider_t) :
  keeps_caches (Web3.setattr (Web3.set_provider p)).
Proof. intros s. repeat split. Qed.

Lemma keeps_caches_bind {A B} (m : Web3.W A) (k : A -> Web3.W B) :
  keeps_caches m -> (forall a, keeps_caches (k a)) -> keeps_caches (Web3.bind m k).
Proof.
  intros Hm Hk s. unfold Web3.bind. specialize (Hm s).
  destruct (m s) as [[a|e] s1]; simpl in *; [|exact Hm].
  eapply same_caches_trans; [exact Hm | apply Hk].
Qed.

Lemma keeps_caches_when (b : bool) (m : Web3.W unit) :
  keeps_caches m -> keeps_caches (Web3.when b m).
Proof. intros Hm. destruct b; [exact Hm | apply keeps_caches_ret]. Qed.

Lemma keeps_caches_try_pass (m : Web3.W unit) : keeps_caches m -> keeps_caches (Web3.try_pass m).
Proof.
  intros Hm s. unfold Web3.try_pass. specialize (Hm s).
  now destruct (m s) as [[a|e] s1].
Qed.

End KeepsCaches.

Create HintDb caches.
#[export] Hint Resolve keeps_caches_ret keeps_caches_raise keeps_caches_gets
  keeps_caches_getattr keeps_caches_emit keeps_caches_observe keeps_caches_request
  keeps_caches_set_provider : caches.

Ltac caches_tac :=
  repeat first
    [ progress auto with caches
    | apply keeps_caches_bind; [|intros]
    | apply keeps_caches_when
    | apply keeps_caches_try_pass
    | match goal with
      | |- keeps_caches (if ?b then _ else _) => destruct b
      | |- keeps_caches (match ?x with _ => _ end) => destruct x
      end ].

Section Connect.

Variable E : Web3.env.

Lemma keeps_caches_connect (uri : string) (timeout : Z) :
  keeps_caches (Web3.connect E uri timeout).
Proof.
  unfold Web3.connect, Web3.choose_provider, Web3._expand_environment_vars,
    Web3.is_connected, Web3.reset_middlewares, Web3._remove_middlewares.
  caches_tac.
Qed.

(** The test of the connection and the injection of the middlewares
    never raise and leave [web3] as it is. *)
Lemma connect_tail_run (s : Web3.state) :
  exists s',
    Web3.try_pass (Web3.bind (Web3.is_connected E)
                     (fun c => Web3.when c Web3.reset_middlewares)) s
    = (Web3.Ok tt, s')
    /\ Web3.web3 s' = Web3.web3 s.
Proof.
  unfold Web3.is_connected, Web3.reset_middlewares. unfold_w.
  destruct (Web3.provider (Web3.web3 s)) as [p|] eqn:Hp; cbn; [|eauto].
  destruct (Web3.is_connected_to _ p) as [[]|]; cbn; try rewrite Hp; cbn; eauto.
Qed.

(** Lines 53-69, by cases. *)
Lemma choose_provider_run (uri : string) (timeout : Z) (s : Web3.state) :
  let expanded := if Web3.contains "$" uri
                  then Web3.expandvars (Web3.out E (Web3.clock s)) uri else uri in
  let k := if Web3.contains "$" uri then S (Web3.clock s) else Web3.clock s in
  let is_path := match Web3.path_exists (Web3.out E k) expanded with
                 | Some true => true
                 | _ => false
                 end in
  exists s',
    Web3.log s' = Web3.log s
    /\ match chosen_provider uri expanded is_path timeout with
       | inl p => Web3.choose_provider E uri timeout s = (Web3.Ok tt, s')
                  /\ Web3.provider (Web3.web3 s') = Some p
       | inr e => Web3.choose_provider E uri timeout s = (Web3.Err e, s')
                  /\ Web3.provider (Web3.web3 s') = None
       end.
Proof.
  cbv zeta. unfold chosen_provider, Web3.choose_provider, Web3._expand_environment_vars.
  unfold_w. cbn.
  destruct (Web3.contains "$" uri); cbn.
  - destruct (string_eqb uri (Web3.expandvars (Web3.out E (Web3.clock s)) uri)); cbn.
    + eexists. split; [|split; reflexivity]. reflexivity.
    + destruct (Web3.path_exists (Web3.out E (S (Web3.clock s)))
                  (Web3.expandvars (Web3.out E (Web3.clock s)) uri)) as [[]|]; cbn.
      * eexists. split; [|split; reflexivity]. reflexivity.
      * destruct (startswith "ws" _); cbn;
          [eexists; split; [|split; reflexivity]; reflexivity|].
        destruct (startswith "http" _); cbn;
          eexists; (split; [|split; reflexivity]); reflexivity.
      * destruct (startswith "ws" _); cbn;
          [eexists; split; [|split; reflexivity]; reflexivity|].
        destruct (startswith "http" _); cbn;
          eexists; (split; [|split; reflexivity]); reflexivity.
  - destruct (Web3.path_exists (Web3.out E (Web3.clock s)) uri) as [[]|]; cbn.
    + eexists. split; [|split; reflexivity]. reflexivity.
    + destruct (startswith "ws" _); cbn;
        [eexists; split; [|split; reflexivity]; reflexivity|].
      destruct (startswith "http" _); cbn;
        eexists; (split; [|split; reflexivity]); reflexivity.
    + destruct (startswith "ws" _); cbn;
        [eexists; split; [|split; reflexivity]; reflexivity|].
      destruct (startswith "http" _); cbn;
        eexists; (split; [|split; reflexivity]); reflexivity.
Qed.

End Connect.

(** X12.  [connect(uri, timeout)] forgets the provider first and never
    touches a cache: the cached genesis hash, chain id, trace support and
    chain URI of the previous connection, [_mainnet_w3] and the two
    module-level dicts are as before, whether it returns or raises.  When
    it raises (unknown URI scheme, or an environment variable that cannot
    be expanded) the object is left without provider, and a [disconnect()]
    made then clears nothing.  When it returns there is a provider, and a
    chain id or trace support cached before is answered again without a
    request to the new node. *)
Theorem connect_keeps_caches (E : Web3.env) (uri : string) (timeout : Z) (s : Web3.state) :
  exists r s',
    Web3.connect E uri timeout s = (r, s')
    /\ same_caches s s'
    /\ match r with
       | Web3.Ok _ =>
           Web3.provider (Web3.web3 s') <> None
           /\ (forall c, Web3._chain_id (Web3.web3 s) = Some c ->
                         Web3.chain_id E s' = (Web3.Ok c, s'))
           /\ (forall b, Web3._supports_traces (Web3.web3 s) = Some b ->
                         Web3.supports_traces E s' = (Web3.Ok b, s'))
       | Web3.Err e =>
           (e = Web3.UnknownURI \/ e = Web3.UnexpandedVariable uri)
           /\ Web3.provider (Web3.web3 s') = None
           /\ Web3.disconnect s' = (Web3.Ok tt, s')
       end.
Proof.
  pose proof (keeps_caches_connect E uri timeout s) as Hsame.
  destruct (Web3.connect E uri timeout s) as [r s'] eqn:Hrun. simpl in Hsame.
  exists r, s'. split; [reflexivity|]. split; [exact Hsame|].
  assert (Hout : match r with
                 | Web3.Ok _ => Web3.provider (Web3.web3 s') <> None
                 | Web3.Err e => (e = Web3.UnknownURI \/ e = Web3.UnexpandedVariable uri)
                                 /\ Web3.provider (Web3.web3 s') = None
                 end).
  { revert Hrun. unfold Web3.connect.
    unfold Web3.bind at 1. unfold Web3._remove_middlewares, Web3.emit, Web3.modify.
    set (s0 := Web3.set_log (Web3.log s ++ [Web3.RemoveMiddlewares]) s).
    unfold Web3.bind at 1.
    destruct (choose_provider_run E uri timeout s0) as (s1 & _ & Hch).
    destruct (chosen_provider _ _ _ _) as [p|e] eqn:Hsel.
    - destruct Hch as [-> Hp].
      destruct (connect_tail_run E s1) as (s2 & -> & Hw). intros [= <- <-].
      rewrite Hw, Hp. discriminate.
    - destruct Hch as [-> Hp]. intros [= <- <-]. split; [|exact Hp].
      revert Hsel. unfold chosen_provider.
      repeat match goal with |- context [if ?b then _ else _] => destruct b end;
        intros [= <-]; auto. }
  destruct Hsame as (_ & _ & Hst & Hid & _).
  destruct r as [[]|e].
  - split; [exact Hout|]. split.
    + intros c Hc. unfold Web3.chain_id. unfold_w.
      destruct (Web3.provider (Web3.web3 s')); [|now elim Hout]. now rewrite Hid, Hc.
    + intros b Hb. unfold Web3.supports_traces. unfold_w.
      destruct (Web3.provider (Web3.web3 s')); [|now elim Hout]. now rewrite Hst, Hb.
  - destruct Hout as [He Hp]. split; [exact He|]. split; [exact Hp|].
    apply (disconnected_reads E s' Hp).
Qed.

Section ChainUri.

Variable E : Web3.env.

Lemma plain_hex_text (hash : list byte) : Web3.plain_hex E hash = hash_text hash.
Proof. apply removeprefix_hexlify. Qed.

Lemma genesis_hash_cached (s : Web3.state) (p : Web3.provider_t) (g : string) :
  Web3.provider (Web3.web3 s) = Some p ->
  Web3._genesis_hash (Web3.web3 s) = Some g ->
  Web3.genesis_hash E s = (Web3.Ok g, s).
Proof. intros Hp Hg. unfold Web3.genesis_hash. unfold_w. now rewrite Hp, Hg. Qed.

(** The first reading of [genesis_hash] on a connection. *)
Lemma genesis_hash_run (s : Web3.state) (p : Web3.provider_t) :
  Web3.provider (Web3.web3 s) = Some p ->
  exists g s1,
    Web3.genesis_hash E s = (Web3.Ok g, s1)
    /\ Web3.provider (Web3.web3 s1) = Some p
    /\ Web3._genesis_hash (Web3.web3 s1) = Some g
    /\ Web3._chain_uri_cache s1 = Web3._chain_uri_cache s
    /\ match Web3._genesis_hash (Web3.web3 s) with
       | Some g0 => g = g0 /\ s1 = s
       | None => g = hash_text (Web3.block_hash (Web3.out E (Web3.clock s)) 0)
                 /\ Web3.log s1 = Web3.log s ++ [Web3.Request (Web3.ReqBlock 0)]
                 /\ Web3.clock s1 = S (Web3.clock s)
       end.
Proof.
  intros Hp. unfold Web3.genesis_hash. unfold_w. rewrite Hp.
  destruct (Web3._genesis_hash (Web3.web3 s)) as [g0|] eqn:Hg.
  - exists g0, s. repeat split; assumption.
  - cbn. rewrite plain_hex_text. eexists _, _. split; [reflexivity|]. cbn.
    repeat split. exact Hp.
Qed.

End ChainUri.

(** X13.  [chain_uri] on a connected object never raises.  It reads the
    genesis hash [g] (asking for block 0 only when the hash is not cached
    on the object).  When the module-level dict holds a URI for [g], for
    instance from an earlier connection to the same chain, that URI is
    returned and nothing else is asked.  Otherwise it asks for the latest
    block number [n] and for the block [max(n - 16, 0)] and stores and
    returns [blockchain://g/block/h], where [h] is the hash of that block;
    [g] and [h] are plain hexadecimal text under both versions of
    hexbytes.  A second reading returns the same URI without a
    request. *)
Theorem chain_uri_cached (E : Web3.env) (s : Web3.state) (p : Web3.provider_t) :
  Web3.provider (Web3.web3 s) = Some p ->
  exists g s1 uri s',
    Web3.genesis_hash E s = (Web3.Ok g, s1)
    /\ match Web3._genesis_hash (Web3.web3 s) with
       | Some g0 => g = g0 /\ s1 = s
       | None => g = hash_text (Web3.block_hash (Web3.out E (Web3.clock s)) 0)
                 /\ Web3.log s1 = Web3.log s ++ [Web3.Request (Web3.ReqBlock 0)]
                 /\ Web3.clock s1 = S (Web3.clock s)
       end
    /\ Web3.chain_uri E s = (Web3.Ok uri, s')
    /\ match Web3._chain_uri_cache s !! g with
       | Some cached => uri = cached /\ s' = s1
       | None =>
           let n := Web3.eth_block_number (Web3.out E (Web3.clock s1)) in
           let b := Z.max (n - 16) 0 in
           uri = ("blockchain://" +:+ g +:+ "/block/"
                  +:+ hash_text (Web3.block_hash (Web3.out E (S (Web3.clock s1))) b))%string
           /\ Web3.log s' = Web3.log s1 ++ [Web3.Request Web3.ReqBlockNumber;
                                            Web3.Request (Web3.ReqBlock b)]
           /\ Web3._chain_uri_cache s' = <[g := uri]> (Web3._chain_uri_cache s)
       end
    /\ Web3.chain_uri E s' = (Web3.Ok uri, s').
Proof.
  intros Hp.
  destruct (genesis_hash_run E s p Hp) as (g & s1 & Hgen & Hp1 & Hg1 & Hc1 & Hcase).
  pose proof (genesis_hash_cached E s1 p g Hp1 Hg1) as Hgen1.
  assert (Hagain : forall s2 uri,
            Web3.provider (Web3.web3 s2) = Some p ->
            Web3._genesis_hash (Web3.web3 s2) = Some g ->
            Web3._chain_uri_cache s2 !! g = Some uri ->
            Web3.chain_uri E s2 = (Web3.Ok uri, s2)).
  { intros s2 uri Hp2 Hg2 Hu. unfold Web3.chain_uri.
    unfold Web3.bind at 1. unfold Web3.getattr at 1, Web3.gets at 1. rewrite Hp2.
    unfold Web3.bind at 1. rewrite (genesis_hash_cached E s2 p g Hp2 Hg2).
    unfold Web3.bind at 1. unfold Web3.gets at 1. rewrite Hu.
    cbn [is_Some_b negb Web3.when]. unfold Web3.bind at 1. unfold Web3.ret at 1.
    unfold Web3.bind at 1. rewrite (genesis_hash_cached E s2 p g Hp2 Hg2).
    unfold Web3.bind, Web3.gets, Web3.ret. now rewrite Hu. }
  destruct (Web3._chain_uri_cache s !! g) as [cached|] eqn:Hu.
  - exists g, s1, cached, s1. rewrite Hu. split; [exact Hgen|]. split; [exact Hcase|].
    assert (Hrun : Web3.chain_uri E s = (Web3.Ok cached, s1)).
    { unfold Web3.chain_uri.
      unfold Web3.bind at 1. unfold Web3.getattr at 1, Web3.gets at 1. rewrite Hp.
      unfold Web3.bind at 1. rewrite Hgen.
      unfold Web3.bind at 1. unfold Web3.gets at 1. rewrite Hc1, Hu.
      cbn [is_Some_b negb Web3.when]. unfold Web3.bind at 1. unfold Web3.ret at 1.
      unfold Web3.bind at 1. rewrite Hgen1.
      unfold Web3.bind, Web3.gets, Web3.ret. now rewrite Hc1, Hu. }
    split; [exact Hrun|]. split; [now split|..].
    apply Hagain; [exact Hp1 | exact Hg1 | now rewrite Hc1].
  - set (n := Web3.eth_block_number (Web3.out E (Web3.clock s1))).
    set (b := Z.max (n - 16) 0).
    set (uri := ("blockchain://" +:+ g +:+ "/block/"
                 +:+ hash_text (Web3.block_hash (Web3.out E (S (Web3.clock s1))) b))%string).
    set (s' := Web3.set__chain_uri_cache (<[g := uri]> (Web3._chain_uri_cache s))
                 (Web3.set_clock (S (S (Web3.clock s1)))
                    (Web3.set_log (Web3.log s1 ++ [Web3.Request Web3.ReqBlockNumber;
                                                   Web3.Request (Web3.ReqBlock b)]) s1))).
    assert (Hp' : Web3.provider (Web3.web3 s') = Some p) by exact Hp1.
    assert (Hg' : Web3._genesis_hash (Web3.web3 s') = Some g) by exact Hg1.
    assert (Hu' : Web3._chain_uri_cache s' !! g = Some uri).
    { unfold s'. cbn. apply lookup_insert_eq. }
    exists g, s1, uri, s'. rewrite Hu. split; [exact Hgen|]. split; [exact Hcase|].
    assert (Hrun : Web3.chain_uri E s = (Web3.Ok uri, s')).
    { unfold Web3.chain_uri.
      unfold Web3.bind at 1. unfold Web3.getattr at 1, Web3.gets at 1. rewrite Hp.
      unfold Web3.bind at 1. rewrite Hgen.
      unfold Web3.bind at 1. unfold Web3.gets at 1. rewrite Hc1, Hu.
      cbn [is_Some_b negb Web3.when]. unfold Web3.bind at 1.
      unfold Web3.bind at 1. unfold Web3.request_ at 1. unfold Web3.bind at 1.
      unfold Web3.emit at 1, Web3.modify at 1. unfold Web3.observe at 1.
      cbn [Web3.clock Web3.set_log]. fold n. fold b.
      unfold Web3.bind at 1. unfold Web3.request_ at 1. unfold Web3.bind at 1.
      unfold Web3.emit at 1, Web3.modify at 1. unfold Web3.observe at 1.
      cbn [Web3.clock Web3.set_log Web3.set_clock Web3.log].
      match goal with
      | |- context [Web3.bind (Web3.genesis_hash E) _ ?st] =>
          assert (Hgs : Web3.genesis_hash E st = (Web3.Ok g, st))
            by (apply (genesis_hash_cached E st p g); [exact Hp1 | exact Hg1]);
          set (s2 := st) in *
      end.
      unfold Web3.bind at 1. rewrite Hgs.
      unfold Web3.bind at 1. rewrite Hgs.
      unfold Web3.modify at 1. rewrite plain_hex_text. unfold s2.
      cbn [Web3._chain_uri_cache Web3.set_clock Web3.set_log].
      rewrite Hc1. fold uri.
      replace (Web3.set__chain_uri_cache _ _) with s'
        by (unfold s'; cbn; now rewrite <- app_assoc).
      unfold Web3.bind at 1. rewrite (genesis_hash_cached E s' p g Hp' Hg').
      unfold Web3.bind, Web3.gets, Web3.ret. now rewrite Hu'. }
    split; [exact Hrun|]. split; [|now apply Hagain].
    fold n. fold b. fold uri. repeat split.
Qed.

Lemma chain_uri_cached_witness :
  exists s',
    Web3.chain_uri sample_web3_env connected_web3
    = (Web3.Ok ("blockchain://"
                +:+ "0000000000000000000000000000000000000000000000000000000000000000"
                +:+ "/block/"
                +:+ "0404040404040404040404040404040404040404040404040404040404040404")%string,
       s')
    /\ Web3.log s' = [Web3.Request (Web3.ReqBlock 0); Web3.Request Web3.ReqBlockNumber;
                      Web3.Request (Web3.ReqBlock 4)].
Proof.
  destruct (chain_uri_cached sample_web3_env connected_web3
              (Web3.HTTPProvider "http://localhost:8545" 30) eq_refl)
    as (g & s1 & uri & s' & _ & Hcase & Hrun & Hm & _).
  cbn [Web3._genesis_hash Web3.web3 connected_web3 fresh_web3 Web3.set_web3
       Web3.set_provider] in Hcase.
  destruct Hcase as (Hg & Hlog & Hclock).
  cbn [Web3._chain_uri_cache connected_web3 fresh_web3 Web3.set_web3] in Hm.
  rewrite lookup_empty in Hm. cbv zeta in Hm. rewrite Hclock in Hm.
  destruct Hm as (Huri & Hlog' & _).
  exists s'. split.
  - rewrite Hrun, Huri, Hg. reflexivity.
  - rewrite Hlog', Hlog. reflexivity.
Defined.

(** X14.  The provider [connect(uri, timeout)] ends with.  The URI is
    first passed through [_expand_environment_vars]: a URI with a [$] that
    expansion leaves unchanged makes [connect] raise, with no provider.
    Otherwise an existing path gives an IPC provider, whatever the text
    looks like (an [OSError] of the test counts as no path); else a text
    that starts with [ws] gives a websocket provider, else one that starts
    with [http] an HTTP provider, each on the expanded URI; any other text
    makes [connect] raise, with no provider and only the removal of the
    middlewares done.  With a provider chosen [connect] returns, whatever
    the test of the connection says or raises. *)
Theorem connect_provider (E : Web3.env) (uri : string) (timeout : Z) (s : Web3.state) :
  let expanded := if Web3.contains "$" uri
                  then Web3.expandvars (Web3.out E (Web3.clock s)) uri else uri in
  let k := if Web3.contains "$" uri then S (Web3.clock s) else Web3.clock s in
  let is_path := match Web3.path_exists (Web3.out E k) expanded with
                 | Some true => true
                 | _ => false
                 end in
  exists s',
    match chosen_provider uri expanded is_path timeout with
    | inl p => Web3.connect E uri timeout s = (Web3.Ok tt, s')
               /\ Web3.provider (Web3.web3 s') = Some p
    | inr e => Web3.connect E uri timeout s = (Web3.Err e, s')
               /\ Web3.provider (Web3.web3 s') = None
               /\ Web3.log s' = Web3.log s ++ [Web3.RemoveMiddlewares]
    end.
Proof.
  cbv zeta.
  set (s0 := Web3.set_log (Web3.log s ++ [Web3.RemoveMiddlewares]) s).
  assert (Hc : Web3.connect E uri timeout s
               = match Web3.choose_provider E uri timeout s0 with
                 | (Web3.Ok _, s1) =>
                     Web3.try_pass (Web3.bind (Web3.is_connected E)
                                      (fun c => Web3.when c Web3.reset_middlewares)) s1
                 | (Web3.Err e, s1) => (Web3.Err e, s1)
                 end) by reflexivity.
  rewrite Hc. clear Hc.
  destruct (choose_provider_run E uri timeout s0) as (s1 & Hlog & Hch).
  change (Web3.clock s0) with (Web3.clock s) in Hch.
  destruct (chosen_provider _ _ _ _) as [p|e].
  - destruct Hch as [-> Hp].
    destruct (connect_tail_run E s1) as (s2 & -> & Hw).
    exists s2. split; [reflexivity|]. now rewrite Hw.
  - destruct Hch as [-> Hp]. exists s1. split; [reflexivity|]. split; [exact Hp|].
    exact Hlog.
Qed.

(** ** [_resolve_address] and the ENS cache *)

Section Ens.

Variable E : Web3.env.

Lemma lower_char_idem (c : ascii) : Web3.lower_char (Web3.lower_char c) = Web3.lower_char c.
Proof. destruct c as [[] [] [] [] [] [] [] []]; reflexivity. Qed.

Lemma lower_char_dot (c : ascii) : Ascii.eqb "." (Web3.lower_char c) = Ascii.eqb "." c.
Proof. destruct c as [[] [] [] [] [] [] [] []]; reflexivity. Qed.

Lemma lower_idem (s : string) : Web3.lower (Web3.lower s) = Web3.lower s.
Proof.
  unfold Web3.lower. rewrite list_ascii_of_string_of_list_ascii, map_map.
  f_equal. apply map_ext. intros c. apply lower_char_idem.
Qed.

Lemma contains_dot_lower (s : string) :
  Web3.contains "." (Web3.lower s) = Web3.contains "." s.
Proof.
  unfold Web3.contains, Web3.lower. rewrite list_ascii_of_string_of_list_ascii.
  induction (list_ascii_of_string s) as [|c cs IH]; [reflexivity|].
  cbn [map existsb]. now rewrite lower_char_dot, IH.
Qed.

(** [_mainnet] does not touch the ENS cache. *)
Lemma _mainnet_ens_cache (s : Web3.state) :
  Web3._ens_cache (snd (Web3._mainnet E s)) = Web3._ens_cache s.
Proof.
  unfold Web3._mainnet, Web3.is_connected, Web3._expand_environment_vars. unfold_w.
  destruct (Web3.provider (Web3.web3 s)) as [p|]; cbn.
  - destruct (Web3.is_connected_to _ p) as [[]|]; cbn; [| |reflexivity].
    + destruct (string_eqb (Web3.active_network_id E) "mainnet"); cbn; [reflexivity|].
      destruct (Web3.mainnet_host E) as [host|]; cbn; [|reflexivity].
      destruct (Web3._mainnet_w3 (Web3.web3 s)); cbn; [reflexivity|].
      destruct (Web3.contains "$" host); cbn; [|reflexivity].
      now destruct (string_eqb host _).
    + destruct (Web3.mainnet_host E) as [host|]; cbn; [|reflexivity].
      destruct (Web3._mainnet_w3 (Web3.web3 s)); cbn; [reflexivity|].
      destruct (Web3.contains "$" host); cbn; [|reflexivity].
      now destruct (string_eqb host _).
  - destruct (Web3.mainnet_host E) as [host|]; cbn; [|reflexivity].
    destruct (Web3._mainnet_w3 (Web3.web3 s)); cbn; [reflexivity|].
    destruct (Web3.contains "$" host); cbn; [|reflexivity].
    now destruct (string_eqb host _).
Qed.

End Ens.

(** X15.  [_resolve_address(domain)] for a domain with a dot whose
    lower-case spelling is in the ENS cache, stored at most 86400 seconds
    ago (the boundary included): the cached answer is used.  The clock is
    read once; no ENS lookup is made, the cache and its file are not
    written, [web3] is not touched.  A cached address is returned; a cached
    [None] raises [UnsetENSName] again, so an unset name is not looked up
    again for a day. *)
Theorem resolve_address_fresh (E : Web3.env) (domain : string) (s : Web3.state)
    (cached : option string) (stored : Z) :
  Web3.contains "." domain = true ->
  Web3._ens_cache s !! Web3.lower domain = Some (cached, stored) ->
  Web3.time (Web3.out E (Web3.clock s)) - stored * Web3.hz E <= 86400 * Web3.hz E ->
  Web3._resolve_address E domain s
  = (match cached with
     | Some address => Web3.Ok address
     | None => Web3.Err (Web3.UnsetENSName (Web3.lower domain))
     end,
     Web3.set_clock (S (Web3.clock s)) s).
Proof.
  intros Hdot Hc Hfresh. unfold Web3._resolve_address. rewrite Hdot. cbn [negb].
  unfold_w. rewrite Hc. cbn.
  assert (Ht : (Web3.time (Web3.out E (Web3.clock s)) - stored * Web3.hz E
                >? 86400 * Web3.hz E) = false) by (rewrite Z.gtb_ltb; apply Z.ltb_ge; lia).
  rewrite Ht. cbn. rewrite Hc. now destruct cached.
Qed.

Lemma resolve_address_fresh_witness :
  Web3._resolve_address sample_web3_env "Brownie.ETH" ens_cached_web3
  = (Web3.Ok "0x00000000000000000000000000000000000000aa"%string,
     Web3.set_clock 1 ens_cached_web3).
Proof.
  exact (resolve_address_fresh sample_web3_env "Brownie.ETH" ens_cached_web3
           (Some "0x00000000000000000000000000000000000000aa"%string) 1699990000
           eq_refl eq_refl ltac:(vm_compute; discriminate)).
Defined.

(** X16.  [_resolve_address(domain)] for a domain with a dot that is not
    in the ENS cache, or was stored more than 86400 seconds ago: once
    [web3._mainnet] has answered, the name is looked up once, the answer
    (an address or [None]) is stored under the lower-case domain together
    with the current second, and the whole cache is written to its file;
    then the address is returned, or [UnsetENSName] raised for [None].
    The entry stored is the one a later call finds. *)
Theorem resolve_address_lookup (E : Web3.env) (domain : string) (s s0 s1 : Web3.state)
    (ref : Web3.web3_ref) :
  Web3.contains "." domain = true ->
  match Web3._ens_cache s !! Web3.lower domain with
  | None => s0 = s
  | Some (_, stored) =>
      Web3.time (Web3.out E (Web3.clock s)) - stored * Web3.hz E > 86400 * Web3.hz E
      /\ s0 = Web3.set_clock (S (Web3.clock s)) s
  end ->
  Web3._mainnet E s0 = (Web3.Ok ref, s1) ->
  let d := Web3.lower domain in
  let address := Web3.ens_address (Web3.out E (Web3.clock s1)) d in
  let now := Web3.time (Web3.out E (S (Web3.clock s1))) in
  let cache' := <[d := (address, now / Web3.hz E)]> (Web3._ens_cache s) in
  exists s',
    Web3._resolve_address E domain s
    = (match address with
       | Some a => Web3.Ok a
       | None => Web3.Err (Web3.UnsetENSName d)
       end, s')
    /\ Web3._ens_cache s' = cache'
    /\ Web3._ens_cache s' !! d = Some (address, now / Web3.hz E)
    /\ Web3.log s' = Web3.log s1 ++ [Web3.Request (Web3.ReqEns d); Web3.WriteEnsFile cache']
    /\ Web3.clock s' = S (S (Web3.clock s1))
    /\ Web3.web3 s' = Web3.web3 s1.
Proof.
  intros Hdot Hstale Hmain. cbv zeta.
  assert (Hsame : Web3._ens_cache s1 = Web3._ens_cache s).
  { pose proof (_mainnet_ens_cache E s0) as H. rewrite Hmain in H. simpl in H. rewrite H.
    destruct (Web3._ens_cache s !! Web3.lower domain) as [[a stored]|];
      [now destruct Hstale as [_ ->] | now subst s0]. }
  unfold Web3._resolve_address. rewrite Hdot. cbn [negb].
  unfold Web3.bind at 1. unfold Web3.gets at 1.
  assert (Hfirst : (match Web3._ens_cache s !! Web3.lower domain with
                    | Some (_, stored) =>
                        Web3.bind (Web3.observe E Web3.time)
                          (fun now => Web3.ret (now - stored * Web3.hz E >? 86400 * Web3.hz E))
                    | None => Web3.ret true
                    end) s = (Web3.Ok true, s0)).
  { destruct (Web3._ens_cache s !! Web3.lower domain) as [[a stored]|].
    - destruct Hstale as [Ht ->]. unfold_w.
      assert (Hgt : (Web3.time (Web3.out E (Web3.clock s)) - stored * Web3.hz E
                     >? 86400 * Web3.hz E) = true)
        by (rewrite Z.gtb_ltb; apply Z.ltb_lt; lia).
      now rewrite Hgt.
    - now subst s0. }
  unfold Web3.bind at 1. rewrite Hfirst. cbn [Web3.when].
  unfold Web3.bind at 1. unfold Web3.bind at 1. rewrite Hmain.
  unfold_w. cbn. rewrite Hsame, lookup_insert_eq, <- app_assoc.
  destruct (Web3.ens_address (Web3.out E (Web3.clock s1)) (Web3.lower domain)) as [a|];
    (eexists; split; [reflexivity|]; cbn; rewrite lookup_insert_eq; repeat split).
Qed.

Lemma resolve_address_lookup_witness :
  exists s',
    Web3._resolve_address sample_web3_env "Brownie.ETH" fresh_web3
    = (Web3.Ok "0x00000000000000000000000000000000000000aa"%string, s')
    /\ Web3._ens_cache s' !! "brownie.eth"%string
       = Some (Some "0x00000000000000000000000000000000000000aa"%string, 1700000000).
Proof.
  destruct (resolve_address_lookup sample_web3_env "Brownie.ETH" fresh_web3 fresh_web3
              (snd (Web3._mainnet sample_web3_env fresh_web3))
              (Web3.MainnetW3 "https://mainnet.example") eq_refl eq_refl eq_refl)
    as (s' & Hrun & _ & Hc & _).
  exists s'. split; [exact Hrun | exact Hc].
Defined.

(** X17.  The ENS cache is keyed by the lower-case spelling, and nothing
    else of the argument is used: for a domain with a dot,
    [_resolve_address] does on the domain exactly what it does on its
    lower-case spelling, in every state.  A text without a dot never
    reaches the cache: it is handed to [to_address] and the state is left
    as it was. *)
Theorem resolve_address_lower (E : Web3.env) (domain : string) (s : Web3.state) :
  (Web3.contains "." domain = true ->
   Web3._resolve_address E domain s = Web3._resolve_address E (Web3.lower domain) s)
  /\ (Web3.contains "." domain = false ->
      Web3._resolve_address E domain s
      = (match Web3.to_address E domain with
         | Some a => Web3.Ok a
         | None => Web3.Err Web3.InvalidAddress
         end, s)).
Proof.
  split; intros Hdot; unfold Web3._resolve_address.
  - rewrite contains_dot_lower, Hdot, lower_idem. reflexivity.
  - rewrite Hdot. cbn [negb]. now destruct (Web3.to_address E domain).
Qed.

(** ** The frames of a traceback *)

Lemma first_index_spec (p : step -> bool) (trace : list step) (k idx : nat) :
  first_index p trace k = Some idx ->
  exists i st, idx = (k + i)%nat /\ trace !! i = Some st /\ p st = true.
Proof.
  revert k. induction trace as [|a r IH]; intros k H; simpl in H; [discriminate|].
  destruct (p a) eqn:Hp.
  - injection H as <-. exists 0%nat, a. repeat split; [lia|assumption].
  - destruct (IH _ H) as (i & st & -> & Hl & Hs).
    exists (S i), st. repeat split; [lia|assumption|assumption].
Qed.

(** Where [p] answers on every step, the scan from [idx] down finds the
    nearest step on which it holds. *)
Lemma scan_down_spec (p : step -> res bool) (trace : list step) (idx : nat) :
  (idx < length trace)%nat ->
  (forall j st, trace !! j = Some st -> exists b, p st = Val b) ->
  exists r, scan_down p trace idx = Val r /\
    match r with
    | Some i =>
        (i <= idx)%nat /\ (exists st, trace !! i = Some st /\ p st = Val true) /\
        (forall j st, (i < j <= idx)%nat -> trace !! j = Some st -> p st = Val false)
    | None => forall j st, (j <= idx)%nat -> trace !! j = Some st -> p st = Val false
    end.
Proof.
  intros Hlen Htot. induction idx as [|n IH].
  - destruct (lookup_lt_is_Some_2 trace 0%nat Hlen) as [st Hst].
    destruct (Htot _ _ Hst) as [b Hb].
    cbn [scan_down]. rewrite (py_nth_lookup _ _ _ Hst). cbn. rewrite Hb. cbn.
    destruct b.
    + eexists; split; [reflexivity|]. split; [lia|]. split; [eauto|].
      intros j st' Hj; lia.
    + eexists; split; [reflexivity|].
      intros j st' Hj Hl. assert (j = 0%nat) as -> by lia. congruence.
  - destruct (lookup_lt_is_Some_2 trace (S n) Hlen) as [st Hst].
    destruct (Htot _ _ Hst) as [b Hb].
    cbn [scan_down]. rewrite (py_nth_lookup _ _ _ Hst). cbn. rewrite Hb. cbn.
    destruct b.
    + eexists; split; [reflexivity|]. split; [lia|]. split; [eauto|].
      intros j st' Hj; lia.
    + destruct IH as (r & Hr & Hspec); [lia|].
      exists r. split; [exact Hr|].
      destruct r as [i|].
      * destruct Hspec as (Hi & Hex & Hab). split; [lia|]. split; [exact Hex|].
        intros j st' Hj Hl. destruct (decide (j = S n)) as [->|Hne].
        -- congruence.
        -- apply (Hab j); [lia|assumption].
      * intros j st' Hj Hl. destruct (decide (j = S n)) as [->|Hne].
        -- congruence.
        -- apply (Hspec j); [lia|assumption].
Qed.

Lemma has_source_total (st : step) :
  s_ann st <> None -> exists b, has_source st = Val b.
Proof. unfold has_source. destruct (s_ann st); [eauto|congruence]. Qed.

(** On a visited step the test of the loop decides [key_lt]. *)
Lemma outer_frame_key (d j : Z) (st : step) :
  s_ann st <> None ->
  exists b, outer_frame d j st = Val b /\ (b = true <-> key_lt (frame_key st) (d, j)).
Proof.
  intros Ha. unfold outer_frame, step_jumpDepth, frame_key, key_lt.
  destruct (s_ann st) as [a|]; [|congruence]. cbn.
  destruct (s_depth st <? d) eqn:H1.
  - exists true. split; [reflexivity|]. apply Z.ltb_lt in H1. tauto.
  - apply Z.ltb_ge in H1. destruct (s_depth st =? d) eqn:H2.
    + apply Z.eqb_eq in H2. cbn. exists (jumpDepth a <? j). split; [reflexivity|].
      rewrite Z.ltb_lt. lia.
    + apply Z.eqb_neq in H2. exists false. split; [reflexivity|].
      split; [discriminate|lia].
Qed.

Lemma key_lt_trans (a b c : Z * Z) : key_lt a b -> key_lt b c -> key_lt a c.
Proof. unfold key_lt. lia. Qed.

Lemma key_lt_irrefl (a : Z * Z) : ~ key_lt a a.
Proof. unfold key_lt. lia. Qed.

(** The loop, entered at the frame [prev] with every step after it known
    not to be an outer frame of it, ends with fuel above [prev] and adds
    the frames [outer_frames] describes. *)
Lemma traceback_loop_spec (trace : list step) (idx : nat) :
  (idx < length trace)%nat ->
  Forall (fun st => s_ann st <> None) trace ->
  forall (fuel prev : nat) (st : step) (result : list nat),
    (prev < fuel)%nat -> (prev <= idx)%nat ->
    trace !! prev = Some st ->
    none_outer trace (S prev) idx (frame_key st) ->
    exists rest,
      traceback_loop fuel trace idx (fst (frame_key st)) (snd (frame_key st)) result
        = Val (result ++ rest) /\
      outer_frames trace idx prev (frame_key st) rest.
Proof.
  intros Hlen Hann. rewrite List.Forall_forall in Hann.
  assert (Hvis : forall j st, trace !! j = Some st -> s_ann st <> None).
  { intros j st Hl. apply Hann. apply list_elem_of_In. eapply list_elem_of_lookup_2; eassumption. }
  induction fuel as [|fuel IH]; intros prev st result Hfuel Hprev Hst Hnone; [lia|].
  cbn [traceback_loop].
  destruct (scan_down_spec (outer_frame (fst (frame_key st)) (snd (frame_key st))) trace idx Hlen)
    as (r & Hr & Hspec).
  { intros j st' Hl. destruct (outer_frame_key (fst (frame_key st)) (snd (frame_key st)) st'
      (Hvis _ _ Hl)) as (b & Hb & _). eauto. }
  rewrite Hr. cbn.
  assert (Hdec : forall st' b, s_ann st' <> None ->
            outer_frame (fst (frame_key st)) (snd (frame_key st)) st' = Val b ->
            (b = true <-> key_lt (frame_key st') (frame_key st))).
  { intros st' b Ha Hb. destruct (outer_frame_key (fst (frame_key st)) (snd (frame_key st)) st' Ha)
      as (b' & Hb' & Hiff). rewrite Hb in Hb'. injection Hb' as <-.
      destruct (frame_key st); exact Hiff. }
  destruct r as [i|].
  - destruct Hspec as (Hi & (sti & Hsti & Hp) & Hab).
    assert (Hlt : key_lt (frame_key sti) (frame_key st)).
    { apply (Hdec sti true); [eapply Hvis; eassumption|assumption|reflexivity]. }
    assert (Hip : (i < prev)%nat).
    { destruct (decide (i < prev)%nat) as [|Hge]; [assumption|exfalso].
      destruct (decide (i = prev)) as [->|Hne].
      - assert (sti = st) as -> by congruence. exact (key_lt_irrefl _ Hlt).
      - apply (Hnone i sti); [lia|assumption|assumption]. }
    rewrite (py_nth_lookup _ _ _ Hsti). cbn.
    assert (Hj : step_jumpDepth sti = Val (snd (frame_key sti))).
    { unfold step_jumpDepth, frame_key. pose proof (Hvis _ _ Hsti) as Ha.
      destruct (s_ann sti); [reflexivity|congruence]. }
    rewrite Hj. cbn.
    assert (Hnone' : none_outer trace (S i) idx (frame_key st)).
    { intros j st' Hjr Hl Hk.
      assert (Hf : outer_frame (fst (frame_key st)) (snd (frame_key st)) st' = Val false)
        by (apply (Hab j); [lia|assumption]).
      apply (Hdec st' false (Hvis _ _ Hl) Hf) in Hk. discriminate. }
    destruct (IH i sti (result ++ [i])) as (rest & Hrun & Hrest); [lia|lia|assumption| |].
    { intros j st' Hjr Hl Hk. apply (Hnone' j st' Hjr Hl).
      eapply key_lt_trans; eassumption. }
    exists (i :: rest). split.
    + change (traceback_loop fuel trace idx (fst (frame_key sti)) (snd (frame_key sti))
                (result ++ [i]) = Val (result ++ i :: rest)).
      rewrite Hrun, <- app_assoc. reflexivity.
    + cbn [outer_frames]. split; [assumption|]. exists sti. auto.
  - exists []. split; [rewrite app_nil_r; reflexivity|].
    cbn [outer_frames]. intros j st' Hjr Hl Hk.
    assert (Hf : outer_frame (fst (frame_key st)) (snd (frame_key st)) st' = Val false)
      by (apply (Hspec j); [lia|assumption]).
    apply (Hdec st' false (Hvis _ _ Hl) Hf) in Hk. discriminate.
Qed.

(** [outer_frames] describes one list only. *)
Lemma outer_frames_unique (trace : list step) (idx : nat) (l : list nat) :
  forall (l' : list nat) (prev : nat) (k : Z * Z),
    (prev <= idx)%nat ->
    outer_frames trace idx prev k l' -> outer_frames trace idx prev k l -> l' = l.
Proof.
  induction l as [|a rest IH]; intros [|a' rest'] prev k Hp H2 H1.
  - reflexivity.
  - exfalso. cbn in H1, H2. destruct H2 as (Hlt & st & Hl & Hk & _).
    apply (H1 a' st); [lia|assumption|assumption].
  - exfalso. cbn in H1, H2. destruct H1 as (Hlt & st & Hl & Hk & _).
    apply (H2 a st); [lia|assumption|assumption].
  - cbn in H1, H2.
    destruct H1 as (Hlt1 & st1 & Hl1 & Hk1 & Hn1 & Hr1).
    destruct H2 as (Hlt2 & st2 & Hl2 & Hk2 & Hn2 & Hr2).
    assert (a' = a) as ->.
    { destruct (Nat.lt_trichotomy a a') as [Hc|[Hc|Hc]]; [exfalso|congruence|exfalso].
      - apply (Hn1 a' st2); [lia|assumption|assumption].
      - apply (Hn2 a st1); [lia|assumption|assumption]. }
    assert (st2 = st1) as -> by congruence.
    f_equal. apply (IH rest' a (frame_key st1)); [lia|assumption|assumption].
Qed.

(** X18.  [_traceback_string], on a trace whose steps [_expand_trace] has
    all visited and whose first REVERT or INVALID step is at [idx]: the
    loop ends without an exception once the fuel exceeds the length of the
    trace, whatever the fuel.  It lists nothing when no step up to [idx]
    has a source.  Otherwise its first frame is the nearest step with a
    source at or before [idx], and each later frame is the nearest step,
    counted back from [idx], that is less deep than the one before or as
    deep with a smaller jump depth; these later frames lie at strictly
    decreasing indices below [idx], and the list ends only when no such
    step is left. *)
Theorem traceback_frames_nearest_outer (trace : list step) (idx : nat) :
  Forall (fun st => s_ann st <> None) trace ->
  first_index is_revert trace 0 = Some idx ->
  exists st0, trace !! idx = Some st0 /\ is_revert st0 = true /\
  exists r,
    (forall fuel, (length trace < fuel)%nat -> traceback_frames fuel trace = Val r) /\
    match r with
    | None =>
        forall j st, (j <= idx)%nat -> trace !! j = Some st -> has_source st = Val false
    | Some result =>
        exists i0 rest, result = i0 :: rest /\ (i0 <= idx)%nat /\
          (exists st, trace !! i0 = Some st /\ has_source st = Val true) /\
          (forall j st, (i0 < j <= idx)%nat -> trace !! j = Some st ->
                        has_source st = Val false) /\
          outer_frames trace idx idx (frame_key st0) rest
    end.
Proof.
  intros Hann Hfirst.
  destruct (first_index_spec _ _ _ _ Hfirst) as (i & st0 & Hi & Hst0 & Hrev).
  cbn in Hi. subst i. exists st0. split; [assumption|]. split; [assumption|].
  pose proof (lookup_lt_Some _ _ _ Hst0) as Hlen.
  assert (Hvis : forall j st, trace !! j = Some st -> s_ann st <> None).
  { intros j st Hl. rewrite List.Forall_forall in Hann. apply Hann.
    apply list_elem_of_In. eapply list_elem_of_lookup_2; eassumption. }
  destruct (scan_down_spec has_source trace idx Hlen) as (r & Hr & Hspec).
  { intros j st Hl. apply has_source_total. eapply Hvis; eassumption. }
  unfold traceback_frames. rewrite Hfirst, Hr. cbn.
  destruct r as [i0|].
  - destruct Hspec as (Hi0 & Hex & Hab).
    assert (Hj : step_jumpDepth st0 = Val (snd (frame_key st0))).
    { unfold step_jumpDepth, frame_key. pose proof (Hvis _ _ Hst0) as Ha.
      destruct (s_ann st0); [reflexivity|congruence]. }
    destruct (traceback_loop_spec trace idx Hlen Hann (S (length trace)) idx st0 [i0])
      as (rest & _ & Hrest); [lia|lia|assumption| |].
    { intros j st Hjr; lia. }
    exists (Some (i0 :: rest)). split.
    + intros fuel Hfuel. rewrite (py_nth_lookup _ _ _ Hst0). cbn. rewrite Hj. cbn.
      destruct (traceback_loop_spec trace idx Hlen Hann fuel idx st0 [i0])
        as (rest' & Hrun' & Hrest'); [lia|lia|assumption| |].
      { intros j st Hjr; lia. }
      assert (rest' = rest) as ->.
      2: { change (match traceback_loop fuel trace idx (fst (frame_key st0))
                           (snd (frame_key st0)) [i0] with
                   | Val result => Val (Some result)
                   | Exn e => Exn e
                   end = Val (Some (i0 :: rest))).
           rewrite Hrun'. reflexivity. }
      eapply outer_frames_unique; [|eassumption|eassumption]. lia.
    + exists i0, rest. auto.
  - exists None. split; [reflexivity|exact Hspec].
Qed.

Lemma traceback_frames_nearest_outer_witness :
  exists st0, reverting_trace !! 5%nat = Some st0 /\ is_revert st0 = true /\
  exists r,
    (forall fuel, (length reverting_trace < fuel)%nat ->
                  traceback_frames fuel reverting_trace = Val r) /\
    match r with
    | None =>
        forall j st, (j <= 5)%nat -> reverting_trace !! j = Some st -> has_source st = Val false
    | Some result =>
        exists i0 rest, result = i0 :: rest /\ (i0 <= 5)%nat /\
          (exists st, reverting_trace !! i0 = Some st /\ has_source st = Val true) /\
          (forall j st, (i0 < j <= 5)%nat -> reverting_trace !! j = Some st ->
                        has_source st = Val false) /\
          outer_frames reverting_trace 5 5 (frame_key st0) rest
    end.
Proof.
  apply (traceback_frames_nearest_outer reverting_trace 5).
  - repeat constructor; discriminate.
  - reflexivity.
Defined.

(** ** A trace is read from the node once *)

Section KeepExc.

Variable self : nat.

Lemma rke_ret {A} (a : A) : returns_keep_exc self (ret a).
Proof. intros w a' w' H. injection H as _ <-. reflexivity. Qed.

Lemma rke_raise {A} (e : exn) : returns_keep_exc self (@raise world A e).
Proof. intros w a' w' H. discriminate. Qed.

Lemma rke_lift {A} (r : res A) : returns_keep_exc self (@lift world A r).
Proof. intros w a' w' H. injection H as _ <-. reflexivity. Qed.

Lemma rke_gets {A} (f : world -> A) : returns_keep_exc self (gets f).
Proof. intros w a' w' H. injection H as _ <-. reflexivity. Qed.

Lemma rke_getattr {A} (tx : nat) (f : TransactionReceipt -> A) :
  returns_keep_exc self (getattr tx f).
Proof. apply rke_gets. Qed.

Lemma rke_bind {A B} (m : M world A) (k : A -> M world B) :
  returns_keep_exc self m -> (forall a, returns_keep_exc self (k a)) ->
  returns_keep_exc self (bind m k).
Proof.
  intros Hm Hk w b w' H. unfold bind in H.
  destruct (m w) as [[a|e] w1] eqn:Hrun; [|discriminate].
  rewrite (Hk a _ _ _ H). eapply Hm; eassumption.
Qed.

Lemma rke_when (b : bool) (m : M world unit) :
  returns_keep_exc self m -> returns_keep_exc self (when b m).
Proof. intros Hm. destruct b; [exact Hm | apply rke_ret]. Qed.

(** A handler that always raises adds no way to return. *)
Lemma rke_try_except {A} (m : M world A) (handles : exn -> bool) (h : exn -> M world A) :
  returns_keep_exc self m ->
  (forall e w a w', h e w <> (Val a, w')) ->
  returns_keep_exc self (try_except m handles h).
Proof.
  intros Hm Hh w a w' H. unfold try_except in H.
  destruct (m w) as [[a1|e] w1] eqn:Hrun.
  - injection H as <- <-. eapply Hm; eassumption.
  - destruct (handles e); [|discriminate]. exfalso. eapply Hh; eassumption.
Qed.

Lemma rke_setattr (tx : nat) (f : TransactionReceipt -> TransactionReceipt) :
  (forall r, _trace_exc (lazy (f r)) = _trace_exc (lazy r)) ->
  returns_keep_exc self (setattr tx f).
Proof.
  intros Hf w a w' H. unfold setattr, modify in H. injection H as _ <-.
  unfold exc_of. cbn. destruct (self =? tx)%nat; [apply Hf|reflexivity].
Qed.

(** What leaves the records alone leaves the recorded exception alone. *)
Lemma rke_heap {A} (m : M world A) :
  (forall w, heap (snd (m w)) = heap w) -> returns_keep_exc self m.
Proof.
  intros Hm w a w' H. unfold exc_of. specialize (Hm w). rewrite H in Hm. cbn in Hm.
  now rewrite Hm.
Qed.

Lemma rke_observe {A} (E : env) (f : node_view -> A) : returns_keep_exc self (observe E f).
Proof. apply rke_heap. reflexivity. Qed.

Lemma rke_rpc {A} (E : env) (r : request) (f : node_view -> A) :
  returns_keep_exc self (rpc E r f).
Proof. apply rke_heap. reflexivity. Qed.

Lemma rke_supports_traces (E : env) : returns_keep_exc self (supports_traces E).
Proof. apply rke_heap. intros w. apply supports_traces_frame. Qed.

End KeepExc.

Create HintDb exc.
#[export] Hint Resolve rke_ret rke_raise rke_lift rke_gets rke_getattr rke_observe rke_rpc
  rke_supports_traces : exc.
#[export] Hint Extern 1 (returns_keep_exc _ (setattr _ _)) =>
  apply rke_setattr; intros; reflexivity : exc.

Ltac exc_tac :=
  repeat first
    [ progress auto with exc
    | apply rke_bind; [|intros]
    | apply rke_when
    | match goal with
      | |- returns_keep_exc _ (if ?b then _ else _) => destruct b
      | |- returns_keep_exc _ (match ?x with _ => _ end) => destruct x
      | |- returns_keep_exc _ (let '(_, _) := ?x in _) => destruct x
      end ].

Section Cache.

Variable E : env.
Variable self : nat.

(** [_reverted_trace] does not record an exception. *)
Hypothesis reverted_keeps_exc :
  forall r tr, _trace_exc (snd (_reverted_trace E r tr)) = _trace_exc (lazy r).

Lemma rke__confirmed_trace (trace : list raw_step) :
  returns_keep_exc self (_confirmed_trace E self trace).
Proof. unfold _confirmed_trace. exc_tac. Qed.

Lemma rke_reverted (trace : list raw_step) :
  returns_keep_exc self
    (let* r := getattr self (fun r => r) in
     let '(outcome, lz) := _reverted_trace E r trace in
     setattr self (set_lazy lz) ;;
     lift outcome).
Proof.
  intros w a w' H. unfold bind, getattr, gets, setattr, modify, lift in H. cbn in H.
  pose proof (reverted_keeps_exc (heap w self) trace) as Hk.
  destruct (_reverted_trace E (heap w self) trace) as [outcome lz]. cbn in H, Hk.
  injection H as _ <-. unfold exc_of. cbn. rewrite Nat.eqb_refl. exact Hk.
Qed.

(** The branch that records the exception of the node raises it. *)
Lemma rke_record_exc {A} (g : lazy_fields -> lazy_fields) (e : exn) :
  returns_keep_exc self
    (setattr self (with_lazy g) ;;
     setattr self (with_lazy (set__trace_exc (Some e))) ;;
     @raise world A e).
Proof. intros w a w' H. discriminate. Qed.

Lemma rke__get_trace : returns_keep_exc self (_get_trace E self).
Proof.
  unfold _get_trace. pose proof rke__confirmed_trace.
  repeat first
    [ apply rke_reverted
    | apply rke_record_exc
    | progress auto with exc
    | apply rke_bind; [|intros]
    | apply rke_when
    | match goal with
      | |- returns_keep_exc _ (if ?b then _ else _) => destruct b
      | |- returns_keep_exc _ (match ?x with _ => _ end) => destruct x
      | |- returns_keep_exc _ (let '(_, _) := ?x in _) => destruct x
      end ].
Qed.

Lemma rke__expand_trace : returns_keep_exc self (_expand_trace E self).
Proof.
  unfold _expand_trace. pose proof rke__get_trace.
  exc_tac.
Qed.

Lemma rke_trace_body : returns_keep_exc self (trace_body E self).
Proof. unfold trace_body. pose proof rke__expand_trace. exc_tac. Qed.

End Cache.

(** The handler of [trace_property] raises in every case. *)
Lemma handler_raises {A} (m : M world bool) (e1 e2 : exn) (w w' : world) (a : A) :
  (let* ok := m in if ok then raise e1 else raise e2) w <> (Val a, w').
Proof.
  unfold bind, raise. destruct (m w) as [[[|]|e] w1]; discriminate.
Qed.

(** A decorated attribute returns a value only by running its body, on a
    mined transaction with no recorded exception. *)
Lemma trace_property_returns {A} (E : env) (fn : nat -> M world A) (self : nat)
    (w w' : world) (v : A) :
  trace_property E fn self w = (Val (Some v), w') ->
  (Status_value (status (heap w self)) <? 0) = false /\ exc_of self w = None
  /\ fn self w = (Val v, w').
Proof.
  unfold trace_property, exc_of.
  unfold bind at 1. unfold getattr at 1. unfold gets at 1.
  destruct (Status_value (status (heap w self)) <? 0); [discriminate|].
  unfold bind at 1. unfold getattr at 1. unfold gets at 1.
  destruct (_trace_exc (lazy (heap w self))) as [e|]; [discriminate|].
  unfold try_except. unfold bind at 1. destruct (fn self w) as [[a|e] w1].
  - intros H. injection H as <- <-. auto.
  - destruct (is_RPCRequestError e); [|discriminate].
    intros H. exfalso. exact (handler_raises _ _ _ _ _ _ H).
Qed.

Lemma trace_property_runs {A} (E : env) (fn : nat -> M world A) (self : nat)
    (w w' : world) (v : A) :
  (Status_value (status (heap w self)) <? 0) = false -> exc_of self w = None ->
  fn self w = (Val v, w') ->
  trace_property E fn self w = (Val (Some v), w').
Proof.
  unfold exc_of. intros Hst Hexc Hfn. unfold trace_property.
  unfold bind at 1. unfold getattr at 1. unfold gets at 1. rewrite Hst.
  unfold bind at 1. unfold getattr at 1. unfold gets at 1. rewrite Hexc.
  unfold try_except. unfold bind at 1. rewrite Hfn. reflexivity.
Qed.

Lemma trace_body_stored (E : env) (self : nat) (w : world) (t : list step) :
  _trace (lazy (heap w self)) = Some t -> trace_body E self w = (Val (Some t), w).
Proof.
  intros Ht. unfold trace_body.
  unfold bind at 1. unfold getattr at 1. unfold gets at 1. rewrite Ht.
  cbn [is_Some_b negb when]. unfold bind, ret, getattr, gets. rewrite Ht. reflexivity.
Qed.

Lemma quiet_step_status (w w' : world) (j : nat) :
  quiet_step w w' -> status (heap w' j) = status (heap w j).
Proof. intros (Hh & _). destruct (Hh j) as (lz & ->). reflexivity. Qed.

(** X19.  Once [trace] has returned a list, reading it again returns the
    same list and changes nothing: no request is made, no attribute is
    written and the clock is not read.  [_reverted_trace], which is kept
    abstract, is taken not to record an exception, as in the source. *)
Theorem trace_read_once (E : env) (self : nat) (w : world) (t : list step) :
  (forall r tr, _trace_exc (snd (_reverted_trace E r tr)) = _trace_exc (lazy r)) ->
  fst (trace E self w) = Val (Some (Some t)) ->
  trace E self (snd (trace E self w)) = (Val (Some (Some t)), snd (trace E self w)).
Proof.
  intros HE Hrun.
  pose proof (quiet_trace E self w) as Hq.
  destruct (trace E self w) as [r w'] eqn:Htr. cbn in Hrun, Hq |- *. subst r.
  destruct (trace_property_returns _ _ _ _ _ _ Htr) as (Hst & Hexc & Hbody).
  pose proof (rke_trace_body E self HE _ _ _ Hbody) as Hexc'.
  rewrite Hexc in Hexc'.
  pose proof (quiet_step_status _ _ self Hq) as Hst'.
  assert (Htrace : _trace (lazy (heap w' self)) = Some t).
  { unfold trace_body, bind, getattr, gets in Hbody. cbn in Hbody.
    destruct (when _ (_expand_trace E self) w) as [[[]|e] w2]; [|discriminate].
    injection Hbody as Hv <-. exact Hv. }
  apply trace_property_runs; [rewrite Hst'; exact Hst|exact Hexc'|].
  apply trace_body_stored. exact Htrace.
Qed.

Lemma trace_read_once_witness :
  exists t,
    let w' := snd (trace (sample_env (fun _ => tracing_view trace_calling_02)) 0 confirmed_world) in
    trace (sample_env (fun _ => tracing_view trace_calling_02)) 0 w' = (Val (Some (Some t)), w').
Proof.
  eexists. cbv zeta.
  apply (trace_read_once (sample_env (fun _ => tracing_view trace_calling_02)) 0 confirmed_world).
  - intros r tr. reflexivity.
  - vm_compute. reflexivity.
Defined.

(** ** The origin of a trace: what [_expand_trace] shifts before the walk *)

Lemma expand_loop_bare (R : registry) (x : xstate) :
  map bare (x_trace (snd (expand_loop R x))) = map bare (x_trace x).
Proof.
  unfold expand_loop. apply annotates_only_bind; [now intros y|]. intros tr.
  apply annotates_only_for_in, annotates_only_expand_step.
Qed.

Lemma map_bare_field {A} (f : step -> A) (l l' : list step) :
  (forall st, f (bare st) = f st) -> map bare l' = map bare l -> map f l' = map f l.
Proof.
  intros Hf H.
  rewrite <- (map_ext (fun st => f (bare st)) f Hf l'), <- (map_ext (fun st => f (bare st)) f Hf l).
  rewrite <- !(map_map bare f). now rewrite H.
Qed.

Lemma shift_gas_costs_bare_depth (l : list step) :
  map s_depth (shift_gas_costs l) = map s_depth l.
Proof.
  induction l as [|a [|b r] IH]; [reflexivity|reflexivity|].
  change (shift_gas_costs (a :: b :: r)) with (set_s_gasCost (s_gasCost b) a :: shift_gas_costs (b :: r)).
  cbn [map]. rewrite IH. reflexivity.
Qed.

(** Every cost moves one step to the front; the last step gets 0. *)
Lemma shift_gas_costs_costs (a : step) (l : list step) :
  map s_gasCost (shift_gas_costs (a :: l)) = map s_gasCost l ++ [0].
Proof.
  revert a. induction l as [|b r IH]; intros a; [reflexivity|].
  change (shift_gas_costs (a :: b :: r)) with (set_s_gasCost (s_gasCost b) a :: shift_gas_costs (b :: r)).
  cbn [map]. rewrite IH. reflexivity.
Qed.

Section Origin.

Variable E : env.
Variable self : nat.

(** The end of [_expand_trace], from the assignment of the shifted list:
    the walk, whether it starts or not and however it ends, leaves a list
    that differs from the shifted one in annotations only, and leaves the
    call cost and the origin alone. *)
Lemma expand_tail (tr2 : list step) (w : world) :
  let w' := snd ((setattr self (with_lazy (set__trace (Some tr2))) ;;
                  let* recv := getattr self receiver in
                  let* inp := getattr self input in
                  let* ctx := lift (match recv with
                                    | Some r => _get_last_map (reg E) r (String.substring 0 10 inp)
                                    | None => Exn TypeError
                                    end) in
                  let '(outcome, x) := expand_loop (reg E) (initial_walk tr2 ctx) in
                  setattr self (with_lazy (store_expansion x)) ;;
                  lift outcome) w) in
  (exists t', _trace (lazy (heap w' self)) = Some t' /\ map bare t' = map bare tr2)
  /\ _call_cost (lazy (heap w' self)) = _call_cost (lazy (heap w self))
  /\ _trace_origin (lazy (heap w' self)) = _trace_origin (lazy (heap w self)).
Proof.
  cbv zeta. unfold_monad. cbn -[Nat.eqb expand_loop _get_last_map]. rewrite !Nat.eqb_refl.
  cbn -[Nat.eqb expand_loop _get_last_map].
  destruct (receiver (heap w self)) as [r|].
  2: { cbn. rewrite Nat.eqb_refl. cbn. split; [eexists; split; reflexivity|]. split; reflexivity. }
  destruct (_get_last_map (reg E) r _) as [ctx|e].
  2: { cbn. rewrite Nat.eqb_refl. cbn. split; [eexists; split; reflexivity|]. split; reflexivity. }
  pose proof (expand_loop_bare (reg E) (initial_walk tr2 ctx)) as Hb.
  destruct (expand_loop (reg E) (initial_walk tr2 ctx)) as [outcome x].
  cbn -[Nat.eqb] in Hb |- *. rewrite !Nat.eqb_refl.
  destruct outcome; cbn -[Nat.eqb]; rewrite ?Nat.eqb_refl; cbn;
    (split; [eexists; split; [reflexivity|exact Hb]|]; split; reflexivity).
Qed.

End Origin.

Lemma py_nth_final {A} (a : A) (l : list A) : py_nth (a :: l) (-1) = Val (List.last (a :: l) a).
Proof.
  destruct (exists_last (l := a :: l)) as (pre & z & Heq); [discriminate|].
  rewrite Heq, py_nth_last, List.last_last. reflexivity.
Qed.


(** X20.  What [_expand_trace] does before the walk, on a fetched trace
    of a call (not a deployment) with first step [first], and what is left
    of it in the record whether the walk then returns or raises.  If the
    first depth is 1 the origin is geth, every depth is lowered by one and
    the call cost is [gas_used - first gas + last gas].  Otherwise the
    origin is ganache; if the first step costs 21000 or more, that cost is
    the call cost, every step takes the cost of its successor and the last
    one 0; if it costs less, costs are kept and the call cost is computed
    as for geth.  The walk changes neither depths nor costs. *)
Theorem expand_trace_origin (E : env) (self : nat) (w : world) (raw : list raw_step)
    (first : step) (rest : list step) :
  _raw_trace (lazy (heap w self)) = Some raw ->
  _trace (lazy (heap w self)) = None ->
  map_res typed_step raw = Val (first :: rest) ->
  str_true (contract_address (heap w self)) = false ->
  let trace := first :: rest in
  let final := List.last trace first in
  let lz := lazy (heap (snd (_expand_trace E self w)) self) in
  exists t', _trace lz = Some t' /\
    (s_depth first = 1 -> forall g, gas_used (heap w self) = Some g ->
       _trace_origin lz = Some "geth"%string /\ _call_cost lz = g - s_gas first + s_gas final
       /\ map s_depth t' = map (fun st => s_depth st - 1) trace
       /\ map s_gasCost t' = map s_gasCost trace) /\
    (s_depth first <> 1 -> 21000 <= s_gasCost first ->
       _trace_origin lz = Some "ganache"%string /\ _call_cost lz = s_gasCost first
       /\ map s_depth t' = map s_depth trace
       /\ map s_gasCost t' = map s_gasCost rest ++ [0]) /\
    (s_depth first <> 1 -> s_gasCost first < 21000 ->
     forall g, gas_used (heap w self) = Some g ->
       _trace_origin lz = Some "ganache"%string /\ _call_cost lz = g - s_gas first + s_gas final
       /\ map s_depth t' = map s_depth trace
       /\ map s_gasCost t' = map s_gasCost trace).
Proof.
  intros Hraw Htr Htyped Hca trace final.
  enough (Hrun : forall r, r = _expand_trace E self w ->
            let lz := lazy (heap (snd r) self) in
            exists t', _trace lz = Some t' /\
    (s_depth first = 1 -> forall g, gas_used (heap w self) = Some g ->
       _trace_origin lz = Some "geth"%string /\ _call_cost lz = g - s_gas first + s_gas final
       /\ map s_depth t' = map (fun st => s_depth st - 1) trace
       /\ map s_gasCost t' = map s_gasCost trace) /\
    (s_depth first <> 1 -> 21000 <= s_gasCost first ->
       _trace_origin lz = Some "ganache"%string /\ _call_cost lz = s_gasCost first
       /\ map s_depth t' = map s_depth trace
       /\ map s_gasCost t' = map s_gasCost rest ++ [0]) /\
    (s_depth first <> 1 -> s_gasCost first < 21000 ->
     forall g, gas_used (heap w self) = Some g ->
       _trace_origin lz = Some "ganache"%string /\ _call_cost lz = g - s_gas first + s_gas final
       /\ map s_depth t' = map s_depth trace
       /\ map s_gasCost t' = map s_gasCost trace)) by exact (Hrun _ eq_refl).
  subst trace final. intros r Hr. unfold _expand_trace in Hr.
  unfold bind at 1 in Hr. unfold getattr at 1 in Hr. unfold gets at 1 in Hr. rewrite Hraw in Hr.
  cbn beta iota delta [is_Some_b negb when] in Hr. unfold bind at 1 in Hr. unfold ret at 1 in Hr.
  unfold bind at 1 in Hr. unfold getattr at 1 in Hr. unfold gets at 1 in Hr. rewrite Htr in Hr.
  unfold bind at 1 in Hr. unfold getattr at 1 in Hr. unfold gets at 1 in Hr. rewrite Hraw in Hr.
  unfold bind at 1 in Hr. unfold lift at 1 in Hr. rewrite Htyped in Hr.
  unfold bind at 1 in Hr. unfold setattr at 1 in Hr. unfold modify at 1 in Hr.
  unfold bind at 1 in Hr. unfold getattr at 1 in Hr. unfold gets at 1 in Hr.
  cbn beta iota delta [heap set_heap] in Hr. rewrite Nat.eqb_refl in Hr.
  cbn beta iota delta [contract_address with_lazy set_lazy] in Hr. rewrite Hca in Hr.
  cbn beta iota delta [nonempty orb negb] in Hr.
  match type of Hr with context [set_heap ?h w] => set (w1 := set_heap h w) in Hr end.
  assert (Hused : gas_used (heap w1 self) = gas_used (heap w self)).
  { unfold w1. cbn. rewrite Nat.eqb_refl. reflexivity. }
  assert (Htr1 : _trace (lazy (heap w1 self)) = Some (first :: rest)).
  { unfold w1. cbn. rewrite Nat.eqb_refl. reflexivity. }
  clearbody w1.
  unfold bind at 1 in Hr. unfold lift at 1 in Hr.
  change (py_nth (first :: rest) 0) with (Val first) in Hr. cbv iota beta in Hr.
  unfold bind at 1 in Hr. unfold lift at 1 in Hr. rewrite py_nth_final in Hr. cbv iota beta in Hr.
  unfold bind at 1 in Hr. unfold getattr at 1 in Hr. unfold gets at 1 in Hr. rewrite Hused in Hr.
  destruct (s_depth first =? 1) eqn:Hd.
  - apply Z.eqb_eq in Hd.
    destruct (gas_used (heap w self)) as [g|].
    + set (c := g - s_gas first + s_gas (List.last (first :: rest) first)).
      set (tr2 := map (fun t => set_s_depth (s_depth t - 1) t) (first :: rest)).
      set (w3 := snd ((setattr self (with_lazy (set__trace_origin (Some "geth"%string))) ;;
                       setattr self (with_lazy (set__call_cost c))) w1)).
      destruct (expand_tail E self tr2 w3) as ((t' & Ht' & Hb) & Hcc & Hor).
      assert (Hc3 : _call_cost (lazy (heap w3 self)) = c
                    /\ _trace_origin (lazy (heap w3 self)) = Some "geth"%string).
      { unfold w3. unfold_monad. cbn. rewrite !Nat.eqb_refl. split; reflexivity. }
      destruct Hc3 as (Hc3 & Ho3).
      subst r. intros lz. exists t'. split; [exact Ht'|]. split; [|split; intros; lia].
      intros _ g' Hg'. injection Hg' as <-.
      split; [exact (eq_trans Hor Ho3)|]. split; [exact (eq_trans Hcc Hc3)|].
      split.
      * rewrite (map_bare_field s_depth _ _ (fun st => eq_refl) Hb).
        unfold tr2. rewrite map_map. reflexivity.
      * rewrite (map_bare_field s_gasCost _ _ (fun st => eq_refl) Hb).
        unfold tr2. rewrite map_map. reflexivity.
    + subst r. intros lz. exists (first :: rest). split.
      * unfold lz. unfold_monad. cbn. rewrite Nat.eqb_refl. exact Htr1.
      * split; [intros _ g' Hg'; discriminate|]. split; intros; lia.
  - apply Z.eqb_neq in Hd. destruct (21000 <=? s_gasCost first) eqn:Hcost.
    + apply Z.leb_le in Hcost.
      set (tr2 := shift_gas_costs (first :: rest)).
      set (w3 := snd ((setattr self (with_lazy (set__trace_origin (Some "ganache"%string))) ;;
                       setattr self (with_lazy (set__call_cost (s_gasCost first)))) w1)).
      destruct (expand_tail E self tr2 w3) as ((t' & Ht' & Hb) & Hcc & Hor).
      assert (Hc3 : _call_cost (lazy (heap w3 self)) = s_gasCost first
                    /\ _trace_origin (lazy (heap w3 self)) = Some "ganache"%string).
      { unfold w3. unfold_monad. cbn. rewrite !Nat.eqb_refl. split; reflexivity. }
      destruct Hc3 as (Hc3 & Ho3).
      subst r. intros lz. exists t'. split; [exact Ht'|]. split; [intros; lia|]. split; [|intros; lia].
      intros _ _.
      split; [exact (eq_trans Hor Ho3)|]. split; [exact (eq_trans Hcc Hc3)|].
      split.
      * rewrite (map_bare_field s_depth _ _ (fun st => eq_refl) Hb).
        apply shift_gas_costs_bare_depth.
      * rewrite (map_bare_field s_gasCost _ _ (fun st => eq_refl) Hb).
        apply shift_gas_costs_costs.
    + apply Z.leb_gt in Hcost.
      destruct (gas_used (heap w self)) as [g|].
      * set (c := g - s_gas first + s_gas (List.last (first :: rest) first)).
        set (w3 := snd ((setattr self (with_lazy (set__trace_origin (Some "ganache"%string))) ;;
                         setattr self (with_lazy (set__call_cost c))) w1)).
        destruct (expand_tail E self (first :: rest) w3) as ((t' & Ht' & Hb) & Hcc & Hor).
        assert (Hc3 : _call_cost (lazy (heap w3 self)) = c
                      /\ _trace_origin (lazy (heap w3 self)) = Some "ganache"%string).
        { unfold w3. unfold_monad. cbn. rewrite !Nat.eqb_refl. split; reflexivity. }
        destruct Hc3 as (Hc3 & Ho3).
        subst r. intros lz. exists t'. split; [exact Ht'|]. split; [intros; lia|]. split; [intros; lia|].
        intros _ _ g' Hg'. injection Hg' as <-.
        split; [exact (eq_trans Hor Ho3)|]. split; [exact (eq_trans Hcc Hc3)|].
        split.
        -- exact (map_bare_field s_depth _ _ (fun st => eq_refl) Hb).
        -- exact (map_bare_field s_gasCost _ _ (fun st => eq_refl) Hb).
      * subst r. intros lz. exists (first :: rest). split.
        -- unfold lz. unfold_monad. cbn. rewrite Nat.eqb_refl. exact Htr1.
        -- split; [intros; lia|]. split; [intros; lia|]. intros _ _ g' Hg'. discriminate.
Qed.

Lemma expand_trace_origin_witness :
  let lz := lazy (heap (snd (_expand_trace (sample_env (fun _ => tracing_view [])) 0
                               fetched_world)) 0) in
  _trace_origin lz = Some "ganache"%string /\ _call_cost lz = 21464.
Proof.
  destruct (expand_trace_origin (sample_env (fun _ => tracing_view [])) 0 fetched_world
              old_ganache_trace _ _ eq_refl eq_refl eq_refl eq_refl)
    as (t' & _ & _ & H & _).
  destruct H as (Ho & Hc & _); [cbn; lia|cbn; lia|].
  split; assumption.
Defined.

(** ** A walk that returns has visited every step *)

Section KeepsAnnotations.

Lemma no_less_annotated_refl (tr : list step) : no_less_annotated tr tr.
Proof. split; [reflexivity|]. intros j st Hl Ha. eauto. Qed.

Lemma no_less_annotated_trans (t1 t2 t3 : list step) :
  no_less_annotated t1 t2 -> no_less_annotated t2 t3 -> no_less_annotated t1 t3.
Proof.
  intros [Hl1 H1] [Hl2 H2]. split; [congruence|].
  intros j st Hl Ha. destruct (H1 j st Hl Ha) as (st' & Hl' & Ha'). eauto.
Qed.

Lemma ka_frames {A} (m : M xstate A) : frames m -> keeps_annotations m.
Proof. intros Hm x. destruct (Hm x) as [_ ->]. apply no_less_annotated_refl. Qed.

Lemma ka_bind {A B} (m : M xstate A) (k : A -> M xstate B) :
  keeps_annotations m -> (forall a, keeps_annotations (k a)) -> keeps_annotations (bind m k).
Proof.
  intros Hm Hk x. unfold bind. specialize (Hm x).
  destruct (m x) as [[a|e] x1]; simpl in *; [|exact Hm].
  eapply no_less_annotated_trans; [exact Hm | apply Hk].
Qed.

Lemma ka_when (b : bool) (m : M xstate unit) :
  keeps_annotations m -> keeps_annotations (when b m).
Proof. intros Hm. destruct b; [exact Hm | intros x; apply no_less_annotated_refl]. Qed.

Lemma ka_update_step (i : Z) (f : step -> step) :
  (forall st, annotated st -> annotated (f st)) -> keeps_annotations (update_step i f).
Proof.
  intros Hf x. unfold update_step, modify. simpl. split; [apply length_alter|].
  intros j st Hl Ha. destruct (decide (Z.to_nat i = j)) as [<-|Hne].
  - exists (f st). rewrite list_lookup_alter_eq, Hl. split; [reflexivity|auto].
  - exists st. rewrite list_lookup_alter_ne by exact Hne. auto.
Qed.

Lemma ka_update_context (d : Z) (f : context -> context) :
  keeps_annotations (update_context d f).
Proof. intros x. apply no_less_annotated_refl. Qed.

Lemma ka_for_in {A} (body : A -> M xstate unit) (l : list A) :
  (forall a, keeps_annotations (body a)) -> keeps_annotations (for_in l body).
Proof.
  intros Hb. induction l as [|a l IH]; simpl; [intros x; apply no_less_annotated_refl|].
  apply ka_bind; [apply Hb | intros _; exact IH].
Qed.

Lemma annotated_annotate (last : context) (fn_name : string) (st : step) :
  annotated (annotate last fn_name st).
Proof. discriminate. Qed.

Lemma annotated_set_source (loc : source_loc) (st : step) :
  annotated st -> annotated (set_source loc st).
Proof. unfold annotated, set_source. cbn. destruct (s_ann st); [discriminate|congruence]. Qed.

End KeepsAnnotations.

Create HintDb kept.
#[export] Hint Resolve ka_update_context : kept.
#[export] Hint Extern 1 (keeps_annotations _) =>
  (apply ka_frames; solve [auto with frames]) : kept.

Ltac kept_tac :=
  cbv zeta;
  repeat first
    [ progress auto with kept
    | apply ka_bind; [|intros]
    | apply ka_when
    | match goal with
      | |- keeps_annotations (if ?b then _ else _) => destruct b
      | |- keeps_annotations (match ?x with _ => _ end) => destruct x
      | |- keeps_annotations (let '(_, _) := ?x in _) => destruct x
      end ].

Section AnnotatedWalk.

Variable R : registry.

Lemma ka_open_context (d : Z) (addr sig : string) :
  keeps_annotations (open_context R d addr sig).
Proof.
  intros x. unfold open_context, bind, lift, modify.
  destruct (_get_last_map R addr sig); apply no_less_annotated_refl.
Qed.

Lemma ka_enter_call (i : Z) (ti st : step) (b1 b2 : bool) :
  keeps_annotations (enter_call R i ti st b1 b2).
Proof.
  unfold enter_call. pose proof ka_open_context. kept_tac.
  all: apply ka_frames; frames_tac.
Qed.

(** What [visit_step] does once the step has its keys. *)
Lemma ka_visit_rest (i : Z) (ti : step) (last : context) :
  (forall loc, keeps_annotations (update_step i (set_source loc))) ->
  (forall pc path, keeps_annotations (record_coverage i ti last pc path)) ->
  (forall pc, keeps_annotations (track_jumps i ti last pc)) ->
  keeps_annotations
    (when (string_eqb (s_op ti) "CALL")
       (let* v := lift (py_nth (s_stack ti) (-3)) in
        let* vz := lift (py_int16 v) in
        when (negb (vz =? 0))
          (let* to := lift (py_nth (s_stack ti) (-2)) in
           _add_internal_xfer R (c_address last) (py_suffix 40 to) v)) ;;
     record_returndata ti last ;;
     match pc_lookup last (s_pc ti) with
     | None => ret tt
     | Some pc =>
         record_outcome R ti last pc ;;
         match pe_path pc with
         | None => ret tt
         | Some path =>
             let* file :=
               match c_path_map last with
               | None => raise TypeError
               | Some pm => match pm path with
                            | Some f => ret f
                            | None => raise KeyError
                            end
               end in
             update_step i (set_source {| filename := file; offset := pe_offset pc |}) ;;
             match pe_fn pc with
             | None => ret tt
             | Some _ =>
                 record_coverage i ti last pc path ;;
                 track_jumps i ti last pc
             end
         end
     end).
Proof. intros Hs Hc Hj. kept_tac. Qed.

Lemma ka_set_source (i : Z) (loc : source_loc) :
  keeps_annotations (update_step i (set_source loc)).
Proof. apply ka_update_step. intros st. apply annotated_set_source. Qed.

Lemma ka_record_coverage (i : Z) (ti : step) (last : context) (pc : pc_entry) (path : string) :
  keeps_annotations (record_coverage i ti last pc path).
Proof. unfold record_coverage. kept_tac. Qed.

Lemma ka_track_jumps (i : Z) (ti : step) (last : context) (pc : pc_entry) :
  keeps_annotations (track_jumps i ti last pc).
Proof. unfold track_jumps. kept_tac. Qed.

Lemma ka_visit_step (i : Z) (ti : step) (last : context) :
  keeps_annotations (visit_step R i ti last).
Proof.
  unfold visit_step. apply ka_bind; [apply ka_frames; frames_tac|]. intros fn_name.
  apply ka_bind.
  - apply ka_update_step. intros st _. apply annotated_annotate.
  - intros _. apply ka_visit_rest;
      [apply ka_set_source | apply ka_record_coverage | apply ka_track_jumps].
Qed.

Lemma ka_expand_step (i : Z) : keeps_annotations (expand_step R i).
Proof.
  unfold expand_step. pose proof ka_enter_call. pose proof ka_visit_step. kept_tac.
Qed.

Lemma as_bind_now {A B} (i : nat) (m : M xstate A) (k : A -> M xstate B) :
  annotates_step i m -> (forall a, keeps_annotations (k a)) -> annotates_step i (bind m k).
Proof.
  intros Hm Hk x b x' Hi H. unfold bind in H.
  destruct (m x) as [[a|e] x1] eqn:Hrun; [|discriminate].
  destruct (Hm x a x1 Hi Hrun) as (st & Hl & Ha).
  pose proof (Hk a x1) as [_ Hkeep]. rewrite H in Hkeep. exact (Hkeep i st Hl Ha).
Qed.

Lemma as_bind_later {A B} (i : nat) (m : M xstate A) (k : A -> M xstate B) :
  keeps_annotations m -> (forall a, annotates_step i (k a)) -> annotates_step i (bind m k).
Proof.
  intros Hm Hk x b x' Hi H. unfold bind in H.
  pose proof (Hm x) as [Hlen _].
  destruct (m x) as [[a|e] x1] eqn:Hrun; [|discriminate]. cbn in Hlen.
  apply (Hk a x1 b x'); [lia|exact H].
Qed.

Lemma as_annotate (i : nat) (last : context) (fn_name : string) :
  annotates_step i (update_step (Z.of_nat i) (annotate last fn_name)).
Proof.
  intros x a x' Hi H. unfold update_step, modify in H. injection H as _ <-. cbn.
  rewrite Nat2Z.id. destruct (lookup_lt_is_Some_2 (x_trace x) i Hi) as [st Hst].
  exists (annotate last fn_name st). rewrite list_lookup_alter_eq, Hst.
  split; [reflexivity|apply annotated_annotate].
Qed.

Lemma as_visit_step (i : nat) (ti : step) (last : context) :
  annotates_step i (visit_step R (Z.of_nat i) ti last).
Proof.
  unfold visit_step. apply as_bind_later; [apply ka_frames; frames_tac|]. intros fn_name.
  apply as_bind_now; [apply as_annotate|].
  intros _. apply ka_visit_rest;
    [apply ka_set_source | apply ka_record_coverage | apply ka_track_jumps].
Qed.

Lemma as_expand_step (i : nat) : annotates_step i (expand_step R (Z.of_nat i)).
Proof.
  unfold expand_step.
  apply as_bind_later; [apply ka_frames; frames_tac|]. intros ti.
  apply as_bind_later; [apply ka_frames; frames_tac|]. intros prev. cbv zeta.
  apply as_bind_later; [apply ka_when, ka_enter_call|]. intros _.
  apply as_bind_later; [apply ka_frames; frames_tac|]. intros lm.
  apply as_bind_later; [destruct (lm !! s_depth ti); apply ka_frames; frames_tac|].
  intros last. apply as_visit_step.
Qed.

(** A loop over indices of the trace that returns has annotated the step
    at each of them. *)
Lemma for_in_annotates (l : list nat) : forall x x',
  for_in (map Z.of_nat l) (expand_step R) x = (Val tt, x') ->
  (forall i, In i l -> (i < length (x_trace x))%nat) ->
  forall i, In i l -> exists st, x_trace x' !! i = Some st /\ annotated st.
Proof.
  induction l as [|a l IH]; intros x x' Hrun Hin i Hi; [destruct Hi|].
  cbn [map for_in] in Hrun. unfold bind in Hrun.
  pose proof (ka_expand_step (Z.of_nat a) x) as [Hlen _].
  destruct (expand_step R (Z.of_nat a) x) as [[[]|e] x1] eqn:Hstep; [|discriminate].
  cbn in Hlen.
  destruct (List.in_dec Nat.eq_dec i l) as [Hl|Hl].
  - apply (IH x1 x' Hrun); [|exact Hl]. intros j Hj. rewrite Hlen. apply Hin. now right.
  - destruct Hi as [<-|Hi]; [|contradiction].
    destruct (as_expand_step a x tt x1 (Hin a (or_introl eq_refl)) Hstep) as (st & Hst & Ha).
    pose proof (ka_for_in (expand_step R) (map Z.of_nat l) ka_expand_step x1) as [_ Hkeep].
    rewrite Hrun in Hkeep. exact (Hkeep a st Hst Ha).
Qed.

End AnnotatedWalk.

Lemma seqZ_of_nat (n : nat) : seqZ 0 (Z.of_nat n) = map Z.of_nat (seq 0 n).
Proof.
  unfold seqZ. rewrite Nat2Z.id. apply map_ext. intros i. lia.
Qed.

(** X21.  When the walk of [_expand_trace] returns, it has visited every
    step: each step of the trace it leaves has the keys [address],
    [contractName], [fn], [jumpDepth] and [source], so that reading
    [address] or [jumpDepth] of a step raises no [KeyError]; the trace has
    the length it had.  (A walk that raises leaves the steps from the
    failing one on without these keys.) *)
Theorem finished_walk_annotates (R : registry) (x : xstate) :
  fst (expand_loop R x) = Val tt ->
  let tr' := x_trace (snd (expand_loop R x)) in
  length tr' = length (x_trace x)
  /\ forall i st, tr' !! i = Some st ->
       annotated st
       /\ (exists a, step_address st = Val a) /\ (exists j, step_jumpDepth st = Val j).
Proof.
  intros Hret. cbv zeta.
  assert (Hlen : length (x_trace (snd (expand_loop R x))) = length (x_trace x)).
  { rewrite <- (length_map bare), expand_loop_bare. apply length_map. }
  split; [exact Hlen|].
  intros i st Hst.
  assert (Ha : annotated st).
  { pose proof (lookup_lt_Some _ _ _ Hst) as Hi. rewrite Hlen in Hi.
    unfold expand_loop, bind, gets in Hret, Hst. cbn in Hret, Hst.
    rewrite seqZ_of_nat in Hret, Hst.
    destruct (for_in (map Z.of_nat (seq 0 (length (x_trace x)))) (expand_step R) x)
      as [[[]|e] x'] eqn:Hrun; [|discriminate].
    cbn in Hst.
    destruct (for_in_annotates R (seq 0 (length (x_trace x))) x x' Hrun) with (i := i)
      as (st' & Hst' & Ha).
    - intros j Hj. apply in_seq in Hj. lia.
    - apply in_seq. lia.
    - congruence. }
  split; [exact Ha|].
  unfold annotated in Ha. unfold step_address, step_jumpDepth.
  destruct (s_ann st) as [a|]; [eauto|congruence].
Qed.

Lemma finished_walk_annotates_witness :
  Forall annotated
    (x_trace (snd (expand_loop token_registry (initial_walk jump_trace token_context)))).
Proof.
  apply List.Forall_forall. intros st Hin.
  apply list_elem_of_In, list_elem_of_lookup_1 in Hin. destruct Hin as [i Hi].
  refine (proj1 (proj2 (finished_walk_annotates token_registry
                          (initial_walk jump_trace token_context) _) i st Hi)).
  vm_compute. reflexivity.
Defined.
